(* ===== verification/_CoqProject ===== *)
-Q . S2P
Prelude.v
Decimal.v
Models.v
Samples.v
Text.v
MarketData.v
Sma.v
StrategySpec.v
StrategySemantics.v
StrategyCompiler.v
Serialization.v
Engine.v
EngineInvariant.v
EngineSafety.v
EngineLedger.v
EngineAccounting.v
EngineCausality.v
Metrics.v
Benchmark.v
Performance.v
Preview.v
SmaBacktest.v
Uuid.v
Regex.v
StrategyText.v
Config.v
Parser.v
Auth.v
Csv.v
Timestamps.v
JsonText.v
Logging.v
Effects.v
Rely.v
Database.v
Session.v
Operations.v
MarketImport.v
StrategyApi.v
Responses.v
PreviewQueue.v
JobStore.v
JobRules.v
PreviewJobService.v
Reconciliation.v
Worker.v
JobApi.v
Recovery.v
Commands.v
Integrity.v
System.v
Exclusion.v
Journal.v
Api.v
