(* ===== verification/Prelude.v ===== *)
(** * Agentic Trading Platform: verification library

    A Rocq model of the Python backend of the platform ([backend/app/]) and the
    theorems that make it correct.  A user writes a trading strategy in plain
    language; the backend has a language model propose a draft, normalizes it
    deterministically into a specification, compiles the specification into
    signals on stored daily bars, executes them with decimal arithmetic,
    measures the result, and shows it for confirmation.  The work is done by a
    queue of durable jobs that survive crashes of the API, of the worker and of
    both services they use.

    ** How the program's parts interact

    [api/routes/strategies.py] submits a preview: [preview_job_service.submit_preview_job]
    stores a row of [preview_jobs] under an advisory lock and enqueues its
    identifier with RQ.  The worker ([workers/preview_worker.py]) takes the same
    lock, claims the row and runs [run_preview_job]: the parser
    ([strategy_parser.py] after the text gate of [strategy_semantics.py]), then
    [strategy_preview.create_preview], which compiles
    ([strategy_compiler.py]), loads the bars ([backtesting/market_data.py]),
    executes ([backtesting/engine.py]) and measures ([backtesting/metrics.py]);
    the document is serialized into the row.  The browser polls
    [api/routes/jobs.py].  [preview_reconciliation.py] recovers rows whose queue
    entry was lost when the worker process starts.  [scripts/import_market_csv.py]
    fills the table of bars.

    ** The files

    - Foundations: this file (exceptions as [exn], fallible code as [result],
      loops that may raise, tactics, list lemmas), [Decimal] (decimal's context
      of 28 digits), [Text] (strings, printing and reading of numbers), [Regex]
      (backtracking matcher and its declarative meaning), [JsonText]
      ([json.dumps] and a reader), [Csv] ([csv.DictReader],
      [date.fromisoformat]), [Timestamps] ([isoformat] read back), [Uuid].
    - Backtesting: [Models] and [Samples] ([backtesting/models.py] and example
      bars), [MarketData], [Sma], [StrategyCompiler], [Engine] (the definitions)
      with [EngineInvariant], [EngineSafety], [EngineLedger],
      [EngineAccounting], [EngineCausality] (its theorems), [Metrics],
      [Benchmark], [Performance], [Preview] ([strategy_preview.py] and
      [serialize_preview]), [SmaBacktest] ([scripts/run_sma_backtest.py]).
    - Strategies as data: [StrategySpec] and [StrategySemantics] (what is a
      supported specification), [Serialization] ([model_dump] and the
      interpretation), [StrategyText] (the analysis of the user's text),
      [Parser] ([strategy_parser.py]), [Responses] (the pydantic models that
      read documents back).
    - Effects: [Effects] (a world with a job table that other sessions change,
      faults, a queue, locks, a clock and a log, and its weakest preconditions),
      [Rely]
      (the rules of rely and guarantee that its analyses share), [Database] (one
      session on one table, with faults).
    - Jobs: [JobStore] ([job_store.py], with the lifecycle relation on the
      fields of a row as its abstract specification), [JobRules] (the rules of a
      session that holds a job's lock, and that the whole store follows the
      lifecycle), [PreviewQueue], [PreviewJobService], [Reconciliation],
      [Worker], [JobApi] (the endpoints, and the whole path), [Recovery] (a
      whole pass as a function, and what follows a crash).
    - The system: [Integrity] (what a row may hold, and the moves of one
      transaction), [System] (every handler as a step on one table and one
      queue), [Exclusion] (what a job's lock excludes), [Journal] (what the
      handlers log), [Api] (the routes, and the way of a request to its
      handler).
    - Around them: [Auth], [StrategyApi] (saved strategies), [MarketImport],
      [Config] ([core/config.py]), [Session] ([db/session.py]), [Operations]
      (dependency checks, startup and shutdown of both processes), [Logging],
      [Commands] (the two small commands).

    A definition has the name of the function it models; where a Python function
    is long, its parts are definitions of their own, named after what they do.
    Objects that Python mutates in place (the loop variables of the engine, the
    lists of defaults and of ignored signals, ORM rows) are threaded through the
    functions in the order of the mutations.

    ** What the theorems show

    - The engine: trades are genuine and never overlap, the books balance to the
      unit, signals never act before the next bar's open, it raises nothing but
      its documented errors, and it refines an abstract ledger of three kinds of
      step ([EngineSafety], [EngineAccounting], [EngineCausality],
      [EngineLedger]).  Signals are exactly the bars where a condition holds of
      its operands' values, a BUY for the entry and a SELL for the exit,
      and a compiled crossover equals the hand-written one ([StrategyCompiler]).
      Metrics lie where they should ([Metrics], [Performance]).
    - The pipeline: a preview of stored data is exactly the run on exactly the
      stored bars ([Preview], [SmaBacktest]); its document reads back
      ([Responses]); from submission to poll, the browser gets it ([JobApi]).
    - The jobs: rows move only along the lifecycle under every interleaving and
      fault, and terminal rows never ([JobRules]); no two first attempts claim a
      job ([JobStore]); submission persists before it enqueues, and a run ends
      its job exactly as the class of its failure prescribes
      ([PreviewJobService]); a job that nothing disturbs is settled after its
      last retry ([Worker]); reconciliation hands over no job twice and none
      that the queue shows as active, and counts exactly what it logs
      ([Reconciliation]); an undisturbed pass equals a reference that judges each
      job by its row, and after a crash every abandoned job is failed or handed
      over again to be settled within its attempts ([Recovery]).
    - The system: in every reachable state, without any assumption on locks, a
      poll shows only a preview genuinely computed from the user's own text or
      a message that is safe to show ([System]); handlers of other jobs, and
      those that are denied the lock, leave a job's row alone, which is what a
      lock holder relies on ([Exclusion]); whatever fails, every log record
      follows one schema, and its line shows exactly its fields ([Journal]);
      a body that does not decode is refused before authentication, without a
      vouched token no route has an effect, and no two routes compete for a
      request ([Api]).
    - The text: the draft determines the strategy and every default and
      assumption is listed ([Parser]); risk controls are exactly what the text
      states unanimously ([StrategyText]).
    - The boundary: who is authenticated ([Auth]), that users are isolated and
      what every request does to the fields of a row ([StrategyApi]), what a
      file's rows become, all-or-nothing and idempotent imports
      ([MarketImport]), TLS and bounded pools ([Session]), the order of
      startup and shutdown ([Operations]), log lines ([Logging]).

    ** Fuel, bounds and numbers

    No theorem is conditional on fuel.  Digit printing recurses on the bit
    length of the number; the polling of a lock on [acquire_fuel], one more
    than the answers left in the world, which its theorem proves enough; the
    batches of an import on the number of rows; a repetition of a regular
    expression on the characters left, enough because every round must consume
    one; the JSON reader on the length of the text, which the round trip proves
    enough.  Integers are
    unbounded as in Python; identifiers have 128 bits and the lock keys 32 bits
    with their wrap-around; Numeric(18, 8) columns are checked.  Decimals have
    28 digits and round half to even; their exponents are not bounded.

    ** Assumptions, all stated as hypotheses or parameters

    - Other sessions honour the advisory locks and the lifecycle ([respects],
      [holds]) where a theorem says so; the handlers that change a job's row
      without its lock, and so fall outside [holds], are the failure callback,
      the cleanup and the worker's last resort after an unexpected error.  The
      theorems of [System] assume only that others make the same moves.  The
      database raises database errors only, and a failed call took
      effect only when its connection was lost during the commit ([fault_ok]).
    - The market-data import and the strategy routes are run one session at a
      time ([Database]); the jobs are not.
    - An advisory lock belongs to a database connection, and a session gives its
      connection back to the pool at every commit and rollback.  Whether the
      release of a lock reaches the connection that holds it is an input of a
      run ([w_unlocks]): theorems that say a lock is given back say so for
      releases that reach it, and [leaked_submission_lock] shows one that does
      not.  That a lock outlives the commits of its job, which a pool that
      closes the connection meanwhile would break, is part of [holds].
    - The theorems on jobs that end as they should assume an undisturbed job
      ([ready]): no fault, a free lock, an unshared pool, and other sessions that
      leave its row alone.
    - The OpenAI client, the HTTP client, RQ, decimal's power function,
      PostgreSQL's rounding of numeric columns and pydantic's readers of single
      values are parameters; laws are stated only where a theorem needs them,
      and each such theorem has an instance that satisfies them.  RQ is a class
      ([TaskQueue]) whose laws say that it calls the failure callback with the
      retries left, and runs the task again while there are any; what a scan of
      its registries answers may depend on what was enqueued before ([sees]).
      The HTTP client encodes header values as ASCII and otherwise raises
      HTTPError only.
    - FastAPI finds a route (a class with laws) and decodes the body of a request
      before it resolves the dependencies of the handler: JSON that does not
      parse is 422, a body that cannot be read 400.
    - A string is a sequence of 8-bit characters, and [\d], [\s], [strip] and
      the letter cases are those of ASCII.  JSONB columns keep a document as it
      was written; it is read by key.

    ** What is not modelled

    The durations of the dependency checks and the text of tracebacks; argparse,
    FastAPI itself beyond what is assumed above, SQLAlchemy's declarative base; the reading of
    [.env]; the frontend, the SQL migrations, containers and tests. *)

From Stdlib Require Import ZArith Lia Sorted.
From stdpp Require Import base list option strings gmap.

(** ** Exceptions

    One constructor per exception class that the modelled code raises or
    names in an [except] clause; a message is kept where the code builds one. *)
Inductive exn : Type :=
  | ValueError (msg : string)
  | RuntimeError (msg : string)
  | IndexError
  | KeyError
  | AssertionError
  (* pydantic.ValidationError, a subclass of ValueError *)
  | ValidationError
  (* decimal.DecimalException and its trapped signals *)
  | DivisionByZero
  | InvalidOperation
  (* app.services.strategy_semantics, app.backtesting.strategy_compiler,
     app.services.strategy_preview: subclasses of ValueError *)
  | StrategyValidationError (msg : string)
  | StrategyCompilationError (msg : string)
  | MarketDataUnavailableError (msg : string)
  (* app.services.strategy_parser: RuntimeError subclasses *)
  | StrategyParserError (msg : string)
  | StrategyProviderError (msg : string)
  | StrategyProviderRefusalError (msg : string)
  | StrategyProviderTimeoutError (msg : string)
  | StrategyMalformedOutputError (msg : string)
  (* app.services.preview_job_service *)
  | TransientPreviewJobError
  (* sqlalchemy.exc *)
  | OperationalError
  | SQLAlchemyTimeoutError
  | DisconnectionError
  (* fastapi *)
  | HTTPException (status_code : Z) (detail : string)
  | OtherException (name : string).

#[global] Instance exn_eq_dec : EqDecision exn.
Proof. solve_decision. Defined.

(** ** Results of code that may raise *)
Inductive result (A : Type) : Type :=
  | Ok (a : A)
  | Err (e : exn).
Arguments Ok {A} a.
Arguments Err {A} e.

#[global] Instance result_ret : MRet result := λ A a, Ok a.
#[global] Instance result_bind : MBind result := λ A B f m,
  match m with Ok a => f a | Err e => Err e end.
#[global] Instance result_fmap : FMap result := λ A B f m,
  match m with Ok a => Ok (f a) | Err e => Err e end.

Definition is_ok {A} (m : result A) : bool :=
  match m with Ok _ => true | Err _ => false end.

(** [if cond: raise e] *)
Definition raise_if (cond : bool) (e : exn) : result unit :=
  if cond then Err e else Ok ().

(** A [for] loop whose body may raise. *)
Fixpoint foldM {S A} (f : S → A → result S) (s : S) (l : list A) : result S :=
  match l with
  | [] => Ok s
  | a :: l => s' ← f s a; foldM f s' l
  end.

(** A list comprehension whose element expression may raise. *)
Fixpoint mapM_result {A B} (f : A → result B) (l : list A) : result (list B) :=
  match l with
  | [] => Ok []
  | a :: l => b ← f a; bs ← mapM_result f l; Ok (b :: bs)
  end.

(** Python's [l[i]] for a nonnegative index. *)
Definition py_index {A} (l : list A) (i : nat) : result A :=
  match l !! i with Some a => Ok a | None => Err IndexError end.

(** Python's [l[-1]]. *)
Definition py_last {A} (l : list A) : result A :=
  match last l with Some a => Ok a | None => Err IndexError end.

(** Python's [enumerate(l)], from a start index. *)
Fixpoint enumerate_from {A} (i : nat) (l : list A) : list (nat * A) :=
  match l with [] => [] | a :: l => (i, a) :: enumerate_from (S i) l end.
Definition enumerate {A} (l : list A) : list (nat * A) := enumerate_from 0 l.

(** ** Lemmas on results *)
Lemma bind_Ok_inv {A B} (m : result A) (f : A → result B) (b : B) :
  m ≫= f = Ok b → ∃ a, m = Ok a ∧ f a = Ok b.
Proof. destruct m; simpl; [eauto | discriminate]. Qed.

Lemma bind_Ok {A B} (a : A) (f : A → result B) : Ok a ≫= f = f a.
Proof. reflexivity. Qed.

Lemma bind_Err_inv {A B} (m : result A) (f : A → result B) (e : exn) :
  m ≫= f = Err e → m = Err e ∨ ∃ a, m = Ok a ∧ f a = Err e.
Proof. destruct m as [a|e']; simpl; intros H; [right; eauto | left; congruence]. Qed.

Lemma bind_assoc {A B C} (m : result A) (f : A → result B) (g : B → result C) :
  (m ≫= f) ≫= g = m ≫= (λ a, f a ≫= g).
Proof. by destruct m. Qed.

Lemma raise_if_Ok (c : bool) (e : exn) (u : unit) :
  raise_if c e = Ok u → c = false.
Proof. by destruct c. Qed.

Lemma raise_if_Err (c : bool) (e e' : exn) :
  raise_if c e = Err e' → c = true ∧ e' = e.
Proof. destruct c; simpl; [intros [= ->]; auto | discriminate]. Qed.

(** ** Tactics *)

(** Split every hypothesis that says a sequence of calls succeeded. *)
Ltac bind_inv :=
  repeat match goal with
  | H : mbind _ _ = Ok _ |- _ =>
      let a := fresh "r" in let Ha := fresh "Hr" in
      apply bind_Ok_inv in H as (a & Ha & H)
  | H : raise_if _ _ = Ok _ |- _ => apply raise_if_Ok in H
  | H : Ok _ = Ok _ |- _ => injection H as H; try subst
  | H : Err _ = Ok _ |- _ => discriminate H
  | H : Ok _ = Err _ |- _ => discriminate H
  end.

(** Destruct the scrutinee of the outermost match of the goal or a hypothesis. *)
Ltac case_goal :=
  match goal with
  | |- context [match ?x with _ => _ end] => destruct x eqn:?
  end.
Ltac case_in H :=
  match type of H with
  | context [match ?x with _ => _ end] => destruct x eqn:?
  end.

(** Turn boolean tests into propositions about integers. *)
Ltac propify_bool :=
  repeat match goal with
  | H : (_ && _) = true |- _ => apply andb_true_iff in H as [? ?]
  | H : (_ || _) = false |- _ => apply orb_false_iff in H as [? ?]
  | H : negb _ = true |- _ => apply negb_true_iff in H
  | H : negb _ = false |- _ => apply negb_false_iff in H
  | H : (_ =? _)%Z = true |- _ => apply Z.eqb_eq in H
  | H : (_ =? _)%Z = false |- _ => apply Z.eqb_neq in H
  | H : (_ <=? _)%Z = true |- _ => apply Z.leb_le in H
  | H : (_ <=? _)%Z = false |- _ => apply Z.leb_gt in H
  | H : (_ <? _)%Z = true |- _ => apply Z.ltb_lt in H
  | H : (_ <? _)%Z = false |- _ => apply Z.ltb_ge in H
  | H : (_ =? _)%nat = true |- _ => apply Nat.eqb_eq in H
  | H : (_ =? _)%nat = false |- _ => apply Nat.eqb_neq in H
  | H : (_ <=? _)%nat = true |- _ => apply Nat.leb_le in H
  | H : (_ <=? _)%nat = false |- _ => apply Nat.leb_gt in H
  | H : (_ <? _)%nat = true |- _ => apply Nat.ltb_lt in H
  | H : (_ <? _)%nat = false |- _ => apply Nat.ltb_ge in H
  end.

(** ** Loops *)
Section loops.
Context {S A : Type} (f : S → A → result S).

Lemma foldM_app s l1 l2 :
  foldM f s (l1 ++ l2) = foldM f s l1 ≫= (λ s', foldM f s' l2).
Proof.
  revert s; induction l1 as [|a l1 IH]; intros s; simpl; [done|].
  destruct (f s a); simpl; [apply IH | done].
Qed.

(** The invariant rule for a loop that completed. *)
Lemma foldM_invariant (I : S → Prop) l s s' :
  (∀ s a s1, a ∈ l → I s → f s a = Ok s1 → I s1) →
  I s → foldM f s l = Ok s' → I s'.
Proof.
  revert s; induction l as [|a l IH]; intros s Hstep HI Hrun; simpl in Hrun.
  - by bind_inv.
  - apply bind_Ok_inv in Hrun as (s1 & Hs1 & Hrun).
    eapply IH; [|eapply Hstep; [|exact HI|exact Hs1]|exact Hrun]; set_solver.
Qed.

(** The rule for a loop that raised: some iteration raised. *)
Lemma foldM_Err (I : S → Prop) l s e :
  (∀ s a s1, a ∈ l → I s → f s a = Ok s1 → I s1) →
  I s → foldM f s l = Err e →
  ∃ s1 a, a ∈ l ∧ I s1 ∧ f s1 a = Err e.
Proof.
  revert s; induction l as [|a l IH]; intros s Hstep HI Hrun; simpl in Hrun.
  - discriminate.
  - apply bind_Err_inv in Hrun as [Herr | (s1 & Hs1 & Hrun)].
    + exists s, a; split_and!; [set_solver|done|done].
    + edestruct (IH s1) as (s2 & a2 & ? & ? & ?); eauto.
      * intros; eapply Hstep; eauto; set_solver.
      * eapply Hstep; eauto; set_solver.
      * exists s2, a2; split_and!; [set_solver|done|done].
Qed.
End loops.

Lemma mapM_result_length {A B} (f : A → result B) l l' :
  mapM_result f l = Ok l' → length l' = length l.
Proof.
  revert l'; induction l as [|a l IH]; intros l' H; simpl in H; bind_inv; simpl; auto.
Qed.

Lemma mapM_result_lookup {A B} (f : A → result B) l l' i a :
  mapM_result f l = Ok l' → l !! i = Some a →
  ∃ b, l' !! i = Some b ∧ f a = Ok b.
Proof.
  revert l' i; induction l as [|x l IH]; intros l' i H Hi; simpl in H; [done|].
  bind_inv. destruct i as [|i]; simpl in *.
  - injection Hi as ->. eauto.
  - eauto.
Qed.

Lemma py_index_Ok {A} (l : list A) i a : py_index l i = Ok a ↔ l !! i = Some a.
Proof. unfold py_index. destruct (l !! i); split; congruence. Qed.

Lemma mapM_result_app {A B} (f : A → result B) l1 l2 :
  mapM_result f (l1 ++ l2) = (r1 ← mapM_result f l1; r2 ← mapM_result f l2; Ok (r1 ++ r2)).
Proof.
  induction l1 as [|a l1 IH]; simpl.
  - by destruct (mapM_result f l2).
  - destruct (f a); simpl; [|done]. rewrite IH.
    destruct (mapM_result f l1); simpl; [|done]. by destruct (mapM_result f l2).
Qed.

Lemma mapM_result_ext {A B} (f g : A → result B) l :
  (∀ a, a ∈ l → f a = g a) → mapM_result f l = mapM_result g l.
Proof.
  induction l as [|a l IH]; intros H; simpl; [done|].
  rewrite (H a), IH; [done| |]; set_solver.
Qed.

Lemma mapM_result_total {A B} (f : A → result B) l :
  (∀ a, a ∈ l → ∃ b, f a = Ok b) → ∃ l', mapM_result f l = Ok l'.
Proof.
  induction l as [|a l IH]; intros H; simpl; [eauto|].
  destruct (H a) as [b ->]; [set_solver|]. simpl.
  destruct IH as [l' ->]; [set_solver|]. simpl. eauto.
Qed.

Lemma py_index_take {A} (l : list A) n i : (i < n)%nat → py_index (take n l) i = py_index l i.
Proof. intros. unfold py_index. by rewrite lookup_take_lt. Qed.

Lemma py_index_ok_lt {A} (l : list A) i : i < length l → ∃ a, py_index l i = Ok a ∧ l !! i = Some a.
Proof.
  intros [a Ha]%lookup_lt_is_Some_2. exists a. split; [by apply py_index_Ok | done].
Qed.

Lemma foldM_ext_in {S A} (f g : S → A → result S) l s :
  (∀ s a, a ∈ l → f s a = g s a) → foldM f s l = foldM g s l.
Proof.
  revert s. induction l as [|a l IH]; intros s H; simpl; [done|].
  rewrite H by set_solver. destruct (g s a); simpl; [|done]. apply IH. set_solver.
Qed.

Lemma enumerate_from_elem {A} i (l : list A) j a :
  (j, a) ∈ enumerate_from i l → (i <= j < i + length l)%nat.
Proof.
  revert i. induction l as [|x l IH]; intros i H; simpl in *; [by apply not_elem_of_nil in H|].
  apply elem_of_cons in H as [[= -> ->]|H]; [lia|]. apply IH in H. lia.
Qed.

Lemma enumerate_from_app {A} i (l1 l2 : list A) :
  enumerate_from i (l1 ++ l2) = enumerate_from i l1 ++ enumerate_from (i + length l1) l2.
Proof.
  revert i. induction l1 as [|a l1 IH]; intros i; simpl; [by rewrite Nat.add_0_r|].
  rewrite IH. do 3 f_equal. lia.
Qed.

(** ** Outcomes

    [outcome m Q E]: a normal result satisfies [Q], an exception [E]. *)
Definition outcome {A} (m : result A) (Q : A → Prop) (E : exn → Prop) : Prop :=
  match m with Ok a => Q a | Err e => E e end.

Section outcomes.
Context (E : exn → Prop).

Lemma outcome_bind {A B} (m : result A) (f : A → result B) (P : A → Prop) (Q : B → Prop) :
  outcome m P E → (∀ a, P a → outcome (f a) Q E) → outcome (m ≫= f) Q E.
Proof. destruct m; simpl; auto. Qed.

Lemma outcome_mono {A} (m : result A) (P Q : A → Prop) :
  outcome m P E → (∀ a, P a → Q a) → outcome m Q E.
Proof. destruct m; simpl; auto. Qed.

Lemma outcome_foldM {S A} (f : S → A → result S) (I : S → Prop) l s :
  I s → (∀ s a, a ∈ l → I s → outcome (f s a) I E) → outcome (foldM f s l) I E.
Proof.
  revert s; induction l as [|a l IH]; intros s HI Hstep; simpl; [done|].
  eapply outcome_bind; [apply Hstep; [set_solver|done]|].
  intros s' HI'. apply IH; [done|]. intros; apply Hstep; [set_solver|done].
Qed.

(** A loop over [enumerate_from i l] whose invariant follows the index. *)
Lemma outcome_enumerate {S A} (f : S → nat * A → result S) (I : nat → S → Prop) l i s :
  I i s →
  (∀ j a s, l !! j = Some a → I (i + j)%nat s → outcome (f s ((i + j)%nat, a)) (I (i + j + 1)%nat) E) →
  outcome (foldM f s (enumerate_from i l)) (I (i + length l)%nat) E.
Proof.
  revert i s; induction l as [|a l IH]; intros i s HI Hstep; simpl.
  - by rewrite Nat.add_0_r.
  - eapply outcome_bind; [pose proof (Hstep 0%nat a s eq_refl) as H0; rewrite Nat.add_0_r in H0; by apply H0|].
    intros s' HI'. replace (i + Datatypes.S (length l))%nat with (Datatypes.S i + length l)%nat by lia.
    apply IH; [by replace (Datatypes.S i) with (i + 1)%nat by lia|].
    intros j b s'' Hj HIj. specialize (Hstep (Datatypes.S j) b s'' Hj).
    replace (i + Datatypes.S j)%nat with (Datatypes.S i + j)%nat in Hstep by lia. by apply Hstep.
Qed.
End outcomes.

Lemma outcome_weaken {A} (m : result A) (P Q : A → Prop) (E F : exn → Prop) :
  outcome m P E → (∀ a, P a → Q a) → (∀ e, E e → F e) → outcome m Q F.
Proof. destruct m; simpl; auto. Qed.

Lemma filter_none {A} (P : A → Prop) `{!∀ x, Decision (P x)} (l : list A) :
  (∀ x, x ∈ l → ¬ P x) → filter P l = [].
Proof.
  induction l as [|x l IH]; intros Hno; [done|].
  rewrite filter_cons_False by (apply Hno; set_solver). apply IH. set_solver.
Qed.

Lemma StronglySorted_snoc {A} (R : A → A → Prop) l x :
  StronglySorted R l → Forall (λ y, R y x) l → StronglySorted R (l ++ [x]).
Proof.
  induction 1 as [|a l Hl IH Ha]; intros HF; simpl.
  - constructor; [constructor|done].
  - apply Forall_cons_iff in HF as [H1 H2]. constructor; [by apply IH|].
    apply Forall_app; split; [done|]. by constructor.
Qed.

(** ** Hint database of the development *)
Create HintDb atp.
#[export] Hint Resolve bind_Ok mapM_result_length : atp.
