(* ===== verification/Decimal.v ===== *)
(** * Python's [decimal.Decimal] in its default context

    The trading code computes with [decimal.Decimal]: 28 significant digits,
    rounding half to even, with traps on division by zero and invalid
    operations.  This file gives the finite numbers as (sign, coefficient,
    exponent) triples, the operations the code uses as executable functions
    that follow the published algorithms step by step, and proves that each
    operation returns the representable number nearest to the exact result.
    The exponent range (+-999999 in Python) is not bounded here: no price,
    cash amount or percentage of the program comes near it. *)

From S2P Require Import Prelude.
From Stdlib Require Import QArith Qpower Qabs Lqa Qround.
From Stdlib Require Import ZArith Lia.
From stdpp Require Import base list option.
Local Open Scope Z_scope.

(** ** Representation *)

(** [getcontext().prec] *)
Definition prec : Z := 28.

(** A finite Decimal: (-1)^neg * coef * 10^exp. *)
Record decimal : Type := Dec { d_neg : bool; d_coef : N; d_exp : Z }.

#[global] Instance decimal_eq_dec : EqDecision decimal.
Proof. solve_decision. Defined.

(** A Decimal that may also be an infinity or a NaN. *)
Inductive pydecimal : Type :=
  | Finite (d : decimal)
  | Infinity (neg : bool)
  | NaN (signaling : bool).

Definition is_finite (x : pydecimal) : bool :=
  match x with Finite _ => true | _ => false end.

(** Signed coefficient and value. *)
Definition mant (d : decimal) : Z :=
  if d_neg d then - Z.of_N (d_coef d) else Z.of_N (d_coef d).

Definition dval (d : decimal) : Q := (inject_Z (mant d) * (10#1) ^ d_exp d)%Q.

(** [Decimal(int)]: exact. *)
Definition dec_of_Z (z : Z) : decimal := Dec (z <? 0) (Z.abs_N z) 0.

Definition dzero : decimal := dec_of_Z 0.

(** ** Number of decimal digits, [len(str(coefficient))] *)
Fixpoint ndigits_aux (fuel : nat) (n : N) : Z :=
  match fuel with
  | O => 1
  | S fuel => if (n <? 10)%N then 1 else 1 + ndigits_aux fuel (n / 10)
  end.

Definition ndigits (n : N) : Z := ndigits_aux (N.size_nat n) n.

(** [Decimal.adjusted()] *)
Definition adjusted (d : decimal) : Z := d_exp d + ndigits (d_coef d) - 1.

(** ** Rounding to the context precision *)

(** [c / m] rounded half to even. *)
Definition half_even (c m : Z) : Z :=
  let q := c / m in
  match 2 * (c mod m) ?= m with
  | Lt => q
  | Gt => q + 1
  | Eq => if Z.even q then q else q + 1
  end.

(** [Decimal._fix] *)
Definition dfix (d : decimal) : decimal :=
  let k := ndigits (d_coef d) - prec in
  if k <=? 0 then d
  else
    let q := half_even (Z.of_N (d_coef d)) (10 ^ k) in
    if q =? 10 ^ prec then Dec (d_neg d) (Z.to_N (q / 10)) (d_exp d + k + 1)
    else Dec (d_neg d) (Z.to_N q) (d_exp d + k).

(** ** Arithmetic *)

(** Coefficient of [d] at the exponent [e], for [e <= d_exp d]. *)
Definition align (d : decimal) (e : Z) : Z := mant d * 10 ^ (d_exp d - e).

Definition dneg (d : decimal) : decimal := Dec (negb (d_neg d)) (d_coef d) (d_exp d).

Definition dadd (a b : decimal) : decimal :=
  let e := Z.min (d_exp a) (d_exp b) in
  let m := align a e + align b e in
  let s := if m =? 0 then d_neg a && d_neg b else m <? 0 in
  dfix (Dec s (Z.abs_N m) e).

Definition dsub (a b : decimal) : decimal := dadd a (dneg b).

Definition dmul (a b : decimal) : decimal :=
  dfix (Dec (xorb (d_neg a) (d_neg b)) (d_coef a * d_coef b) (d_exp a + d_exp b)).

(** Remove trailing zeros while the exponent is below the ideal one. *)
Fixpoint strip_zeros (fuel : nat) (c e ideal : Z) : Z * Z :=
  match fuel with
  | O => (c, e)
  | S fuel =>
      if (e <? ideal) && (c mod 10 =? 0) then strip_zeros fuel (c / 10) (e + 1) ideal
      else (c, e)
  end.

(** [Decimal.__truediv__] *)
Definition ddiv (a b : decimal) : result decimal :=
  if (d_coef b =? 0)%N then
    Err (if (d_coef a =? 0)%N then InvalidOperation else DivisionByZero)
  else
    let s := xorb (d_neg a) (d_neg b) in
    let ideal := d_exp a - d_exp b in
    if (d_coef a =? 0)%N then Ok (dfix (Dec s 0 ideal))
    else
      let shift := ndigits (d_coef b) - ndigits (d_coef a) + prec + 1 in
      let e := ideal - shift in
      let num := Z.of_N (d_coef a) * 10 ^ Z.max 0 shift in
      let den := Z.of_N (d_coef b) * 10 ^ Z.max 0 (- shift) in
      let c := num / den in
      if num mod den =? 0 then
        let '(c, e) := strip_zeros (Z.to_nat shift) c e ideal in
        Ok (dfix (Dec s (Z.to_N c) e))
      else
        Ok (dfix (Dec s (Z.to_N (if c mod 5 =? 0 then c + 1 else c)) e)).

(** [Decimal.__floordiv__]: the quotient truncated toward zero. *)
Definition dfloordiv (a b : decimal) : result decimal :=
  if (d_coef b =? 0)%N then
    Err (if (d_coef a =? 0)%N then InvalidOperation else DivisionByZero)
  else
    let s := xorb (d_neg a) (d_neg b) in
    let expdiff := adjusted a - adjusted b in
    if (d_coef a =? 0)%N || (expdiff <=? -2) then Ok (Dec s 0 0)
    else if expdiff <=? prec then
      let e := Z.min (d_exp a) (d_exp b) in
      let q := (Z.of_N (d_coef a) * 10 ^ (d_exp a - e)) / (Z.of_N (d_coef b) * 10 ^ (d_exp b - e)) in
      if q <? 10 ^ prec then Ok (Dec s (Z.to_N q) 0) else Err InvalidOperation
    else Err InvalidOperation.

(** [int(d)] *)
Definition dint (d : decimal) : Z :=
  let v := if 0 <=? d_exp d then Z.of_N (d_coef d) * 10 ^ d_exp d
           else Z.of_N (d_coef d) / 10 ^ (- d_exp d) in
  if d_neg d then - v else v.

(** ** Comparison: exact, whatever the precision *)
Definition dcompare (a b : decimal) : comparison :=
  let e := Z.min (d_exp a) (d_exp b) in align a e ?= align b e.

Definition dlt (a b : decimal) : bool := match dcompare a b with Lt => true | _ => false end.
Definition dle (a b : decimal) : bool := match dcompare a b with Gt => false | _ => true end.
Definition dgt (a b : decimal) : bool := dlt b a.
Definition dge (a b : decimal) : bool := dle b a.

(** Python's builtin [max(a, b)] and [min(a, b)]: the first one unless the
    second is strictly larger (smaller). *)
Definition dmax (a b : decimal) : decimal := if dlt a b then b else a.
Definition dmin (a b : decimal) : decimal := if dlt b a then b else a.

(** [sum(values, Decimal("0"))] *)
Definition dsum (l : list decimal) : decimal := foldl dadd dzero l.

(** ** Rounding to nearest

    [representable q]: [q] fits in the context's 28 digits.  [rounds_to q d]:
    [d] fits and no representable number is nearer to [q]. *)
Definition representable (q : Q) : Prop :=
  ∃ m e : Z, Z.abs m < 10 ^ prec ∧ (q == inject_Z m * (10#1) ^ e)%Q.

Definition fits (d : decimal) : Prop := Z.of_N (d_coef d) < 10 ^ prec.

Definition rounds_to (q : Q) (d : decimal) : Prop :=
  fits d ∧ ∀ g, representable g → (Qabs (q - dval d) <= Qabs (q - g))%Q.

Definition signed (s : bool) (x : Q) : Q := if s then (- x)%Q else x.

(** [on_grid g B q]: [q] is a multiple of 10^g, at most [B] units in size.
    Sums and whole multiples of numbers on a grid stay on it, and are computed
    without rounding while they keep at most 28 digits. *)
Definition on_grid (g B : Z) (q : Q) : Prop :=
  ∃ m : Z, Z.abs m <= B ∧ (q == inject_Z m * (10#1) ^ g)%Q.

(** The same test on a decimal, for concrete data. *)
Definition on_gridb (g B : Z) (d : decimal) : bool :=
  (g <=? d_exp d) && (Z.abs (align d g) <=? B).

(** ** Powers of ten in [Q] *)
Section powers.
Local Open Scope Q_scope.

Lemma p10_pos (e : Z) : 0 < (10#1) ^ e.
Proof. apply Qpower_0_lt. reflexivity. Qed.

Lemma p10_plus (a b : Z) : (10#1) ^ (a + b) == (10#1) ^ a * (10#1) ^ b.
Proof. apply Qpower_plus. discriminate. Qed.

Lemma p10_Z (n : Z) : (0 <= n)%Z → (10#1) ^ n == inject_Z (10 ^ n).
Proof. intros. symmetry. apply (Zpower_Qpower 10). done. Qed.

Lemma p10_split (a b : Z) : (a <= b)%Z → (10#1) ^ b == inject_Z (10 ^ (b - a)) * (10#1) ^ a.
Proof.
  intros. rewrite <- p10_Z by lia. rewrite <- p10_plus.
  replace (b - a + a)%Z with b by lia. reflexivity.
Qed.

Lemma inject_Z_pos (z : Z) : (0 < z)%Z → 0 < inject_Z z.
Proof. intros. rewrite <- (Zlt_Qlt 0). done. Qed.
End powers.

(** ** Digits *)
Lemma ndigits_aux_spec fuel n :
  (0 < n)%N → (n < 2 ^ N.of_nat fuel)%N →
  1 <= ndigits_aux fuel n ∧
  10 ^ (ndigits_aux fuel n - 1) <= Z.of_N n < 10 ^ ndigits_aux fuel n.
Proof.
  revert n; induction fuel as [|fuel IH]; intros n Hpos Hlt.
  - simpl in Hlt. lia.
  - rewrite Nat2N.inj_succ, N.pow_succ_r' in Hlt.
    cbn [ndigits_aux]. destruct (N.ltb_spec n 10) as [H10|H10].
    + change (10 ^ (1 - 1)) with 1. change (10 ^ 1) with 10. lia.
    + pose proof (N.Div0.div_le_mono 10 n 10 H10) as Hq. change (10 / 10)%N with 1%N in Hq.
      assert (n / 10 < 2 ^ N.of_nat fuel)%N as Hdiv.
      { apply N.Div0.div_lt_upper_bound; lia. }
      destruct (IH (n / 10)%N ltac:(lia) Hdiv) as (Hge & Hlo & Hhi).
      set (k := ndigits_aux fuel (n / 10)) in *.
      rewrite N2Z.inj_div in Hlo, Hhi. change (Z.of_N 10) with 10 in *.
      replace (1 + k - 1) with (Z.succ (k - 1)) by lia.
      replace (1 + k) with (Z.succ k) by lia.
      rewrite !Z.pow_succ_r by lia.
      pose proof (Z.div_mod (Z.of_N n) 10 ltac:(lia)).
      pose proof (Z.mod_pos_bound (Z.of_N n) 10 ltac:(lia)). lia.
Qed.

Lemma size_nat_gt n : (n < 2 ^ N.of_nat (N.size_nat n))%N.
Proof.
  destruct n as [|p]; [done|]. cbn [N.size_nat].
  replace (N.of_nat (Pos.size_nat p)) with (N.pos (Pos.size p)).
  - change (2 ^ N.pos (Pos.size p))%N with (N.pos (2 ^ Pos.size p)). apply Pos.size_gt.
  - induction p; simpl; lia.
Qed.

Lemma ndigits_spec n :
  (0 < n)%N → 1 <= ndigits n ∧ 10 ^ (ndigits n - 1) <= Z.of_N n < 10 ^ ndigits n.
Proof. intros. apply ndigits_aux_spec; [done | apply size_nat_gt]. Qed.

Lemma ndigits_le_prec n : ndigits n <= prec ↔ Z.of_N n < 10 ^ prec.
Proof.
  destruct (N.eq_dec n 0%N) as [->|Hn]; [done|].
  destruct (ndigits_spec n ltac:(lia)) as (H1 & Hlo & Hhi). unfold prec in *. split; intros H.
  - eapply Z.lt_le_trans; [exact Hhi|]. apply Z.pow_le_mono_r; lia.
  - destruct (Z.le_gt_cases (ndigits n) 28); [done|].
    assert (10 ^ 28 <= 10 ^ (ndigits n - 1)) by (apply Z.pow_le_mono_r; lia). lia.
Qed.

(** ** Rounding to nearest *)
#[global] Instance fits_dec d : Decision (fits d).
Proof. unfold fits. apply _. Defined.

Lemma half_even_bounds c m :
  0 < m → (2 * half_even c m - 1) * m <= 2 * c <= (2 * half_even c m + 1) * m.
Proof.
  intros Hm. unfold half_even.
  pose proof (Z.div_mod c m ltac:(lia)). pose proof (Z.mod_pos_bound c m Hm).
  destruct (Z.compare_spec (2 * (c mod m)) m); [destruct (Z.even _)| |]; nia.
Qed.

Section rounding.
Local Open Scope Q_scope.

Lemma nearest_integer (X : Q) (q g : Z) :
  inject_Z (2 * q - 1) <= 2 * X <= inject_Z (2 * q + 1) →
  Qabs (X - inject_Z q) <= Qabs (X - inject_Z g).
Proof.
  intros [Hlo Hhi].
  rewrite inject_Z_plus, inject_Z_mult in Hhi.
  unfold Z.sub in Hlo. rewrite inject_Z_plus, inject_Z_mult, inject_Z_opp in Hlo.
  change (inject_Z 2) with 2 in *. change (inject_Z 1) with 1 in *.
  destruct (Z.lt_trichotomy g q) as [Hg|[->|Hg]]; [| lra |].
  - assert (inject_Z g <= inject_Z q - 1) as Hg'.
    { assert (inject_Z (g + 1) <= inject_Z q) by (rewrite <- Zle_Qle; lia).
      rewrite inject_Z_plus in *. change (inject_Z 1) with 1 in *. lra. }
    rewrite (Qabs_pos (X - inject_Z g)) by lra. apply Qabs_Qle_condition. lra.
  - assert (inject_Z q + 1 <= inject_Z g) as Hg'.
    { assert (inject_Z (q + 1) <= inject_Z g) by (rewrite <- Zle_Qle; lia).
      rewrite inject_Z_plus in *. change (inject_Z 1) with 1 in *. lra. }
    rewrite (Qabs_neg (X - inject_Z g)) by lra. apply Qabs_Qle_condition. lra.
Qed.

(** [X] units of 10^E with at least 28 integer digits, rounded to an integer
    number of units, is nearest among all representable numbers. *)
Lemma round_core (X : Q) (q E : Z) (g : Q) :
  inject_Z (10 ^ (prec - 1)) <= X →
  inject_Z (2 * q - 1) <= 2 * X <= inject_Z (2 * q + 1) →
  representable g →
  Qabs (X * (10#1) ^ E - inject_Z q * (10#1) ^ E) <= Qabs (X * (10#1) ^ E - g).
Proof.
  intros HX Hq (m & e & Hm & ->). pose proof (p10_pos E) as HE.
  assert (∀ y, Qabs (X * (10#1) ^ E - y * (10#1) ^ E) == Qabs (X - y) * (10#1) ^ E) as Hscale.
  { intros y. rewrite <- (Qabs_pos ((10#1) ^ E)) at 3 by lra.
    rewrite <- Qabs_Qmult. apply Qabs_wd. ring. }
  destruct (Z.le_gt_cases E e) as [HEe|HEe].
  - rewrite (p10_split E e HEe), Qmult_assoc, <- inject_Z_mult, !Hscale.
    apply Qmult_le_compat_r; [by apply nearest_integer | lra].
  - assert ((10#1) ^ E == 10 * (10#1) ^ (E - 1)) as HE1.
    { replace E with (1 + (E - 1))%Z at 1 by lia. rewrite p10_plus. reflexivity. }
    assert (inject_Z m * (10#1) ^ e <= inject_Z (10 ^ (prec - 1)) * (10#1) ^ E) as Hg.
    { apply Qle_trans with (inject_Z (10 ^ prec) * (10#1) ^ (E - 1)).
      - apply Qle_trans with (inject_Z (10 ^ prec) * (10#1) ^ e).
        + apply Qmult_le_compat_r; [rewrite <- Zle_Qle; lia | apply Qlt_le_weak, p10_pos].
        + apply Qmult_le_l; [by apply inject_Z_pos|].
          apply Qpower_le_compat_l; [lia | discriminate].
      - rewrite HE1. change (10 ^ prec)%Z with (10 * 10 ^ (prec - 1))%Z.
        rewrite inject_Z_mult. apply Qle_lteq. right. change (inject_Z 10) with 10. ring. }
    eapply Qle_trans; [rewrite Hscale; apply Qmult_le_compat_r;
      [apply (nearest_integer X q (10 ^ (prec - 1)) Hq) | lra] |].
    rewrite <- Hscale, !Qabs_pos; [lra| |].
    + assert (inject_Z (10 ^ (prec - 1)) * (10#1) ^ E <= X * (10#1) ^ E).
      { apply Qmult_le_compat_r; [done|lra]. } lra.
    + assert (inject_Z (10 ^ (prec - 1)) * (10#1) ^ E <= X * (10#1) ^ E).
      { apply Qmult_le_compat_r; [done|lra]. } lra.
Qed.
End rounding.

(** ** [_fix] rounds to nearest *)
Section fix_correct.
Local Open Scope Q_scope.

Lemma dval_Dec s c e : dval (Dec s c e) == signed s (inject_Z (Z.of_N c) * (10#1) ^ e).
Proof.
  unfold dval, mant, signed; simpl. destruct s; [rewrite inject_Z_opp; ring | reflexivity].
Qed.

#[global] Instance signed_proper s : Proper (Qeq ==> Qeq) (signed s).
Proof. intros x y Hxy. unfold signed. destruct s; by rewrite Hxy. Qed.

Lemma representable_opp g : representable g → representable (- g).
Proof.
  intros (m & e & Hm & Hg). exists (- m)%Z, e. split; [lia|].
  rewrite Hg, inject_Z_opp. ring.
Qed.

#[global] Instance representable_proper : Proper (Qeq ==> iff) representable.
Proof.
  intros x y Hxy. unfold representable. split; intros (m & e & Hm & H); exists m, e;
    (split; [done|]); [rewrite <- Hxy | rewrite Hxy]; done.
Qed.

#[global] Instance rounds_to_proper : Proper (Qeq ==> eq ==> iff) rounds_to.
Proof.
  intros x y Hxy d ? <-. unfold rounds_to.
  split; intros [Hf H]; (split; [done|]); intros g Hg; specialize (H g Hg);
    [rewrite <- Hxy | rewrite Hxy]; done.
Qed.

Lemma rounds_to_sign s x c e :
  rounds_to x (Dec false c e) → rounds_to (signed s x) (Dec s c e).
Proof.
  intros [Hf H]. split; [exact Hf|]. intros g Hg.
  destruct s; [|by apply H].
  specialize (H (- g) (representable_opp g Hg)).
  rewrite dval_Dec in *. unfold signed in *.
  rewrite <- (Qabs_opp (- x - g)), <- (Qabs_opp (- x - _)).
  setoid_replace (- (- x - g)) with (x - - g) using relation Qeq by ring.
  setoid_replace (- (- x - - (inject_Z (Z.of_N c) * (10#1) ^ e))) with (x - inject_Z (Z.of_N c) * (10#1) ^ e) using relation Qeq by ring. done.
Qed.

Lemma dfix_sign s c e : dfix (Dec s c e) = Dec s (d_coef (dfix (Dec false c e))) (d_exp (dfix (Dec false c e))).
Proof. unfold dfix; simpl. destruct (_ <=? 0)%Z; [done|]. by destruct (_ =? _)%Z. Qed.

Lemma dfix_pos c e : d_neg (dfix (Dec false c e)) = false.
Proof. by rewrite dfix_sign. Qed.

Lemma half_even_range c k :
  (1 <= k)%Z → (10 ^ (prec - 1 + k) <= c < 10 ^ (prec + k))%Z →
  (10 ^ (prec - 1) <= half_even c (10 ^ k) <= 10 ^ prec)%Z.
Proof.
  intros Hk [Hlo Hhi]. unfold prec in *.
  rewrite Z.pow_add_r in Hlo, Hhi by lia.
  pose proof (half_even_bounds c (10 ^ k) ltac:(apply Z.pow_pos_nonneg; lia)) as Hb.
  assert (10 <= 10 ^ k)%Z by (change 10%Z with (10 ^ 1)%Z at 1; apply Z.pow_le_mono_r; lia).
  set (h := half_even c (10 ^ k)) in *. set (m := (10 ^ k)%Z) in *.
  change (28 - 1)%Z with 27%Z in *. set (u := (10 ^ 27)%Z) in *.
  change (10 ^ 28)%Z with (10 * u)%Z in *. nia.
Qed.

Lemma ndigits_excess c : (1 <= ndigits c - prec)%Z → (0 < c)%N.
Proof.
  intros H. destruct c; [|lia]. change (ndigits 0) with 1%Z in H. unfold prec in H. lia.
Qed.

(** The common core of [_fix] and of division: [c] stands for [x] at the
    exponent [e] closely enough to be on the same side of every midpoint. *)
Lemma dfix_rounds_gen (x : Q) (c : N) (e : Z) :
  let k := (ndigits c - prec)%Z in
  (1 <= k)%Z →
  inject_Z (10 ^ (prec - 1)) * (10#1) ^ (e + k) <= x →
  (∀ q : Z, ((2 * q - 1) * 10 ^ k <= 2 * Z.of_N c <= (2 * q + 1) * 10 ^ k)%Z →
     inject_Z (2 * q - 1) * (10#1) ^ (e + k) <= 2 * x <= inject_Z (2 * q + 1) * (10#1) ^ (e + k)) →
  rounds_to x (dfix (Dec false c e)).
Proof.
  intros k Hk Hx Hmid.
  assert (0 < c)%N as Hc. { by apply ndigits_excess. }
  destruct (ndigits_spec c Hc) as (_ & Hlo & Hhi).
  replace (ndigits c - 1)%Z with (prec - 1 + k)%Z in Hlo by lia.
  replace (ndigits c) with (prec + k)%Z in Hhi by lia.
  pose proof (half_even_range _ k Hk (conj Hlo Hhi)) as Hq.
  pose proof (half_even_bounds (Z.of_N c) (10 ^ k) ltac:(apply Z.pow_pos_nonneg; lia)) as Hb.
  specialize (Hmid _ Hb).
  unfold dfix; simpl. fold k. destruct (Z.leb_spec k 0); [lia|].
  set (q := half_even (Z.of_N c) (10 ^ k)) in *.
  set (U := (10#1) ^ (e + k)) in *. assert (0 < U) as HU by apply p10_pos.
  assert (x == (x / U) * U) as HxU.
  { field. intros HU0. rewrite HU0 in HU. by apply Qlt_irrefl in HU. }
  assert (∀ g, representable g → Qabs (x - inject_Z q * U) <= Qabs (x - g)) as Hnear.
  { intros g Hg. rewrite HxU. apply round_core; [| |done].
    - apply Qmult_lt_0_le_reg_r with U; [done|]. rewrite <- HxU. exact Hx.
    - split; apply Qmult_lt_0_le_reg_r with U; try done;
        rewrite <- Qmult_assoc, <- HxU; apply Hmid. }
  destruct (Z.eqb_spec q (10 ^ prec)) as [Hq10|Hq10].
  - rewrite Hq10. split; [unfold fits; cbn [d_coef]; vm_compute; reflexivity|].
    intros g Hg. eapply Qle_trans; [|apply (Hnear g Hg)]. apply Qle_lteq. right. apply Qabs_wd.
    rewrite dval_Dec, Hq10. unfold signed.
    replace (e + k + 1)%Z with (1 + (e + k))%Z by lia. rewrite p10_plus. fold U.
    replace (Z.of_N (Z.to_N (10 ^ prec / 10))) with (10 ^ (prec - 1))%Z by (vm_compute; reflexivity).
    replace (10 ^ prec)%Z with (10 ^ (prec - 1) * 10)%Z by (vm_compute; reflexivity). rewrite inject_Z_mult.
    change ((10#1) ^ 1) with 10. change (inject_Z 10) with 10. ring.
  - assert (0 <= q)%Z by (assert (0 < 10 ^ (prec - 1))%Z by (unfold prec; lia); lia).
    split; [unfold fits; cbn [d_coef]; lia|].
    intros g Hg. eapply Qle_trans; [|apply (Hnear g Hg)]. apply Qle_lteq. right. apply Qabs_wd.
    rewrite dval_Dec. unfold signed. rewrite Z2N.id by lia. reflexivity.
Qed.

Lemma rounds_to_exact d : fits d → rounds_to (dval d) d.
Proof.
  intros Hf. split; [done|]. intros g _.
  setoid_replace (dval d - dval d) with 0 using relation Qeq by ring. apply Qabs_nonneg.
Qed.

Lemma dfix_rounds_pos c e : rounds_to (dval (Dec false c e)) (dfix (Dec false c e)).
Proof.
  destruct (Z.le_gt_cases (ndigits c - prec) 0) as [Hk|Hk].
  - unfold dfix; simpl. destruct (Z.leb_spec (ndigits c - prec) 0); [|lia].
    apply rounds_to_exact. unfold fits; simpl. apply ndigits_le_prec. lia.
  - rewrite dval_Dec. unfold signed.
    assert (0 < c)%N as Hc. { apply ndigits_excess. lia. }
    destruct (ndigits_spec c Hc) as (_ & Hlo & _).
    apply dfix_rounds_gen; [lia| |].
    + rewrite p10_plus, (p10_Z (ndigits c - prec)) by lia.
      setoid_replace (inject_Z (10 ^ (prec - 1)) * ((10 # 1) ^ e * inject_Z (10 ^ (ndigits c - prec)))) with (inject_Z (10 ^ (prec - 1) * 10 ^ (ndigits c - prec)) * (10#1) ^ e) using relation Qeq by (rewrite inject_Z_mult; ring).
      apply Qmult_le_compat_r; [|apply Qlt_le_weak, p10_pos].
      rewrite <- Zle_Qle, <- Z.pow_add_r by (unfold prec in *; lia).
      replace (prec - 1 + (ndigits c - prec))%Z with (ndigits c - 1)%Z by lia. done.
    + intros q Hq. rewrite p10_plus, (p10_Z (ndigits c - prec)) by lia.
      pose proof (p10_pos e).
      assert (∀ a b : Z, (a <= b)%Z → inject_Z a * (10#1)^e <= inject_Z b * (10#1)^e) as Hm.
      { intros. apply Qmult_le_compat_r; [by rewrite <- Zle_Qle | apply Qlt_le_weak, p10_pos]. }
      destruct Hq as [H1 H2]. apply Hm in H1, H2. rewrite !inject_Z_mult in H1, H2.
      change (inject_Z 2) with 2 in *. split; lra.
Qed.

Theorem dfix_rounds d : rounds_to (dval d) (dfix d).
Proof.
  destruct d as [s c e]. rewrite dfix_sign, dval_Dec.
  pose proof (dfix_rounds_pos c e) as H. rewrite dval_Dec in H. unfold signed in H.
  apply rounds_to_sign.
  replace (Dec false _ _) with (dfix (Dec false c e)); [done|].
  rewrite (dfix_sign false) at 1. done.
Qed.
End fix_correct.

(** ** What nearest rounding gives its users *)
Section rounds_facts.
Local Open Scope Q_scope.

Lemma fits_representable d : fits d → representable (dval d).
Proof.
  intros Hf. exists (mant d), (d_exp d). split; [|reflexivity].
  unfold fits, mant in *. destruct (d_neg d); lia.
Qed.

Lemma rounds_to_fits q d : rounds_to q d → fits d.
Proof. by intros []. Qed.

Lemma rounds_to_representable q d : rounds_to q d → representable (dval d).
Proof. intros H. by eapply fits_representable, rounds_to_fits. Qed.

(** Rounding never crosses a representable number. *)
Lemma rounds_le q d g : rounds_to q d → representable g → q <= g → dval d <= g.
Proof.
  intros [_ H] Hg Hq. specialize (H g Hg). rewrite (Qabs_neg (q - g)) in H by lra.
  apply Qabs_Qle_condition in H. lra.
Qed.

Lemma rounds_ge q d g : rounds_to q d → representable g → g <= q → g <= dval d.
Proof.
  intros [_ H] Hg Hq. specialize (H g Hg). rewrite (Qabs_pos (q - g)) in H by lra.
  apply Qabs_Qle_condition in H. lra.
Qed.

Lemma rounds_exact q d : rounds_to q d → representable q → dval d == q.
Proof.
  intros H Hq. apply Qle_antisym; [eapply rounds_le | eapply rounds_ge]; eauto; lra.
Qed.

(** Rounding is monotone. *)
Lemma rounds_mono x y dx dy : rounds_to x dx → rounds_to y dy → x < y → dval dx <= dval dy.
Proof.
  intros Hx Hy Hlt. destruct (Qlt_le_dec (dval dy) (dval dx)) as [Hd|]; [|done].
  pose proof (rounds_to_representable _ _ Hx). pose proof (rounds_to_representable _ _ Hy).
  destruct (Qlt_le_dec x (dval dx)) as [H1|H1]; destruct (Qlt_le_dec (dval dy) y) as [H2|H2].
  - destruct Hx as [_ Hx], Hy as [_ Hy].
    specialize (Hx (dval dy) ltac:(done)). specialize (Hy (dval dx) ltac:(done)).
    rewrite (Qabs_neg (x - dval dx)) in Hx by lra. rewrite (Qabs_pos (y - dval dy)) in Hy by lra.
    revert Hx Hy. apply Qabs_case; apply Qabs_case; intros; lra.
  - assert (dval dx <= dval dy) by (eapply rounds_le; eauto; lra). lra.
  - assert (dval dx <= dval dy) by (eapply rounds_ge; eauto; lra). lra.
  - lra.
Qed.

Lemma representable_0 : representable 0.
Proof. exists 0%Z, 0%Z. split; [unfold prec; lia | reflexivity]. Qed.

Lemma representable_Z z : (Z.abs z < 10 ^ prec)%Z → representable (inject_Z z).
Proof. intros. exists z, 0%Z. split; [done | ring]. Qed.

Lemma rounds_nonneg q d : rounds_to q d → 0 <= q → 0 <= dval d.
Proof. intros. eapply rounds_ge; eauto using representable_0. Qed.

Lemma rounds_nonpos q d : rounds_to q d → q <= 0 → dval d <= 0.
Proof. intros. eapply rounds_le; eauto using representable_0. Qed.

(** A nonzero result never underflows to zero. *)
Lemma rounds_pos q d : rounds_to q d → 0 < q → 0 < dval d.
Proof.
  intros Hr Hq.
  (* 10^-n is below q for n large, and representable *)
  set (n := Z.pos (Qden q)).
  assert ((10#1) ^ (- n) <= q) as Hn.
  { destruct q as [qn qd]. unfold n; simpl Qden. unfold Qlt in Hq; simpl in Hq.
    apply Qle_trans with (1 # qd); [|unfold Qle; simpl; nia].
    assert (inject_Z (Z.pos qd) <= (10#1) ^ Z.pos qd) as Hp.
    { rewrite p10_Z by lia. rewrite <- Zle_Qle.
      transitivity (2 ^ Z.pos qd)%Z; [|apply Z.pow_le_mono_l; lia].
      apply Z.lt_le_incl, Z.pow_gt_lin_r; lia. }
    pose proof (p10_pos (Z.pos qd)) as Hpp. rewrite Qpower_opp.
    apply Qle_shift_inv_r; [done|].
    apply Qmult_lt_0_le_reg_r with (inject_Z (Z.pos qd)); [reflexivity|].
    setoid_replace ((1 # qd) * (10 # 1) ^ Z.pos qd * inject_Z (Z.pos qd)) with ((10 # 1) ^ Z.pos qd)
      using relation Qeq; [lra|].
    setoid_replace (1 # qd) with (/ inject_Z (Z.pos qd)) using relation Qeq by reflexivity.
    field. discriminate. }
  assert (representable ((10#1) ^ (- n))) as Hrep.
  { exists 1%Z, (- n)%Z. split; [unfold prec; lia | ring]. }
  pose proof (rounds_ge _ _ _ Hr Hrep Hn). pose proof (p10_pos (- n)). lra.
Qed.
End rounds_facts.

(** ** Correct rounding of the operations *)
Section operations.
Local Open Scope Q_scope.

Lemma align_val d e : (e <= d_exp d)%Z → inject_Z (align d e) * (10#1) ^ e == dval d.
Proof.
  intros He. unfold align, dval. rewrite inject_Z_mult, (p10_split e (d_exp d)) by done. ring.
Qed.

Lemma signed_abs (m e : Z) (s : bool) :
  (m ≠ 0%Z → s = (m <? 0)%Z) →
  dval (Dec s (Z.abs_N m) e) == inject_Z m * (10#1) ^ e.
Proof.
  intros Hs. unfold dval, mant; simpl d_neg; simpl d_coef; simpl d_exp.
  destruct (Z.eq_dec m 0%Z) as [->|Hm].
  { replace (if s then _ else _) with 0%Z by (by destruct s). ring. }
  rewrite (Hs Hm), N2Z.inj_abs_N. destruct (Z.ltb_spec m 0%Z).
  - rewrite Z.abs_neq, Z.opp_involutive by lia. reflexivity.
  - rewrite Z.abs_eq by lia. reflexivity.
Qed.

Theorem dadd_rounds a b : rounds_to (dval a + dval b) (dadd a b).
Proof.
  unfold dadd. set (e := Z.min (d_exp a) (d_exp b)).
  set (m := (align a e + align b e)%Z).
  assert (dval a + dval b == inject_Z m * (10#1) ^ e) as ->.
  { unfold m. rewrite inject_Z_plus, Qmult_plus_distr_l, !align_val; [reflexivity|lia|lia]. }
  rewrite <- signed_abs; [apply dfix_rounds|].
  intros Hm. by destruct (Z.eqb_spec m 0%Z).
Qed.

Lemma dval_dneg a : dval (dneg a) == - dval a.
Proof.
  unfold dval, dneg, mant; cbn [d_neg d_coef d_exp].
  destruct (d_neg a); cbn [negb]; rewrite ?inject_Z_opp; ring.
Qed.

Theorem dsub_rounds a b : rounds_to (dval a - dval b) (dsub a b).
Proof.
  unfold dsub. pose proof (dadd_rounds a (dneg b)) as H. by rewrite dval_dneg in H.
Qed.

Theorem dmul_rounds a b : rounds_to (dval a * dval b) (dmul a b).
Proof.
  unfold dmul. 
  match goal with |- rounds_to ?q (dfix ?d) => assert (q == dval d) as -> end; [|apply dfix_rounds].
  unfold dval, mant; cbn [d_neg d_coef d_exp]. rewrite p10_plus, N2Z.inj_mul.
  destruct (d_neg a), (d_neg b); cbn [xorb negb]; rewrite ?inject_Z_opp, ?inject_Z_mult; ring.
Qed.

Lemma dval_zero_coef d : dval d == 0 ↔ d_coef d = 0%N.
Proof.
  unfold dval. pose proof (p10_pos (d_exp d)). split.
  - intros [H1|H1]%Qmult_integral; [|rewrite H1 in H; by apply Qlt_irrefl in H].
    apply (proj1 (inject_Z_injective (mant d) 0%Z)) in H1.
    unfold mant in H1. destruct (d_neg d); lia.
  - intros H1. replace (mant d) with 0%Z by (unfold mant; rewrite H1; by destruct (d_neg d)). ring.
Qed.

Lemma dcompare_val a b : dcompare a b = (dval a ?= dval b).
Proof.
  unfold dcompare. set (e := Z.min (d_exp a) (d_exp b)).
  rewrite <- (align_val a e), <- (align_val b e) by lia. pose proof (p10_pos e).
  destruct (Z.compare_spec (align a e) (align b e)) as [->|H1|H1]; symmetry.
  - by apply Qeq_alt.
  - apply Qlt_alt. apply Qmult_lt_compat_r; [done|]. by rewrite <- Zlt_Qlt.
  - apply Qgt_alt. apply Qmult_lt_compat_r; [done|]. by rewrite <- Zlt_Qlt.
Qed.

Lemma dlt_val a b : dlt a b = true ↔ dval a < dval b.
Proof. unfold dlt. rewrite dcompare_val, Qlt_alt. by destruct (_ ?= _). Qed.
Lemma dle_val a b : dle a b = true ↔ dval a <= dval b.
Proof. unfold dle. rewrite dcompare_val, Qle_alt. by destruct (_ ?= _). Qed.
Lemma dlt_val_false a b : dlt a b = false ↔ dval b <= dval a.
Proof. rewrite <- not_true_iff_false, dlt_val. split; [apply Qnot_lt_le | apply Qle_not_lt]. Qed.
Lemma dle_val_false a b : dle a b = false ↔ dval b < dval a.
Proof. rewrite <- not_true_iff_false, dle_val. split; [apply Qnot_le_lt | apply Qlt_not_le]. Qed.

Lemma dval_dec_of_Z z : dval (dec_of_Z z) == inject_Z z.
Proof.
  unfold dec_of_Z. rewrite signed_abs; [|done]. change ((10#1) ^ 0) with 1. ring.
Qed.
Lemma dval_dzero : dval dzero == 0.
Proof. apply dval_dec_of_Z. Qed.
End operations.

(** ** Division *)
Section division.
Local Open Scope Q_scope.

Lemma strip_zeros_val fuel c e ideal c' e' :
  (0 <= c)%Z → strip_zeros fuel c e ideal = (c', e') →
  (0 <= c')%Z ∧ inject_Z c' * (10#1) ^ e' == inject_Z c * (10#1) ^ e.
Proof.
  revert c e; induction fuel as [|fuel IH]; intros c e Hc; cbn [strip_zeros].
  - intros [= -> ->]. split; [done | reflexivity].
  - destruct (Z.ltb_spec e ideal); cbn [andb]; [|intros [= -> ->]; split; [done | reflexivity]].
    destruct (Z.eqb_spec (c mod 10) 0) as [Hm|Hm]; [|intros [= -> ->]; split; [done | reflexivity]].
    intros (Hc' & Hv)%IH; [|by apply Z.div_pos]. split; [done|].
    rewrite Hv, p10_plus. rewrite (Z.div_mod c 10) at 2 by done.
    rewrite Hm, Z.add_0_r, inject_Z_mult.
    change ((10#1) ^ 1) with (10#1). change (inject_Z 10) with (10#1). ring.
Qed.

(** The truncated quotient of the scaled coefficients has at least 29 digits. *)
Lemma quotient_large (ca cb : N) :
  (0 < ca)%N → (0 < cb)%N →
  let shift := (ndigits cb - ndigits ca + prec + 1)%Z in
  let num := (Z.of_N ca * 10 ^ Z.max 0 shift)%Z in
  let den := (Z.of_N cb * 10 ^ Z.max 0 (- shift))%Z in
  (0 < den)%Z ∧ (10 ^ prec <= num / den)%Z.
Proof.
  intros Ha Hb shift num den.
  destruct (ndigits_spec ca Ha) as (? & Hla & _), (ndigits_spec cb Hb) as (? & _ & Hub).
  set (na := ndigits ca) in *. set (nb := ndigits cb) in *.
  assert (0 < 10 ^ Z.max 0 (- shift))%Z by (apply Z.pow_pos_nonneg; lia).
  assert (0 < 10 ^ Z.max 0 shift)%Z by (apply Z.pow_pos_nonneg; lia).
  assert (0 < den)%Z as Hden by (unfold den; nia). split; [done|].
  apply Z.div_le_lower_bound; [done|].
  apply Z.le_trans with (10 ^ (na - 1) * 10 ^ Z.max 0 shift)%Z; [|unfold num; nia].
  apply Z.le_trans with (10 ^ nb * 10 ^ Z.max 0 (- shift) * 10 ^ prec)%Z.
  { apply Z.mul_le_mono_nonneg_r; [unfold prec; lia|].
    unfold den. apply Z.mul_le_mono_nonneg_r; lia. }
  unfold prec in *. rewrite <- !Z.pow_add_r by lia. apply Z.pow_le_mono_r; lia.
Qed.

(** The sticky adjustment keeps the coefficient strictly on the same side of
    every midpoint as the exact quotient. *)
Lemma sticky_mid (num den c k q : Z) :
  (0 < den)%Z → (1 <= k)%Z → num mod den ≠ 0%Z →
  c = (if num / den mod 5 =? 0 then num / den + 1 else num / den)%Z →
  ((2 * q - 1) * 10 ^ k <= 2 * c <= (2 * q + 1) * 10 ^ k)%Z →
  ((2 * q - 1) * 10 ^ k * den <= 2 * num <= (2 * q + 1) * 10 ^ k * den)%Z.
Proof.
  intros Hden Hk Hrem Hc Hmid.
  pose proof (Z.div_mod num den ltac:(lia)) as Hdm.
  pose proof (Z.mod_pos_bound num den Hden) as Hr.
  replace (10 ^ k)%Z with (10 * 10 ^ (k - 1))%Z in *
    by (rewrite <- Z.pow_succ_r by lia; f_equal; lia).
  set (u := (10 ^ (k - 1))%Z) in *. set (t := (num / den)%Z) in *. set (r := (num mod den)%Z) in *.
  (* the midpoints are the multiples of five 5 * u * (2q -+ 1) *)
  assert (t mod 5 = 0 ∨ t mod 5 ≠ 0)%Z as [H5|H5] by lia.
  - apply Z.eqb_eq in H5 as H5'. rewrite H5' in Hc.
    assert (∃ t5, t = 5 * t5)%Z as [t5 Ht5].
    { exists (t / 5)%Z. pose proof (Z.div_mod t 5). lia. }
    assert (5 * u * (2 * q - 1) <= t)%Z.
    { assert (u * (2 * q - 1) <= t5)%Z by lia. lia. }
    assert (t + 1 <= 5 * u * (2 * q + 1))%Z by lia. nia.
  - apply Z.eqb_neq in H5 as H5'. rewrite H5' in Hc.
    assert (5 * u * (2 * q - 1) <= t)%Z by lia.
    assert (t <= 5 * u * (2 * q + 1) - 1)%Z.
    { assert (t ≠ 5 * u * (2 * q + 1))%Z; [|lia].
      intros Heq. apply H5. rewrite Heq.
      replace (5 * u * (2 * q + 1))%Z with (u * (2 * q + 1) * 5)%Z by lia. apply Z_mod_mult. }
    nia.
Qed.

Lemma ddiv_exact_quot (ca cb : Z) (ea eb shift : Z) :
  (0 < cb)%Z →
  inject_Z (ca * 10 ^ Z.max 0 shift) / inject_Z (cb * 10 ^ Z.max 0 (- shift)) * (10#1) ^ (ea - eb - shift)
  == (inject_Z ca * (10#1) ^ ea) / (inject_Z cb * (10#1) ^ eb).
Proof.
  intros Hcb. rewrite !inject_Z_mult, <- !p10_Z by lia.
  assert (¬ inject_Z cb == 0) as Hcb0.
  { intros E. apply (proj1 (inject_Z_injective cb 0%Z)) in E. lia. }
  pose proof (Qnot_eq_sym _ _ (Qlt_not_eq _ _ (p10_pos eb))) as Heb.
  pose proof (Qnot_eq_sym _ _ (Qlt_not_eq _ _ (p10_pos (Z.max 0 (- shift))))) as Hs.
  assert ((10#1) ^ ea == (10#1) ^ (ea - eb - shift) * (10#1) ^ eb * (10#1) ^ Z.max 0 shift * / (10#1) ^ Z.max 0 (- shift)) as ->.
  { rewrite <- Qpower_opp, <- !p10_plus. f_equiv. lia. }
  field. split; done.
Qed.

Lemma rounds_to_dfix_sign s x c e :
  rounds_to x (dfix (Dec false c e)) → rounds_to (signed s x) (dfix (Dec s c e)).
Proof.
  intros H. rewrite dfix_sign. apply rounds_to_sign.
  replace (Dec false _ _) with (dfix (Dec false c e)); [done|].
  rewrite (dfix_sign false) at 1. done.
Qed.

(** [c + 1] after the adjustment is still at most the digit bound. *)
Lemma sticky_low (num den c j : Z) :
  (0 < den)%Z → (1 <= j)%Z →
  c = (if num / den mod 5 =? 0 then num / den + 1 else num / den)%Z →
  (10 ^ j <= c)%Z → (10 ^ j * den <= num)%Z.
Proof.
  intros Hden Hj Hc Hle. pose proof (Z.mul_div_le num den Hden).
  enough (10 ^ j <= num / den)%Z by nia.
  destruct (Z.eqb_spec (num / den mod 5) 0) as [H5|H5]; [|lia].
  enough (10 ^ j ≠ c)%Z by lia. intros Heq.
  replace (10 ^ j)%Z with (5 * (2 * 10 ^ (j - 1)))%Z in Heq.
  - pose proof (Z.div_mod (num / den) 5 ltac:(lia)). lia.
  - replace j with (Z.succ (j - 1)) at 2 by lia. rewrite Z.pow_succ_r by lia. lia.
Qed.

Lemma inject_div_le (a b d : Z) (p : Q) :
  0 <= p → (0 < d)%Z → (a * d <= b)%Z → inject_Z a * p <= inject_Z b / inject_Z d * p.
Proof.
  intros Hp Hd Hle. apply Qmult_le_compat_r; [|done].
  apply Qle_shift_div_l; [by apply inject_Z_pos|]. rewrite <- inject_Z_mult, <- Zle_Qle. done.
Qed.

Lemma inject_div_ge (a b d : Z) (p : Q) :
  0 <= p → (0 < d)%Z → (b <= a * d)%Z → inject_Z b / inject_Z d * p <= inject_Z a * p.
Proof.
  intros Hp Hd Hle. apply Qmult_le_compat_r; [|done].
  apply Qle_shift_div_r; [by apply inject_Z_pos|]. rewrite <- inject_Z_mult, <- Zle_Qle. done.
Qed.

(** Inexact quotients. *)
Lemma ddiv_inexact (num den : Z) (e : Z) (c : Z) :
  (0 < den)%Z → (10 ^ prec <= num / den)%Z → num mod den ≠ 0%Z →
  c = (if num / den mod 5 =? 0 then num / den + 1 else num / den)%Z →
  rounds_to (inject_Z num / inject_Z den * (10#1) ^ e) (dfix (Dec false (Z.to_N c) e)).
Proof.
  intros Hden Hlarge Hrem Hc.
  assert (10 ^ prec <= c)%Z as Hcl by (rewrite Hc; destruct (_ =? _)%Z; lia).
  assert (0 <= c)%Z as Hc0 by (unfold prec in Hcl; lia).
  assert (1 <= ndigits (Z.to_N c) - prec)%Z as Hk.
  { destruct (Z.le_gt_cases (ndigits (Z.to_N c)) prec) as [Hn|Hn]; [|lia].
    apply ndigits_le_prec in Hn. rewrite Z2N.id in Hn; lia. }
  destruct (ndigits_spec (Z.to_N c)) as (_ & Hlo & _); [unfold prec in *; lia|].
  rewrite Z2N.id in Hlo by done.
  set (k := (ndigits (Z.to_N c) - prec)%Z) in *.
  pose proof (Qlt_le_weak _ _ (p10_pos e)) as Hpe.
  apply dfix_rounds_gen; fold k; [done| |].
  - rewrite p10_plus, (p10_Z k) by lia. rewrite (Qmult_comm (_ ^ e)), Qmult_assoc, <- inject_Z_mult. apply inject_div_le; [done..|].
    unfold prec in *. rewrite <- Z.pow_add_r by lia. eapply sticky_low; [done|lia|exact Hc|].
    replace (28 - 1 + k)%Z with (ndigits (Z.to_N c) - 1)%Z by lia. done.
  - intros q Hq. rewrite Z2N.id in Hq by done. rewrite p10_plus, (p10_Z k) by lia.
    destruct (sticky_mid num den c k q Hden ltac:(lia) Hrem Hc Hq) as [H1 H2].
    rewrite (Qmult_comm (_ ^ e)), !Qmult_assoc, <- !inject_Z_mult.
    assert (2 * (inject_Z num / inject_Z den) * (10#1) ^ e == inject_Z (2 * num) / inject_Z den * (10#1) ^ e) as ->.
    { rewrite inject_Z_mult. unfold Qdiv. change (inject_Z 2) with 2. ring. }
    split; [apply inject_div_le | apply inject_div_ge]; done.
Qed.

Lemma ex_rounds (m : result decimal) x y :
  x == y → (∃ r, m = Ok r ∧ rounds_to y r) → ∃ r, m = Ok r ∧ rounds_to x r.
Proof. intros Hxy (r & Hr & Hy). exists r. split; [done|]. by rewrite Hxy. Qed.

(** [a / b] is the correctly rounded quotient; the only error is division by zero. *)
Theorem ddiv_rounds a b :
  ¬ dval b == 0 → ∃ r, ddiv a b = Ok r ∧ rounds_to (dval a / dval b) r.
Proof.
  rewrite dval_zero_coef. intros Hb. unfold ddiv.
  destruct (N.eqb_spec (d_coef b) 0) as [?|_]; [done|].
  destruct a as [sa ca ea], b as [sb cb eb]; cbn [d_neg d_coef d_exp] in *.
  apply (ex_rounds _ _
    (signed (xorb sa sb) ((inject_Z (Z.of_N ca) * (10#1) ^ ea) / (inject_Z (Z.of_N cb) * (10#1) ^ eb)))).
  { rewrite !dval_Dec. assert (¬ inject_Z (Z.of_N cb) == 0).
    { intros E. apply (proj1 (inject_Z_injective _ 0%Z)) in E. lia. }
    pose proof (Qnot_eq_sym _ _ (Qlt_not_eq _ _ (p10_pos eb))).
    destruct sa, sb; cbn [signed xorb]; field; done. }
  destruct (N.eqb_spec ca 0) as [->|Ha].
  { eexists; split; [done|]. apply rounds_to_dfix_sign.
    assert ((inject_Z (Z.of_N 0) * (10#1) ^ ea) / (inject_Z (Z.of_N cb) * (10#1) ^ eb) == dval (Dec false 0 (ea - eb))) as ->.
    { rewrite dval_Dec. cbn [signed]. unfold Qdiv. change (inject_Z (Z.of_N 0)) with 0. ring. }
    apply dfix_rounds. }
  set (shift := (ndigits cb - ndigits ca + prec + 1)%Z).
  eapply ex_rounds; [by rewrite <- (ddiv_exact_quot _ _ _ _ shift) by lia|].
  destruct (quotient_large ca cb ltac:(lia) ltac:(lia)) as [Hden Hlarge]. fold shift in Hden, Hlarge.
  set (num := (Z.of_N ca * 10 ^ Z.max 0 shift)%Z) in *.
  set (den := (Z.of_N cb * 10 ^ Z.max 0 (- shift))%Z) in *.
  destruct (Z.eqb_spec (num mod den) 0) as [Hrem|Hrem].
  - destruct (strip_zeros _ _ _ _) as [c e] eqn:Hs.
    apply strip_zeros_val in Hs as [Hc0 Hv]; [|unfold prec in Hlarge; lia].
    eexists; split; [done|]. apply rounds_to_dfix_sign.
    assert (inject_Z num / inject_Z den * (10#1) ^ (ea - eb - shift) == dval (Dec false (Z.to_N c) e)) as ->.
    { rewrite dval_Dec. cbn [signed]. rewrite Z2N.id, Hv by done. f_equiv.
      rewrite (Z.div_mod num den) at 1 by lia. rewrite Hrem, Z.add_0_r, inject_Z_mult.
      field. intros E. apply (proj1 (inject_Z_injective _ 0%Z)) in E. lia. }
    apply dfix_rounds.
  - eexists; split; [done|]. apply rounds_to_dfix_sign. by apply ddiv_inexact.
Qed.

Lemma ddiv_Ok a b r : ddiv a b = Ok r → ¬ dval b == 0 ∧ rounds_to (dval a / dval b) r.
Proof.
  intros H. assert (¬ dval b == 0) as Hb.
  { rewrite dval_zero_coef. intros E. unfold ddiv in H. by rewrite E in H. }
  split; [done|]. destruct (ddiv_rounds a b Hb) as (r' & Hr & Hr'). congruence.
Qed.

Lemma ddiv_Err a b e : ddiv a b = Err e → dval b == 0.
Proof.
  intros H. destruct (Qeq_dec (dval b) 0) as [|Hb]; [done|].
  destruct (ddiv_rounds a b Hb) as (r & Hr & _). congruence.
Qed.
End division.

(** ** Floor division *)
Section floor_division.
Local Open Scope Q_scope.

Lemma adjusted_spec c e :
  (0 < c)%N →
  (10#1) ^ adjusted (Dec false c e) <= dval (Dec false c e) < (10#1) ^ (adjusted (Dec false c e) + 1).
Proof.
  intros Hc. destruct (ndigits_spec c Hc) as (H1 & Hlo & Hhi). pose proof (p10_pos e) as He.
  rewrite dval_Dec. unfold adjusted, signed; cbn [d_coef d_exp].
  replace (e + ndigits c - 1)%Z with ((ndigits c - 1) + e)%Z by lia.
  replace (ndigits c - 1 + e + 1)%Z with (ndigits c + e)%Z by lia.
  rewrite !p10_plus, (p10_Z (ndigits c - 1)), (p10_Z (ndigits c)) by lia. split.
  - apply Qmult_le_compat_r; [by rewrite <- Zle_Qle | by apply Qlt_le_weak].
  - apply Qmult_lt_compat_r; [done | by rewrite <- Zlt_Qlt].
Qed.

Lemma dval_nonneg_sign d : 0 <= dval d → d_coef d ≠ 0%N → d_neg d = false.
Proof.
  intros Hd Hc. destruct d as [[] c e]; [|done]. rewrite dval_Dec in Hd.
  cbn [signed d_coef] in *. exfalso. pose proof (p10_pos e).
  assert (0 < inject_Z (Z.of_N c) * (10#1) ^ e).
  { apply Qmult_lt_0_compat; [apply inject_Z_pos; lia | done]. }
  lra.
Qed.

(** A nonnegative number on a finer scale, and the quotient of two. *)
Lemma dval_scaled c x e :
  (e <= x)%Z → dval (Dec false c x) == inject_Z (Z.of_N c * 10 ^ (x - e)) * (10#1) ^ e.
Proof. intros He. rewrite dval_Dec. cbn [signed]. rewrite (p10_split e x), inject_Z_mult by lia. ring. Qed.

Lemma floor_scaled na nb e k :
  (0 <= na)%Z → (0 < nb)%Z →
  (inject_Z (na / nb) * (inject_Z nb * (10#1) ^ e) <= inject_Z na * (10#1) ^ e <
    inject_Z (na / nb + 1) * (inject_Z nb * (10#1) ^ e)) ∧
  ((k <= na / nb)%Z → inject_Z k * (inject_Z nb * (10#1) ^ e) <= inject_Z na * (10#1) ^ e).
Proof.
  intros Hna Hnb. pose proof (p10_pos e) as Hpe. pose proof (Z.mul_div_le na nb Hnb). pose proof (Z.mul_succ_div_gt na nb Hnb).
  assert (∀ u v : Z, (u <= v)%Z → inject_Z u * (10#1) ^ e <= inject_Z v * (10#1) ^ e) as Hmono.
  { intros. apply Qmult_le_compat_r; [by rewrite <- Zle_Qle | by apply Qlt_le_weak]. }
  rewrite !Qmult_assoc, <- !inject_Z_mult. split; [split|].
  - apply Hmono. lia.
  - apply Qmult_lt_compat_r; [done|]. rewrite <- Zlt_Qlt. lia.
  - intros Hk. apply Hmono. nia.
Qed.

(** [a // b] on a nonnegative dividend and a positive divisor is the integer
    quotient, unless it needs more than 28 digits. *)
Theorem dfloordiv_spec a b :
  0 <= dval a → 0 < dval b →
  (∃ r, dfloordiv a b = Ok r ∧ (0 <= dint r < 10 ^ prec)%Z ∧
     inject_Z (dint r) * dval b <= dval a < inject_Z (dint r + 1) * dval b) ∨
  (dfloordiv a b = Err InvalidOperation ∧ inject_Z (10 ^ prec) * dval b <= dval a).
Proof.
  intros Ha Hb. unfold dfloordiv.
  assert (d_coef b ≠ 0%N) as Hcb.
  { rewrite <- dval_zero_coef. intros E. rewrite E in Hb. by apply Qlt_irrefl in Hb. }
  destruct (N.eqb_spec (d_coef b) 0) as [?|_]; [done|].
  pose proof (dval_nonneg_sign b (Qlt_le_weak _ _ Hb) Hcb) as Hsb.
  assert (∀ s, dint (Dec s 0 0) = 0%Z) as Hz by (by intros []).
  destruct (N.eqb_spec (d_coef a) 0) as [Hca|Hca]; cbn [orb].
  { left. eexists; split; [done|]. rewrite Hz. split; [unfold prec; lia|].
    apply dval_zero_coef in Hca. rewrite Hca. change (inject_Z (0 + 1)) with 1.
    change (inject_Z 0) with 0. lra. }
  pose proof (dval_nonneg_sign a Ha Hca) as Hsa.
  destruct a as [sa ca ea], b as [sb cb eb]; cbn [d_neg d_coef d_exp] in *; subst sa sb.
  cbn [xorb].
  destruct (adjusted_spec ca ea ltac:(lia)) as [Hla Hua].
  destruct (adjusted_spec cb eb ltac:(lia)) as [Hlb Hub].
  set (aa := adjusted (Dec false ca ea)) in *. set (ab := adjusted (Dec false cb eb)) in *.
  destruct (Z.leb_spec (aa - ab) (-2)) as [Hd|Hd].
  { left. eexists; split; [done|]. rewrite Hz. split; [unfold prec; lia|].
    assert ((10#1) ^ (aa + 1) <= (10#1) ^ ab) by (apply Qpower_le_compat_l; [lia|discriminate]).
    change (inject_Z (0 + 1)) with 1. change (inject_Z 0) with 0.
    split; [lra|]. eapply Qlt_le_trans; [exact Hua|]. eapply Qle_trans; [exact H|]. lra. }
  destruct (Z.leb_spec (aa - ab) prec) as [Hd2|Hd2].
  2:{ right. split; [done|].
      assert (inject_Z (10 ^ prec) * (10#1) ^ (ab + 1) <= (10#1) ^ aa) as Hbig.
      { rewrite <- p10_Z, <- p10_plus by (unfold prec; lia).
        apply Qpower_le_compat_l; [lia|discriminate]. }
      eapply Qle_trans; [|exact Hla]. eapply Qle_trans; [|exact Hbig].
      apply Qmult_le_l; [by apply inject_Z_pos | by apply Qlt_le_weak]. }
  set (e := Z.min ea eb).
  assert (0 < 10 ^ (ea - e) ∧ 0 < 10 ^ (eb - e))%Z as [Hpa Hpb]
    by (split; apply Z.pow_pos_nonneg; lia).
  set (na := (Z.of_N ca * 10 ^ (ea - e))%Z). set (nb := (Z.of_N cb * 10 ^ (eb - e))%Z).
  assert (0 < nb)%Z as Hnb by (unfold nb; nia).
  assert (0 <= na)%Z as Hna by (unfold na; nia).
  pose proof (dval_scaled ca ea e ltac:(lia)) as Hva. pose proof (dval_scaled cb eb e ltac:(lia)) as Hvb.
  fold na in Hva. fold nb in Hvb. pose proof (Z.div_pos na nb Hna Hnb) as Hq0.
  destruct (floor_scaled na nb e (10 ^ prec) Hna Hnb) as [[Hlo Hhi] Hbig].
  destruct (Z.ltb_spec (na / nb) (10 ^ prec)) as [Hq|Hq].
  - left. eexists; split; [done|].
    replace (dint (Dec false (Z.to_N (na / nb)) 0)) with (na / nb)%Z.
    2:{ unfold dint; cbn [d_exp d_coef d_neg]. change (10 ^ 0)%Z with 1%Z.
        simpl (0 <=? 0)%Z. cbv iota. rewrite Z.mul_1_r, Z2N.id; done. }
    split; [done|]. by rewrite Hva, Hvb.
  - right. split; [done|]. rewrite Hva, Hvb. by apply Hbig.
Qed.
End floor_division.

(** ** Exact arithmetic on a grid *)
Section grid.
Local Open Scope Q_scope.
Context (g : Z).

Lemma on_gridb_spec B d : on_gridb g B d = true → on_grid g B (dval d).
Proof.
  unfold on_gridb. intros [H1 H2]%andb_true_iff. exists (align d g).
  split; [lia|]. rewrite align_val by lia. reflexivity.
Qed.

#[global] Instance on_grid_proper B : Proper (Qeq ==> iff) (on_grid g B).
Proof.
  intros x y Hxy. split; intros (m & Hm & H); exists m; (split; [done|]);
    [rewrite <- Hxy | rewrite Hxy]; done.
Qed.

Lemma on_grid_representable B q : (B < 10 ^ prec)%Z → on_grid g B q → representable q.
Proof. intros HB (m & Hm & Hq). exists m, g. split; [lia|done]. Qed.

Lemma on_grid_weaken B B' q : (B <= B')%Z → on_grid g B q → on_grid g B' q.
Proof. intros HB (m & Hm & Hq). exists m. split; [lia|done]. Qed.

Lemma on_grid_0 B : (0 <= B)%Z → on_grid g B 0.
Proof. intros. exists 0%Z. split; [lia|]. ring. Qed.

Lemma on_grid_add B B' x y : on_grid g B x → on_grid g B' y → on_grid g (B + B') (x + y).
Proof.
  intros (m & Hm & Hx) (n & Hn & Hy). exists (m + n)%Z. split; [lia|].
  rewrite Hx, Hy, inject_Z_plus. ring.
Qed.

Lemma on_grid_opp B x : on_grid g B x → on_grid g B (- x).
Proof.
  intros (m & Hm & Hx). exists (- m)%Z. split; [lia|]. rewrite Hx, inject_Z_opp. ring.
Qed.

Lemma on_grid_mul_Z B n x : on_grid g B x → on_grid g (Z.abs n * B) (inject_Z n * x).
Proof.
  intros (m & Hm & Hx). exists (n * m)%Z. split; [rewrite Z.abs_mul; nia|].
  rewrite Hx, inject_Z_mult. ring.
Qed.

(** A grid number is at most [B] units. *)
Lemma on_grid_abs B x : on_grid g B x → Qabs x <= inject_Z B * (10#1) ^ g.
Proof.
  intros (m & Hm & Hx). pose proof (p10_pos g). rewrite Hx, Qabs_Qmult.
  rewrite (Qabs_pos (_ ^ g)) by (by apply Qlt_le_weak).
  apply Qmult_le_compat_r; [|by apply Qlt_le_weak].
  change (Qabs (inject_Z m)) with (inject_Z (Z.abs m)). by rewrite <- Zle_Qle.
Qed.

(** Conversely the size of a grid number bounds its count of units. *)
Lemma on_grid_tighten B B' x :
  on_grid g B x → Qabs x <= inject_Z B' * (10#1) ^ g → on_grid g B' x.
Proof.
  intros (m & Hm & Hx) Hle. exists m. split; [|done]. pose proof (p10_pos g) as Hg.
  rewrite Hx, Qabs_Qmult, (Qabs_pos (_ ^ g)) in Hle by (by apply Qlt_le_weak).
  apply Qmult_le_r in Hle; [|done].
  change (Qabs (inject_Z m)) with (inject_Z (Z.abs m)) in Hle. by rewrite <- Zle_Qle in Hle.
Qed.

Lemma dadd_exact B B' a b :
  on_grid g B (dval a) → on_grid g B' (dval b) → (B + B' < 10 ^ prec)%Z →
  dval (dadd a b) == dval a + dval b.
Proof.
  intros Ha Hb HB. eapply rounds_exact; [apply dadd_rounds|].
  by eapply on_grid_representable, on_grid_add.
Qed.

Lemma dsub_exact B a b :
  on_grid g B (dval a - dval b) → (B < 10 ^ prec)%Z → dval (dsub a b) == dval a - dval b.
Proof.
  intros Ha HB. eapply rounds_exact; [apply dsub_rounds|]. by eapply on_grid_representable.
Qed.

Lemma dmul_Z_exact B n b :
  on_grid g B (inject_Z n * dval b) → (B < 10 ^ prec)%Z →
  dval (dmul (dec_of_Z n) b) == inject_Z n * dval b.
Proof.
  intros Ha HB. eapply rounds_exact.
  - pose proof (dmul_rounds (dec_of_Z n) b) as H. by rewrite dval_dec_of_Z in H.
  - by eapply on_grid_representable.
Qed.
End grid.
