(* ===== verification/Models.v ===== *)
(** * Data of the backtester ([backend/app/backtesting/models.py])

    The frozen dataclasses as records and the [StrEnum]s as inductive types,
    with decidable equality.  A [datetime] is an aware UTC instant, counted in
    microseconds; a Python [int] is a [Z].  Field names carry a short prefix
    where two dataclasses share a name. *)

From S2P Require Import Prelude Decimal.
From Stdlib Require Import ZArith QArith Lia.
From stdpp Require Import base list option.
Local Open Scope Z_scope.

Definition datetime : Type := Z.
#[global] Instance datetime_eq_dec : EqDecision datetime := Z.eq_dec.

Record MarketBar : Type := mkBar {
  bar_timestamp : datetime;
  open_price : decimal;
  high_price : decimal;
  low_price : decimal;
  close_price : decimal;
  volume : Z }.

Inductive SignalType : Type := BUY | SELL.
Inductive ExitReason : Type := STRATEGY_EXIT | STOP_LOSS | TAKE_PROFIT | FINAL_LIQUIDATION.

Record Signal : Type := mkSignal { sig_timestamp : datetime; signal_type : SignalType }.

Record CompletedTrade : Type := mkTrade {
  signal_timestamp : datetime;
  entry_timestamp : datetime;
  entry_price : decimal;
  quantity : Z;
  exit_signal_timestamp : option datetime;
  exit_timestamp : datetime;
  exit_price : decimal;
  profit_loss : decimal;
  return_percentage : decimal;
  exit_reason : ExitReason }.

Record EquityPoint : Type := mkPoint { pt_timestamp : datetime; equity : decimal }.

Record ExecutionResult : Type := mkExecutionResult {
  final_portfolio_value : decimal;
  total_realized_profit_loss : decimal;
  completed_trades : list CompletedTrade;
  equity_curve : list EquityPoint;
  ignored_signals : list Signal }.

Record BacktestMetrics : Type := mkMetrics {
  total_return_percentage : decimal;
  buy_and_hold_return_percentage : decimal;
  buy_and_hold_start_timestamp : datetime;
  buy_and_hold_start_price : decimal;
  buy_and_hold_end_price : decimal;
  win_rate_percentage : decimal;
  maximum_drawdown_percentage : decimal;
  cagr_percentage : option decimal }.

#[global] Instance MarketBar_eq_dec : EqDecision MarketBar.
Proof. solve_decision. Defined.
#[global] Instance SignalType_eq_dec : EqDecision SignalType.
Proof. solve_decision. Defined.
#[global] Instance ExitReason_eq_dec : EqDecision ExitReason.
Proof. solve_decision. Defined.
#[global] Instance Signal_eq_dec : EqDecision Signal.
Proof. solve_decision. Defined.
#[global] Instance CompletedTrade_eq_dec : EqDecision CompletedTrade.
Proof. solve_decision. Defined.
#[global] Instance EquityPoint_eq_dec : EqDecision EquityPoint.
Proof. solve_decision. Defined.

(** ** Well-formed market data

    What the CHECK constraints of [public.market_data] (models/market_data.py)
    guarantee of every stored row: positive prices within [low, high]. *)
Definition bar_ok (b : MarketBar) : Prop :=
  (0 < dval (low_price b) ∧
   dval (low_price b) <= dval (open_price b) ∧ dval (open_price b) <= dval (high_price b) ∧
   dval (low_price b) <= dval (close_price b) ∧ dval (close_price b) <= dval (high_price b))%Q.

(** The same as a decision procedure on the stored decimals. *)
Definition bar_okb (b : MarketBar) : bool :=
  dlt dzero (low_price b) && dle (low_price b) (open_price b) &&
  dle (open_price b) (high_price b) && dle (low_price b) (close_price b) &&
  dle (close_price b) (high_price b).

(** The primary key (symbol, interval, timestamp) together with the ascending
    order of [load_market_bars]. *)
Definition increasing (bars : list MarketBar) : Prop :=
  ∀ i j bi bj, bars !! i = Some bi → bars !! j = Some bj → (i < j)%nat →
    bar_timestamp bi < bar_timestamp bj.

(** The order test on adjacent bars. *)
Fixpoint increasingb (bars : list MarketBar) : bool :=
  match bars with
  | b1 :: (b2 :: _) as rest => (bar_timestamp b1 <? bar_timestamp b2) && increasingb rest
  | _ => true
  end.

Lemma bar_okb_spec b : bar_okb b = true ↔ bar_ok b.
Proof.
  unfold bar_okb, bar_ok. rewrite !andb_true_iff, !dle_val, dlt_val.
  rewrite dval_dzero. tauto.
Qed.

Lemma bars_okb_spec bars : forallb bar_okb bars = true ↔ Forall bar_ok bars.
Proof.
  induction bars as [|b bars IH]; simpl; [done|].
  rewrite andb_true_iff, Forall_cons_iff, bar_okb_spec. tauto.
Qed.

Lemma bar_ok_open_pos b : bar_ok b → (0 < dval (open_price b))%Q.
Proof. intros (H & H1 & _). by eapply Qlt_le_trans. Qed.

Lemma bar_ok_close_pos b : bar_ok b → (0 < dval (close_price b))%Q.
Proof. intros (H & _ & _ & H1 & _). by eapply Qlt_le_trans. Qed.

#[export] Hint Resolve bar_ok_open_pos bar_ok_close_pos : atp.

Lemma increasing_app_l b1 b2 : increasing (b1 ++ b2) → increasing b1.
Proof.
  intros H i j bi bj Hi Hj. apply (H i j); by apply lookup_app_l_Some.
Qed.

Lemma increasing_NoDup bars : increasing bars → NoDup (bar_timestamp <$> bars).
Proof.
  intros H. apply NoDup_alt. intros i j t Hi Hj.
  apply list_lookup_fmap_Some in Hi as (bi & -> & Hi).
  apply list_lookup_fmap_Some in Hj as (bj & Hteq & Hj).
  destruct (Nat.lt_trichotomy i j) as [Hlt|[->|Hlt]]; [|done|].
  - pose proof (H _ _ _ _ Hi Hj Hlt). lia.
  - pose proof (H _ _ _ _ Hj Hi Hlt). lia.
Qed.

Lemma increasingb_head b bars i bi :
  increasingb (b :: bars) = true → bars !! i = Some bi → bar_timestamp b < bar_timestamp bi.
Proof.
  revert b i; induction bars as [|b2 bars IH]; intros b i H Hi; [done|].
  simpl in H. apply andb_true_iff in H as [H1%Z.ltb_lt H2].
  destruct i as [|i]; simpl in Hi; [by injection Hi as ->|].
  specialize (IH b2 i H2 Hi). lia.
Qed.

Lemma increasingb_spec bars : increasingb bars = true → increasing bars.
Proof.
  induction bars as [|b bars IH]; intros H i j bi bj Hi Hj Hlt; [done|].
  destruct j as [|j]; [lia|]. simpl in Hj. destruct i as [|i]; simpl in Hi.
  - injection Hi as ->. by eapply increasingb_head.
  - eapply IH; eauto; [|lia]. destruct bars; [done|]. simpl in H. by apply andb_true_iff in H as [_ H].
Qed.
