(* ===== verification/Samples.v ===== *)
(** * Sample market data

    A short, well-formed series of daily bars, the concrete input at which the
    worked examples of the other files evaluate the definitions. *)

From S2P Require Import Prelude Decimal Models.
From Stdlib Require Import ZArith QArith Lia.
From stdpp Require Import base list option.
Local Open Scope Z_scope.

(** [cents n] is the decimal n/100, written with two places. *)
Definition cents (n : Z) : decimal := Dec (n <? 0) (Z.abs_N n) (-2).

Definition day (n : Z) : datetime := n * 86400000000.

(** A bar from prices in cents: open, high, low, close. *)
Definition sample_bar (n o h l c : Z) : MarketBar :=
  mkBar (day n) (cents o) (cents h) (cents l) (cents c) 1000.

Definition sample_bars : list MarketBar :=
  [ sample_bar 1 10000 10100 9900 10050;
    sample_bar 2 10100 10300 10000 10200;
    sample_bar 3 10300 10900 10250 10800;
    sample_bar 4 10800 11200 10700 11000;
    sample_bar 5 11000 11050 9000 9200;
    sample_bar 6 9300 9500 9100 9400;
    sample_bar 7 9500 9900 9450 9800 ].

Definition sample_signals : list Signal :=
  [ mkSignal (day 1) BUY; mkSignal (day 2) BUY; mkSignal (day 3) SELL;
    mkSignal (day 4) BUY; mkSignal (day 5) SELL; mkSignal (day 6) BUY ].

Definition sample_cash : decimal := dec_of_Z 10000.

Lemma sample_bars_ok : Forall bar_ok sample_bars.
Proof. apply bars_okb_spec. vm_compute. reflexivity. Qed.

Lemma sample_bars_increasing : increasing sample_bars.
Proof. apply increasingb_spec. vm_compute. reflexivity. Qed.

Lemma sample_cash_fits : fits sample_cash.
Proof. vm_compute. reflexivity. Qed.

#[export] Hint Resolve sample_bars_ok sample_bars_increasing sample_cash_fits : atp.
