(* ===== verification/Text.v ===== *)
(** * Python text: strings, [str(int)], [str(Decimal)], [Decimal(str)]

    A Python [str] is a Rocq [string]; the model covers ASCII text.  Printing
    and parsing of integers and decimals follow CPython digit for digit, and a
    printed number reads back as itself. *)

From S2P Require Import Prelude Decimal.
From Stdlib Require Import ZArith QArith Lia Ascii.
From Stdlib Require Strings.String.
From stdpp Require Import base list option strings.
Local Open Scope Z_scope.

(** ** Characters and strings *)
Definition to_chars (s : string) : list ascii := Stdlib.Strings.String.list_ascii_of_string s.
Definition of_chars (l : list ascii) : string := Stdlib.Strings.String.string_of_list_ascii l.

Definition char_code (c : ascii) : Z := Z.of_N (N_of_ascii c).

Definition in_range (lo hi : Z) (c : ascii) : bool := (lo <=? char_code c) && (char_code c <=? hi).

Definition is_digit (c : ascii) : bool := in_range 48 57 c.
Definition is_upper (c : ascii) : bool := in_range 65 90 c.
Definition is_lower (c : ascii) : bool := in_range 97 122 c.

(** Space, tab, newline, vertical tab, form feed, carriage return and the four
    separators 28 to 31: [str.isspace] on ASCII, which [\s] and [strip] use. *)
Definition is_space (c : ascii) : bool := in_range 9 13 c || in_range 28 32 c.

Definition lower_char (c : ascii) : ascii :=
  if is_upper c then ascii_of_N (N_of_ascii c + 32) else c.
Definition upper_char (c : ascii) : ascii :=
  if is_lower c then ascii_of_N (N_of_ascii c - 32) else c.

Fixpoint map_string (f : ascii → ascii) (s : string) : string :=
  match s with EmptyString => EmptyString | String c s => String (f c) (map_string f s) end.

Definition str_lower : string → string := map_string lower_char.
Definition str_upper : string → string := map_string upper_char.

(** [s.replace(a, b)] for single characters. *)
Definition replace_char (a b : ascii) : string → string :=
  map_string (λ c, if Ascii.eqb c a then b else c).

(** [p in s] *)
Fixpoint contains (p s : string) : bool :=
  String.prefix p s || match s with EmptyString => false | String _ s => contains p s end.

Fixpoint lstrip (l : list ascii) : list ascii :=
  match l with c :: l' => if is_space c then lstrip l' else l | [] => [] end.

Definition strip_list (l : list ascii) : list ascii := reverse (lstrip (reverse (lstrip l))).

(** [s.strip()] *)
Definition strip (s : string) : string :=
  of_chars (strip_list (to_chars s)).

(** [sep.join(parts)] *)
Fixpoint str_join (sep : string) (parts : list string) : string :=
  match parts with
  | [] => EmptyString
  | [p] => p
  | p :: rest => String.append p (String.append sep (str_join sep rest))
  end.

(** ** Integers *)
Definition digit_char (d : N) : ascii := ascii_of_N (48 + d).

Fixpoint digits_aux (fuel : nat) (n : N) (acc : list ascii) : list ascii :=
  let acc := digit_char (n mod 10) :: acc in
  match fuel with
  | O => acc
  | S fuel => if (n <? 10)%N then acc else digits_aux fuel (n / 10) acc
  end.

(** [str(n)] of a nonnegative integer. *)
Definition digits (n : N) : list ascii := digits_aux (N.size_nat n) n [].

Definition str_int (z : Z) : string :=
  of_chars ((if z <? 0 then ["-"%char] else []) ++ digits (Z.abs_N z)).

(** The number a run of digits spells. *)
Definition digits_value (l : list ascii) : N :=
  foldl (λ v c, v * 10 + (N_of_ascii c - 48))%N 0%N l.

(** ** Decimals *)

(** [Decimal.__str__]: positional when the exponent is not positive and the
    number is not too small, with an exponent otherwise. *)
Definition decimal_chars (d : decimal) : list ascii :=
  let ds := digits (d_coef d) in
  let n := Z.of_nat (length ds) in
  let leftdigits := d_exp d + n in
  let dotplace := if (d_exp d <=? 0) && (-6 <? leftdigits) then leftdigits else 1 in
  let '(intpart, fracpart) :=
    if dotplace <=? 0 then (["0"%char], "."%char :: replicate (Z.to_nat (- dotplace)) "0"%char ++ ds)
    else if n <=? dotplace then (ds ++ replicate (Z.to_nat (dotplace - n)) "0"%char, [])
    else (take (Z.to_nat dotplace) ds, "."%char :: drop (Z.to_nat dotplace) ds) in
  let exponent :=
    if leftdigits =? dotplace then []
    else "E"%char :: (if leftdigits - dotplace <? 0 then "-"%char else "+"%char)
           :: digits (Z.abs_N (leftdigits - dotplace)) in
  (if d_neg d then ["-"%char] else []) ++ intpart ++ fracpart ++ exponent.

Definition decimal_str (d : decimal) : string := of_chars (decimal_chars d).

(** The parts of a numeric string: a maximal run of digits, and the rest. *)
Fixpoint span_digits (l : list ascii) : list ascii * list ascii :=
  match l with
  | c :: l' => if is_digit c then let '(ds, r) := span_digits l' in (c :: ds, r) else ([], l)
  | [] => ([], [])
  end.

Definition span_sign (l : list ascii) : bool * list ascii :=
  match l with
  | c :: l' => if Ascii.eqb c "-" then (true, l') else if Ascii.eqb c "+" then (false, l') else (false, l)
  | [] => (false, [])
  end.

(** [E] or [e], a sign and digits, to the end of the string. *)
Definition parse_exponent (l : list ascii) : option Z :=
  match l with
  | [] => Some 0
  | c :: l' =>
      if Ascii.eqb (lower_char c) "e" then
        let '(neg, l'') := span_sign l' in
        let '(ds, rest) := span_digits l'' in
        match ds, rest with
        | _ :: _, [] => let v := Z.of_N (digits_value ds) in Some (if neg then - v else v)
        | _, _ => None
        end
      else None
  end.

(** [Decimal(text)] on stripped text without underscores: the numeric forms of
    decimal's grammar; [None] is [InvalidOperation]. *)
Definition parse_finite (neg : bool) (l : list ascii) : option decimal :=
  let '(intpart, rest) := span_digits l in
  let '(fracpart, rest) :=
    match rest with
    | c :: rest' => if Ascii.eqb c "." then span_digits rest' else ([], rest)
    | [] => ([], [])
    end in
  match intpart ++ fracpart with
  | [] => None
  | ds => e ← parse_exponent rest;
          Some (Dec neg (digits_value ds) (e - Z.of_nat (length fracpart)))
  end.

(** [inf], [infinity], [nan] and [snan] with optional payload digits. *)
Definition parse_special (neg : bool) (l : list ascii) : option pydecimal :=
  let word := of_chars (lower_char <$> l) in
  if bool_decide (word = "inf"%string) || bool_decide (word = "infinity"%string)
  then Some (Infinity neg)
  else
    let '(signaling, l) :=
      if bool_decide (of_chars (lower_char <$> take 4 l) = "snan"%string)
      then (true, drop 4 l)
      else if bool_decide (of_chars (lower_char <$> take 3 l) = "nan"%string)
      then (false, drop 3 l) else (false, ["!"%char]) in
    match (span_digits l).2 with [] => Some (NaN signaling) | _ => None end.

Definition parse_decimal_chars (l : list ascii) : option pydecimal :=
  let '(neg, l) := span_sign l in
  match parse_finite neg l with
  | Some d => Some (Finite d)
  | None => parse_special neg l
  end.

Definition decimal_of_string (s : string) : result pydecimal :=
  match parse_decimal_chars (filter (λ c, c ≠ "_"%char) (strip_list (to_chars s))) with
  | Some d => Ok d
  | None => Err InvalidOperation
  end.

Definition pydecimal_str (x : pydecimal) : string :=
  match x with
  | Finite d => decimal_str d
  | Infinity neg => if neg then "-Infinity" else "Infinity"
  | NaN signaling => if signaling then "sNaN" else "NaN"
  end.

(** ** Lemmas *)
Lemma to_chars_append s1 s2 : to_chars (String.append s1 s2) = to_chars s1 ++ to_chars s2.
Proof. induction s1 as [|c s1 IH]; simpl; [done|]. unfold to_chars in *. simpl. by rewrite IH. Qed.

Lemma to_of_chars l : to_chars (of_chars l) = l.
Proof. apply String.list_ascii_of_string_of_list_ascii. Qed.

Lemma of_to_chars s : of_chars (to_chars s) = s.
Proof. apply String.string_of_list_ascii_of_string. Qed.

#[global] Instance of_chars_inj : Inj (=) (=) of_chars.
Proof. intros l1 l2 H. by rewrite <- (to_of_chars l1), <- (to_of_chars l2), H. Qed.

(** *** Digits *)
Lemma digit_char_code d : (d < 10)%N → N_of_ascii (digit_char d) = (48 + d)%N.
Proof. intros. unfold digit_char. rewrite N_ascii_embedding; [done|lia]. Qed.

Lemma digit_char_is_digit d : (d < 10)%N → is_digit (digit_char d) = true.
Proof.
  intros H. unfold is_digit, in_range, char_code. rewrite digit_char_code by done.
  rewrite andb_true_iff, !Z.leb_le. lia.
Qed.

Lemma digits_value_snoc l c : digits_value (l ++ [c]) = (digits_value l * 10 + (N_of_ascii c - 48))%N.
Proof. unfold digits_value. by rewrite foldl_app. Qed.

Lemma digits_aux_spec fuel n acc :
  (n < 2 ^ N.of_nat fuel)%N ∨ (n = 0)%N →
  ∃ ds, digits_aux fuel n acc = ds ++ acc ∧ ds ≠ [] ∧ Forall (λ c, is_digit c = true) ds ∧
    digits_value ds = n.
Proof.
  revert n acc. induction fuel as [|fuel IH]; intros n acc Hn; cbn [digits_aux].
  - assert (n = 0)%N as -> by (destruct Hn as [Hn|]; [simpl in Hn; lia|done]).
    exists [digit_char 0]. by repeat constructor.
  - pose proof (N.mod_lt n 10 ltac:(lia)) as Hm.
    assert (N_of_ascii (digit_char (n mod 10)) - 48 = n mod 10)%N as Hc
      by (rewrite digit_char_code by done; by rewrite N.add_comm, N.add_sub).
    destruct (N.ltb_spec n 10) as [Hlt|Hge].
    + exists [digit_char (n mod 10)]. split_and!; [done|done|repeat constructor; by apply digit_char_is_digit|].
      unfold digits_value. cbn [foldl]. rewrite Hc, N.mod_small by done. lia.
    + destruct (IH (n / 10)%N (digit_char (n mod 10) :: acc)) as (ds & -> & Hne & Hall & Hv).
      { left. destruct Hn as [Hn|]; [|lia]. rewrite Nat2N.inj_succ, N.pow_succ_r' in Hn.
        apply N.Div0.div_lt_upper_bound. lia. }
      exists (ds ++ [digit_char (n mod 10)]). rewrite <- app_assoc. split_and!; [done|by destruct ds| |].
      * apply Forall_app; split; [done|]. repeat constructor. by apply digit_char_is_digit.
      * rewrite digits_value_snoc, Hv, Hc. pose proof (N.div_mod n 10 ltac:(lia)). lia.
Qed.

Lemma digits_spec n :
  digits n ≠ [] ∧ Forall (λ c, is_digit c = true) (digits n) ∧ digits_value (digits n) = n.
Proof.
  unfold digits. destruct (digits_aux_spec (N.size_nat n) n []) as (ds & -> & H1 & H2 & H3).
  - left. apply size_nat_gt.
  - by rewrite app_nil_r.
Qed.

(** Reading a maximal run of digits stops where the run does. *)
Definition no_digit_head (l : list ascii) : Prop :=
  match l with c :: _ => is_digit c = false | [] => True end.

Lemma span_digits_app ds rest :
  Forall (λ c, is_digit c = true) ds → no_digit_head rest → span_digits (ds ++ rest) = (ds, rest).
Proof.
  intros Hds Hr. induction Hds as [|c ds Hc Hds IH]; simpl.
  - destruct rest as [|c r]; simpl in *; [done|]. by rewrite Hr.
  - by rewrite Hc, IH.
Qed.

Lemma digits_value_zeros k ds : digits_value (replicate k "0"%char ++ ds) = digits_value ds.
Proof. induction k as [|k IH]; [done|]. exact IH. Qed.

Lemma is_digit_neq c d : is_digit c = true → is_digit d = false → Ascii.eqb c d = false.
Proof. intros Hc Hd. apply Ascii.eqb_neq. intros ->. congruence. Qed.

Lemma span_sign_digits c l : is_digit c = true → span_sign (c :: l) = (false, c :: l).
Proof. intros Hc. simpl. by rewrite !(is_digit_neq c) by done. Qed.

(** The exponent part that [decimal_chars] prints. *)
Definition exponent_chars (e : Z) : list ascii :=
  if e =? 0 then []
  else "E"%char :: (if e <? 0 then "-"%char else "+"%char) :: digits (Z.abs_N e).

Lemma parse_exponent_chars e : parse_exponent (exponent_chars e) = Some e.
Proof.
  unfold exponent_chars. destruct (Z.eqb_spec e 0) as [->|He]; [done|].
  destruct (digits_spec (Z.abs_N e)) as (Hne & Hall & Hv).
  unfold parse_exponent. cbn [Ascii.eqb lower_char].
  change (Ascii.eqb (lower_char "E") "e") with true. cbn iota.
  destruct (Z.ltb_spec e 0); cbn [span_sign];
    [change (Ascii.eqb "-" "-") with true|
     change (Ascii.eqb "+" "-") with false; change (Ascii.eqb "+" "+") with true]; cbn iota;
    rewrite <- (app_nil_r (digits _)), span_digits_app by done;
    (destruct (digits (Z.abs_N e)) eqn:E; [done|]); rewrite Hv; f_equal; lia.
Qed.

Lemma no_digit_exponent e : no_digit_head (exponent_chars e).
Proof. unfold exponent_chars. by destruct (e =? 0). Qed.

Lemma exponent_not_dot e l :
  match exponent_chars e ++ l with c :: _ => Ascii.eqb c "." = false | [] => True end ∨ exponent_chars e = [].
Proof. unfold exponent_chars. destruct (e =? 0); [by right|by left]. Qed.

(** Both printed forms: digits, and digits with a point. *)
Lemma parse_finite_int neg ds e :
  ds ≠ [] → Forall (λ c, is_digit c = true) ds →
  parse_finite neg (ds ++ exponent_chars e) = Some (Dec neg (digits_value ds) e).
Proof.
  intros Hne Hds. unfold parse_finite. rewrite span_digits_app by (done || apply no_digit_exponent).
  destruct ds as [|c ds]; [done|].
  assert (∀ l, match exponent_chars e with
          | [] => ([], []) | c :: rest' => if Ascii.eqb c "." then span_digits rest' else ([], exponent_chars e) end
          = (@nil ascii, exponent_chars e) ∨ l = @nil ascii) as Hm.
  { intros l. left. unfold exponent_chars. by destruct (e =? 0). }
  destruct (Hm ["x"%char]) as [->|?]; [|done]. rewrite app_nil_r. cbn [app].
  rewrite parse_exponent_chars. cbn. f_equal. f_equal. lia.
Qed.

Lemma parse_finite_point neg ds1 ds2 e :
  ds1 ≠ [] → Forall (λ c, is_digit c = true) ds1 → Forall (λ c, is_digit c = true) ds2 →
  parse_finite neg (ds1 ++ "."%char :: ds2 ++ exponent_chars e)
  = Some (Dec neg (digits_value (ds1 ++ ds2)) (e - Z.of_nat (length ds2))).
Proof.
  intros Hne H1 H2. unfold parse_finite. rewrite span_digits_app by done.
  change (Ascii.eqb "." ".") with true. cbn beta iota.
  rewrite span_digits_app by (done || apply no_digit_exponent). cbn beta iota.
  destruct (ds1 ++ ds2) as [|c l] eqn:E; [by apply app_eq_nil in E as [? _]|].
  rewrite parse_exponent_chars. done.
Qed.

Lemma decimal_chars_shape d :
  ∃ body, decimal_chars d = (if d_neg d then ["-"%char] else []) ++ body ∧
    (∃ c l, body = c :: l ∧ is_digit c = true) ∧ parse_finite (d_neg d) body = Some d.
Proof.
  destruct (digits_spec (d_coef d)) as (Hne & Hall & Hv). destruct d as [s c e]. cbn [d_neg d_coef d_exp] in *.
  unfold decimal_chars. cbn [d_neg d_coef d_exp].
  set (ds := digits c) in *. set (n := Z.of_nat (length ds)).
  assert (1 <= n) as Hn by (unfold n; destruct ds; [done|simpl; lia]).
  set (dotplace := if (e <=? 0) && (-6 <? e + n) then e + n else 1).
  assert ((dotplace = e + n ∧ e <= 0) ∨ dotplace = 1) as Hdot.
  { unfold dotplace. destruct (Z.leb_spec e 0), (Z.ltb_spec (-6) (e + n)); simpl; auto. }
  assert ((if e + n =? dotplace then []
           else "E"%char :: (if e + n - dotplace <? 0 then "-"%char else "+"%char) :: digits (Z.abs_N (e + n - dotplace)))
          = exponent_chars (e + n - dotplace)) as ->.
  { unfold exponent_chars. destruct (Z.eqb_spec (e + n) dotplace), (Z.eqb_spec (e + n - dotplace) 0); (done || lia). }
  destruct (Z.leb_spec dotplace 0) as [H0|H0].
  - eexists. split; [reflexivity|]. split; [by eexists _, _|].
    replace (e + n - dotplace) with 0 by lia. change (exponent_chars 0) with (@nil ascii).
    rewrite app_nil_r. cbn [app].
    pose proof (parse_finite_point s ["0"%char] (replicate (Z.to_nat (- dotplace)) "0"%char ++ ds) 0) as H.
    change (exponent_chars 0) with (@nil ascii) in H. rewrite app_nil_r in H. cbn [app] in H. rewrite H; clear H.
    + change ("0"%char :: ?l) with (replicate 1 "0"%char ++ l). rewrite !digits_value_zeros, Hv.
      do 2 f_equal. rewrite length_app, length_replicate. lia.
    + done.
    + by repeat constructor.
    + apply Forall_app; split; [|done]. by apply Forall_replicate.
  - destruct (Z.leb_spec n dotplace) as [H1|H1].
    + replace (dotplace - n) with 0 by lia. cbn [Z.to_nat replicate]. rewrite app_nil_r.
      eexists. split; [reflexivity|]. split.
      * destruct ds as [|x ds']; [done|]. eexists _, _. split; [reflexivity|]. by apply Forall_cons_iff in Hall as [].
      * cbn [app]. rewrite parse_finite_int by done. rewrite Hv. do 2 f_equal. lia.
    + eexists. split; [reflexivity|].
      assert (take (Z.to_nat dotplace) ds ≠ []) as Ht.
      { destruct ds; [done|]. destruct (Z.to_nat dotplace) eqn:E; [lia|done]. }
      split.
      * destruct ds as [|x ds']; [done|]. destruct (Z.to_nat dotplace) as [|k] eqn:E; [lia|].
        eexists _, _. split; [reflexivity|]. by apply Forall_cons_iff in Hall as [].
      * cbn [app]. rewrite parse_finite_point; [|done|by apply Forall_take|by apply Forall_drop].
        rewrite take_drop, Hv. do 2 f_equal. rewrite length_drop. unfold n in *. lia.
Qed.

(** *** Reading back what was printed *)
Lemma parse_decimal_chars_roundtrip d : parse_decimal_chars (decimal_chars d) = Some (Finite d).
Proof.
  destruct (decimal_chars_shape d) as (body & -> & (c & l & -> & Hc) & Hp). unfold parse_decimal_chars.
  destruct (d_neg d); cbn [app].
  - change (span_sign ("-"%char :: c :: l)) with (true, c :: l). cbn beta iota. by rewrite Hp.
  - rewrite span_sign_digits by done. cbn beta iota. by rewrite Hp.
Qed.

(** Characters that neither [strip] nor the removal of underscores touches. *)
Definition plain (c : ascii) : bool := negb (is_space c) && negb (Ascii.eqb c "_").

Lemma digit_plain c : is_digit c = true → plain c = true.
Proof.
  intros Hc. unfold plain. rewrite (is_digit_neq c "_") by done.
  unfold is_digit, is_space, in_range in *.
  rewrite andb_true_iff, !negb_true_iff, orb_false_iff, !andb_false_iff, !Z.leb_gt.
  apply andb_true_iff in Hc as [?%Z.leb_le ?%Z.leb_le]. split; [|done]. split; lia.
Qed.

Lemma plain_chars l : Forall (λ c, plain c = true) l →
  filter (λ c, c ≠ "_"%char) (strip_list l) = l.
Proof.
  intros Hl. assert (∀ l, Forall (λ c, plain c = true) l → lstrip l = l) as Hs.
  { intros [|c l'] Hl'; [done|]. apply Forall_cons_iff in Hl' as [Hc _].
    simpl. unfold plain in Hc. apply andb_true_iff in Hc as [Hc _]. by destruct (is_space c). }
  unfold strip_list. rewrite (Hs l Hl), (Hs (reverse l)), reverse_involutive.
  2:{ by apply Forall_reverse. }
  clear Hs. induction Hl as [|c l Hc Hl IH]; [done|].
  rewrite filter_cons_True, IH; [done|]. intros ->. done.
Qed.

Lemma decimal_chars_plain d : Forall (λ c, plain c = true) (decimal_chars d).
Proof.
  assert (∀ n, Forall (λ c, plain c = true) (digits n)) as Hd.
  { intros n. destruct (digits_spec n) as (_ & H & _). eapply Forall_impl; [exact H|]. apply digit_plain. }
  unfold decimal_chars. cbv zeta. repeat case_match; simplify_eq; cbn [app];
    repeat first [apply Forall_nil; exact I | apply Forall_cons; split; [by auto|]
      | apply Forall_app; split | apply Hd | by apply Forall_replicate | by apply Forall_take, Hd
      | by apply Forall_drop, Hd].
Qed.

Lemma decimal_of_string_str d : decimal_of_string (decimal_str d) = Ok (Finite d).
Proof.
  unfold decimal_of_string, decimal_str. rewrite to_of_chars, plain_chars by apply decimal_chars_plain.
  by rewrite parse_decimal_chars_roundtrip.
Qed.

Lemma decimal_str_inj d1 d2 : decimal_str d1 = decimal_str d2 → d1 = d2.
Proof.
  intros H. pose proof (decimal_of_string_str d1) as H1.
  rewrite H, decimal_of_string_str in H1. by injection H1 as ->.
Qed.
