(* ===== verification/MarketData.v ===== *)
(** * Stored market data ([backend/app/models/market_data.py],
    [backend/app/backtesting/market_data.py])

    The table [public.market_data] as a list of rows in storage order, its
    CHECK constraints and primary key as predicates, and the query
    [load_market_bars].  The theorem is the interface to the backtester: bars
    loaded from a table that satisfies its constraints are well formed and in
    strictly ascending order, which is all the engine's theorems assume. *)

From S2P Require Import Prelude Decimal Text Models Samples.
From Stdlib Require Import ZArith QArith Lqa Lia Sorted.
From stdpp Require Import base list option strings sorting.
Local Open Scope Z_scope.

Record MarketDataRow : Type := mkRow {
  md_symbol : string;
  md_interval : string;
  md_timestamp : datetime;
  md_open_price : decimal;
  md_high_price : decimal;
  md_low_price : decimal;
  md_close_price : decimal;
  md_adjusted_close : option decimal;
  md_volume : Z;
  md_created_at : datetime;
  md_updated_at : datetime }.

#[global] Instance MarketDataRow_eq_dec : EqDecision MarketDataRow.
Proof. solve_decision. Defined.

(** [Numeric(18, 8)]: a multiple of 10^-8 below 10^10. *)
Definition numeric_18_8 (d : decimal) : bool := on_gridb (-8) (10 ^ 18 - 1) d.

(** The table's CHECK constraints. *)
Definition row_okb (r : MarketDataRow) : bool :=
  let n := String.length (md_symbol r) in
  (1 <=? n)%nat && (n <=? 20)%nat && bool_decide (md_symbol r = str_upper (md_symbol r)) &&
  bool_decide (md_interval r = "1d"%string) &&
  dlt dzero (md_open_price r) && dlt dzero (md_high_price r) && dlt dzero (md_low_price r) &&
  dlt dzero (md_close_price r) &&
  match md_adjusted_close r with Some a => dlt dzero a | None => true end &&
  dle (md_low_price r) (md_open_price r) && dle (md_open_price r) (md_high_price r) &&
  dle (md_low_price r) (md_close_price r) && dle (md_close_price r) (md_high_price r) &&
  (0 <=? md_volume r).

(** The column types. *)
Definition row_typed (r : MarketDataRow) : bool :=
  numeric_18_8 (md_open_price r) && numeric_18_8 (md_high_price r) &&
  numeric_18_8 (md_low_price r) && numeric_18_8 (md_close_price r) &&
  match md_adjusted_close r with Some a => numeric_18_8 a | None => true end && (md_volume r <? 2 ^ 63).

Definition row_key (r : MarketDataRow) : string * string * datetime :=
  (md_symbol r, md_interval r, md_timestamp r).

(** What PostgreSQL guarantees of the whole table. *)
Definition table_ok (table : list MarketDataRow) : Prop :=
  Forall (λ r, row_okb r = true ∧ row_typed r = true) table ∧ NoDup (row_key <$> table).

(** [MarketBar(timestamp=row.timestamp, ...)] *)
Definition bar_of_row (r : MarketDataRow) : MarketBar :=
  mkBar (md_timestamp r) (md_open_price r) (md_high_price r) (md_low_price r) (md_close_price r)
    (md_volume r).

(** [order_by(MarketData.timestamp.asc())] *)
Definition earlier (r1 r2 : MarketDataRow) : Prop := md_timestamp r1 <= md_timestamp r2.
#[global] Instance earlier_dec : RelDecision earlier.
Proof. intros r1 r2. apply Z_le_dec. Defined.
#[global] Instance earlier_total : Total earlier.
Proof. intros r1 r2. unfold earlier. lia. Qed.
#[global] Instance earlier_trans : Transitive earlier.
Proof. intros r1 r2 r3. unfold earlier. lia. Qed.

Definition select_rows (table : list MarketDataRow) (symbol interval : string) : list MarketDataRow :=
  merge_sort earlier (filter (λ r, md_symbol r = symbol ∧ md_interval r = interval) table).

Definition load_market_bars (table : list MarketDataRow) (symbol interval : string) : list MarketBar :=
  bar_of_row <$> select_rows table symbol interval.

(** ** Lemmas *)
Lemma row_ok_bar_ok r : row_okb r = true → bar_ok (bar_of_row r).
Proof.
  unfold row_okb. rewrite !andb_true_iff, !dlt_val, !dle_val, dval_dzero. unfold bar_ok. simpl. tauto.
Qed.

Lemma select_rows_perm table symbol interval :
  select_rows table symbol interval ≡ₚ filter (λ r, md_symbol r = symbol ∧ md_interval r = interval) table.
Proof. apply merge_sort_Permutation. Qed.

Lemma select_rows_sorted table symbol interval : StronglySorted earlier (select_rows table symbol interval).
Proof. apply StronglySorted_merge_sort; apply _. Qed.

Lemma StronglySorted_lookup {A} (R : A → A → Prop) l i j x y :
  StronglySorted R l → l !! i = Some x → l !! j = Some y → (i < j)%nat → R x y.
Proof.
  intros Hs. revert i j. induction Hs as [|a l Hl IH Ha]; intros i j Hi Hj Hlt; [done|].
  destruct j as [|j]; [lia|]. destruct i as [|i]; simpl in *.
  - injection Hi as ->. rewrite Forall_forall in Ha. apply Ha. by eapply list_elem_of_lookup_2.
  - eapply IH; eauto. lia.
Qed.

Lemma select_rows_NoDup table symbol interval :
  table_ok table → NoDup (md_timestamp <$> select_rows table symbol interval).
Proof.
  intros [_ Hnd]. rewrite select_rows_perm.
  induction table as [|r table IH]; [constructor|].
  rewrite fmap_cons in Hnd. apply NoDup_cons in Hnd as [Hr Hnd]. rewrite filter_cons.
  destruct (decide _) as [[Hs Hi]|]; [|by apply IH]. rewrite fmap_cons. apply NoDup_cons. split; [|by apply IH].
  intros (r' & Ht & [[Hs' Hi'] Hin]%list_elem_of_filter)%list_elem_of_fmap. apply Hr.
  apply list_elem_of_fmap. exists r'. split; [|done]. unfold row_key. by rewrite Hs, Hi, Hs', Hi', Ht.
Qed.

Lemma load_market_bars_ok table symbol interval :
  table_ok table →
  Forall bar_ok (load_market_bars table symbol interval) ∧
  increasing (load_market_bars table symbol interval).
Proof.
  intros Ht. unfold load_market_bars. split.
  - apply Forall_fmap, Forall_forall. intros r Hr. simpl.
    rewrite select_rows_perm in Hr. apply list_elem_of_filter in Hr as [_ Hr].
    destruct Ht as [Hall _]. rewrite Forall_forall in Hall. by apply row_ok_bar_ok, Hall.
  - intros i j bi bj Hi Hj Hlt.
    apply list_lookup_fmap_Some in Hi as (ri & -> & Hi). apply list_lookup_fmap_Some in Hj as (rj & -> & Hj).
    pose proof (StronglySorted_lookup _ _ _ _ _ _ (select_rows_sorted table symbol interval) Hi Hj Hlt) as Hle.
    unfold earlier in Hle. simpl.
    assert (md_timestamp ri ≠ md_timestamp rj); [|lia]. intros E.
    pose proof (select_rows_NoDup table symbol interval Ht) as Hnd. rewrite NoDup_alt in Hnd.
    assert (i = j); [|lia]. apply (Hnd i j (md_timestamp ri)); rewrite list_lookup_fmap; [by rewrite Hi|].
    rewrite Hj. simpl. by rewrite E.
Qed.

(** ** The theorem *)

(** Loading bars from a table that satisfies its constraints returns every
    row of the symbol and interval exactly once, as well-formed bars in
    strictly ascending timestamp order, whatever the storage order. *)
Theorem load_market_bars_well_formed table symbol interval (Htable : table_ok table) :
  load_market_bars table symbol interval ≡ₚ
    (bar_of_row <$> filter (λ r, md_symbol r = symbol ∧ md_interval r = interval) table) ∧
  Forall bar_ok (load_market_bars table symbol interval) ∧
  increasing (load_market_bars table symbol interval).
Proof.
  split; [|by apply load_market_bars_ok]. unfold load_market_bars. by rewrite select_rows_perm.
Qed.

(** The sample bars as rows, stored newest first. *)
Definition sample_table : list MarketDataRow :=
  Eval vm_compute in reverse ((λ b, mkRow "SPY" "1d" (bar_timestamp b) (open_price b) (high_price b) (low_price b)
                   (close_price b) None (volume b) 0 0) <$> sample_bars).

Lemma sample_table_ok : table_ok sample_table.
Proof.
  split.
  - unfold sample_table.
    repeat (apply Forall_cons; split; [split; vm_compute; reflexivity|]). by apply Forall_nil.
  - apply (NoDup_fmap_1 snd). rewrite <- list_fmap_compose. apply NoDup_ListNoDup.
    unfold sample_table. simpl. repeat constructor; simpl; lia.
Qed.

Lemma load_market_bars_well_formed_witness :
  load_market_bars sample_table "SPY" "1d" = sample_bars ∧
  increasing (load_market_bars sample_table "SPY" "1d").
Proof.
  split; [vm_compute; reflexivity|]. apply (load_market_bars_well_formed sample_table "SPY" "1d" sample_table_ok).
Defined.
