(* ===== verification/Sma.v ===== *)
(** * Simple moving averages and crossover signals
    ([backend/app/backtesting/sma_crossover.py])

    [simple_moving_averages] keeps a rolling total; the theorems relate it to
    the mean of the trailing window, show when it has a value, and show that it
    looks at no later bar. *)

From S2P Require Import Prelude Decimal Models Samples.
From Stdlib Require Import ZArith QArith Lqa Lia.
From stdpp Require Import base list option strings.
Local Open Scope Z_scope.

(** ** Definitions *)

(** The body of the loop of [simple_moving_averages] at [index]: the bar enters
    the rolling total, the bar [window] places back leaves it. *)
Definition sma_step (bars : list MarketBar) (window : nat) (index : nat) (bar : MarketBar)
    (rolling_total : decimal) : result (decimal * option decimal) :=
  let rolling_total := dadd rolling_total (close_price bar) in
  rolling_total ←
    (if (window <=? index)%nat then
       old ← py_index bars (index - window); Ok (dsub rolling_total (close_price old))
     else Ok rolling_total);
  average ←
    (if (window - 1 <=? index)%nat then
       v ← ddiv rolling_total (dec_of_Z (Z.of_nat window)); Ok (Some v)
     else Ok None);
  Ok (rolling_total, average).

Fixpoint sma_loop (bars : list MarketBar) (window : nat) (index : nat)
    (rest : list MarketBar) (rolling_total : decimal) : result (list (option decimal)) :=
  match rest with
  | [] => Ok []
  | bar :: rest =>
      st ← sma_step bars window index bar rolling_total;
      averages ← sma_loop bars window (S index) rest st.1;
      Ok (st.2 :: averages)
  end.

Definition simple_moving_averages (bars : list MarketBar) (window : Z)
    : result (list (option decimal)) :=
  if window <=? 0 then Err (ValueError "SMA window must be positive")
  else sma_loop bars (Z.to_nat window) 0 bars dzero.

(** The crossover test of one index, on the previous and current averages. *)
Definition crossover_signal (ts : datetime)
    (previous_short previous_long current_short current_long : option decimal)
    : list Signal :=
  match previous_short, previous_long, current_short, current_long with
  | Some ps, Some pl, Some cs, Some cl =>
      if dle ps pl && dgt cs cl then [mkSignal ts BUY]
      else if dge ps pl && dlt cs cl then [mkSignal ts SELL]
      else []
  | _, _, _, _ => []
  end.

Definition generate_sma_crossover_signals (bars : list MarketBar)
    (short_window long_window : Z) : result (list Signal) :=
  if (short_window <=? 0) || (long_window <=? 0) then
    Err (ValueError "SMA windows must be positive")
  else if long_window <=? short_window then
    Err (ValueError "short_window must be less than long_window")
  else
    short_smas ← simple_moving_averages bars short_window;
    long_smas ← simple_moving_averages bars long_window;
    foldM (λ signals index,
      previous_short ← py_index short_smas (index - 1);
      previous_long ← py_index long_smas (index - 1);
      current_short ← py_index short_smas index;
      current_long ← py_index long_smas index;
      bar ← py_index bars index;
      Ok (signals ++ crossover_signal (bar_timestamp bar)
                       previous_short previous_long current_short current_long))
      [] (seq 1 (length bars - 1)).

(** Reference: the exact sum of a list of closes, and the trailing window of
    [w] closes that ends at index [i]. *)
Fixpoint Qsum (l : list Q) : Q :=
  match l with [] => 0%Q | x :: l => (x + Qsum l)%Q end.

Definition closes (bars : list MarketBar) : list Q := (λ b, dval (close_price b)) <$> bars.

Definition trailing (bars : list MarketBar) (w i : nat) : list Q :=
  drop (S i - w) (take (S i) (closes bars)).

(** Bars whose closes are whole multiples of 10^g, of at most [B] units: what
    [numeric(18, 8)] columns give with g = -8 and B = 10^18 - 1. *)
Definition closes_on_grid (g B : Z) (bars : list MarketBar) : Prop :=
  Forall (λ b, on_grid g B (dval (close_price b))) bars.

(** ** The loop *)
Lemma Qsum_app l1 l2 : (Qsum (l1 ++ l2) == Qsum l1 + Qsum l2)%Q.
Proof. induction l1 as [|x l1 IH]; simpl; [ring|]. rewrite IH. ring. Qed.

Lemma Qsum_on_grid g B l :
  Forall (on_grid g B) l → on_grid g (Z.of_nat (length l) * B) (Qsum l).
Proof.
  induction 1 as [|x l Hx Hl IH]; simpl.
  - apply on_grid_0. lia.
  - eapply on_grid_weaken; [|by apply on_grid_add]. lia.
Qed.

Lemma sma_step_total bars w i bar t :
  (0 < w)%nat → (i < length bars)%nat →
  ∃ t' a, sma_step bars w i bar t = Ok (t', a) ∧
    (a = None ↔ (S i < w)%nat) ∧
    (∀ v, a = Some v → rounds_to (dval t' / inject_Z (Z.of_nat w)) v).
Proof.
  intros Hw Hi. unfold sma_step.
  assert (∃ t1, (if (w <=? i)%nat then
       old ← py_index bars (i - w); Ok (dsub (dadd t (close_price bar)) (close_price old))
     else Ok (dadd t (close_price bar))) = Ok t1) as [t1 ->].
  { destruct (Nat.leb_spec w i); [|eauto].
    destruct (py_index_ok_lt bars (i - w)) as (old & -> & _); [lia|]. simpl. eauto. }
  simpl. destruct (Nat.leb_spec (w - 1) i) as [Hle|Hlt].
  - destruct (ddiv_rounds t1 (dec_of_Z (Z.of_nat w))) as (r & -> & Hr).
    { rewrite dval_dec_of_Z. intros E. apply (proj1 (inject_Z_injective _ 0%Z)) in E. lia. }
    rewrite dval_dec_of_Z in Hr. simpl. exists t1, (Some r).
    split; [done|]. split; [split; [done|lia]|]. by intros v [= ->].
  - simpl. exists t1, None. split; [done|]. split; [split; [lia|done]|done].
Qed.

Lemma sma_loop_total bars w i rest t :
  (0 < w)%nat → (i + length rest = length bars)%nat →
  ∃ l, sma_loop bars w i rest t = Ok l ∧ length l = length rest ∧
    ∀ j a, l !! j = Some a → (a = None ↔ (S (i + j) < w)%nat).
Proof.
  revert i t; induction rest as [|b rest IH]; intros i t Hw Hlen; simpl in *.
  - exists []. split; [done|]. split; [done|]. intros j a Hj. done.
  - destruct (sma_step_total bars w i b t Hw ltac:(lia)) as (t' & a & -> & Ha & _). simpl.
    destruct (IH (S i) t' Hw ltac:(lia)) as (l & -> & Hl & HN). simpl.
    exists (a :: l). split; [done|]. split; [simpl; lia|].
    intros [|j] a' Hj; simpl in Hj.
    + injection Hj as <-. by rewrite Nat.add_0_r.
    + rewrite (HN j a' Hj). lia.
Qed.

Lemma closes_app b1 b2 : closes (b1 ++ b2) = closes b1 ++ closes b2.
Proof. apply fmap_app. Qed.

Lemma length_closes bars : length (closes bars) = length bars.
Proof. apply length_fmap. Qed.

Lemma closes_grid g B bars : closes_on_grid g B bars → Forall (on_grid g B) (closes bars).
Proof. intros H. by apply Forall_fmap. Qed.

(** The rolling total is the exact sum of the trailing window. *)
Lemma sma_step_window g B pre b rest w t t' a :
  (0 < w)%nat → (Z.of_nat w + 1) * B < 10 ^ prec → 0 <= B →
  closes_on_grid g B (pre ++ b :: rest) →
  (dval t == Qsum (drop (length pre - w) (closes pre)))%Q →
  sma_step (pre ++ b :: rest) w (length pre) b t = Ok (t', a) →
  (dval t' == Qsum (drop (S (length pre) - w) (closes (pre ++ [b]))))%Q.
Proof.
  intros Hw HB HB0 Hgrid Ht Hstep.
  assert (Forall (on_grid g B) (closes pre)) as Hpre.
  { apply closes_grid. unfold closes_on_grid in Hgrid. by apply Forall_app in Hgrid as [? _]. }
  assert (on_grid g B (dval (close_price b))) as Hb.
  { unfold closes_on_grid in Hgrid. apply Forall_app in Hgrid as [_ Hg]. by apply Forall_cons_iff in Hg as [? _]. }
  assert (∀ n, (length pre - w <= n)%nat →
    on_grid g (Z.of_nat w * B) (Qsum (drop n (closes pre)))) as Hwin.
  { intros n Hn. eapply on_grid_weaken; [|apply Qsum_on_grid, Forall_drop, Hpre].
    apply Z.mul_le_mono_nonneg_r; [done|]. rewrite length_drop, length_closes. lia. }
  assert (dval (dadd t (close_price b)) == dval t + dval (close_price b))%Q as Hadd.
  { eapply (dadd_exact g (Z.of_nat w * B) B); [rewrite Ht; by apply Hwin|done|lia]. }
  unfold sma_step in Hstep. apply bind_Ok_inv in Hstep as (t1 & Ht1 & Hstep).
  apply bind_Ok_inv in Hstep as (a1 & _ & [= <- _]).
  rewrite closes_app. unfold closes at 2; simpl.
  destruct (Nat.leb_spec w (length pre)) as [Hle|Hlt]; bind_inv.
  - apply py_index_Ok in Hr. rewrite lookup_app_l in Hr by lia.
    assert (drop (length pre - w) (closes pre)
            = dval (close_price r) :: drop (S (length pre) - w) (closes pre)) as Hd.
    { replace (S (length pre) - w)%nat with (S (length pre - w)) by lia.
      apply drop_S. unfold closes. by rewrite list_lookup_fmap, Hr. }
    rewrite drop_app_le by (rewrite length_closes; lia).
    assert (dval t + dval (close_price b) - dval (close_price r)
            == Qsum (drop (S (length pre) - w) (closes pre)) + dval (close_price b))%Q as Heq.
    { rewrite Ht, Hd. simpl. ring. }
    rewrite Qsum_app. simpl. rewrite Qplus_0_r, <- Heq, <- Hadd.
    eapply (dsub_exact g (Z.of_nat w * B + B)); [|lia].
    rewrite Hadd, Heq. apply on_grid_add; [apply Hwin; lia|done].
  - rewrite Hadd, Ht.
    replace (length pre - w)%nat with 0%nat by lia. replace (S (length pre) - w)%nat with 0%nat by lia.
    rewrite !drop_0, Qsum_app. simpl. ring.
Qed.

Lemma trailing_prefix pre b rest w :
  trailing (pre ++ b :: rest) w (length pre) = drop (S (length pre) - w) (closes (pre ++ [b])).
Proof.
  unfold trailing. f_equal. rewrite cons_middle, app_assoc, closes_app.
  rewrite take_app_length'; [done|]. rewrite length_closes, length_app. simpl. lia.
Qed.

Lemma sma_loop_mean g B w pre rest t l :
  (0 < w)%nat → (Z.of_nat w + 1) * B < 10 ^ prec → 0 <= B →
  closes_on_grid g B (pre ++ rest) →
  (dval t == Qsum (drop (length pre - w) (closes pre)))%Q →
  sma_loop (pre ++ rest) w (length pre) rest t = Ok l →
  ∀ j v, l !! j = Some (Some v) →
    rounds_to (Qsum (trailing (pre ++ rest) w (length pre + j)) / inject_Z (Z.of_nat w)) v.
Proof.
  intros Hw HB HB0. revert pre t l; induction rest as [|b rest IH]; intros pre t l Hg Ht Hl j v Hj;
    simpl in Hl; bind_inv; [done|].
  destruct r as [t' a]; simpl in *.
  pose proof (sma_step_window g B pre b rest w t t' a Hw HB HB0 Hg Ht Hr) as Ht'.
  destruct j as [|j]; simpl in Hj.
  - injection Hj as ->. rewrite Nat.add_0_r, trailing_prefix, <- Ht'.
    destruct (sma_step_total (pre ++ b :: rest) w (length pre) b t Hw) as (t2 & a2 & Hs & _ & Hv).
    { rewrite length_app. simpl. lia. }
    rewrite Hr in Hs. injection Hs as <- <-. by apply Hv.
  - rewrite cons_middle, app_assoc in Hg, Hr0 |- *.
    replace (length pre + S j)%nat with (length (pre ++ [b]) + j)%nat
      by (rewrite length_app; simpl; lia).
    assert (length (pre ++ [b]) = S (length pre)) as Hlen by (rewrite length_app; simpl; lia).
    rewrite <- Hlen in Hr0. eapply IH; [done| |exact Hr0|done]. by rewrite Hlen.
Qed.

(** Later bars do not enter the averages of earlier ones. *)
Lemma sma_step_prefix b1 b2 w i bar t :
  (i < length b1)%nat → sma_step (b1 ++ b2) w i bar t = sma_step b1 w i bar t.
Proof.
  intros Hi. unfold sma_step. destruct (Nat.leb_spec w i); [|done].
  unfold py_index. by rewrite lookup_app_l by lia.
Qed.

Lemma sma_loop_prefix b1 b2 w i rest1 rest2 t l :
  (i + length rest1 = length b1)%nat →
  sma_loop (b1 ++ b2) w i (rest1 ++ rest2) t = Ok l →
  sma_loop b1 w i rest1 t = Ok (take (length rest1) l).
Proof.
  revert i t l; induction rest1 as [|b rest1 IH]; intros i t l Hlen Hl; simpl in *; [done|].
  bind_inv. rewrite sma_step_prefix in Hr by lia. rewrite Hr. simpl.
  rewrite (IH (S i) r.1 r0) by (done || lia). done.
Qed.

(** ** Properties of [simple_moving_averages] *)
Section averages.
Context (bars : list MarketBar) (window : Z) (Hwindow : 0 < window).

Lemma sma_unfold : simple_moving_averages bars window = sma_loop bars (Z.to_nat window) 0 bars dzero.
Proof. unfold simple_moving_averages. destruct (Z.leb_spec window 0); [lia|done]. Qed.

Lemma sma_total :
  ∃ l, simple_moving_averages bars window = Ok l ∧ length l = length bars ∧
    ∀ i a, l !! i = Some a → (a = None ↔ Z.of_nat i < window - 1).
Proof.
  rewrite sma_unfold.
  destruct (sma_loop_total bars (Z.to_nat window) 0 bars dzero) as (l & -> & Hlen & HN); [lia|lia|].
  exists l. split; [done|]. split; [done|]. intros i a Ha. rewrite (HN i a Ha). lia.
Qed.

Lemma sma_Ok_inv l : simple_moving_averages bars window = Ok l →
  length l = length bars ∧ ∀ i a, l !! i = Some a → (a = None ↔ Z.of_nat i < window - 1).
Proof. intros Hl. destruct sma_total as (l' & Hl' & H). rewrite Hl in Hl'. injection Hl' as <-. exact H. Qed.

Lemma sma_mean_lookup g B l :
  (window + 1) * B < 10 ^ prec → 0 <= B → closes_on_grid g B bars →
  simple_moving_averages bars window = Ok l →
  ∀ i v, l !! i = Some (Some v) →
    rounds_to (Qsum (trailing bars (Z.to_nat window) i) / inject_Z window) v.
Proof.
  rewrite sma_unfold. intros HB HB0 Hg Hl i v Hv.
  pose proof (sma_loop_mean g B (Z.to_nat window) [] bars dzero l) as H. simpl in H.
  rewrite Z2Nat.id in H by lia. refine (H _ HB HB0 Hg _ Hl i v Hv); [lia|].
  rewrite dval_dzero. reflexivity.
Qed.
End averages.

Lemma sma_take b1 b2 window l :
  0 < window → simple_moving_averages (b1 ++ b2) window = Ok l →
  simple_moving_averages b1 window = Ok (take (length b1) l).
Proof.
  intros Hw. rewrite !sma_unfold by done. by apply sma_loop_prefix.
Qed.

Lemma sma_nonpos bars window :
  window <= 0 → simple_moving_averages bars window = Err (ValueError "SMA window must be positive").
Proof. intros. unfold simple_moving_averages. destruct (Z.leb_spec window 0); [done|lia]. Qed.

#[export] Hint Resolve sma_total sma_take : atp.

(** ** The theorem *)

(** A simple moving average is the mean of the trailing closes: one value
    per bar, absent exactly during the [window - 1] bars of warm-up, and each
    value the correctly rounded exact mean of the last [window] closes, for
    closes on a price grid that 28 digits can sum; the running total of the
    loop never drifts. *)
Theorem sma_is_trailing_mean bars window g B
    (Hwindow : 0 < window) (HB : (window + 1) * B < 10 ^ prec) (HB0 : 0 <= B)
    (Hgrid : closes_on_grid g B bars) :
  ∃ averages, simple_moving_averages bars window = Ok averages ∧
    length averages = length bars ∧
    ∀ i a, averages !! i = Some a →
      match a with
      | None => Z.of_nat i < window - 1
      | Some v => window - 1 <= Z.of_nat i ∧
          rounds_to (Qsum (trailing bars (Z.to_nat window) i) / inject_Z window) v
      end.
Proof.
  destruct (sma_total bars window Hwindow) as (l & Hl & Hlen & HN).
  exists l. split; [done|]. split; [done|]. intros i [v|] Hi.
  - split; [|by eapply sma_mean_lookup].
    destruct (Z.le_gt_cases (window - 1) (Z.of_nat i)); [done|].
    assert (Some v = None) by (apply (HN i); [done|lia]). done.
  - by apply (HN i None Hi).
Qed.

Lemma sma_is_trailing_mean_witness :
  ∃ averages, simple_moving_averages sample_bars 3 = Ok averages ∧
    averages !! 1%nat = Some None ∧ averages !! 2%nat = Some (Some (Dec false 10350 (-2))) ∧
    length averages = 7%nat.
Proof.
  destruct (sma_is_trailing_mean sample_bars 3 (-2) 1000000) as (l & Hl & Hlen & _).
  - lia.
  - vm_compute. reflexivity.
  - lia.
  - unfold sample_bars, closes_on_grid.
    repeat (apply Forall_cons; split; [apply on_gridb_spec; vm_compute; reflexivity|]). by apply Forall_nil.
  - exists l. split; [exact Hl|]. vm_compute in Hl. injection Hl as <-. repeat split.
Defined.
