(* ===== verification/StrategySpec.v ===== *)
(** * Strategy specifications and drafts
    ([backend/app/schemas/strategy_spec.py])

    The pydantic models as records.  A [Literal] field is a string (or int)
    here; what pydantic checks when it builds an instance (the literals, the
    bounds of the risk percentages) is the boolean [spec_schema_ok]. *)

From S2P Require Import Prelude Decimal.
From Stdlib Require Import ZArith QArith Lia.
From stdpp Require Import base list option strings.
Local Open Scope Z_scope.

(** ** JSON values, as [model_dump(mode="json")] produces them *)
Inductive json : Type :=
  | JNull
  | JBool (b : bool)
  | JInt (z : Z)
  | JStr (s : string)
  | JList (l : list json)
  | JObj (fields : list (string * json)).

(** ** Enumerations *)
Inductive IndicatorName : Type := SMA | EMA.

Inductive Operator : Type :=
  | CROSSES_ABOVE | CROSSES_BELOW | GREATER_THAN | LESS_THAN
  | GREATER_THAN_OR_EQUAL | LESS_THAN_OR_EQUAL.

#[global] Instance IndicatorName_eq_dec : EqDecision IndicatorName.
Proof. solve_decision. Defined.
#[global] Instance Operator_eq_dec : EqDecision Operator.
Proof. solve_decision. Defined.

(** [.value] of the [StrEnum]s *)
Definition IndicatorName_value (n : IndicatorName) : string :=
  match n with SMA => "sma" | EMA => "ema" end.

Definition Operator_value (o : Operator) : string :=
  match o with
  | CROSSES_ABOVE => "crosses_above"
  | CROSSES_BELOW => "crosses_below"
  | GREATER_THAN => "greater_than"
  | LESS_THAN => "less_than"
  | GREATER_THAN_OR_EQUAL => "greater_than_or_equal"
  | LESS_THAN_OR_EQUAL => "less_than_or_equal"
  end.

(** [set(IndicatorName)], [set(Operator)] *)
Definition all_indicators : list IndicatorName := [SMA; EMA].
Definition all_operators : list Operator :=
  [CROSSES_ABOVE; CROSSES_BELOW; GREATER_THAN; LESS_THAN;
   GREATER_THAN_OR_EQUAL; LESS_THAN_OR_EQUAL].

(** ** Specifications *)

(** The union discriminated by [type]: the constructor is the discriminator. *)
Inductive Operand : Type :=
  | IndicatorOperand (name : IndicatorName) (source : string) (period : Z)
  | PriceOperand (source : string)
  | ConstantOperand (value : decimal).

Record Condition : Type := mkCondition {
  left : Operand; operator : Operator; right : Operand }.

Record ExecutionSettings : Type := mkExecutionSettings {
  direction : string;
  position_size_percent : Z;
  signal_execution : string }.

Record StrategySpecification : Type := mkSpecification {
  version : string;
  symbol : string;
  interval : string;
  entry : Condition;
  exit : Condition;
  execution : ExecutionSettings;
  stop_loss_percent : option pydecimal;
  take_profit_percent : option pydecimal }.

#[global] Instance pydecimal_eq_dec : EqDecision pydecimal.
Proof. solve_decision. Defined.
#[global] Instance Operand_eq_dec : EqDecision Operand.
Proof. solve_decision. Defined.
#[global] Instance Condition_eq_dec : EqDecision Condition.
Proof. solve_decision. Defined.
#[global] Instance ExecutionSettings_eq_dec : EqDecision ExecutionSettings.
Proof. solve_decision. Defined.
#[global] Instance StrategySpecification_eq_dec : EqDecision StrategySpecification.
Proof. solve_decision. Defined.

Definition MAX_RISK_PERCENT : decimal := dec_of_Z 50.

(** [Field(gt=0, le=MAX_RISK_PERCENT, allow_inf_nan=False)] *)
Definition risk_field_ok (v : option pydecimal) : bool :=
  match v with
  | None => true
  | Some (Finite d) => dgt d dzero && dle d MAX_RISK_PERCENT
  | Some _ => false
  end.

Definition operand_schema_ok (o : Operand) : bool :=
  match o with
  | IndicatorOperand _ source _ | PriceOperand source => bool_decide (source = "close"%string)
  | ConstantOperand _ => true
  end.

Definition condition_schema_ok (c : Condition) : bool :=
  operand_schema_ok (left c) && operand_schema_ok (right c).

Definition execution_schema_ok (e : ExecutionSettings) : bool :=
  bool_decide (direction e = "long"%string) && (position_size_percent e =? 100)
  && bool_decide (signal_execution e = "next_bar_open"%string).

(** What pydantic enforces on every [StrategySpecification] it builds. *)
Definition spec_schema_ok (s : StrategySpecification) : bool :=
  bool_decide (version s = "1.0"%string) && bool_decide (symbol s = "SPY"%string)
  && bool_decide (interval s = "1d"%string)
  && condition_schema_ok (entry s) && condition_schema_ok (exit s)
  && execution_schema_ok (execution s)
  && risk_field_ok (stop_loss_percent s) && risk_field_ok (take_profit_percent s).

(** Construction with validation. *)
Definition validated (s : StrategySpecification) : result StrategySpecification :=
  if spec_schema_ok s then Ok s else Err ValidationError.

(** ** Provider drafts *)
Inductive OperandType : Type := IndicatorType | PriceType | ConstantType.

Record OperandDraft : Type := mkOperandDraft {
  od_type : OperandType;
  od_name : option IndicatorName;
  od_source : option string;
  od_period : option Z;
  od_value : option decimal }.

Record ConditionDraft : Type := mkConditionDraft {
  cd_left : OperandDraft;
  cd_operator : option Operator;
  cd_right : OperandDraft }.

Record StrategyParseDraft : Type := mkDraft {
  d_symbol : option string;
  d_interval : option string;
  d_entry : option ConditionDraft;
  d_exit : option ConditionDraft;
  d_direction : option string;
  d_position_size_percent : option Z;
  d_signal_execution : option string }.

#[global] Instance OperandType_eq_dec : EqDecision OperandType.
Proof. solve_decision. Defined.
#[global] Instance OperandDraft_eq_dec : EqDecision OperandDraft.
Proof. solve_decision. Defined.
#[global] Instance ConditionDraft_eq_dec : EqDecision ConditionDraft.
Proof. solve_decision. Defined.

(** The literals of the drafts, enforced by pydantic on the provider's output. *)
Definition literal_ok (lit : string) (v : option string) : bool :=
  match v with None => true | Some s => bool_decide (s = lit) end.

Definition operand_draft_ok (o : OperandDraft) : bool := literal_ok "close" (od_source o).
Definition condition_draft_ok (c : ConditionDraft) : bool :=
  operand_draft_ok (cd_left c) && operand_draft_ok (cd_right c).

Definition draft_schema_ok (d : StrategyParseDraft) : bool :=
  literal_ok "SPY" (d_symbol d) && literal_ok "1d" (d_interval d)
  && match d_entry d with Some c => condition_draft_ok c | None => true end
  && match d_exit d with Some c => condition_draft_ok c | None => true end
  && literal_ok "long" (d_direction d)
  && match d_position_size_percent d with Some p => p =? 100 | None => true end
  && literal_ok "next_bar_open" (d_signal_execution d).

(** ** Parse results *)
Inductive AssumptionConfidence : Type := HIGH | MEDIUM | LOW.

Record StrategyAssumption : Type := mkAssumption {
  a_field : string;
  inferred_value : json;
  a_reason : string;
  confidence : AssumptionConfidence;
  a_requires_confirmation : bool }.

Record AppliedDefault : Type := mkDefault {
  df_field : string; df_value : json; df_reason : string }.

Record ParsedStrategyResult : Type := mkParsed {
  specification : StrategySpecification;
  assumptions : list StrategyAssumption;
  defaults_applied : list AppliedDefault;
  requires_confirmation : bool;
  original_text : string }.

(** ** Facts *)
Lemma all_operators_complete o : o ∈ all_operators.
Proof. destruct o; repeat (apply elem_of_cons; (left; reflexivity) || right); done. Qed.

Lemma all_indicators_complete n : n ∈ all_indicators.
Proof. destruct n; repeat (apply elem_of_cons; (left; reflexivity) || right); done. Qed.

Lemma risk_field_ok_spec v : risk_field_ok v = true ↔
  match v with
  | None => True
  | Some (Finite d) => (0 < dval d <= 50)%Q
  | Some _ => False
  end.
Proof.
  destruct v as [[d| |]|]; simpl; try done.
  rewrite andb_true_iff. unfold dgt. rewrite dlt_val, dle_val.
  rewrite dval_dzero. unfold MAX_RISK_PERCENT. by rewrite dval_dec_of_Z.
Qed.
