(* ===== verification/StrategySemantics.v ===== *)
(** * Semantic validation of specifications
    ([backend/app/services/strategy_semantics.py])

    The checks made beyond pydantic's, in the order the code makes them, with
    the messages it raises. *)

From S2P Require Import Prelude Decimal StrategySpec.
From Stdlib Require Import ZArith QArith Lia.
From stdpp Require Import base list option strings.
Local Open Scope Z_scope.

(** ** Definitions *)

(** [str + str] of messages *)
Notation "a +:+ b" := (String.append a b) (at level 60, right associativity) : string_scope.

Definition validate_risk_percent (value : option pydecimal) (label : string) : result unit :=
  match value with
  | None => Ok ()
  | Some (Finite d) =>
      raise_if (dle d dzero || dgt d MAX_RISK_PERCENT)
        (StrategyValidationError
           (label +:+ " must be greater than 0% and no greater than 50%."))
  | Some _ =>
      Err (StrategyValidationError
             (label +:+ " must be greater than 0% and no greater than 50%."))
  end.

Definition validate_operand (operand : Operand) (field_name : string) : result unit :=
  match operand with
  | IndicatorOperand name source period =>
      _ ← raise_if (negb (bool_decide (name ∈ all_indicators)))
            (StrategyValidationError ("Unsupported " +:+ field_name +:+ " indicator."));
      _ ← raise_if (negb (bool_decide (source = "close"%string)))
            (StrategyValidationError "Only raw close price is currently supported.");
      raise_if (negb ((1 <=? period) && (period <=? 1000)))
        (StrategyValidationError
           "Indicator periods must be positive integers no greater than 1,000.")
  | PriceOperand source =>
      raise_if (negb (bool_decide (source = "close"%string)))
        (StrategyValidationError "Only raw close price is currently supported.")
  | ConstantOperand _ => Ok ()
  end.

Definition validate_condition (condition : Condition) (field_name : string) : result unit :=
  _ ← raise_if (negb (bool_decide (operator condition ∈ all_operators)))
        (StrategyValidationError ("Unsupported " +:+ field_name +:+ " operator."));
  _ ← validate_operand (left condition) field_name;
  validate_operand (right condition) field_name.

Definition validate_strategy_semantics (s : StrategySpecification) : result unit :=
  _ ← raise_if (negb (bool_decide (symbol s = "SPY"%string)))
        (StrategyValidationError "Only SPY is supported in version 1.");
  _ ← raise_if (negb (bool_decide (interval s = "1d"%string)))
        (StrategyValidationError "Only daily (1d) bars are supported in version 1.");
  _ ← raise_if (negb (bool_decide (direction (execution s) = "long"%string)))
        (StrategyValidationError "Only long-only strategies are supported in version 1.");
  _ ← raise_if (negb (position_size_percent (execution s) =? 100))
        (StrategyValidationError "Position size must be exactly 100% in version 1.");
  _ ← raise_if (negb (bool_decide (signal_execution (execution s) = "next_bar_open"%string)))
        (StrategyValidationError "Signals must execute at the next available bar open.");
  _ ← validate_condition (entry s) "entry";
  _ ← validate_condition (exit s) "exit";
  _ ← validate_risk_percent (stop_loss_percent s) "Stop-loss";
  validate_risk_percent (take_profit_percent s) "Take-profit".

(** The specifications the backtester supports, as a predicate. *)
Definition operand_supported (o : Operand) : Prop :=
  match o with
  | IndicatorOperand _ source period => source = "close"%string ∧ 1 <= period <= 1000
  | PriceOperand source => source = "close"%string
  | ConstantOperand _ => True
  end.

Definition condition_supported (c : Condition) : Prop :=
  operand_supported (left c) ∧ operand_supported (right c).

Definition risk_supported (v : option pydecimal) : Prop :=
  match v with
  | None => True
  | Some (Finite d) => (0 < dval d <= 50)%Q
  | Some _ => False
  end.

Definition spec_supported (s : StrategySpecification) : Prop :=
  symbol s = "SPY"%string ∧ interval s = "1d"%string ∧
  execution s = mkExecutionSettings "long" 100 "next_bar_open" ∧
  condition_supported (entry s) ∧ condition_supported (exit s) ∧
  risk_supported (stop_loss_percent s) ∧ risk_supported (take_profit_percent s).

(** ** Lemmas *)
Lemma raise_if_unit (c : bool) (e : exn) : raise_if c e = Ok () ↔ c = false.
Proof. by destruct c. Qed.

Lemma validate_risk_percent_iff v label : validate_risk_percent v label = Ok () ↔ risk_supported v.
Proof.
  destruct v as [[d| |]|]; simpl; try done. rewrite raise_if_unit, orb_false_iff.
  unfold dgt. rewrite dle_val_false, dlt_val_false, dval_dzero.
  unfold MAX_RISK_PERCENT. by rewrite dval_dec_of_Z.
Qed.

Lemma validate_operand_iff o f : validate_operand o f = Ok () ↔ operand_supported o.
Proof.
  destruct o as [n src p|src|v]; simpl.
  - rewrite (bool_decide_eq_true_2 (n ∈ _)) by apply all_indicators_complete. simpl.
    case_bool_decide; simpl; [|naive_solver].
    rewrite raise_if_unit, negb_false_iff, andb_true_iff, !Z.leb_le. naive_solver.
  - case_bool_decide; naive_solver.
  - done.
Qed.

Lemma validate_condition_iff c f : validate_condition c f = Ok () ↔ condition_supported c.
Proof.
  unfold validate_condition, condition_supported.
  rewrite (bool_decide_eq_true_2 (operator c ∈ _)) by apply all_operators_complete. simpl.
  rewrite <- (validate_operand_iff (left c) f), <- (validate_operand_iff (right c) f).
  destruct (validate_operand (left c) f) as [[]|]; simpl; naive_solver.
Qed.

Lemma bind_unit_Ok (m k : result unit) :
  (m ≫= λ _, k) = Ok () ↔ m = Ok () ∧ k = Ok ().
Proof. destruct m as [[]|]; simpl; naive_solver. Qed.

Lemma validate_strategy_semantics_iff s :
  validate_strategy_semantics s = Ok () ↔ spec_supported s.
Proof.
  unfold validate_strategy_semantics, spec_supported.
  rewrite !bind_unit_Ok, !validate_condition_iff, !validate_risk_percent_iff,
    !raise_if_unit, !negb_false_iff, !bool_decide_eq_true, Z.eqb_eq.
  destruct (execution s) as [d p x]; simpl. split.
  - intros (? & ? & -> & -> & -> & ?). naive_solver.
  - intros (? & ? & [= -> -> ->] & ?). naive_solver.
Qed.

(** Every failure of the validation is a [StrategyValidationError]. *)
Definition is_validation_error (e : exn) : Prop :=
  match e with StrategyValidationError _ => True | _ => False end.

Lemma raise_if_validation c m e :
  raise_if c (StrategyValidationError m) = Err e → is_validation_error e.
Proof. intros [_ ->]%raise_if_Err. done. Qed.

Lemma validate_operand_error o f e : validate_operand o f = Err e → is_validation_error e.
Proof.
  destruct o; simpl; intros H; [|by eapply raise_if_validation|done].
  apply bind_Err_inv in H as [H|([] & _ & H)]; [by eapply raise_if_validation|].
  apply bind_Err_inv in H as [H|([] & _ & H)]; by eapply raise_if_validation.
Qed.

Lemma validate_condition_error c f e : validate_condition c f = Err e → is_validation_error e.
Proof.
  unfold validate_condition. intros H.
  apply bind_Err_inv in H as [H|([] & _ & H)]; [by eapply raise_if_validation|].
  apply bind_Err_inv in H as [H|([] & _ & H)]; by eapply validate_operand_error.
Qed.

Lemma validate_risk_percent_error v l e : validate_risk_percent v l = Err e → is_validation_error e.
Proof.
  destruct v as [[d| |]|]; simpl; [by apply raise_if_validation|by intros [= <-]..|done].
Qed.

Lemma validate_strategy_semantics_error s e :
  validate_strategy_semantics s = Err e → is_validation_error e.
Proof.
  unfold validate_strategy_semantics. intros H.
  repeat (apply bind_Err_inv in H as [H|([] & _ & H)];
    [by eauto using raise_if_validation, validate_condition_error, validate_risk_percent_error|]).
  by eapply validate_risk_percent_error.
Qed.

#[export] Hint Resolve validate_strategy_semantics_error : atp.
