(* ===== verification/StrategyCompiler.v ===== *)
(** * Compilation of specifications into signals
    ([backend/app/backtesting/strategy_compiler.py])

    Operands become columns of optional values, one per bar; conditions become
    columns of booleans; signals are read off the entry and exit columns.  The
    theorems: every supported specification evaluates without an exception, no
    signal comes before the warm-up index, no value depends on a later bar, and
    a crossover specification produces exactly the signals of
    [generate_sma_crossover_signals]. *)

From S2P Require Import Prelude Decimal Models Samples Sma StrategySpec StrategySemantics.
From Stdlib Require Import ZArith QArith Lqa Lia Sorted.
From stdpp Require Import base list option strings sets.
Local Open Scope Z_scope.

(** ** Definitions *)

(** The loop of [exponential_moving_averages] over [bars[window:]]. *)
Fixpoint ema_loop (multiplier : decimal) (index : nat) (rest : list MarketBar)
    (previous : decimal) (values : list (option decimal)) : list (option decimal) :=
  match rest with
  | [] => values
  | bar :: rest =>
      let previous := dadd (dmul (dsub (close_price bar) previous) multiplier) previous in
      ema_loop multiplier (S index) rest previous (<[index := Some previous]> values)
  end.

Definition exponential_moving_averages (bars : list MarketBar) (window : Z)
    : result (list (option decimal)) :=
  if window <=? 0 then Err (StrategyCompilationError "EMA window must be positive.")
  else
    let w := Z.to_nat window in
    let values := replicate (length bars) None in
    if (length bars <? w)%nat then Ok values
    else
      first ← ddiv (dsum (close_price <$> take w bars)) (dec_of_Z window);
      multiplier ← ddiv (dec_of_Z 2) (dec_of_Z (window + 1));
      Ok (ema_loop multiplier w (drop w bars) first (<[(w - 1)%nat := Some first]> values)).

Definition evaluate_operand (operand : Operand) (bars : list MarketBar)
    : result (list (option decimal)) :=
  match operand with
  | PriceOperand _ => Ok ((λ bar, Some (close_price bar)) <$> bars)
  | ConstantOperand value => Ok ((λ _, Some value) <$> bars)
  | IndicatorOperand SMA _ period => simple_moving_averages bars period
  | IndicatorOperand EMA _ period => exponential_moving_averages bars period
  end.

Definition compare (left right : decimal) (op : Operator) : result bool :=
  match op with
  | GREATER_THAN => Ok (dgt left right)
  | LESS_THAN => Ok (dlt left right)
  | GREATER_THAN_OR_EQUAL => Ok (dge left right)
  | LESS_THAN_OR_EQUAL => Ok (dle left right)
  | _ => Err (StrategyCompilationError "Unsupported comparison operator.")
  end.

Definition is_crossover (op : Operator) : bool :=
  match op with CROSSES_ABOVE | CROSSES_BELOW => true | _ => false end.

(** [values[index]] of [evaluate_condition]. *)
Definition condition_value (op : Operator) (left right : list (option decimal))
    (index : nat) : result bool :=
  if is_crossover op then
    if (index =? 0)%nat then Ok false
    else
      previous_left ← py_index left (index - 1);
      previous_right ← py_index right (index - 1);
      current_left ← py_index left index;
      current_right ← py_index right index;
      match previous_left, previous_right, current_left, current_right with
      | Some pl, Some pr, Some cl, Some cr =>
          match op with
          | CROSSES_ABOVE => Ok (dle pl pr && dgt cl cr)
          | _ => Ok (dge pl pr && dlt cl cr)
          end
      | _, _, _, _ => Ok false
      end
  else
    current_left ← py_index left index;
    current_right ← py_index right index;
    match current_left, current_right with
    | Some cl, Some cr => compare cl cr op
    | _, _ => Ok false
    end.

Definition evaluate_condition (condition : Condition) (bars : list MarketBar)
    : result (list bool) :=
  l ← evaluate_operand (left condition) bars;
  r ← evaluate_operand (right condition) bars;
  mapM_result (condition_value (operator condition) l r) (seq 0 (length bars)).

Definition operand_first_evaluable_index (operand : Operand) : Z :=
  match operand with IndicatorOperand _ _ period => period - 1 | _ => 0 end.

Definition condition_first_eligible_index (condition : Condition) : Z :=
  let warmup_index := Z.max (operand_first_evaluable_index (left condition))
                            (operand_first_evaluable_index (right condition)) in
  if is_crossover (operator condition) then warmup_index + 1 else warmup_index.

(** [CompiledStrategy] *)
Record CompiledStrategy : Type := mkCompiled { compiled_specification : StrategySpecification }.

Definition bar_signals (bar : MarketBar) (is_entry is_exit : bool) : list Signal :=
  (if is_entry then [mkSignal (bar_timestamp bar) BUY] else []) ++
  (if is_exit then [mkSignal (bar_timestamp bar) SELL] else []).

Definition generate_signals (self : CompiledStrategy) (bars : list MarketBar)
    : result (list Signal) :=
  entry_values ← evaluate_condition (entry (compiled_specification self)) bars;
  exit_values ← evaluate_condition (exit (compiled_specification self)) bars;
  foldM (λ signals '(index, bar),
    is_entry ← py_index entry_values index;
    is_exit ← py_index exit_values index;
    Ok (signals ++ bar_signals bar is_entry is_exit)) [] (enumerate bars).

Definition first_signal_eligible_index (self : CompiledStrategy) : Z :=
  Z.max (Z.max (condition_first_eligible_index (entry (compiled_specification self)))
               (condition_first_eligible_index (exit (compiled_specification self)))) 0.

Definition compile_strategy (s : StrategySpecification) : result CompiledStrategy :=
  _ ← validate_strategy_semantics s;
  Ok (mkCompiled s).

(** The column of EMA values after the first one, as a list. *)
Fixpoint ema_values (multiplier previous : decimal) (rest : list MarketBar) : list decimal :=
  match rest with
  | [] => []
  | bar :: rest =>
      let v := dadd (dmul (dsub (close_price bar) previous) multiplier) previous in
      v :: ema_values multiplier v rest
  end.

(** The loop of [generate_signals] as a function of its two columns, for the
    proofs. *)
Fixpoint collect_signals (bars : list MarketBar) (ev xv : list bool) : list Signal :=
  match bars, ev, xv with
  | b :: bars, e :: ev, x :: xv => bar_signals b e x ++ collect_signals bars ev xv
  | _, _, _ => []
  end.

(** ** Exponential averages *)
Lemma ema_loop_values m rest p (vs : list (option decimal)) :
  ema_loop m (length vs) rest p (vs ++ replicate (length rest) None)
    = vs ++ (Some <$> ema_values m p rest).
Proof.
  revert p vs; induction rest as [|b rest IH]; intros p vs; simpl; [done|].
  set (v := dadd _ _).
  rewrite insert_app_r_alt, Nat.sub_diag by lia. simpl.
  rewrite cons_middle, app_assoc.
  replace (S (length vs)) with (length (vs ++ [Some v])) by (rewrite length_app; simpl; lia).
  rewrite IH, <- app_assoc. done.
Qed.

Lemma ema_values_length m p rest : length (ema_values m p rest) = length rest.
Proof. revert p; induction rest as [|b rest IH]; intros p; simpl; [done|]. by rewrite IH. Qed.

Lemma ema_values_take m p r1 r2 :
  take (length r1) (ema_values m p (r1 ++ r2)) = ema_values m p r1.
Proof. revert p; induction r1 as [|b r1 IH]; intros p; simpl; [by rewrite take_0|]. by rewrite IH. Qed.

Lemma ema_columns bars window :
  0 < window →
  exponential_moving_averages bars window =
    (if (length bars <? Z.to_nat window)%nat then Ok (replicate (length bars) None)
     else
       first ← ddiv (dsum (close_price <$> take (Z.to_nat window) bars)) (dec_of_Z window);
       multiplier ← ddiv (dec_of_Z 2) (dec_of_Z (window + 1));
       Ok (replicate (Z.to_nat window - 1) None ++
           (Some <$> first :: ema_values multiplier first (drop (Z.to_nat window) bars)))).
Proof.
  intros Hw. unfold exponential_moving_averages.
  destruct (Z.leb_spec window 0); [lia|]. destruct (Nat.ltb_spec (length bars) (Z.to_nat window)) as [|Hn]; [done|].
  destruct (ddiv _ (dec_of_Z window)) as [f|]; simpl; [|done].
  destruct (ddiv _ (dec_of_Z (window + 1))) as [m|]; simpl; [|done].
  set (w := Z.to_nat window) in *. f_equal.
  replace (length bars) with ((w - 1) + (1 + length (drop w bars)))%nat by (rewrite length_drop; lia).
  rewrite !replicate_add. rewrite insert_app_r_alt by (rewrite length_replicate; lia).
  rewrite length_replicate, Nat.sub_diag. simpl. rewrite cons_middle, app_assoc.
  replace w with (length (replicate (w - 1) None ++ [Some f])) at 1
    by (rewrite length_app, length_replicate; simpl; lia).
  rewrite ema_loop_values, <- app_assoc. done.
Qed.

Lemma ema_total bars window :
  0 < window →
  ∃ l, exponential_moving_averages bars window = Ok l ∧ length l = length bars ∧
    ∀ i a, l !! i = Some a → (a = None ↔ Z.of_nat i < window - 1).
Proof.
  intros Hw. rewrite ema_columns by done.
  destruct (Nat.ltb_spec (length bars) (Z.to_nat window)) as [Hn|Hn].
  - eexists; split; [done|]. rewrite length_replicate. split; [done|].
    intros i a [-> Hi]%lookup_replicate. split; [lia|done].
  - assert (∀ z, 0 < z → ¬ (dval (dec_of_Z z) == 0)%Q) as Hnz.
    { intros z Hz E. rewrite dval_dec_of_Z in E. apply (proj1 (inject_Z_injective _ 0%Z)) in E. lia. }
    destruct (ddiv_rounds (dsum (close_price <$> take (Z.to_nat window) bars)) (dec_of_Z window)) as (f & -> & _); [by apply Hnz|].
    destruct (ddiv_rounds (dec_of_Z 2) (dec_of_Z (window + 1))) as (m & -> & _); [apply Hnz; lia|].
    cbn [mbind result_bind]. eexists; split; [done|]. split.
    + rewrite length_app, length_replicate, length_fmap. simpl.
      rewrite ema_values_length, length_drop. lia.
    + intros i a [Hi|[Hge Hi]]%lookup_app_Some.
      * apply lookup_replicate in Hi as [-> Hi]. split; [lia|done].
      * rewrite length_replicate in Hge. apply list_lookup_fmap_Some in Hi as (v & -> & _).
        split; [done|lia].
Qed.

Lemma ema_take b1 b2 window l :
  0 < window → exponential_moving_averages (b1 ++ b2) window = Ok l →
  exponential_moving_averages b1 window = Ok (take (length b1) l).
Proof.
  intros Hw. rewrite !ema_columns by done. rewrite length_app. set (w := Z.to_nat window).
  destruct (Nat.ltb_spec (length b1) w) as [H1|H1].
  - destruct (Nat.ltb_spec (length b1 + length b2) w) as [H2|H2].
    + intros [= <-]. by rewrite take_replicate, Nat.min_l by lia.
    + intros H. bind_inv. rewrite take_app_le by (rewrite length_replicate; lia).
      by rewrite take_replicate, Nat.min_l by lia.
  - destruct (Nat.ltb_spec (length b1 + length b2) w) as [H2|H2]; [lia|].
    rewrite (take_app_le b1), (drop_app_le b1) by lia.
    destruct (ddiv _ (dec_of_Z window)) as [f|]; [|done].
    destruct (ddiv _ (dec_of_Z (window + 1))) as [m|]; [|done].
    cbn [mbind result_bind]. intros [= <-]. f_equal.
    rewrite take_app_ge by (rewrite length_replicate; lia). f_equal.
    rewrite length_replicate.
    replace (length b1 - (w - 1))%nat with (S (length (drop w b1))) by (rewrite length_drop; lia).
    simpl. f_equal. by rewrite <- fmap_take, ema_values_take.
Qed.

(** ** Operand columns *)
Lemma evaluate_operand_total o bars :
  operand_supported o →
  ∃ l, evaluate_operand o bars = Ok l ∧ length l = length bars ∧
    ∀ i a, l !! i = Some a → (a = None ↔ Z.of_nat i < operand_first_evaluable_index o).
Proof.
  destruct o as [[] src p|src|v]; simpl; intros Hs.
  - apply sma_total. lia.
  - apply ema_total. lia.
  - eexists; split; [done|]. rewrite length_fmap. split; [done|].
    intros i a (b & -> & _)%list_lookup_fmap_Some. split; [done|lia].
  - eexists; split; [done|]. rewrite length_fmap. split; [done|].
    intros i a (b & -> & _)%list_lookup_fmap_Some. split; [done|lia].
Qed.

Lemma evaluate_operand_take o b1 b2 l :
  operand_supported o → evaluate_operand o (b1 ++ b2) = Ok l →
  evaluate_operand o b1 = Ok (take (length b1) l).
Proof.
  destruct o as [[] src p|src|v]; simpl; intros Hs H.
  - apply (sma_take b1 b2); [lia|done].
  - apply (ema_take b1 b2); [lia|done].
  - injection H as <-. by rewrite fmap_app, take_app_length' by (by rewrite length_fmap).
  - injection H as <-. by rewrite fmap_app, take_app_length' by (by rewrite length_fmap).
Qed.

(** ** Condition columns *)
Lemma condition_value_total op l r i :
  (i < length l)%nat → (i < length r)%nat → ∃ b, condition_value op l r i = Ok b.
Proof.
  intros Hl Hr. unfold condition_value.
  destruct (py_index_ok_lt l i Hl) as (cl & -> & _), (py_index_ok_lt r i Hr) as (cr & -> & _).
  destruct (is_crossover op) eqn:Hop.
  - destruct (Nat.eqb_spec i 0); [eauto|].
    destruct (py_index_ok_lt l (i - 1)) as (pl & -> & _); [lia|].
    destruct (py_index_ok_lt r (i - 1)) as (pr & -> & _); [lia|]. simpl.
    destruct pl, pr, cl, cr; eauto. destruct op; eauto.
  - simpl. destruct cl, cr; eauto. destruct op; simpl; eauto; done.
Qed.

Lemma condition_value_take op l r n i :
  (i < n)%nat → condition_value op (take n l) (take n r) i = condition_value op l r i.
Proof.
  intros Hi. unfold condition_value. rewrite !(py_index_take _ n i) by done.
  destruct (is_crossover op); [|done]. destruct (i =? 0)%nat; [done|].
  by rewrite !(py_index_take _ n (i - 1)) by lia.
Qed.

Lemma evaluate_condition_total c bars :
  condition_supported c →
  ∃ v, evaluate_condition c bars = Ok v ∧ length v = length bars.
Proof.
  intros [Hl Hr]. unfold evaluate_condition.
  destruct (evaluate_operand_total _ bars Hl) as (l & -> & Hll & _).
  destruct (evaluate_operand_total _ bars Hr) as (r & -> & Hlr & _). simpl.
  destruct (mapM_result_total (condition_value (operator c) l r) (seq 0 (length bars))) as [v Hv].
  { intros i Hi%elem_of_seq. apply condition_value_total; lia. }
  exists v. split; [done|]. rewrite (mapM_result_length _ _ _ Hv). apply length_seq.
Qed.

Lemma evaluate_condition_take c b1 b2 v :
  condition_supported c → evaluate_condition c (b1 ++ b2) = Ok v →
  evaluate_condition c b1 = Ok (take (length b1) v).
Proof.
  intros [Hl Hr] Hv. unfold evaluate_condition in *. bind_inv.
  rewrite (evaluate_operand_take _ _ _ _ Hl Hr0), (evaluate_operand_take _ _ _ _ Hr Hr1). simpl.
  rewrite length_app, seq_app, mapM_result_app in Hv. bind_inv.
  rewrite (mapM_result_ext _ (condition_value (operator c) r r0)), Hr2.
  - pose proof (mapM_result_length _ _ _ Hr2) as Hlen. rewrite length_seq in Hlen.
    by rewrite take_app_length'.
  - intros i Hi%elem_of_seq. apply condition_value_take. lia.
Qed.

Lemma evaluate_condition_lookup c bars v l r i :
  evaluate_condition c bars = Ok v →
  evaluate_operand (left c) bars = Ok l → evaluate_operand (right c) bars = Ok r →
  (i < length bars)%nat →
  ∃ b, v !! i = Some b ∧ condition_value (operator c) l r i = Ok b.
Proof.
  unfold evaluate_condition. intros Hv El Er Hi. rewrite El, Er in Hv. simpl in Hv.
  eapply mapM_result_lookup; [done|]. by apply lookup_seq_lt.
Qed.

(** A condition is false until both operands have a value (and, for a
    crossover, had one on the previous bar). *)
Lemma evaluate_condition_warmup c bars v i :
  condition_supported c → evaluate_condition c bars = Ok v →
  v !! i = Some true → condition_first_eligible_index c <= Z.of_nat i.
Proof.
  intros [Hl Hr] Hv Hi.
  destruct (evaluate_operand_total _ bars Hl) as (l & El & Hll & HlN).
  destruct (evaluate_operand_total _ bars Hr) as (r & Er & Hlr & HrN).
  assert (i < length bars)%nat as Hlt.
  { apply lookup_lt_Some in Hi. destruct (evaluate_condition_total c bars (conj Hl Hr)) as (v' & Hv' & <-).
    congruence. }
  destruct (evaluate_condition_lookup c bars v l r i Hv El Er Hlt) as (b & Hb & Hc).
  rewrite Hi in Hb. injection Hb as <-.
  assert (∀ (o : Operand) (col : list (option decimal)) j x, col !! j = Some (Some x) →
    (∀ i a, col !! i = Some a → (a = None ↔ Z.of_nat i < operand_first_evaluable_index o)) →
    operand_first_evaluable_index o <= Z.of_nat j) as Hge.
  { intros o col j x Hx HN. pose proof (HN j _ Hx) as [_ H].
    destruct (Z.le_gt_cases (operand_first_evaluable_index o) (Z.of_nat j)); [done|].
    by specialize (H ltac:(lia)). }
  unfold condition_first_eligible_index, condition_value in *.
  destruct (is_crossover (operator c)).
  - destruct (Nat.eqb_spec i 0) as [|Hi0]; [done|]. bind_inv.
    apply py_index_Ok in Hr0, Hr1, Hr2, Hr3.
    destruct r0 as [pl|]; [|done]. destruct r1 as [pr|]; [|done].
    pose proof (Hge _ _ _ _ Hr0 HlN). pose proof (Hge _ _ _ _ Hr1 HrN). lia.
  - bind_inv. apply py_index_Ok in Hr0, Hr1.
    destruct r0 as [cl|]; [|done]. destruct r1 as [cr|]; [|done].
    pose proof (Hge _ _ _ _ Hr0 HlN). pose proof (Hge _ _ _ _ Hr1 HrN). lia.
Qed.

(** ** Signals *)
Lemma signals_loop_collect all_ev all_xv i bars ev xv acc :
  drop i all_ev = ev → drop i all_xv = xv →
  length ev = length bars → length xv = length bars →
  foldM (λ signals '(index, bar),
    is_entry ← py_index all_ev index;
    is_exit ← py_index all_xv index;
    Ok (signals ++ bar_signals bar is_entry is_exit)) acc (enumerate_from i bars)
  = Ok (acc ++ collect_signals bars ev xv).
Proof.
  revert i ev xv acc; induction bars as [|b bars IH]; intros i ev xv acc He Hx Hle Hlx;
    simpl; [by rewrite app_nil_r|].
  destruct ev as [|e ev]; [done|]. destruct xv as [|x xv]; [done|].
  assert (all_ev !! i = Some e ∧ drop (S i) all_ev = ev) as [He1 He2].
  { split; [by rewrite <- (Nat.add_0_r i), <- lookup_drop, He|].
    by rewrite <- Nat.add_1_r, <- drop_drop, He. }
  assert (all_xv !! i = Some x ∧ drop (S i) all_xv = xv) as [Hx1 Hx2].
  { split; [by rewrite <- (Nat.add_0_r i), <- lookup_drop, Hx|].
    by rewrite <- Nat.add_1_r, <- drop_drop, Hx. }
  unfold py_index. rewrite He1, Hx1. cbn [mbind result_bind].
  rewrite (IH (S i) ev xv) by (done || (simpl in *; lia)). simpl. by rewrite app_assoc.
Qed.

Lemma generate_signals_collect cs bars ev xv :
  evaluate_condition (entry (compiled_specification cs)) bars = Ok ev →
  evaluate_condition (exit (compiled_specification cs)) bars = Ok xv →
  length ev = length bars → length xv = length bars →
  generate_signals cs bars = Ok (collect_signals bars ev xv).
Proof.
  intros He Hx Hle Hlx. unfold generate_signals. rewrite He, Hx. cbn [mbind result_bind].
  unfold enumerate. by rewrite (signals_loop_collect _ _ 0 bars ev xv []) by done.
Qed.

Lemma bar_signals_timestamp b e x s : s ∈ bar_signals b e x → sig_timestamp s = bar_timestamp b.
Proof. unfold bar_signals. destruct e, x; set_solver. Qed.

Lemma collect_signals_elem bars ev xv s :
  s ∈ collect_signals bars ev xv →
  ∃ i b e x, bars !! i = Some b ∧ ev !! i = Some e ∧ xv !! i = Some x ∧ s ∈ bar_signals b e x.
Proof.
  revert ev xv; induction bars as [|b bars IH]; intros ev xv Hs; simpl in Hs;
    [by apply not_elem_of_nil in Hs|].
  destruct ev as [|e ev]; [by apply not_elem_of_nil in Hs|].
  destruct xv as [|x xv]; [by apply not_elem_of_nil in Hs|].
  apply elem_of_app in Hs as [Hs|Hs].
  - by exists 0%nat, b, e, x.
  - destruct (IH _ _ Hs) as (i & ? & ? & ? & ?). by exists (S i), x0, x1, x2.
Qed.

Lemma collect_signals_app b1 b2 e1 e2 x1 x2 :
  length e1 = length b1 → length x1 = length b1 →
  collect_signals (b1 ++ b2) (e1 ++ e2) (x1 ++ x2)
    = collect_signals b1 e1 x1 ++ collect_signals b2 e2 x2.
Proof.
  revert e1 x1; induction b1 as [|b b1 IH]; intros e1 x1 He Hx; destruct e1, x1; try done; simpl in *.
  rewrite IH by lia. by rewrite app_assoc.
Qed.

(** ** Equivalence with the hand-written crossover generator *)

(** The specification of "short SMA crosses above / below long SMA". *)
Definition sma_crossover_condition (short long : Z) (op : Operator) : Condition :=
  mkCondition (IndicatorOperand SMA "close" short) op (IndicatorOperand SMA "close" long).

Lemma evaluate_sma_condition bars short long op sl ll v :
  simple_moving_averages bars short = Ok sl → simple_moving_averages bars long = Ok ll →
  evaluate_condition (sma_crossover_condition short long op) bars = Ok v →
  mapM_result (condition_value op sl ll) (seq 0 (length bars)) = Ok v.
Proof. intros Hs Hl. unfold evaluate_condition; simpl. by rewrite Hs, Hl. Qed.

(** On one index the two conditions emit what the crossover test emits. *)
Lemma crossover_signal_values bar ps pl cs cl :
  ∃ e x,
    crossover_signal (bar_timestamp bar) ps pl cs cl = bar_signals bar e x ∧
    (match ps, pl, cs, cl with
     | Some pl, Some pr, Some cl, Some cr => Ok (dle pl pr && dgt cl cr)
     | _, _, _, _ => Ok false end) = Ok e ∧
    (match ps, pl, cs, cl with
     | Some pl, Some pr, Some cl, Some cr => Ok (dge pl pr && dlt cl cr)
     | _, _, _, _ => Ok false end) = Ok x.
Proof.
  unfold crossover_signal.
  destruct ps as [ps|], pl as [pl|], cs as [cs|], cl as [cl|];
    try (by exists false, false).
  exists (dle ps pl && dgt cs cl), (dge ps pl && dlt cs cl). split; [|done].
  destruct (dle ps pl && dgt cs cl) eqn:E1, (dge ps pl && dlt cs cl) eqn:E2; try done.
  apply andb_true_iff in E1 as [_ E1], E2 as [_ E2]. unfold dgt in E1.
  apply dlt_val in E1, E2. exfalso. eapply Qlt_irrefl, Qlt_trans; eauto.
Qed.

(** The rows [i..] of both signal generators agree. *)
Lemma crossover_rows all_bars bars i sl ll ev xv acc :
  drop i all_bars = bars → (0 < i)%nat →
  length sl = length all_bars → length ll = length all_bars →
  mapM_result (condition_value CROSSES_ABOVE sl ll) (seq i (length bars)) = Ok ev →
  mapM_result (condition_value CROSSES_BELOW sl ll) (seq i (length bars)) = Ok xv →
  foldM (λ signals index,
      previous_short ← py_index sl (index - 1);
      previous_long ← py_index ll (index - 1);
      current_short ← py_index sl index;
      current_long ← py_index ll index;
      bar ← py_index all_bars index;
      Ok (signals ++ crossover_signal (bar_timestamp bar)
                       previous_short previous_long current_short current_long))
    acc (seq i (length bars)) = Ok (acc ++ collect_signals bars ev xv).
Proof.
  revert i ev xv acc; induction bars as [|b bars IH]; intros i ev xv acc Hb Hi Hsl Hll He Hx;
    cbn [length seq mapM_result foldM] in *.
  - bind_inv. simpl. by rewrite app_nil_r.
  - assert (all_bars !! i = Some b ∧ drop (S i) all_bars = bars) as [Hb1 Hb2].
    { split; [by rewrite <- (Nat.add_0_r i), <- lookup_drop, Hb|].
      by rewrite <- Nat.add_1_r, <- drop_drop, Hb. }
    pose proof (lookup_lt_Some _ _ _ Hb1).
    apply bind_Ok_inv in He as (e & He & He'). apply bind_Ok_inv in He' as (ev' & He' & [= <-]).
    apply bind_Ok_inv in Hx as (x & Hx & Hx'). apply bind_Ok_inv in Hx' as (xv' & Hx' & [= <-]).
    unfold condition_value in He, Hx. simpl in He, Hx.
    destruct (Nat.eqb_spec i 0); [lia|].
    destruct (py_index_ok_lt sl (i - 1)) as (ps & Eps & _); [lia|].
    destruct (py_index_ok_lt ll (i - 1)) as (pl & Epl & _); [lia|].
    destruct (py_index_ok_lt sl i) as (cs & Ecs & _); [lia|].
    destruct (py_index_ok_lt ll i) as (cl & Ecl & _); [lia|].
    rewrite Eps, Epl, Ecs, Ecl in *. apply py_index_Ok in Hb1 as Eb. rewrite Eb.
    cbn [mbind result_bind] in *.
    destruct (crossover_signal_values b ps pl cs cl) as (e' & x' & Hsig & He2 & Hx2).
    rewrite He2 in He. rewrite Hx2 in Hx. injection He as ->. injection Hx as ->.
    rewrite Hsig. rewrite (IH (S i) ev' xv') by (done || lia). simpl. by rewrite app_assoc.
Qed.

Lemma crossover_equivalence bars short long s cs :
  0 < short < long → long <= 1000 →
  compiled_specification cs = s →
  entry s = sma_crossover_condition short long CROSSES_ABOVE →
  exit s = sma_crossover_condition short long CROSSES_BELOW →
  ∃ signals, generate_sma_crossover_signals bars short long = Ok signals ∧
    generate_signals cs bars = Ok signals.
Proof.
  intros Hw H1000 Hs Hen Hex.
  destruct (sma_total bars short ltac:(lia)) as (sl & Esl & Hsl & _).
  destruct (sma_total bars long ltac:(lia)) as (ll & Ell & Hll & _).
  assert (∀ op, condition_supported (sma_crossover_condition short long op)) as Hsup
    by (intros; repeat split; simpl; lia || done).
  destruct (evaluate_condition_total _ bars (Hsup CROSSES_ABOVE)) as (ev & Eev & Hlev).
  destruct (evaluate_condition_total _ bars (Hsup CROSSES_BELOW)) as (xv & Exv & Hlxv).
  exists (collect_signals bars ev xv). split.
  - pose proof (evaluate_sma_condition _ _ _ _ _ _ _ Esl Ell Eev) as Me.
    pose proof (evaluate_sma_condition _ _ _ _ _ _ _ Esl Ell Exv) as Mx.
    unfold generate_sma_crossover_signals.
    destruct (Z.leb_spec short 0); [lia|]. destruct (Z.leb_spec long 0); [lia|]. simpl.
    destruct (Z.leb_spec long short); [lia|]. rewrite Esl, Ell. cbn [mbind result_bind].
    destruct bars as [|b bars]; [done|].
    cbn [length seq mapM_result] in Me, Mx.
    replace (length (b :: bars) - 1)%nat with (length bars) by (simpl; lia).
    apply bind_Ok_inv in Me as (e & He & Me). apply bind_Ok_inv in Me as (ev' & Me & [= <-]).
    apply bind_Ok_inv in Mx as (x & Hx & Mx). apply bind_Ok_inv in Mx as (xv' & Mx & [= <-]).
    injection He as <-. injection Hx as <-.
    by rewrite (crossover_rows (b :: bars) bars 1 sl ll ev' xv' []) by (done || lia).
  - rewrite <- Hs in *. apply generate_signals_collect; congruence.
Qed.

(** ** Signal generation on supported specifications *)
Section supported.
Context (cs : CompiledStrategy).
Context (Hsup : spec_supported (compiled_specification cs)).

Lemma supported_conditions :
  condition_supported (entry (compiled_specification cs)) ∧
  condition_supported (exit (compiled_specification cs)).
Proof. destruct Hsup as (_ & _ & _ & ? & ? & _). done. Qed.

Lemma generate_signals_columns bars :
  ∃ ev xv, evaluate_condition (entry (compiled_specification cs)) bars = Ok ev ∧
    evaluate_condition (exit (compiled_specification cs)) bars = Ok xv ∧
    length ev = length bars ∧ length xv = length bars ∧
    generate_signals cs bars = Ok (collect_signals bars ev xv).
Proof.
  destruct supported_conditions as [He Hx].
  destruct (evaluate_condition_total _ bars He) as (ev & Eev & Hlev).
  destruct (evaluate_condition_total _ bars Hx) as (xv & Exv & Hlxv).
  exists ev, xv. split_and!; [done..|]. by apply generate_signals_collect.
Qed.

Lemma generate_signals_app b1 b2 signals :
  generate_signals cs (b1 ++ b2) = Ok signals →
  ∃ s1 s2, signals = s1 ++ s2 ∧ generate_signals cs b1 = Ok s1 ∧
    ∀ s, s ∈ s2 → sig_timestamp s ∈ bar_timestamp <$> b2.
Proof.
  intros Hs. destruct supported_conditions as [He Hx].
  destruct (generate_signals_columns (b1 ++ b2)) as (ev & xv & Eev & Exv & Hlev & Hlxv & Eg).
  rewrite Eg in Hs. injection Hs as <-.
  rewrite length_app in Hlev, Hlxv.
  exists (collect_signals b1 (take (length b1) ev) (take (length b1) xv)),
         (collect_signals b2 (drop (length b1) ev) (drop (length b1) xv)).
  split_and!.
  - rewrite <- collect_signals_app by (rewrite length_take; lia). by rewrite !take_drop.
  - apply generate_signals_collect;
      [by apply (evaluate_condition_take _ _ b2)..| |]; rewrite length_take; lia.
  - intros s (i & b & e & x & Hb & _ & _ & Hin)%collect_signals_elem.
    rewrite (bar_signals_timestamp _ _ _ _ Hin). apply list_elem_of_fmap.
    exists b. split; [done|]. by eapply list_elem_of_lookup_2.
Qed.

Lemma generate_signals_origin bars signals s :
  generate_signals cs bars = Ok signals → s ∈ signals →
  ∃ i b, bars !! i = Some b ∧ sig_timestamp s = bar_timestamp b ∧
    condition_first_eligible_index
      (match signal_type s with BUY => entry (compiled_specification cs)
                              | SELL => exit (compiled_specification cs) end) <= Z.of_nat i.
Proof.
  intros Hs Hin. destruct supported_conditions as [He Hx].
  destruct (generate_signals_columns bars) as (ev & xv & Eev & Exv & _ & _ & Eg).
  rewrite Eg in Hs. injection Hs as <-.
  apply collect_signals_elem in Hin as (i & b & e & x & Hb & Hei & Hxi & Hin).
  exists i, b. split; [done|]. split; [by eapply bar_signals_timestamp|].
  unfold bar_signals in Hin. apply elem_of_app in Hin as [Hin|Hin].
  - destruct e; [|by apply not_elem_of_nil in Hin]. apply list_elem_of_singleton in Hin as ->.
    by apply (evaluate_condition_warmup _ bars ev).
  - destruct x; [|by apply not_elem_of_nil in Hin]. apply list_elem_of_singleton in Hin as ->.
    by apply (evaluate_condition_warmup _ bars xv).
Qed.
End supported.

Lemma compile_strategy_Ok s cs :
  compile_strategy s = Ok cs ↔ spec_supported s ∧ cs = mkCompiled s.
Proof.
  unfold compile_strategy. rewrite <- validate_strategy_semantics_iff.
  destruct (validate_strategy_semantics s) as [[]|]; simpl; naive_solver.
Qed.

(** ** The theorems *)

(** Compilation accepts exactly the supported specifications (SPY, daily,
    long, 100%, next-bar-open, closes only, periods 1 to 1000, risk controls in
    (0, 50]) and keeps the specification; any other is refused with a
    [StrategyValidationError], never with another exception. *)
Theorem compile_strategy_gate s :
  match compile_strategy s with
  | Ok cs => spec_supported s ∧ cs = mkCompiled s
  | Err e => ¬ spec_supported s ∧ is_validation_error e
  end.
Proof.
  destruct (compile_strategy s) as [cs|e] eqn:E.
  - by apply compile_strategy_Ok in E.
  - unfold compile_strategy in E. rewrite <- validate_strategy_semantics_iff.
    destruct (validate_strategy_semantics s) as [[]|e'] eqn:V; simpl in E; [done|].
    injection E as <-. split; [done|]. by apply (validate_strategy_semantics_error s).
Qed.

(** What an operator says of the operands' values on this bar and the one
    before; an absent value satisfies nothing. *)
Definition holds_at (op : Operator) (l r : list (option decimal)) (i : nat) : Prop :=
  ∃ cl cr, l !! i = Some (Some cl) ∧ r !! i = Some (Some cr) ∧
    match op with
    | GREATER_THAN => (dval cr < dval cl)%Q
    | LESS_THAN => (dval cl < dval cr)%Q
    | GREATER_THAN_OR_EQUAL => (dval cr <= dval cl)%Q
    | LESS_THAN_OR_EQUAL => (dval cl <= dval cr)%Q
    | CROSSES_ABOVE => ∃ pl pr, (0 < i)%nat ∧ l !! (i - 1)%nat = Some (Some pl) ∧
        r !! (i - 1)%nat = Some (Some pr) ∧ (dval pl <= dval pr ∧ dval cr < dval cl)%Q
    | CROSSES_BELOW => ∃ pl pr, (0 < i)%nat ∧ l !! (i - 1)%nat = Some (Some pl) ∧
        r !! (i - 1)%nat = Some (Some pr) ∧ (dval pr <= dval pl ∧ dval cl < dval cr)%Q
    end.

Lemma condition_value_holds op l r i b :
  condition_value op l r i = Ok b → b = true ↔ holds_at op l r i.
Proof.
  unfold condition_value, holds_at. destruct (is_crossover op) eqn:Hop.
  - destruct (Nat.eqb_spec i 0) as [->|Hi].
    { intros [= <-]. split; [done|]. intros (cl & cr & _ & _ & H). destruct op; try done;
        destruct H as (pl & pr & ? & _); lia. }
    intros H. repeat (apply bind_Ok_inv in H as (? & ?%py_index_Ok & H)).
    destruct x as [pl|], x0 as [pr|], x1 as [cl|], x2 as [cr|];
      destruct op; try done; injection H as <-;
      rewrite ?andb_true_iff; unfold dgt, dge; rewrite ?dle_val, ?dlt_val;
      split; naive_solver lia.
  - intros H. repeat (apply bind_Ok_inv in H as (? & ?%py_index_Ok & H)).
    destruct x as [cl|], x0 as [cr|]; destruct op; try done; simpl in H; injection H as <-;
      unfold dgt, dge; rewrite ?dle_val, ?dlt_val; naive_solver.
Qed.

(** A supported condition evaluates on any bars without an exception, to
    one boolean per bar that is true exactly when the operator holds of the
    operands' values (for crossings, also of the previous bar's values), and
    never during the warm-up the strategy reports. *)
Theorem evaluate_condition_spec c bars (Hsup : condition_supported c) :
  ∃ v l r, evaluate_operand (left c) bars = Ok l ∧ evaluate_operand (right c) bars = Ok r ∧
    length l = length bars ∧ length r = length bars ∧
    evaluate_condition c bars = Ok v ∧ length v = length bars ∧
    ∀ i, v !! i = Some true ↔
      ((i < length bars)%nat ∧ holds_at (operator c) l r i) ∧
      condition_first_eligible_index c <= Z.of_nat i.
Proof.
  destruct (evaluate_condition_total c bars Hsup) as (v & Hv & Hlen).
  destruct Hsup as [Hl Hr].
  destruct (evaluate_operand_total _ bars Hl) as (l & El & Hll & _).
  destruct (evaluate_operand_total _ bars Hr) as (r & Er & Hlr & _).
  exists v, l, r. split_and!; try done. intros i. split.
  - intros Hi. split; [|by apply (evaluate_condition_warmup c bars v)].
    assert (i < length bars)%nat by (rewrite <- Hlen; by eapply lookup_lt_Some).
    destruct (evaluate_condition_lookup c bars v l r i Hv El Er) as (b & Hb & Hcv); [done|].
    rewrite Hi in Hb. injection Hb as <-. split; [done|]. by apply (condition_value_holds _ _ _ _ _ Hcv).
  - intros ([Hi Hh] & _).
    destruct (evaluate_condition_lookup c bars v l r i Hv El Er) as (b & Hb & Hcv); [done|].
    rewrite Hb. f_equal. by apply (condition_value_holds _ _ _ _ _ Hcv).
Qed.

Lemma evaluate_condition_spec_witness :
  ∃ v, evaluate_condition (mkCondition (PriceOperand "close") CROSSES_BELOW (IndicatorOperand SMA "close" 2))
         sample_bars = Ok v ∧ v = [false; false; false; false; true; false; false].
Proof.
  destruct (evaluate_condition_spec
    (mkCondition (PriceOperand "close") CROSSES_BELOW (IndicatorOperand SMA "close" 2)) sample_bars)
    as (v & l & r & _ & _ & _ & _ & Hv & _).
  - repeat split; simpl; lia.
  - exists v. split; [exact Hv|]. vm_compute in Hv. injection Hv as <-. reflexivity.
Defined.

(** *** What the signals of a strategy are *)

(** The values of an operand, one per bar: the closes, the constant, or the
    average of its period, [None] while it warms up.  An exponential average
    starts at the mean of its first closes and then follows its recurrence. *)
Definition operand_column (o : Operand) (bars : list MarketBar) (column : list (option decimal)) : Prop :=
  match o with
  | PriceOperand _ => column = (λ bar, Some (close_price bar)) <$> bars
  | ConstantOperand value => column = replicate (length bars) (Some value)
  | IndicatorOperand SMA _ period => simple_moving_averages bars period = Ok column
  | IndicatorOperand EMA _ period =>
      length column = length bars ∧
      (∀ i, Z.of_nat i < period - 1 → column !! i ≠ None → column !! i = Some None) ∧
      (period <= Z.of_nat (length bars) → ∃ first multiplier,
        ddiv (dsum (close_price <$> take (Z.to_nat period) bars)) (dec_of_Z period) = Ok first ∧
        ddiv (dec_of_Z 2) (dec_of_Z (period + 1)) = Ok multiplier ∧
        column !! Z.to_nat (period - 1) = Some (Some first) ∧
        ∀ i bar previous, period <= Z.of_nat i → bars !! i = Some bar → column !! (i - 1)%nat = Some (Some previous) →
          column !! i = Some (Some (dadd (dmul (dsub (close_price bar) previous) multiplier) previous)))
  end.

(** The condition that the specification gives for a side holds on bar [i]. *)
Definition due (s : StrategySpecification) (bars : list MarketBar) (i : nat) (side : SignalType) : Prop :=
  let c := match side with BUY => entry s | SELL => exit s end in
  ∃ l r, operand_column (left c) bars l ∧ operand_column (right c) bars r ∧ holds_at (operator c) l r i.

(** Bar by bar, and the entry before the exit on one bar. *)
Definition earlier (p q : nat * SignalType) : Prop :=
  (p.1 < q.1)%nat ∨ p.1 = q.1 ∧ p.2 = BUY ∧ q.2 = SELL.

Lemma ema_values_lookup m p rest j bar :
  rest !! j = Some bar →
  ∃ previous, (p :: ema_values m p rest) !! j = Some previous ∧
    ema_values m p rest !! j = Some (dadd (dmul (dsub (close_price bar) previous) m) previous).
Proof.
  revert p j. induction rest as [|b rest IH]; intros p j Hj; [done|]. destruct j as [|j]; simpl in *.
  - injection Hj as ->. by exists p.
  - by apply IH.
Qed.

Lemma evaluate_operand_column o bars column :
  operand_supported o → evaluate_operand o bars = Ok column → operand_column o bars column.
Proof.
  intros Hs E. destruct (evaluate_operand_total o bars Hs) as (l & El & Hlen & Hwarm). rewrite E in El. injection El as <-.
  destruct o as [[] src p|src|v]; simpl in *; [done| |by injection E as <-|by injection E as <-; apply const_fmap].
  split; [done|]. split.
  { intros i Hi. destruct (column !! i) as [a|] eqn:Ha; [|done]. intros _. by rewrite (proj2 (Hwarm i a Ha) Hi). }
  intros Hp. rewrite ema_columns in E by lia. destruct (Nat.ltb_spec (length bars) (Z.to_nat p)); [lia|].
  destruct (ddiv (dsum _) _) as [first|] eqn:Ef; [|done]. destruct (ddiv (dec_of_Z 2) _) as [m|] eqn:Em; [|done].
  cbn [mbind result_bind] in E. injection E as <-. exists first, m. split_and!; [done|done| |].
  - rewrite lookup_app_r; rewrite length_replicate; [|lia]. by replace (_ - _)%nat with 0%nat by lia.
  - intros i bar previous Hi Hbar Hprev. set (w := Z.to_nat p) in *.
    rewrite lookup_app_r in Hprev |- * by (rewrite length_replicate; lia). rewrite length_replicate in *.
    replace (i - 1 - (w - 1))%nat with (i - w)%nat in Hprev by lia. replace (i - (w - 1))%nat with (S (i - w)) by lia.
    destruct (ema_values_lookup m first (drop w bars) (i - w) bar) as (previous' & H1 & H2).
    { rewrite lookup_drop. by replace (w + (i - w))%nat with i by lia. }
    rewrite <- fmap_cons, list_lookup_fmap, H1 in Hprev. injection Hprev as ->.
    by rewrite <- fmap_cons, list_lookup_fmap; simpl; rewrite H2.
Qed.

(** A column of an operand is the only one. *)
Lemma operand_column_unique o bars column column' :
  operand_supported o → evaluate_operand o bars = Ok column → operand_column o bars column' → column' = column.
Proof.
  intros Hs E Hc. pose proof (evaluate_operand_column o bars column Hs E) as H1.
  destruct o as [[] src p|src|v]; simpl in *; [congruence| |congruence|congruence].
  destruct Hc as (Hlen & Hwarm & Hrec), H1 as (Hlen1 & Hwarm1 & Hrec1).
  assert (∀ i, column' !! i = column !! i) as Heq; [|by apply list_eq].
  induction i as [i IH] using lt_wf_ind. destruct (decide (i < length bars)%nat) as [Hi|Hi].
  2:{ by rewrite !lookup_ge_None_2 by lia. }
  destruct (lookup_lt_is_Some_2 column i) as [a Ha]; [lia|]. destruct (lookup_lt_is_Some_2 column' i) as [a' Ha']; [lia|].
  destruct (Z.lt_ge_cases (Z.of_nat i) (p - 1)) as [Hw|Hw].
  { rewrite (Hwarm i Hw), (Hwarm1 i Hw) by congruence. done. }
  destruct Hrec as (first & m & Ef & Em & Hf & Hr); [lia|]. destruct Hrec1 as (first' & m' & Ef' & Em' & Hf' & Hr'); [lia|].
  rewrite Ef in Ef'. rewrite Em in Em'. injection Ef' as <-. injection Em' as <-.
  destruct (decide (i = Z.to_nat (p - 1))) as [->|Hne]; [congruence|].
  destruct (lookup_lt_is_Some_2 bars i Hi) as [bar Hbar].
  assert (∃ previous, column !! (i - 1)%nat = Some (Some previous)) as [previous Hp].
  { destruct (evaluate_operand_total (IndicatorOperand EMA src p) bars Hs) as (l & El & _ & Hnone). simpl in El. rewrite E in El. injection El as <-.
    destruct (lookup_lt_is_Some_2 column (i - 1)%nat) as [[x|] Hx]; [lia|by exists x|].
    pose proof (proj1 (Hnone _ _ Hx) eq_refl) as Hlt. simpl in Hlt. lia. }
  rewrite (Hr i bar previous), (Hr' i bar previous); try (done || lia). by rewrite IH by lia.
Qed.

Lemma evaluate_condition_due s side bars v :
  let c := match side with BUY => entry s | SELL => exit s end in
  condition_supported c → evaluate_condition c bars = Ok v → ∀ i, v !! i = Some true ↔ due s bars i side.
Proof.
  intros c [Hl Hr] Hv i. destruct (evaluate_condition_spec c bars (conj Hl Hr)) as (v' & l & r & El & Er & Hll & _ & Hv' & _ & Hi).
  rewrite Hv in Hv'. injection Hv' as <-. rewrite Hi. unfold due. fold c. split.
  - intros [[_ Hh] _]. exists l, r. split_and!; [by apply evaluate_operand_column..|done].
  - intros (l' & r' & Hcl & Hcr & Hh). apply (operand_column_unique _ _ l) in Hcl as ->; [|done..].
    apply (operand_column_unique _ _ r) in Hcr as ->; [|done..]. assert (i < length bars)%nat as Hlt.
    { destruct Hh as (? & ? & ?%lookup_lt_Some & _). lia. }
    split; [done|]. apply (evaluate_condition_warmup c bars v i (conj Hl Hr) Hv). rewrite Hi. split; [done|].
    destruct (evaluate_condition_lookup c bars v l r i Hv El Er Hlt) as (b & Hb & Hc).
    apply (evaluate_condition_warmup c bars v i (conj Hl Hr) Hv). rewrite Hb. f_equal. by apply (condition_value_holds _ _ _ _ _ Hc).
Qed.

(** The sides of the rows of two boolean columns, in order. *)
Fixpoint sides_from (i : nat) (ev xv : list bool) : list (nat * SignalType) :=
  match ev, xv with
  | e :: ev, x :: xv => (if e then [(i, BUY)] else []) ++ (if x then [(i, SELL)] else []) ++ sides_from (S i) ev xv
  | _, _ => []
  end.

Lemma sides_from_elem i ev xv j side :
  length ev = length xv →
  (j, side) ∈ sides_from i ev xv ↔
    ∃ k, j = (i + k)%nat ∧ match side with BUY => ev !! k = Some true | SELL => xv !! k = Some true end.
Proof.
  revert i xv. induction ev as [|e ev IH]; intros i xv Hlen; destruct xv as [|x xv]; try done; simpl.
  { rewrite elem_of_nil. split; [done|]. intros (k & _ & H). destruct side; by rewrite lookup_nil in H. }
  rewrite !elem_of_app, IH by (simpl in Hlen; lia). split.
  - intros [H|[H|(k & -> & H)]].
    + destruct e; [|by apply not_elem_of_nil in H]. apply list_elem_of_singleton in H as [= -> ->]. exists 0%nat. split; [lia|done].
    + destruct x; [|by apply not_elem_of_nil in H]. apply list_elem_of_singleton in H as [= -> ->]. exists 0%nat. split; [lia|done].
    + exists (S k). split; [lia|by destruct side].
  - intros ([|k] & -> & H).
    + rewrite Nat.add_0_r. destruct side; simpl in H; injection H as ->; [left|right; left]; by left.
    + right. right. exists k. split; [lia|by destruct side].
Qed.

Lemma sides_from_sorted i ev xv : StronglySorted earlier (sides_from i ev xv) ∧ Forall (λ p, (i <= p.1)%nat) (sides_from i ev xv).
Proof.
  revert i xv. induction ev as [|e ev IH]; intros i xv; destruct xv as [|x xv]; try (by split; constructor).
  destruct (IH (S i) xv) as [Hs Hf]. cbn [sides_from].
  assert (∀ side, Forall (earlier (i, side)) (sides_from (S i) ev xv)) as Hlater.
  { intros side. eapply Forall_impl; [exact Hf|]. intros p Hp. left. cbv beta in *. simpl. lia. }
  assert (Forall (λ p, (i <= p.1)%nat) (sides_from (S i) ev xv)) as Hge.
  { eapply Forall_impl; [exact Hf|]. intros p Hp. cbv beta in *. lia. }
  destruct e, x; simpl; split; repeat constructor; try done; by right.
Qed.

Lemma collect_signals_sides all_bars i bars ev xv :
  drop i all_bars = bars → length ev = length bars → length xv = length bars →
  Forall2 (λ p s, ∃ b, all_bars !! p.1 = Some b ∧ s = mkSignal (bar_timestamp b) p.2) (sides_from i ev xv) (collect_signals bars ev xv).
Proof.
  revert i ev xv. induction bars as [|b bars IH]; intros i ev xv Hb He Hx; destruct ev as [|e ev], xv as [|x xv]; try done.
  assert (all_bars !! i = Some b ∧ drop (S i) all_bars = bars) as [Hb1 Hb2].
  { split; [by rewrite <- (Nat.add_0_r i), <- lookup_drop, Hb|by rewrite <- Nat.add_1_r, <- drop_drop, Hb]. }
  cbn [sides_from collect_signals]. unfold bar_signals. rewrite <- app_assoc.
  apply Forall2_app; [destruct e; repeat constructor; by exists b|].
  apply Forall2_app; [destruct x; repeat constructor; by exists b|]. apply IH; [done|simpl in *; lia..].
Qed.

(** C22: A supported strategy generates its signals without an exception: the
    list has exactly one BUY for every bar on which the entry condition holds of
    its operands' values and exactly one SELL for every bar on which the exit
    condition does, dated on that bar, in bar order with the BUY first, and
    nothing else; and a condition never holds before the index that
    [condition_first_eligible_index] gives. *)
Theorem generate_signals_spec cs bars (Hsup : spec_supported (compiled_specification cs)) :
  ∃ origins signals,
    generate_signals cs bars = Ok signals ∧
    StronglySorted earlier origins ∧
    (∀ i side, (i, side) ∈ origins ↔ due (compiled_specification cs) bars i side) ∧
    Forall2 (λ origin s, ∃ b, bars !! origin.1 = Some b ∧ s = mkSignal (bar_timestamp b) origin.2) origins signals ∧
    (∀ i side, due (compiled_specification cs) bars i side →
      condition_first_eligible_index
        (match side with BUY => entry (compiled_specification cs) | SELL => exit (compiled_specification cs) end) <= Z.of_nat i).
Proof.
  destruct (generate_signals_columns cs Hsup bars) as (ev & xv & Eev & Exv & Hlev & Hlxv & Eg).
  destruct (supported_conditions cs Hsup) as [He Hx].
  pose proof (evaluate_condition_due (compiled_specification cs) BUY bars ev He Eev) as Hev.
  pose proof (evaluate_condition_due (compiled_specification cs) SELL bars xv Hx Exv) as Hxv.
  exists (sides_from 0 ev xv), (collect_signals bars ev xv). split_and!; [done|apply sides_from_sorted| | |].
  - intros i side. rewrite sides_from_elem by congruence. split.
    + intros (k & -> & H). destruct side; [by apply Hev|by apply Hxv].
    + intros H. exists i. split; [done|]. destruct side; [by apply Hev|by apply Hxv].
  - by apply collect_signals_sides.
  - intros i [] H; [apply Hev in H|apply Hxv in H]; by eapply evaluate_condition_warmup.
Qed.

Lemma generate_signals_spec_witness :
  ∃ signals, generate_signals (mkCompiled (mkSpecification "1.0" "SPY" "1d"
      (mkCondition (PriceOperand "close") GREATER_THAN (IndicatorOperand SMA "close" 2))
      (mkCondition (PriceOperand "close") LESS_THAN (IndicatorOperand EMA "close" 3))
      (mkExecutionSettings "long" 100 "next_bar_open") None None)) sample_bars = Ok signals ∧
    length signals = 7%nat.
Proof.
  destruct (generate_signals_spec (mkCompiled (mkSpecification "1.0" "SPY" "1d"
      (mkCondition (PriceOperand "close") GREATER_THAN (IndicatorOperand SMA "close" 2))
      (mkCondition (PriceOperand "close") LESS_THAN (IndicatorOperand EMA "close" 3))
      (mkExecutionSettings "long" 100 "next_bar_open") None None)) sample_bars)
    as (origins & signals & Hg & _).
  - apply validate_strategy_semantics_iff. vm_compute. reflexivity.
  - exists signals. split; [exact Hg|]. vm_compute in Hg. injection Hg as <-. reflexivity.
Defined.

(** C35: A compiled SMA crossover (entry crosses above, exit crosses below)
    generates exactly the signals of the dedicated
    [generate_sma_crossover_signals], for every window pair the latter
    accepts up to the supported period. *)
Theorem compiled_crossover_is_sma_crossover bars short long s
    (Hwindows : 0 < short < long) (Hperiod : long <= 1000)
    (Hentry : entry s = sma_crossover_condition short long CROSSES_ABOVE)
    (Hexit : exit s = sma_crossover_condition short long CROSSES_BELOW) :
  ∃ signals, generate_sma_crossover_signals bars short long = Ok signals ∧
    generate_signals (mkCompiled s) bars = Ok signals.
Proof. by eapply crossover_equivalence. Qed.

Lemma compiled_crossover_is_sma_crossover_witness :
  ∃ signals, generate_sma_crossover_signals sample_bars 1 2 = Ok signals ∧ length signals = 2%nat ∧
    generate_signals (mkCompiled (mkSpecification "1.0" "SPY" "1d"
      (sma_crossover_condition 1 2 CROSSES_ABOVE) (sma_crossover_condition 1 2 CROSSES_BELOW)
      (mkExecutionSettings "long" 100 "next_bar_open") None None)) sample_bars = Ok signals.
Proof.
  destruct (compiled_crossover_is_sma_crossover sample_bars 1 2 (mkSpecification "1.0" "SPY" "1d"
      (sma_crossover_condition 1 2 CROSSES_ABOVE) (sma_crossover_condition 1 2 CROSSES_BELOW)
      (mkExecutionSettings "long" 100 "next_bar_open") None None)) as (signals & H1 & H2);
    [lia|lia|reflexivity|reflexivity|].
  exists signals. split; [exact H1|]. split; [|exact H2].
  vm_compute in H1. injection H1 as <-. reflexivity.
Defined.

(** An exponential moving average is absent for the warm-up, starts at the
    mean of the first [window] closes, and each later value is
    (close - previous) * 2/(window + 1) + previous. *)
Theorem ema_recurrence bars window (Hwindow : 0 < window) (Hlen : window <= Z.of_nat (length bars)) :
  ∃ first multiplier,
    ddiv (dsum (close_price <$> take (Z.to_nat window) bars)) (dec_of_Z window) = Ok first ∧
    rounds_to (2 / inject_Z (window + 1)) multiplier ∧
    exponential_moving_averages bars window =
      Ok (replicate (Z.to_nat window - 1) None ++
          (Some <$> first :: ema_values multiplier first (drop (Z.to_nat window) bars))).
Proof.
  rewrite ema_columns by done. destruct (Nat.ltb_spec (length bars) (Z.to_nat window)); [lia|].
  destruct (ddiv_rounds (dsum (close_price <$> take (Z.to_nat window) bars)) (dec_of_Z window)) as (f & Hf & _).
  { rewrite dval_dec_of_Z. intros E. apply (inject_Z_injective window 0) in E. lia. }
  destruct (ddiv_rounds (dec_of_Z 2) (dec_of_Z (window + 1))) as (m & Hm & Hr).
  { rewrite dval_dec_of_Z. intros E. apply (inject_Z_injective (window + 1) 0) in E. lia. }
  exists f, m. split; [done|]. rewrite !dval_dec_of_Z in Hr. split; [done|].
  by rewrite Hf, Hm.
Qed.

Lemma ema_recurrence_witness :
  ∃ first, ddiv (dsum (close_price <$> take 3 sample_bars)) (dec_of_Z 3) = Ok first ∧
    first = Dec false 10350 (-2).
Proof.
  destruct (ema_recurrence sample_bars 3) as (f & m & Hf & _); [lia|vm_compute; discriminate|].
  exists f. split; [exact Hf|]. vm_compute in Hf. injection Hf as <-. reflexivity.
Defined.
