(* ===== verification/Serialization.v ===== *)
(** * JSON forms and the plain-language interpretation
    ([model_dump(mode="json")] of the schemas, [datetime.isoformat],
    [backend/app/services/strategy_interpretation.py])

    Objects are association lists in the order pydantic and the dict displays
    produce them.  A [Decimal] is dumped as the string [str(value)]. *)

From S2P Require Import Prelude Decimal Models Text StrategySpec StrategySemantics.
From Stdlib Require Import ZArith QArith Lia Ascii.
From stdpp Require Import base list option strings.
Local Open Scope Z_scope.

(** ** [datetime.isoformat] of an aware UTC instant *)

(** The civil date of a day number (0 is 1970-01-01), proleptic Gregorian. *)
Definition civil_from_days (days : Z) : Z * Z * Z :=
  let z := days + 719468 in
  let era := z / 146097 in
  let doe := z mod 146097 in
  let yoe := (doe - doe / 1460 + doe / 36524 - doe / 146096) / 365 in
  let doy := doe - (365 * yoe + yoe / 4 - yoe / 100) in
  let mp := (5 * doy + 2) / 153 in
  let month := if mp <? 10 then mp + 3 else mp - 9 in
  (yoe + era * 400 + (if month <=? 2 then 1 else 0), month, doy - (153 * mp + 2) / 5 + 1).

(** [width] digits, zero-padded. *)
Definition padded (width : nat) (n : Z) : string :=
  let ds := digits (Z.to_N n) in
  of_chars (replicate (width - length ds) "0"%char ++ ds).

Definition isoformat (t : datetime) : string :=
  let us := t mod 86400000000 in
  let '(y, m, d) := civil_from_days (t / 86400000000) in
  let fraction := us mod 1000000 in
  padded 4 y +:+ "-" +:+ padded 2 m +:+ "-" +:+ padded 2 d +:+ "T" +:+
  padded 2 (us / 3600000000) +:+ ":" +:+ padded 2 ((us / 60000000) mod 60) +:+ ":" +:+
  padded 2 ((us / 1000000) mod 60) +:+
  (if fraction =? 0 then EmptyString else "." +:+ padded 6 fraction) +:+ "+00:00".

(** ** [model_dump(mode="json")] *)
Definition dump_option {A} (f : A → json) (v : option A) : json :=
  match v with Some a => f a | None => JNull end.

Definition dump_operand (o : Operand) : json :=
  match o with
  | IndicatorOperand name source period =>
      JObj [("type", JStr "indicator"); ("name", JStr (IndicatorName_value name));
            ("source", JStr source); ("period", JInt period)]
  | PriceOperand source => JObj [("type", JStr "price"); ("source", JStr source)]
  | ConstantOperand value => JObj [("type", JStr "constant"); ("value", JStr (decimal_str value))]
  end%string.

Definition dump_condition (c : Condition) : json :=
  JObj [("left"%string, dump_operand (left c)); ("operator"%string, JStr (Operator_value (operator c)));
        ("right"%string, dump_operand (right c))].

Definition dump_execution (e : ExecutionSettings) : json :=
  JObj [("direction"%string, JStr (direction e));
        ("position_size_percent"%string, JInt (position_size_percent e));
        ("signal_execution"%string, JStr (signal_execution e))].

Definition dump_specification (s : StrategySpecification) : json :=
  JObj [("version"%string, JStr (version s)); ("symbol"%string, JStr (symbol s));
        ("interval"%string, JStr (interval s)); ("entry"%string, dump_condition (entry s));
        ("exit"%string, dump_condition (exit s)); ("execution"%string, dump_execution (execution s));
        ("stop_loss_percent"%string, dump_option (λ d, JStr (pydecimal_str d)) (stop_loss_percent s));
        ("take_profit_percent"%string, dump_option (λ d, JStr (pydecimal_str d)) (take_profit_percent s))].

Definition OperandType_value (t : OperandType) : string :=
  match t with IndicatorType => "indicator" | PriceType => "price" | ConstantType => "constant" end.

Definition dump_operand_draft (o : OperandDraft) : json :=
  JObj [("type"%string, JStr (OperandType_value (od_type o)));
        ("name"%string, dump_option (λ n, JStr (IndicatorName_value n)) (od_name o));
        ("source"%string, dump_option JStr (od_source o));
        ("period"%string, dump_option JInt (od_period o));
        ("value"%string, dump_option (λ d, JStr (decimal_str d)) (od_value o))].

Definition dump_condition_draft (c : ConditionDraft) : json :=
  JObj [("left"%string, dump_operand_draft (cd_left c));
        ("operator"%string, dump_option (λ o, JStr (Operator_value o)) (cd_operator c));
        ("right"%string, dump_operand_draft (cd_right c))].

Definition confidence_value (c : AssumptionConfidence) : string :=
  match c with HIGH => "high" | MEDIUM => "medium" | LOW => "low" end.

Definition dump_assumption (a : StrategyAssumption) : json :=
  JObj [("field"%string, JStr (a_field a)); ("inferred_value"%string, inferred_value a);
        ("reason"%string, JStr (a_reason a)); ("confidence"%string, JStr (confidence_value (confidence a)));
        ("requires_confirmation"%string, JBool (a_requires_confirmation a))].

Definition dump_default (d : AppliedDefault) : json :=
  JObj [("field"%string, JStr (df_field d)); ("value"%string, df_value d);
        ("reason"%string, JStr (df_reason d))].

(** ** Interpretation *)

(** [repr] of an ASCII string. *)
Definition quote_char (l : list ascii) : ascii :=
  if bool_decide ("'"%char ∈ l) && negb (bool_decide (ascii_of_N 34 ∈ l)) then ascii_of_N 34
  else "'"%char.

Definition hex_digit (n : Z) : ascii := ascii_of_N (Z.to_N (if n <? 10 then 48 + n else 87 + n)).

Definition escape_char (quote c : ascii) : list ascii :=
  if Ascii.eqb c quote || Ascii.eqb c "\" then ["\"%char; c]
  else if char_code c =? 10 then ["\"; "n"]%char
  else if char_code c =? 13 then ["\"; "r"]%char
  else if char_code c =? 9 then ["\"; "t"]%char
  else if (char_code c <? 32) || (char_code c =? 127)
  then ["\"%char; "x"%char; hex_digit (char_code c / 16); hex_digit (char_code c mod 16)]
  else [c].

Definition repr_string (s : string) : string :=
  let l := to_chars s in
  let q := quote_char l in
  of_chars (q :: concat (escape_char q <$> l) ++ [q]).

Fixpoint repr_json (v : json) : string :=
  match v with
  | JNull => "None"
  | JBool b => if b then "True" else "False"
  | JInt z => str_int z
  | JStr s => repr_string s
  | JList l => "[" +:+ str_join ", " (map repr_json l) +:+ "]"
  | JObj fields =>
      "{" +:+ str_join ", " (map (λ kv, repr_string kv.1 +:+ ": " +:+ repr_json kv.2) fields) +:+ "}"
  end.

(** [f"{value}"] *)
Definition value_text (v : json) : string :=
  match v with JStr s => s | _ => repr_json v end.

Definition format_operand (o : Operand) : string :=
  match o with
  | IndicatorOperand name source period =>
      "the " +:+ str_int period +:+ "-day " +:+ str_upper (IndicatorName_value name) +:+ " of " +:+ source
  | PriceOperand source => source
  | ConstantOperand value => decimal_str value
  end.

Definition format_condition (c : Condition) : string :=
  format_operand (left c) +:+ " " +:+ replace_char "_"%char " "%char (Operator_value (operator c)) +:+ " " +:+
  format_operand (right c).

(** [f"{value:g}"] of a finite Decimal: [str] with a lower-case exponent. *)
Definition format_g (d : pydecimal) : string :=
  match d with Finite d => str_lower (decimal_str d) | _ => pydecimal_str d end.

Definition format_risk_controls (r : ParsedStrategyResult) : string :=
  let s := specification r in
  let controls :=
    match stop_loss_percent s with Some p => [format_g p +:+ "% stop loss"] | None => [] end ++
    match take_profit_percent s with Some p => [format_g p +:+ "% take profit"] | None => [] end in
  match controls with
  | [] => "None."
  | _ => "Use " +:+ str_join " and " controls +:+ " relative to the entry fill price."
  end.

Definition format_default (d : AppliedDefault) : string :=
  if bool_decide (df_field d = "symbol") then "Symbol: SPY"
  else if bool_decide (df_field d = "interval") then "Daily bars"
  else if bool_decide (df_field d = "execution.direction") then "Long-only"
  else if bool_decide (df_field d = "execution.position_size_percent")
  then "Use 100% of available cash"
  else if bool_decide (df_field d = "execution.signal_execution")
  then "Execute on the next available trading day's open"
  else df_field d +:+ ": " +:+ value_text (df_value d).

Definition newline : string := String (Ascii.ascii_of_nat 10) EmptyString.

Definition interpret_strategy (r : ParsedStrategyResult) : string :=
  let s := specification r in
  str_join newline
    ([ "Interpreted strategy:"%string;
       "Buy " +:+ symbol s +:+ " when " +:+ format_condition (entry s) +:+ ".";
       "Sell when " +:+ format_condition (exit s) +:+ ".";
       "Risk controls: " +:+ format_risk_controls r;
       EmptyString; "Platform defaults applied:"%string ] ++
     ((λ d, "- " +:+ format_default d) <$> defaults_applied r) ++
     (match defaults_applied r with [] => ["- None."%string] | _ => [] end) ++
     [ EmptyString; "Assumptions made:"%string ] ++
     ((λ a, "- " +:+ a_reason a) <$> assumptions r) ++
     (match assumptions r with [] => ["- None."%string] | _ => [] end) ++
     [ EmptyString;
       "Confirmation required: " +:+ (if requires_confirmation r then "Yes" else "No") ]).

(** ** Padded numbers *)
Lemma digits_aux_length fuel k n acc :
  (n < 10 ^ N.of_nat (S k))%N → (length (digits_aux fuel n acc) <= S k + length acc)%nat.
Proof.
  revert k n acc. induction fuel as [|fuel IH]; intros k n acc Hn; cbn [digits_aux]; [simpl; lia|].
  destruct (N.ltb_spec n 10) as [|Hge]; [simpl; lia|]. destruct k as [|k]; [simpl in Hn; lia|].
  transitivity (S k + length (digit_char (n mod 10) :: acc))%nat; [|simpl; lia].
  apply IH. rewrite (Nat2N.inj_succ (S k)), N.pow_succ_r' in Hn. apply N.Div0.div_lt_upper_bound. lia.
Qed.

(** A number that fits its width is printed with exactly that many digits. *)
Lemma padded_digits w n :
  0 <= n < 10 ^ Z.of_nat (S w) →
  length (to_chars (padded (S w) n)) = S w ∧ Forall (λ c, is_digit c = true) (to_chars (padded (S w) n)) ∧
  digits_value (to_chars (padded (S w) n)) = Z.to_N n.
Proof.
  intros Hn. unfold padded. rewrite to_of_chars. destruct (digits_spec (Z.to_N n)) as (_ & Hall & Hv).
  assert (length (digits (Z.to_N n)) <= S w)%nat as Hlen.
  { pose proof (digits_aux_length (N.size_nat (Z.to_N n)) w (Z.to_N n) []) as H. simpl in H. rewrite Nat.add_0_r in H.
    apply H. apply N2Z.inj_lt. rewrite N2Z.inj_pow, Z2N.id by lia. rewrite nat_N_Z. apply Hn. }
  split; [|split].
  - rewrite length_app, length_replicate. lia.
  - apply Forall_app; split; [|exact Hall]. apply Forall_replicate. done.
  - by rewrite digits_value_zeros.
Qed.

Lemma digits_value_app l1 l2 :
  digits_value (l1 ++ l2) = (digits_value l1 * 10 ^ N.of_nat (length l2) + digits_value l2)%N.
Proof.
  induction l2 as [|c l2 IH] using rev_ind; [rewrite app_nil_r; change (digits_value []) with 0%N; change (10 ^ N.of_nat (length []))%N with 1%N; lia|].
  rewrite app_assoc, !digits_value_snoc, IH, length_app. cbn [length].
  replace (N.of_nat (length l2 + 1)) with (N.succ (N.of_nat (length l2))) by lia. rewrite N.pow_succ_r'. lia.
Qed.
