(* ===== verification/Engine.v ===== *)
(** * The execution engine ([backend/app/backtesting/engine.py])

    [execute_long_only_signals] as a fold over the enumerated bars.  The
    record [ExecState] holds the local variables of the loop; every helper of
    the module is a definition of the same name with the same arguments.
    [ignored_signals], a list the helpers append to in place, is threaded
    through them. *)

From S2P Require Import Prelude Decimal Models.
From Stdlib Require Import ZArith QArith Lia.
From stdpp Require Import base list option strings gmap.
Local Open Scope Z_scope.

(** ** Position helpers *)

(** Returns (cash, quantity, entry_price, entry_timestamp,
    entry_signal_timestamp) and the list of ignored signals. *)
Definition execute_buy (signal : Signal) (bar : MarketBar) (cash : decimal) (qty : Z)
    (e_price : option decimal) (e_ts e_sig : option datetime) (ignored : list Signal)
    : result (decimal * Z * option decimal * option datetime * option datetime * list Signal) :=
  if 0 <? qty then Ok (cash, qty, e_price, e_ts, e_sig, ignored ++ [signal])
  else
    quotient ← dfloordiv cash (open_price bar);
    let shares_to_buy := dint quotient in
    if shares_to_buy =? 0 then Ok (cash, qty, e_price, e_ts, e_sig, ignored ++ [signal])
    else
      Ok (dsub cash (dmul (dec_of_Z shares_to_buy) (open_price bar)),
          shares_to_buy, Some (open_price bar), Some (bar_timestamp bar),
          Some (sig_timestamp signal), ignored).

(** Returns (cash, quantity, completed_trade) and the ignored signals. *)
Definition execute_sell (signal : Signal) (bar : MarketBar) (cash : decimal) (qty : Z)
    (e_price : option decimal) (e_ts e_sig : option datetime) (ignored : list Signal)
    : result (decimal * Z * option CompletedTrade * list Signal) :=
  if qty =? 0 then Ok (cash, qty, None, ignored ++ [signal])
  else
    match e_price, e_ts, e_sig with
    | Some e_price, Some e_ts, Some e_sig =>
        let proceeds := dmul (dec_of_Z qty) (open_price bar) in
        let pnl := dsub proceeds (dmul (dec_of_Z qty) e_price) in
        ratio ← ddiv pnl (dmul (dec_of_Z qty) e_price);
        Ok (dadd cash proceeds, 0,
            Some (mkTrade e_sig e_ts e_price qty (Some (sig_timestamp signal))
                    (bar_timestamp bar) (open_price bar) pnl
                    (dmul ratio (dec_of_Z 100)) STRATEGY_EXIT),
            ignored)
    | _, _, _ => Err (RuntimeError "open position is missing entry details")
    end.

Definition calculate_risk_levels (e_price : decimal) (stop_loss take_profit : option decimal)
    : result (option decimal * option decimal) :=
  let hundred := dec_of_Z 100 in
  stop_price ←
    match stop_loss with
    | Some p => r ← ddiv p hundred; Ok (Some (dmul e_price (dsub (dec_of_Z 1) r)))
    | None => Ok None
    end;
  take_profit_price ←
    match take_profit with
    | Some p => r ← ddiv p hundred; Ok (Some (dmul e_price (dadd (dec_of_Z 1) r)))
    | None => Ok None
    end;
  Ok (stop_price, take_profit_price).

(** [quantity == 0 or entry_bar_index is None or current_bar_index <= entry_bar_index] *)
Definition no_earlier_position (qty : Z) (e_index : option nat) (current : nat) : bool :=
  (qty =? 0) || match e_index with None => true | Some i => (current <=? i)%nat end.

Definition evaluate_opening_risk_exit (bar : MarketBar) (qty : Z) (e_index : option nat)
    (current : nat) (stop_price take_profit_price : option decimal)
    : option (decimal * ExitReason) :=
  if no_earlier_position qty e_index current then None
  else if match stop_price with Some s => dle (open_price bar) s | None => false end
  then Some (open_price bar, STOP_LOSS)
  else if match take_profit_price with Some t => dge (open_price bar) t | None => false end
  then Some (open_price bar, TAKE_PROFIT)
  else None.

Definition evaluate_intraday_risk_exit (bar : MarketBar) (qty : Z) (e_index : option nat)
    (current : nat) (stop_price take_profit_price : option decimal)
    : option (decimal * ExitReason) :=
  if no_earlier_position qty e_index current then None
  else
    let profit_exit :=
      match take_profit_price with
      | Some t => if dge (high_price bar) t then Some (t, TAKE_PROFIT) else None
      | None => None
      end in
    match stop_price with
    | Some s => if dle (low_price bar) s then Some (s, STOP_LOSS) else profit_exit
    | None => profit_exit
    end.

(** The engine never passes [exit_signal_timestamp]: it is [None]. *)
Definition close_position (bar : MarketBar) (x_price : decimal) (reason : ExitReason)
    (cash : decimal) (qty : Z) (e_price : option decimal) (e_ts e_sig : option datetime)
    : result (decimal * CompletedTrade) :=
  if qty <=? 0 then Err (RuntimeError "cannot close a flat position")
  else
    match e_price, e_ts, e_sig with
    | Some e_price, Some e_ts, Some e_sig =>
        let proceeds := dmul (dec_of_Z qty) x_price in
        let cost := dmul (dec_of_Z qty) e_price in
        let pnl := dsub proceeds cost in
        ratio ← ddiv pnl cost;
        Ok (dadd cash proceeds,
            mkTrade e_sig e_ts e_price qty None (bar_timestamp bar) x_price pnl
              (dmul ratio (dec_of_Z 100)) reason)
    | _, _, _ => Err (RuntimeError "open position is missing entry details")
    end.

(** [not value.is_finite() or value <= 0] *)
Definition validate_risk_control (value : option pydecimal) (field_name : string) : result unit :=
  match value with
  | None => Ok ()
  | Some (Finite d) =>
      raise_if (dle d dzero) (ValueError (String.append field_name " must be finite and positive"))
  | Some _ => Err (ValueError (String.append field_name " must be finite and positive"))
  end.

(** The percentage once [validate_risk_control] has accepted it. *)
Definition finite_percent (value : option pydecimal) : option decimal :=
  match value with Some (Finite d) => Some d | _ => None end.

(** ** The loop *)
Record ExecState : Type := mkState {
  st_cash : decimal;
  st_quantity : Z;
  st_entry_price : option decimal;
  st_entry_timestamp : option datetime;
  st_entry_signal_timestamp : option datetime;
  st_entry_bar_index : option nat;
  st_stop_price : option decimal;
  st_take_profit_price : option decimal;
  st_completed_trades : list CompletedTrade;
  st_equity_curve : list EquityPoint;
  st_ignored_signals : list Signal;
  st_closed_at_open : bool }.

Definition initial_state (starting_cash : decimal) : ExecState :=
  mkState starting_cash 0 None None None None None None [] [] [] false.

(** Cash received, trade recorded, quantity 0, [cleared_position()]. *)
Definition close_state (st : ExecState) (cash : decimal) (trade : CompletedTrade)
    (ignored : list Signal) (closed_at_open : bool) : ExecState :=
  mkState cash 0 None None None None None None
    (st_completed_trades st ++ [trade]) (st_equity_curve st) ignored closed_at_open.

(** The body of [for signal in pending_signals]. *)
Definition process_signal (index : nat) (bar : MarketBar) (stop_loss take_profit : option decimal)
    (st : ExecState) (signal : Signal) : result ExecState :=
  match signal_type signal with
  | BUY =>
      let was_flat := st_quantity st =? 0 in
      bought ← execute_buy signal bar (st_cash st) (st_quantity st) (st_entry_price st)
                 (st_entry_timestamp st) (st_entry_signal_timestamp st) (st_ignored_signals st);
      let '(cash, qty, e_price, e_ts, e_sig, ignored) := bought in
      match was_flat && (0 <? qty), e_price with
      | true, Some p =>
          levels ← calculate_risk_levels p stop_loss take_profit;
          Ok (mkState cash qty e_price e_ts e_sig (Some index) levels.1 levels.2
                (st_completed_trades st) (st_equity_curve st) ignored (st_closed_at_open st))
      | _, _ =>
          Ok (mkState cash qty e_price e_ts e_sig (st_entry_bar_index st) (st_stop_price st)
                (st_take_profit_price st) (st_completed_trades st) (st_equity_curve st)
                ignored (st_closed_at_open st))
      end
  | SELL =>
      sold ← execute_sell signal bar (st_cash st) (st_quantity st) (st_entry_price st)
               (st_entry_timestamp st) (st_entry_signal_timestamp st) (st_ignored_signals st);
      let '(cash, qty, trade, ignored) := sold in
      match trade with
      | Some trade => Ok (close_state st cash trade ignored true)
      | None =>
          Ok (mkState cash qty (st_entry_price st) (st_entry_timestamp st)
                (st_entry_signal_timestamp st) (st_entry_bar_index st) (st_stop_price st)
                (st_take_profit_price st) (st_completed_trades st) (st_equity_curve st)
                ignored (st_closed_at_open st))
      end
  end.

(** [signals_by_timestamp] *)
Definition group_signals (signals : list Signal) : gmap Z (list Signal) :=
  foldl (λ m s, <[sig_timestamp s := default [] (m !! sig_timestamp s) ++ [s]]> m) ∅ signals.

Definition pending_signals (by_ts : gmap Z (list Signal)) (ts : datetime) : list Signal :=
  default [] (by_ts !! ts).

(** The part of the iteration at the open, for [index > 0]. *)
Definition process_open (bars : list MarketBar) (by_ts : gmap Z (list Signal))
    (stop_loss take_profit : option decimal) (index : nat) (bar : MarketBar)
    (st : ExecState) : result ExecState :=
  previous ← py_index bars (index - 1);
  let pending := pending_signals by_ts (bar_timestamp previous) in
  match evaluate_opening_risk_exit bar (st_quantity st) (st_entry_bar_index st) index
          (st_stop_price st) (st_take_profit_price st) with
  | Some (x_price, reason) =>
      closed ← close_position bar x_price reason (st_cash st) (st_quantity st)
                 (st_entry_price st) (st_entry_timestamp st) (st_entry_signal_timestamp st);
      Ok (close_state st closed.1 closed.2 (st_ignored_signals st ++ pending) true)
  | None => foldM (process_signal index bar stop_loss take_profit) st pending
  end.

(** The intraday part of the iteration. *)
Definition process_intraday (index : nat) (bar : MarketBar) (st : ExecState) : result ExecState :=
  if (0 <? st_quantity st) && negb (st_closed_at_open st) then
    match evaluate_intraday_risk_exit bar (st_quantity st) (st_entry_bar_index st) index
            (st_stop_price st) (st_take_profit_price st) with
    | Some (x_price, reason) =>
        closed ← close_position bar x_price reason (st_cash st) (st_quantity st)
                   (st_entry_price st) (st_entry_timestamp st) (st_entry_signal_timestamp st);
        Ok (close_state st closed.1 closed.2 (st_ignored_signals st) (st_closed_at_open st))
    | None => Ok st
    end
  else Ok st.

(** [cash + quantity * bar.close_price] *)
Definition mark_to_close (bar : MarketBar) (cash : decimal) (qty : Z) : decimal :=
  dadd cash (dmul (dec_of_Z qty) (close_price bar)).

Definition record_equity (bar : MarketBar) (st : ExecState) : ExecState :=
  mkState (st_cash st) (st_quantity st) (st_entry_price st) (st_entry_timestamp st)
    (st_entry_signal_timestamp st) (st_entry_bar_index st) (st_stop_price st)
    (st_take_profit_price st) (st_completed_trades st)
    (st_equity_curve st ++
       [mkPoint (bar_timestamp bar) (mark_to_close bar (st_cash st) (st_quantity st))])
    (st_ignored_signals st) (st_closed_at_open st).

(** [position_closed_at_open = False] *)
Definition begin_bar (st : ExecState) : ExecState :=
  mkState (st_cash st) (st_quantity st) (st_entry_price st) (st_entry_timestamp st)
    (st_entry_signal_timestamp st) (st_entry_bar_index st) (st_stop_price st)
    (st_take_profit_price st) (st_completed_trades st) (st_equity_curve st)
    (st_ignored_signals st) false.

(** The body of [for index, bar in enumerate(bars)]. *)
Definition process_bar (bars : list MarketBar) (by_ts : gmap Z (list Signal))
    (stop_loss take_profit : option decimal) (st : ExecState) (ib : nat * MarketBar)
    : result ExecState :=
  let '(index, bar) := ib in
  let st := begin_bar st in
  st ← (if (0 <? index)%nat then process_open bars by_ts stop_loss take_profit index bar st
        else Ok st);
  st ← process_intraday index bar st;
  Ok (record_equity bar st).

(** The liquidation after the loop: final cash and trades. *)
Definition liquidate (bars : list MarketBar) (st : ExecState)
    : result (decimal * list CompletedTrade) :=
  if 0 <? st_quantity st then
    final_bar ← py_last bars;
    closed ← close_position final_bar (close_price final_bar) FINAL_LIQUIDATION (st_cash st)
               (st_quantity st) (st_entry_price st) (st_entry_timestamp st)
               (st_entry_signal_timestamp st);
    Ok (closed.1, st_completed_trades st ++ [closed.2])
  else Ok (st_cash st, st_completed_trades st).

Definition run_bars (bars : list MarketBar) (signals : list Signal)
    (stop_loss take_profit : option decimal) (starting_cash : decimal) : result ExecState :=
  foldM (process_bar bars (group_signals signals) stop_loss take_profit)
    (initial_state starting_cash) (enumerate bars).

Definition execute_long_only_signals (bars : list MarketBar) (signals : list Signal)
    (starting_cash : decimal) (stop_loss_percent take_profit_percent : option pydecimal)
    : result ExecutionResult :=
  _ ← raise_if (dle starting_cash dzero) (ValueError "starting_cash must be positive");
  _ ← raise_if (bool_decide (bars = [])) (ValueError "at least one market bar is required");
  _ ← validate_risk_control stop_loss_percent "stop_loss_percent";
  _ ← validate_risk_control take_profit_percent "take_profit_percent";
  st ← run_bars bars signals (finite_percent stop_loss_percent)
         (finite_percent take_profit_percent) starting_cash;
  final ← liquidate bars st;
  Ok (mkExecutionResult final.1 (dsum (profit_loss <$> final.2)) final.2
        (st_equity_curve st) (st_ignored_signals st)).
