(* ===== verification/EngineInvariant.v ===== *)
(** * Invariants of the execution engine

    The loop state is either flat, with every position field cleared, or holds
    a position whose fields describe one entry; cash never goes negative; every
    completed trade is a genuine round trip.  From these: the [RuntimeError]
    branches are unreachable and the engine can only fail on an oversized
    share count. *)

From S2P Require Import Prelude Decimal Models Engine.
From Stdlib Require Import ZArith QArith Lqa Lia Sorted.
From stdpp Require Import base list option strings gmap.
Local Open Scope Z_scope.

(** ** The pending signals of a timestamp *)
Lemma group_signals_lookup signals ts :
  pending_signals (group_signals signals) ts = filter (λ s, sig_timestamp s = ts) signals.
Proof.
  unfold group_signals. induction signals as [|s signals IH] using rev_ind; [done|].
  rewrite foldl_app, filter_app. simpl. rewrite filter_cons, filter_nil.
  unfold pending_signals in *. destruct (decide (sig_timestamp s = ts)) as [<-|Hne].
  - rewrite lookup_insert_eq. simpl. by rewrite <- IH.
  - rewrite lookup_insert_ne by done. by rewrite IH, app_nil_r.
Qed.

Lemma pending_signals_elem signals ts s :
  s ∈ pending_signals (group_signals signals) ts → s ∈ signals ∧ sig_timestamp s = ts.
Proof. rewrite group_signals_lookup, list_elem_of_filter. tauto. Qed.

(** ** What a completed trade records *)
Section spec.
Context (bars : list MarketBar) (signals : list Signal).
Context (stop_loss take_profit : option decimal).

(** Entered at the open of bar [i], on a BUY signal of the bar before. *)
Definition entry_ok (i : nat) (price : decimal) (ts sig : datetime) : Prop :=
  ∃ be bs, bars !! i = Some be ∧ (0 < i)%nat ∧ bars !! (i - 1)%nat = Some bs ∧
    price = open_price be ∧ ts = bar_timestamp be ∧ sig = bar_timestamp bs ∧
    mkSignal sig BUY ∈ signals.

(** What the exit reason says of the exit on bar [j] of a position entered
    on bar [i]. *)
Definition exit_ok (i j : nat) (t : CompletedTrade) : Prop :=
  ∃ bx s p, bars !! j = Some bx ∧ exit_timestamp t = bar_timestamp bx ∧
    calculate_risk_levels (entry_price t) stop_loss take_profit = Ok (s, p) ∧
    match exit_reason t with
    | STRATEGY_EXIT =>
        (i <= j)%nat ∧ (0 < j)%nat ∧ exit_price t = open_price bx ∧
        ∃ bp, bars !! (j - 1)%nat = Some bp ∧
          exit_signal_timestamp t = Some (bar_timestamp bp) ∧
          mkSignal (bar_timestamp bp) SELL ∈ signals
    | STOP_LOSS =>
        (i < j)%nat ∧ exit_signal_timestamp t = None ∧
        ∃ stop, s = Some stop ∧
          ((dle (open_price bx) stop = true ∧ exit_price t = open_price bx) ∨
           (dle (open_price bx) stop = false ∧ dle (low_price bx) stop = true ∧
            exit_price t = stop))
    | TAKE_PROFIT =>
        (i < j)%nat ∧ exit_signal_timestamp t = None ∧
        (∀ stop, s = Some stop → dle (open_price bx) stop = false) ∧
        ∃ target, p = Some target ∧
          ((dge (open_price bx) target = true ∧ exit_price t = open_price bx) ∨
           (dge (open_price bx) target = false ∧ dge (high_price bx) target = true ∧
            (∀ stop, s = Some stop → dle (low_price bx) stop = false) ∧
            exit_price t = target))
    | FINAL_LIQUIDATION =>
        (i <= j)%nat ∧ S j = length bars ∧ exit_signal_timestamp t = None ∧
        exit_price t = close_price bx
    end.

(** The money fields are those of [quantity] shares at the two prices. *)
Definition money_ok (t : CompletedTrade) : Prop :=
  0 < quantity t ∧
  profit_loss t = dsub (dmul (dec_of_Z (quantity t)) (exit_price t))
                       (dmul (dec_of_Z (quantity t)) (entry_price t)) ∧
  ∃ ratio, ddiv (profit_loss t) (dmul (dec_of_Z (quantity t)) (entry_price t)) = Ok ratio ∧
    return_percentage t = dmul ratio (dec_of_Z 100).

Definition trade_ok (last : nat) (t : CompletedTrade) : Prop :=
  ∃ i j, (j <= last)%nat ∧ entry_ok i (entry_price t) (entry_timestamp t) (signal_timestamp t) ∧
    exit_ok i j t ∧ money_ok t.

(** One position at a time: a trade is over when the next begins. *)
Definition trade_before (t1 t2 : CompletedTrade) : Prop :=
  exit_timestamp t1 <= entry_timestamp t2.

Definition flat (st : ExecState) : Prop :=
  st_quantity st = 0 ∧ st_entry_price st = None ∧ st_entry_timestamp st = None ∧
  st_entry_signal_timestamp st = None ∧ st_entry_bar_index st = None ∧
  st_stop_price st = None ∧ st_take_profit_price st = None.

Definition holding (index : nat) (st : ExecState) : Prop :=
  ∃ i price ts sig, (i <= index)%nat ∧ 0 < st_quantity st ∧
    st_entry_price st = Some price ∧ st_entry_timestamp st = Some ts ∧
    st_entry_signal_timestamp st = Some sig ∧ st_entry_bar_index st = Some i ∧
    entry_ok i price ts sig ∧
    calculate_risk_levels price stop_loss take_profit
      = Ok (st_stop_price st, st_take_profit_price st).

Record exec_inv (index : nat) (st : ExecState) : Prop := {
  inv_fits : fits (st_cash st);
  inv_cash : (0 <= dval (st_cash st))%Q;
  inv_position : flat st ∨ holding index st;
  inv_trades : Forall (trade_ok index) (st_completed_trades st);
  inv_sorted : StronglySorted trade_before (st_completed_trades st);
  inv_closed : ∀ t b, t ∈ st_completed_trades st →
    bars !! (default index (st_entry_bar_index st)) = Some b →
    exit_timestamp t <= bar_timestamp b }.
End spec.

(** ** Arithmetic of buying and closing *)
Section arithmetic.
Local Open Scope Q_scope.

Lemma cost_pos q p : (0 < q)%Z → 0 < dval p → 0 < dval (dmul (dec_of_Z q) p).
Proof.
  intros Hq Hp. eapply rounds_pos; [apply dmul_rounds|]. rewrite dval_dec_of_Z.
  apply Qmult_lt_0_compat; [by apply inject_Z_pos|done].
Qed.

Lemma proceeds_nonneg q p : (0 <= q)%Z → 0 <= dval p → 0 <= dval (dmul (dec_of_Z q) p).
Proof.
  intros Hq Hp. eapply rounds_nonneg; [apply dmul_rounds|]. rewrite dval_dec_of_Z.
  apply Qmult_le_0_compat; [by rewrite <- (Zle_Qle 0)|done].
Qed.

Lemma dadd_nonneg a b : 0 <= dval a → 0 <= dval b → fits (dadd a b) ∧ 0 <= dval (dadd a b).
Proof.
  intros Ha Hb. pose proof (dadd_rounds a b) as Hr.
  split; [by eapply rounds_to_fits|]. eapply rounds_nonneg; [done|lra].
Qed.

(** Buying the whole-share quotient never costs more than the cash. *)
Lemma buy_affordable cash p n :
  fits cash → 0 < dval p → (0 <= n)%Z → inject_Z n * dval p <= dval cash →
  dval (dmul (dec_of_Z n) p) <= dval cash ∧
  fits (dsub cash (dmul (dec_of_Z n) p)) ∧ 0 <= dval (dsub cash (dmul (dec_of_Z n) p)).
Proof.
  intros Hf Hp Hn Hle.
  assert (dval (dmul (dec_of_Z n) p) <= dval cash) as Hcost.
  { eapply rounds_le; [apply dmul_rounds|by apply fits_representable|].
    by rewrite dval_dec_of_Z. }
  pose proof (dsub_rounds cash (dmul (dec_of_Z n) p)) as Hr.
  split; [done|]. split; [by eapply rounds_to_fits|]. eapply rounds_nonneg; [done|lra].
Qed.

Lemma risk_levels_total price sl tp :
  0 < dval price → (∀ p, tp = Some p → 0 < dval p) →
  ∃ s t, calculate_risk_levels price sl tp = Ok (s, t) ∧
    (∀ p, t = Some p → 0 < dval p).
Proof.
  intros Hp Htp. unfold calculate_risk_levels.
  assert (¬ dval (dec_of_Z 100) == 0) as H100 by (rewrite dval_dec_of_Z; discriminate).
  destruct sl as [sl|]; [destruct (ddiv_rounds sl _ H100) as (r & -> & _)|]; cbn [mbind result_bind];
    (destruct tp as [tp|];
      [destruct (ddiv_rounds tp _ H100) as (r' & -> & Hr')|]; cbn [mbind result_bind];
      eexists _, _; (split; [reflexivity|]); intros q Hq; [|done]; injection Hq as <-).
  all: assert (0 < dval r') by
    (eapply rounds_pos; [exact Hr'|]; rewrite dval_dec_of_Z; apply Qlt_shift_div_l; [reflexivity|];
     rewrite Qmult_0_l; by apply Htp).
  all: eapply rounds_pos; [apply dmul_rounds|]; apply Qmult_lt_0_compat; [done|].
  all: eapply rounds_pos; [apply dadd_rounds|]; rewrite dval_dec_of_Z;
    change (inject_Z 1) with 1; lra.
Qed.

(** No shares are worth nothing: the book value is the cash. *)
Lemma dmul_zero_val p : dval (dmul (dec_of_Z 0) p) == 0.
Proof.
  eapply rounds_exact; [|apply representable_0].
  pose proof (dmul_rounds (dec_of_Z 0) p) as Hr. rewrite dval_dec_of_Z in Hr.
  by setoid_replace (inject_Z 0 * dval p) with 0 using relation Qeq in Hr by ring.
Qed.

Lemma dadd_no_shares c p : fits c → dval (dadd c (dmul (dec_of_Z 0) p)) == dval c.
Proof.
  intros Hc. eapply rounds_exact; [|by apply fits_representable].
  pose proof (dadd_rounds c (dmul (dec_of_Z 0) p)) as Hr. rewrite dmul_zero_val in Hr.
  by setoid_replace (dval c + 0) with (dval c) using relation Qeq in Hr by ring.
Qed.
End arithmetic.

(** ** One step of the loop *)
Section steps.
Context (bars : list MarketBar) (signals : list Signal).
Context (stop_loss take_profit : option decimal).
Context (Hbars : Forall bar_ok bars) (Hinc : increasing bars).
Context (Htp : ∀ p, take_profit = Some p → (0 < dval p)%Q).

Local Abbreviation inv := (exec_inv bars signals stop_loss take_profit).
Local Abbreviation holds := (holding bars signals stop_loss take_profit).

(** The only exception that can escape a step. *)
Definition oversized (e : exn) : Prop := e = InvalidOperation.

Lemma bar_lookup_ok i b : bars !! i = Some b → bar_ok b.
Proof. intros Hb. rewrite Forall_forall in Hbars. apply Hbars. by eapply list_elem_of_lookup_2. Qed.

Lemma bars_ordered i j bi bj :
  bars !! i = Some bi → bars !! j = Some bj → (i <= j)%nat → bar_timestamp bi <= bar_timestamp bj.
Proof.
  intros Hi Hj Hle. destruct (decide (i = j)) as [->|Hne].
  - rewrite Hi in Hj. by injection Hj as ->.
  - apply Z.lt_le_incl. eapply Hinc; eauto. lia.
Qed.

(** The value [close_position] and [execute_sell] return for a held position. *)
Definition closing_trade (st : ExecState) (price : decimal) (ts sig : datetime) (bar : MarketBar)
    (x_price : decimal) (x_sig : option datetime) (reason : ExitReason) (t : CompletedTrade) : Prop :=
  signal_timestamp t = sig ∧ entry_timestamp t = ts ∧ entry_price t = price ∧
  quantity t = st_quantity st ∧ exit_signal_timestamp t = x_sig ∧
  exit_timestamp t = bar_timestamp bar ∧ exit_price t = x_price ∧
  exit_reason t = reason ∧ money_ok t.

Lemma return_ratio pnl q price :
  0 < q → (0 < dval price)%Q → ∃ ratio, ddiv pnl (dmul (dec_of_Z q) price) = Ok ratio.
Proof.
  intros Hq Hp. destruct (ddiv_rounds pnl (dmul (dec_of_Z q) price)) as (r & Hr & _); [|eauto].
  pose proof (cost_pos q price Hq Hp) as Hc. intros E. rewrite E in Hc. by apply Qlt_irrefl in Hc.
Qed.

Lemma close_position_held st price ts sig bar x reason :
  0 < st_quantity st → (0 < dval price)%Q →
  st_entry_price st = Some price → st_entry_timestamp st = Some ts →
  st_entry_signal_timestamp st = Some sig →
  ∃ t, close_position bar x reason (st_cash st) (st_quantity st) (st_entry_price st)
         (st_entry_timestamp st) (st_entry_signal_timestamp st)
       = Ok (dadd (st_cash st) (dmul (dec_of_Z (st_quantity st)) x), t) ∧
    closing_trade st price ts sig bar x None reason t.
Proof.
  intros Hq Hp -> -> ->. unfold close_position. destruct (Z.leb_spec (st_quantity st) 0); [lia|].
  destruct (return_ratio (dsub (dmul (dec_of_Z (st_quantity st)) x) (dmul (dec_of_Z (st_quantity st)) price))
    _ _ Hq Hp) as [r Hr]. rewrite Hr. cbn [mbind result_bind].
  eexists; split; [reflexivity|]. repeat split; simpl; eauto.
Qed.

Lemma execute_sell_held st price ts sig bar s :
  0 < st_quantity st → (0 < dval price)%Q →
  st_entry_price st = Some price → st_entry_timestamp st = Some ts →
  st_entry_signal_timestamp st = Some sig →
  ∃ t, execute_sell s bar (st_cash st) (st_quantity st) (st_entry_price st)
         (st_entry_timestamp st) (st_entry_signal_timestamp st) (st_ignored_signals st)
       = Ok (dadd (st_cash st) (dmul (dec_of_Z (st_quantity st)) (open_price bar)), 0, Some t,
             st_ignored_signals st) ∧
    closing_trade st price ts sig bar (open_price bar) (Some (sig_timestamp s)) STRATEGY_EXIT t.
Proof.
  intros Hq Hp -> -> ->. unfold execute_sell. destruct (Z.eqb_spec (st_quantity st) 0); [lia|].
  destruct (return_ratio (dsub (dmul (dec_of_Z (st_quantity st)) (open_price bar)) (dmul (dec_of_Z (st_quantity st)) price))
    _ _ Hq Hp) as [r Hr]. rewrite Hr. cbn [mbind result_bind].
  eexists; split; [reflexivity|]. repeat split; simpl; eauto.
Qed.

(** Closing keeps the invariant, whatever caused it. *)
Lemma close_state_inv index st i price ts sig bar x x_sig reason t ignored flag :
  inv index st → bars !! index = Some bar → (0 <= dval x)%Q →
  0 < st_quantity st → st_entry_bar_index st = Some i → (i <= index)%nat →
  entry_ok bars signals i price ts sig →
  closing_trade st price ts sig bar x x_sig reason t →
  exit_ok bars signals stop_loss take_profit i index t →
  inv index (close_state st (dadd (st_cash st) (dmul (dec_of_Z (st_quantity st)) x)) t ignored flag).
Proof.
  intros [Hf Hc Hpos Htr Hso Hcl] Hbar Hx Hq Hi Hile Hent Ht Hexit.
  destruct Ht as (Hsig & Hts & Hpr & Hqt & Hxs & Hxt & Hxp & Hre & Hm).
  assert (0 <= dval (dmul (dec_of_Z (st_quantity st)) x))%Q as Hpr0
    by (apply proceeds_nonneg; [lia|done]).
  destruct (dadd_nonneg _ _ Hc Hpr0) as [Hf' Hc'].
  destruct Hent as (be & bs & Hbe & Hi0 & Hbs & -> & -> & -> & Hin).
  assert (∀ t', t' ∈ st_completed_trades st → exit_timestamp t' <= bar_timestamp be) as Hbefore.
  { intros t' Hin'. apply (Hcl t' be Hin'). by rewrite Hi. }
  split; simpl; try done.
  - by left.
  - apply Forall_app; split; [done|]. constructor; [|done].
    exists i, index. split; [done|]. split; [|done].
    exists be, bs. rewrite Hpr, Hts, Hsig. done.
  - apply StronglySorted_snoc; [done|]. apply Forall_forall. intros t' Hin'.
    unfold trade_before. rewrite Hts. by apply Hbefore.
  - intros t' b Hin' Hb. rewrite Hbar in Hb. injection Hb as <-.
    apply elem_of_app in Hin' as [Hin'|Heq%list_elem_of_singleton].
    + etransitivity; [by apply Hbefore|]. by eapply bars_ordered.
    + subst t'. by rewrite Hxt.
Qed.

(** The opening check does not fire for the position as it stands. *)
Definition opening_clear (index : nat) (bar : MarketBar) (st : ExecState) : Prop :=
  evaluate_opening_risk_exit bar (st_quantity st) (st_entry_bar_index st) index
    (st_stop_price st) (st_take_profit_price st) = None.

Lemma no_earlier_new q index : no_earlier_position q (Some index) index = true.
Proof. unfold no_earlier_position. rewrite Nat.leb_refl. apply orb_true_r. Qed.

Lemma no_earlier_held q i index :
  0 < q → no_earlier_position q (Some i) index = false → (i < index)%nat.
Proof. unfold no_earlier_position. intros Hq [_ H]%orb_false_iff. by apply Nat.leb_gt in H. Qed.

Lemma flat_clear index bar st : flat st → opening_clear index bar st.
Proof. intros (Hq & _). unfold opening_clear. by rewrite Hq. Qed.

(** Selling a held position. *)
Lemma process_sell_inv index bar bp st s :
  inv index st → bars !! index = Some bar → (0 < index)%nat →
  bars !! (index - 1)%nat = Some bp → s ∈ signals → sig_timestamp s = bar_timestamp bp →
  opening_clear index bar st → signal_type s = SELL →
  outcome (process_signal index bar stop_loss take_profit st s)
    (λ st', inv index st' ∧ opening_clear index bar st') oversized.
Proof.
  intros Hinv Hbar H0 Hbp Hs Hts Hclear Hty. unfold process_signal. rewrite Hty.
  destruct (inv_position _ _ _ _ _ _ Hinv) as [Hflat|(i & price & ts & sig & Hle & Hq & Ep & Et & Es & Ei & Hent & Hlev)].
  - destruct Hflat as (Hq & Hrest). unfold execute_sell. rewrite Hq. simpl.
    split; [|done]. destruct Hinv. split; simpl; try done. left. by repeat split; try apply Hrest.
  - assert (0 < dval price)%Q as Hp.
    { destruct Hent as (be & bs & Hbe & _ & _ & -> & _). by eapply bar_ok_open_pos, bar_lookup_ok. }
    destruct (execute_sell_held st price ts sig bar s Hq Hp Ep Et Es) as (t & -> & Ht). simpl.
    split; [|by apply flat_clear].
    eapply close_state_inv; eauto.
    + apply Qlt_le_weak. by eapply bar_ok_open_pos, bar_lookup_ok.
    + destruct Ht as (_ & _ & Hpr & _ & Hxs & Hxt & Hxp & Hre & _).
      exists bar, (st_stop_price st), (st_take_profit_price st).
      rewrite Hpr, Hre. split_and!; try done. exists bp. split; [done|].
      rewrite Hxs, Hts. split; [done|]. destruct s as [sts sty]; simpl in *. by subst.
Qed.

(** Buying, or ignoring the signal. *)
Lemma process_buy_inv index bar bp st s :
  inv index st → bars !! index = Some bar → (0 < index)%nat →
  bars !! (index - 1)%nat = Some bp → s ∈ signals → sig_timestamp s = bar_timestamp bp →
  opening_clear index bar st → signal_type s = BUY →
  outcome (process_signal index bar stop_loss take_profit st s)
    (λ st', inv index st' ∧ opening_clear index bar st') oversized.
Proof.
  intros Hinv Hbar H0 Hbp Hs Hts Hclear Hty. unfold process_signal. rewrite Hty.
  pose proof (bar_ok_open_pos _ (bar_lookup_ok _ _ Hbar)) as Hopen.
  destruct (inv_position _ _ _ _ _ _ Hinv) as [Hflat|Hhold].
  2:{ destruct Hhold as (i & price & ts & sig & Hle & Hq & Ep & Et & Es & Ei & Hent & Hlev).
      unfold execute_buy. destruct (Z.ltb_spec 0 (st_quantity st)); [|lia].
      destruct (Z.eqb_spec (st_quantity st) 0); [lia|]. simpl.
      split; [|done]. by destruct Hinv. }
  destruct Hflat as (Hq & Ep & Et & Es & Ei & Esp & Etp). unfold execute_buy. rewrite Hq. simpl.
  destruct (dfloordiv_spec (st_cash st) (open_price bar) (inv_cash _ _ _ _ _ _ Hinv) Hopen)
    as [(r & -> & [Hn0 _] & Hle & _)|[-> _]]; [|done].
  cbn [mbind result_bind].
  destruct (Z.eqb_spec (dint r) 0) as [Hz|Hz]; simpl.
  - rewrite Ep. split; [|by rewrite Ei, Esp, Etp]. destruct Hinv. split; simpl; try done. left. done.
  - destruct (Z.ltb_spec 0 (dint r)) as [Hpos|]; [|lia].
    destruct (risk_levels_total (open_price bar) stop_loss take_profit Hopen Htp) as (sp & tp & Hlev & _).
    rewrite Hlev. cbn [mbind result_bind]. simpl.
    destruct (buy_affordable _ _ _ (inv_fits _ _ _ _ _ _ Hinv) Hopen Hn0 Hle) as (_ & Hf' & Hc').
    split; [|unfold opening_clear, evaluate_opening_risk_exit; simpl; by rewrite no_earlier_new].
    destruct Hinv as [_ _ _ Htr Hso Hcl]. split; simpl; try done.
    + right. exists index, (open_price bar), (bar_timestamp bar), (sig_timestamp s).
      split_and!; try done.
      exists bar, bp. split_and!; try done. destruct s as [sts sty]; simpl in *. by subst.
    + by rewrite Ei in Hcl.
Qed.

Lemma process_signal_inv index bar bp st s :
  inv index st → bars !! index = Some bar → (0 < index)%nat →
  bars !! (index - 1)%nat = Some bp → s ∈ signals → sig_timestamp s = bar_timestamp bp →
  opening_clear index bar st →
  outcome (process_signal index bar stop_loss take_profit st s)
    (λ st', inv index st' ∧ opening_clear index bar st') oversized.
Proof.
  intros. destruct (signal_type s) eqn:?; [eapply process_buy_inv | eapply process_sell_inv]; eauto.
Qed.

(** What the two risk checks report. *)
Lemma opening_exit_Some bar q ei index sp tp x reason :
  evaluate_opening_risk_exit bar q ei index sp tp = Some (x, reason) →
  ∃ i, ei = Some i ∧ (i < index)%nat ∧ q ≠ 0 ∧ x = open_price bar ∧
    ((reason = STOP_LOSS ∧ ∃ s, sp = Some s ∧ dle (open_price bar) s = true) ∨
     (reason = TAKE_PROFIT ∧ (∀ s, sp = Some s → dle (open_price bar) s = false) ∧
      ∃ t, tp = Some t ∧ dge (open_price bar) t = true)).
Proof.
  unfold evaluate_opening_risk_exit, no_earlier_position.
  destruct (Z.eqb_spec q 0); [done|]. destruct ei as [i|]; [|done]. simpl.
  destruct (Nat.leb_spec index i); [done|]. intros Hex. exists i.
  destruct sp as [s|]; [destruct (dle (open_price bar) s) eqn:Es|]; simpl in Hex.
  - injection Hex as <- <-. split_and!; try done. left. eauto.
  - destruct tp as [t|]; [destruct (dge (open_price bar) t) eqn:Et|]; simplify_eq.
    split_and!; try done. right. split_and!; [done| |eauto]. by intros ? [= <-].
  - destruct tp as [t|]; [destruct (dge (open_price bar) t) eqn:Et|]; simplify_eq.
    split_and!; try done. right. split_and!; [done| |eauto]. done.
Qed.

Lemma opening_exit_None bar q i index sp tp :
  evaluate_opening_risk_exit bar q (Some i) index sp tp = None → q ≠ 0 → (i < index)%nat →
  (∀ s, sp = Some s → dle (open_price bar) s = false) ∧
  (∀ t, tp = Some t → dge (open_price bar) t = false).
Proof.
  unfold evaluate_opening_risk_exit, no_earlier_position. intros Hex Hq Hi.
  destruct (Z.eqb_spec q 0); [done|]. destruct (Nat.leb_spec index i); [lia|]. simpl in Hex.
  destruct sp as [s|]; [destruct (dle (open_price bar) s) eqn:Es; [done|]|];
    (destruct tp as [t|]; [destruct (dge (open_price bar) t) eqn:Et; [done|]|]);
    naive_solver.
Qed.

Lemma intraday_exit_Some bar q ei index sp tp x reason :
  evaluate_intraday_risk_exit bar q ei index sp tp = Some (x, reason) →
  ∃ i, ei = Some i ∧ (i < index)%nat ∧ q ≠ 0 ∧
    ((reason = STOP_LOSS ∧ sp = Some x ∧ dle (low_price bar) x = true) ∨
     (reason = TAKE_PROFIT ∧ (∀ s, sp = Some s → dle (low_price bar) s = false) ∧
      tp = Some x ∧ dge (high_price bar) x = true)).
Proof.
  unfold evaluate_intraday_risk_exit, no_earlier_position.
  destruct (Z.eqb_spec q 0); [done|]. destruct ei as [i|]; [|done]. simpl.
  destruct (Nat.leb_spec index i); [done|]. intros Hex. exists i.
  destruct sp as [s|]; [destruct (dle (low_price bar) s) eqn:Es|].
  - injection Hex as <- <-. split_and!; try done. by left.
  - destruct tp as [t|]; [destruct (dge (high_price bar) t) eqn:Et|]; simplify_eq.
    split_and!; try done. right. split_and!; try done. by intros ? [= <-].
  - destruct tp as [t|]; [destruct (dge (high_price bar) t) eqn:Et|]; simplify_eq.
    split_and!; try done. by right.
Qed.

Lemma process_open_inv index bar st :
  inv index st → bars !! index = Some bar → (0 < index)%nat →
  outcome (process_open bars (group_signals signals) stop_loss take_profit index bar st)
    (λ st', inv index st' ∧ opening_clear index bar st') oversized.
Proof.
  intros Hinv Hbar H0. unfold process_open.
  destruct (py_index_ok_lt bars (index - 1)) as (bp & -> & Hbp).
  { apply lookup_lt_Some in Hbar. lia. }
  cbn [mbind result_bind].
  destruct (evaluate_opening_risk_exit _ _ _ _ _ _) as [[x reason]|] eqn:Hex.
  - apply opening_exit_Some in Hex as (i & Ei & Hlt & Hq0 & -> & Hreason).
    destruct (inv_position _ _ _ _ _ _ Hinv) as [(Hq & _)|(i' & price & ts & sig & Hle & Hq & Ep & Et & Es & Ei' & Hent & Hlev)]; [done|].
    rewrite Ei in Ei'. injection Ei' as <-.
    assert (0 < dval price)%Q as Hp.
    { destruct Hent as (be & bs & Hbe & _ & _ & -> & _). by eapply bar_ok_open_pos, bar_lookup_ok. }
    destruct (close_position_held st price ts sig bar (open_price bar) reason Hq Hp Ep Et Es) as (t & -> & Ht).
    simpl. split; [|by apply flat_clear].
    eapply close_state_inv; eauto.
    + apply Qlt_le_weak. by eapply bar_ok_open_pos, bar_lookup_ok.
    + destruct Ht as (_ & _ & Hpr & _ & Hxs & Hxt & Hxp & Hre & _).
      exists bar, (st_stop_price st), (st_take_profit_price st). rewrite Hpr, Hre.
      split_and!; try done. destruct Hreason as [(-> & s & -> & Hs)|(-> & Hns & tg & -> & Htg)].
      * split_and!; try done. exists s. split; [done|]. by left.
      * split_and!; try done. exists tg. split; [done|]. by left.
  - apply outcome_foldM; [done|]. intros st' s Hs [Hi Hc].
    apply pending_signals_elem in Hs as [Hs Hts]. by eapply process_signal_inv.
Qed.

Lemma process_intraday_inv index bar st :
  inv index st → bars !! index = Some bar → opening_clear index bar st →
  outcome (process_intraday index bar st) (inv index) oversized.
Proof.
  intros Hinv Hbar Hclear. unfold process_intraday.
  destruct (Z.ltb_spec 0 (st_quantity st)) as [Hq|]; [|done].
  destruct (negb (st_closed_at_open st)); [|done]. cbn [andb].
  destruct (evaluate_intraday_risk_exit _ _ _ _ _ _) as [[x reason]|] eqn:Hex; [|done].
  apply intraday_exit_Some in Hex as (i & Ei & Hlt & Hq0 & Hreason).
  destruct (inv_position _ _ _ _ _ _ Hinv) as [(Hq' & _)|(i' & price & ts & sig & Hle & _ & Ep & Et & Es & Ei' & Hent & Hlev)]; [done|].
  rewrite Ei in Ei'. injection Ei' as <-.
  unfold opening_clear in Hclear. rewrite Ei in Hclear.
  destruct (opening_exit_None _ _ _ _ _ _ Hclear Hq0 Hlt) as [Hns Hnt].
  pose proof (bar_lookup_ok _ _ Hbar) as Hbok.
  assert (0 < dval price)%Q as Hp.
  { destruct Hent as (be & bs & Hbe & _ & _ & -> & _). by eapply bar_ok_open_pos, bar_lookup_ok. }
  assert (0 <= dval x)%Q as Hx.
  { destruct Hreason as [(_ & _ & Hlow)|(_ & _ & Htpx & _)].
    - apply dle_val in Hlow. destruct Hbok as (Hl & _). lra.
    - destruct (risk_levels_total price stop_loss take_profit Hp Htp) as (s' & t' & Hl' & Hpos).
      rewrite Hlev in Hl'. injection Hl' as <- <-. apply Qlt_le_weak. by apply Hpos. }
  destruct (close_position_held st price ts sig bar x reason Hq Hp Ep Et Es) as (t & -> & Ht).
  simpl. eapply close_state_inv; eauto.
  destruct Ht as (_ & _ & Hpr & _ & Hxs & Hxt & Hxp & Hre & _).
  exists bar, (st_stop_price st), (st_take_profit_price st). rewrite Hpr, Hre.
  split_and!; try done. destruct Hreason as [(-> & Hs & Hlow)|(-> & Hnl & Htg & Hhigh)].
  - split_and!; try done. exists x. split; [done|]. right. split_and!; try done. by apply Hns.
  - split_and!; try done. exists x. split; [done|]. right. split_and!; try done. by apply Hnt.
Qed.

(** *** The curve is only written by [record_equity] *)
Lemma process_signal_curve index bar sl tp st s st' :
  process_signal index bar sl tp st s = Ok st' → st_equity_curve st' = st_equity_curve st.
Proof.
  unfold process_signal. destruct (signal_type s); intros H;
    apply bind_Ok_inv in H as (r & _ & H).
  - destruct r as [[[[[c q] ep] et] es] ig].
    destruct (_ && _); [destruct ep|]; bind_inv; done.
  - destruct r as [[[c q] [t|]] ig]; bind_inv; done.
Qed.

Lemma process_open_curve by_ts sl tp index bar st st' :
  process_open bars by_ts sl tp index bar st = Ok st' → st_equity_curve st' = st_equity_curve st.
Proof.
  unfold process_open. intros H. apply bind_Ok_inv in H as (bp & _ & H).
  destruct (evaluate_opening_risk_exit _ _ _ _ _ _) as [[x reason]|]; [by bind_inv|].
  apply (foldM_invariant _ (λ s, st_equity_curve s = st_equity_curve st)) in H; [done| |done].
  intros s a s1 _ <-. apply process_signal_curve.
Qed.

Lemma process_intraday_curve index bar st st' :
  process_intraday index bar st = Ok st' → st_equity_curve st' = st_equity_curve st.
Proof.
  unfold process_intraday. destruct (_ && _); [|by intros [= <-]].
  destruct (evaluate_intraday_risk_exit _ _ _ _ _ _) as [[x reason]|]; intros; by bind_inv.
Qed.

(** *** One bar *)
Lemma exec_inv_begin index st : inv index st → inv index (begin_bar st).
Proof. by intros []. Qed.

Lemma exec_inv_record index bar st : inv index st → inv index (record_equity bar st).
Proof. by intros []. Qed.

Lemma exec_inv_next index st b :
  bars !! S index = Some b → inv index st → inv (S index) st.
Proof.
  intros Hb [Hf Hc Hpos Htr Hso Hcl].
  destruct (lookup_lt_is_Some_2 bars index) as [b0 Hb0].
  { apply lookup_lt_Some in Hb. lia. }
  split; try done.
  - destruct Hpos as [?|(i & p & ts & sg & Hle & ?)]; [by left|right].
    exists i, p, ts, sg. split; [lia|done].
  - eapply Forall_impl; [exact Htr|]. intros t (i & j & Hj & ?). exists i, j. split; [lia|done].
  - intros t b' Hin Hb'. destruct (st_entry_bar_index st) as [i|] eqn:Ei; simpl in *.
    + by apply (Hcl t b' Hin).
    + etransitivity; [by apply (Hcl t b0 Hin)|]. eapply bars_ordered; eauto.
Qed.

(** The curve has one point per bar so far, none negative. *)
Definition curve_ok (n : nat) (st : ExecState) : Prop :=
  pt_timestamp <$> st_equity_curve st = bar_timestamp <$> take n bars ∧
  Forall (λ p, 0 <= dval (equity p))%Q (st_equity_curve st).

Definition loop_inv (n : nat) (st : ExecState) : Prop := inv (n - 1) st ∧ curve_ok n st.

Lemma quantity_nonneg index st : inv index st → 0 <= st_quantity st.
Proof. intros [_ _ [(-> & _)|(i & p & ts & sg & _ & ? & _)] _ _ _]; lia. Qed.

Lemma curve_ok_record n bar st :
  bars !! n = Some bar → inv n st → curve_ok n st → curve_ok (S n) (record_equity bar st).
Proof.
  intros Hb Hi [Hts Heq]. split; simpl.
  - rewrite (take_S_r _ _ _ Hb), !fmap_app, Hts. done.
  - apply Forall_app; split; [done|]. constructor; [|done]. simpl. unfold mark_to_close.
    apply dadd_nonneg; [apply Hi|]. apply proceeds_nonneg; [by eapply quantity_nonneg|].
    by eapply Qlt_le_weak, bar_ok_close_pos, bar_lookup_ok.
Qed.

Lemma process_bar_inv index bar st :
  bars !! index = Some bar → loop_inv index st →
  outcome (process_bar bars (group_signals signals) stop_loss take_profit st (index, bar))
    (loop_inv (index + 1)) oversized.
Proof.
  intros Hb [Hi Hc]. unfold process_bar.
  set (Q := λ st', st_equity_curve st' = st_equity_curve st).
  eapply (outcome_bind _ _ _ (λ st', (inv index st' ∧ opening_clear index bar st') ∧ Q st')).
  - destruct (Nat.ltb_spec 0 index) as [H0|H0]; simpl.
    + assert (inv index (begin_bar st)) as Hi'.
      { destruct index as [|k]; [lia|]. apply exec_inv_begin, (exec_inv_next _ _ _ Hb).
        by replace (S k - 1)%nat with k in Hi by lia. }
      pose proof (process_open_inv index bar _ Hi' Hb H0) as Ho.
      destruct (process_open _ _ _ _ _ _ _) eqn:E; [|done]. split; [done|].
      by apply process_open_curve in E.
    + replace index with 0%nat in * by lia. split; [|done]. split; [by apply exec_inv_begin|].
      destruct (inv_position _ _ _ _ _ _ Hi) as [?|(i & p & ts & sg & Hle & _ & _ & _ & _ & _ & Hent & _)];
        [by apply flat_clear|]. destruct Hent as (? & ? & _ & ? & _). simpl in Hle. lia.
  - intros st1 [[Hi1 Hc1] Hq1]. eapply (outcome_bind _ _ _ (λ st', inv index st' ∧ Q st')).
    + pose proof (process_intraday_inv index bar _ Hi1 Hb Hc1) as Ho.
      destruct (process_intraday _ _ _) eqn:E; [|done]. split; [done|].
      unfold Q. by apply process_intraday_curve in E as ->.
    + intros st2 [Hi2 Hq2]. cbn [outcome]. rewrite Nat.add_1_r. split.
      * simpl. rewrite Nat.sub_0_r. by apply exec_inv_record.
      * apply curve_ok_record; try done. unfold curve_ok. by rewrite Hq2.
Qed.

Lemma initial_state_inv starting_cash :
  fits starting_cash → (0 <= dval starting_cash)%Q → loop_inv 0 (initial_state starting_cash).
Proof.
  intros Hf Hc. split; [|done]. split; try done; [by left|constructor|].
  simpl. intros t b Hin. by apply not_elem_of_nil in Hin.
Qed.

Lemma run_bars_inv starting_cash :
  fits starting_cash → (0 <= dval starting_cash)%Q →
  outcome (run_bars bars signals stop_loss take_profit starting_cash)
    (loop_inv (length bars)) oversized.
Proof.
  intros Hf Hc. unfold run_bars, enumerate.
  apply (outcome_enumerate oversized _ loop_inv bars 0); [by apply initial_state_inv|].
  intros j b s Hj Hinv. by apply process_bar_inv.
Qed.
End steps.
