(* ===== verification/EngineSafety.v ===== *)
(** * What the engine promises of every run

    From the loop invariant of EngineInvariant: the engine raises nothing but
    its argument errors and decimal's InvalidOperation; no value it reports is
    negative; every trade is a genuine round trip and they do not overlap. *)

From S2P Require Import Prelude Decimal Models Samples Engine EngineInvariant.
From Stdlib Require Import ZArith QArith Lqa Lia Sorted.
From stdpp Require Import base list option strings gmap.
Local Open Scope Z_scope.

(** The argument checks, in the order the engine makes them. *)
Definition engine_argument_error (bars : list MarketBar) (starting_cash : decimal)
    (stop_loss_percent take_profit_percent : option pydecimal) : option exn :=
  if dle starting_cash dzero then Some (ValueError "starting_cash must be positive")
  else if bool_decide (bars = []) then Some (ValueError "at least one market bar is required")
  else if negb (is_ok (validate_risk_control stop_loss_percent "stop_loss_percent"))
  then Some (ValueError "stop_loss_percent must be finite and positive")
  else if negb (is_ok (validate_risk_control take_profit_percent "take_profit_percent"))
  then Some (ValueError "take_profit_percent must be finite and positive")
  else None.

(** The trades of a result: genuine round trips that never overlap. *)
Definition trades_genuine (bars : list MarketBar) (signals : list Signal)
    (stop_loss take_profit : option decimal) (r : ExecutionResult) : Prop :=
  Forall (trade_ok bars signals stop_loss take_profit (length bars - 1)) (completed_trades r) ∧
  StronglySorted trade_before (completed_trades r).

(** The values of a result: one point per bar, nothing negative. *)
Definition values_sound (bars : list MarketBar) (r : ExecutionResult) : Prop :=
  pt_timestamp <$> equity_curve r = bar_timestamp <$> bars ∧
  Forall (λ p, 0 <= dval (equity p))%Q (equity_curve r) ∧
  (0 <= dval (final_portfolio_value r))%Q.

(** A control is accepted when it is absent or a finite positive number. *)
Definition control_ok (value : option pydecimal) : Prop :=
  ∀ v, value = Some v → ∃ d, v = Finite d ∧ (0 < dval d)%Q.

(** Everything [execute_long_only_signals] guarantees of a result. *)
Record execution_ok (bars : list MarketBar) (signals : list Signal)
    (stop_loss take_profit : option decimal) (r : ExecutionResult) : Prop := {
  exec_final_nonneg : (0 <= dval (final_portfolio_value r))%Q;
  exec_curve_timestamps : pt_timestamp <$> equity_curve r = bar_timestamp <$> bars;
  exec_curve_nonneg : Forall (λ p, 0 <= dval (equity p))%Q (equity_curve r);
  exec_trades : Forall (trade_ok bars signals stop_loss take_profit (length bars - 1)) (completed_trades r);
  exec_sorted : StronglySorted trade_before (completed_trades r) }.

Section safety.
Context (bars : list MarketBar) (signals : list Signal).
Context (Hbars : Forall bar_ok bars) (Hinc : increasing bars) (Hne : bars ≠ []).

Lemma validate_risk_control_spec value name :
  validate_risk_control value name =
    if is_ok (validate_risk_control value name) then Ok ()
    else Err (ValueError (String.append name " must be finite and positive")).
Proof. destruct value as [[d| |]|]; simpl; try done. by destruct (dle d dzero). Qed.

Lemma validate_risk_control_ok value name :
  is_ok (validate_risk_control value name) = true ↔ control_ok value.
Proof.
  unfold control_ok. destruct value as [[d| |]|]; simpl.
  - destruct (dle d dzero) eqn:E; simpl.
    + apply dle_val in E. rewrite dval_dzero in E. split; [done|].
      intros H. destruct (H _ eq_refl) as (d' & [= <-] & Hd). lra.
    + apply dle_val_false in E. rewrite dval_dzero in E. split; [|done].
      intros _ v [= <-]. eauto.
  - split; [done|]. intros H. by destruct (H _ eq_refl) as (d' & ? & _).
  - split; [done|]. intros H. by destruct (H _ eq_refl) as (d' & ? & _).
  - done.
Qed.

Lemma finite_percent_pos value p :
  control_ok value → finite_percent value = Some p → (0 < dval p)%Q.
Proof.
  intros H. destruct value as [v|]; [|done]. destruct (H v eq_refl) as (d & -> & Hd).
  simpl. by intros [= <-].
Qed.

(** The liquidation always succeeds after the loop. *)
Lemma liquidate_inv sl tp st :
  (∀ p, tp = Some p → (0 < dval p)%Q) →
  loop_inv bars signals sl tp (length bars) st →
  ∃ cash trades, liquidate bars st = Ok (cash, trades) ∧ (0 <= dval cash)%Q ∧
    Forall (trade_ok bars signals sl tp (length bars - 1)) trades ∧ StronglySorted trade_before trades.
Proof.
  intros Htp [Hi [Hts Heq]]. unfold liquidate.
  destruct (Z.ltb_spec 0 (st_quantity st)) as [Hq|]; [|exists (st_cash st), (st_completed_trades st); by destruct Hi].
  assert (length bars ≠ 0)%nat as Hlen by (by destruct bars).
  destruct (py_index_ok_lt bars (length bars - 1)) as (bar & _ & Hb); [lia|].
  assert (py_last bars = Ok bar) as ->.
  { unfold py_last. rewrite last_lookup. by replace (Nat.pred (length bars)) with (length bars - 1)%nat by lia; rewrite Hb. }
  cbn [mbind result_bind].
  destruct (inv_position _ _ _ _ _ _ Hi) as [(Hq' & _)|(i & price & ts & sig & Hle & _ & Ep & Et & Es & Ei & Hent & Hlev)]; [lia|].
  assert (bar_ok bar) as Hbok by (by eapply bar_lookup_ok).
  assert (0 < dval price)%Q as Hp.
  { destruct Hent as (be & bs & Hbe & _ & _ & -> & _). by eapply bar_ok_open_pos, bar_lookup_ok. }
  destruct (close_position_held st price ts sig bar (close_price bar) FINAL_LIQUIDATION Hq Hp Ep Et Es) as (t & -> & Ht).
  cbn [mbind result_bind fst snd]. eexists _, _; split; [reflexivity|].
  assert (exec_inv bars signals sl tp (length bars - 1)
    (close_state st (dadd (st_cash st) (dmul (dec_of_Z (st_quantity st)) (close_price bar))) t [] false)) as [? ? ? ? ? ?].
  { eapply close_state_inv; eauto.
    - by apply Qlt_le_weak, bar_ok_close_pos.
    - destruct Ht as (_ & _ & Hpr & _ & Hxs & Hxt & Hxp & Hre & _).
      exists bar, (st_stop_price st), (st_take_profit_price st). rewrite Hpr, Hre.
      split_and!; try done. lia. }
  done.
Qed.

Lemma engine_runs starting_cash slp tpp :
  fits starting_cash → engine_argument_error bars starting_cash slp tpp = None →
  control_ok slp ∧ control_ok tpp ∧
  outcome (execute_long_only_signals bars signals starting_cash slp tpp)
    (execution_ok bars signals (finite_percent slp) (finite_percent tpp)) oversized.
Proof.
  intros Hf. unfold engine_argument_error, execute_long_only_signals.
  rewrite (validate_risk_control_spec slp), (validate_risk_control_spec tpp).
  destruct (dle starting_cash dzero) eqn:Ec; [done|].
  case_bool_decide as Hb; [done|]. simpl.
  destruct (is_ok (validate_risk_control slp _)) eqn:Es; [|done].
  destruct (is_ok (validate_risk_control tpp _)) eqn:Et; [|done]. intros _. cbn [mbind result_bind].
  apply validate_risk_control_ok in Es, Et. split_and!; [done..|].
  apply dle_val_false in Ec. rewrite dval_dzero in Ec.
  assert (∀ p, finite_percent tpp = Some p → (0 < dval p)%Q) as Htp
    by (intros p; by apply finite_percent_pos).
  eapply outcome_bind; [apply run_bars_inv; [done..|by apply Qlt_le_weak]|].
  intros st Hst. destruct (liquidate_inv _ _ st Htp Hst) as (cash & trades & -> & Hc & Htr & Hso).
  destruct Hst as [_ [Hts Heq]]. simpl. split; simpl; try done.
  by rewrite Hts, firstn_all.
Qed.
End safety.

Lemma engine_argument_error_raised bars signals starting_cash slp tpp e :
  engine_argument_error bars starting_cash slp tpp = Some e →
  execute_long_only_signals bars signals starting_cash slp tpp = Err e.
Proof.
  unfold engine_argument_error, execute_long_only_signals.
  rewrite (validate_risk_control_spec slp), (validate_risk_control_spec tpp).
  destruct (dle starting_cash dzero); simpl; [by intros [= <-]|].
  case_bool_decide; simpl; [by intros [= <-]|].
  destruct (is_ok (validate_risk_control slp _)); simpl; [|by intros [= <-]].
  destruct (is_ok (validate_risk_control tpp _)); simpl; [done|by intros [= <-]].
Qed.

Lemma argument_error_empty starting_cash slp tpp :
  engine_argument_error [] starting_cash slp tpp ≠ None.
Proof. unfold engine_argument_error. by destruct (dle _ _). Qed.

Lemma engine_Ok_inv bars signals starting_cash slp tpp r :
  Forall bar_ok bars → increasing bars → fits starting_cash →
  execute_long_only_signals bars signals starting_cash slp tpp = Ok r →
  execution_ok bars signals (finite_percent slp) (finite_percent tpp) r.
Proof.
  intros Hb Hi Hf Hr. destruct (engine_argument_error bars starting_cash slp tpp) as [e|] eqn:Ea.
  - by rewrite (engine_argument_error_raised _ _ _ _ _ _ Ea) in Hr.
  - assert (bars ≠ []) as Hne by (intros ->; by eapply argument_error_empty).
    destruct (engine_runs bars signals Hb Hi Hne _ _ _ Hf Ea) as (_ & _ & H). by rewrite Hr in H.
Qed.

(** A completed run, taken apart. *)
Lemma engine_Ok_state bars signals starting_cash slp tpp r :
  Forall bar_ok bars → increasing bars → fits starting_cash →
  execute_long_only_signals bars signals starting_cash slp tpp = Ok r →
  bars ≠ [] ∧ (0 < dval starting_cash)%Q ∧ (∀ p, finite_percent tpp = Some p → (0 < dval p)%Q) ∧
  ∃ st cash trades,
    run_bars bars signals (finite_percent slp) (finite_percent tpp) starting_cash = Ok st ∧
    loop_inv bars signals (finite_percent slp) (finite_percent tpp) (length bars) st ∧
    liquidate bars st = Ok (cash, trades) ∧
    r = mkExecutionResult cash (dsum (profit_loss <$> trades)) trades (st_equity_curve st)
          (st_ignored_signals st).
Proof.
  intros Hb Hi Hf Hr. destruct (engine_argument_error bars starting_cash slp tpp) as [e|] eqn:Ea.
  { by rewrite (engine_argument_error_raised _ _ _ _ _ _ Ea) in Hr. }
  assert (bars ≠ []) as Hne by (intros ->; by eapply argument_error_empty).
  destruct (engine_runs bars signals Hb Hi Hne _ _ _ Hf Ea) as (_ & Htpp & _).
  unfold engine_argument_error in Ea. destruct (dle starting_cash dzero) eqn:Ec; [done|].
  apply dle_val_false in Ec. rewrite dval_dzero in Ec.
  assert (∀ p, finite_percent tpp = Some p → (0 < dval p)%Q) as Htp
    by (intros p; by apply finite_percent_pos).
  pose proof (run_bars_inv bars signals (finite_percent slp) _ Hb Hi Htp _ Hf (Qlt_le_weak _ _ Ec)) as Ho.
  unfold execute_long_only_signals in Hr. bind_inv.
  match goal with H : liquidate _ _ = Ok ?x |- _ => destruct x as [cash trades] end.
  match goal with H : run_bars _ _ _ _ _ = Ok ?st |- _ => rewrite H in Ho end.
  split_and!; [done..|]. by eexists _, cash, trades.
Qed.

(** ** The promises *)

(** C23: With well-formed bars, the engine raises exactly its argument errors,
    in the order the code checks them, and otherwise completes or stops with
    decimal's InvalidOperation (a share count over 28 digits): the two
    RuntimeErrors of [execute_sell] and [close_position] are unreachable. *)
Theorem engine_errors bars signals starting_cash slp tpp
    (Hbars : Forall bar_ok bars) (Hinc : increasing bars) (Hcash : fits starting_cash) :
  match execute_long_only_signals bars signals starting_cash slp tpp with
  | Ok _ => engine_argument_error bars starting_cash slp tpp = None
  | Err e => engine_argument_error bars starting_cash slp tpp = Some e ∨
             (engine_argument_error bars starting_cash slp tpp = None ∧ e = InvalidOperation)
  end.
Proof.
  destruct (engine_argument_error bars starting_cash slp tpp) as [e|] eqn:Ea.
  - rewrite (engine_argument_error_raised _ _ _ _ _ _ Ea). by left.
  - assert (bars ≠ []) as Hne by (intros ->; by eapply argument_error_empty).
    destruct (engine_runs bars signals Hbars Hinc Hne _ _ _ Hcash Ea) as (_ & _ & H).
    destruct (execute_long_only_signals _ _ _ _ _); [done|]. by right.
Qed.

Lemma engine_errors_witness :
  execute_long_only_signals sample_bars sample_signals (dec_of_Z 0) None None
    = Err (ValueError "starting_cash must be positive") ∧
  is_ok (execute_long_only_signals sample_bars sample_signals sample_cash None None) = true ∧
  match execute_long_only_signals sample_bars sample_signals sample_cash None (Some (NaN false)) with
  | Ok _ => engine_argument_error sample_bars sample_cash None (Some (NaN false)) = None
  | Err e => engine_argument_error sample_bars sample_cash None (Some (NaN false)) = Some e ∨
             (engine_argument_error sample_bars sample_cash None (Some (NaN false)) = None ∧ e = InvalidOperation)
  end.
Proof.
  split; [vm_compute; reflexivity|]. split; [vm_compute; reflexivity|].
  apply (engine_errors sample_bars sample_signals sample_cash None (Some (NaN false)));
    [apply sample_bars_ok|apply sample_bars_increasing|apply sample_cash_fits].
Defined.

(** The equity curve has exactly one point per bar, at that bar's
    timestamp, and neither a point of it nor the final value is ever negative:
    the engine never spends more cash than it holds. *)
Theorem engine_equity_curve bars signals starting_cash slp tpp r
    (Hbars : Forall bar_ok bars) (Hinc : increasing bars) (Hcash : fits starting_cash)
    (Hrun : execute_long_only_signals bars signals starting_cash slp tpp = Ok r) :
  values_sound bars r.
Proof. by destruct (engine_Ok_inv _ _ _ _ _ _ Hbars Hinc Hcash Hrun). Qed.

Definition sample_run : ExecutionResult :=
  Eval vm_compute in
    match execute_long_only_signals sample_bars sample_signals sample_cash
            (Some (Finite (dec_of_Z 5))) (Some (Finite (dec_of_Z 20))) with
    | Ok r => r
    | Err _ => mkExecutionResult dzero dzero [] [] []
    end.

Lemma sample_run_eq :
  execute_long_only_signals sample_bars sample_signals sample_cash
    (Some (Finite (dec_of_Z 5))) (Some (Finite (dec_of_Z 20))) = Ok sample_run.
Proof. vm_compute. reflexivity. Qed.

Lemma engine_equity_curve_witness :
  length (equity_curve sample_run) = 7%nat ∧ (0 <= dval (final_portfolio_value sample_run))%Q.
Proof.
  split; [reflexivity|].
  apply (engine_equity_curve sample_bars sample_signals sample_cash _ _ sample_run
    sample_bars_ok sample_bars_increasing sample_cash_fits sample_run_eq).
Defined.

(** C1: Every completed trade is a genuine long round trip: bought at the open
    of the bar after a BUY signal; closed for the reason it records, at the
    price that reason prescribes (strategy exit at the open after a SELL
    signal; stop and target at their level, or at the open when the bar gapped
    through it, the stop winning over the target; liquidation at the last
    close), never on a bar before its entry; its profit and return are those
    of its shares at its two prices; and trades never overlap. *)
Theorem engine_trades_genuine bars signals starting_cash slp tpp r
    (Hbars : Forall bar_ok bars) (Hinc : increasing bars) (Hcash : fits starting_cash)
    (Hrun : execute_long_only_signals bars signals starting_cash slp tpp = Ok r) :
  trades_genuine bars signals (finite_percent slp) (finite_percent tpp) r.
Proof. by destruct (engine_Ok_inv _ _ _ _ _ _ Hbars Hinc Hcash Hrun). Qed.

Lemma engine_trades_genuine_witness :
  (exit_reason <$> completed_trades sample_run) = [STRATEGY_EXIT; STOP_LOSS; FINAL_LIQUIDATION] ∧
  StronglySorted trade_before (completed_trades sample_run).
Proof.
  split; [reflexivity|].
  apply (engine_trades_genuine sample_bars sample_signals sample_cash _ _ sample_run
    sample_bars_ok sample_bars_increasing sample_cash_fits sample_run_eq).
Defined.
