(* ===== verification/EngineLedger.v ===== *)
(** * The engine as an abstract ledger

    An abstract specification of [execute_long_only_signals]: a ledger of
    cash, at most one position, the completed trades and the ignored signals,
    moved by three kinds of step (ignore signals, buy, close).  Every step
    says which signals it consumes.  The engine refines it: a completed run is
    a run of the ledger that consumes exactly the signals dated on every bar
    but the last, in order, and ends flat. *)

From S2P Require Import Prelude Decimal Models Samples Engine EngineInvariant EngineSafety.
From Stdlib Require Import ZArith QArith Lqa Lia Sorted.
From stdpp Require Import base list option strings gmap.
Local Open Scope Z_scope.

(** ** The abstract machine *)
Record Ledger : Type := mkLedger {
  l_cash : decimal;
  l_position : option (Z * decimal);
  l_trades : list CompletedTrade;
  l_ignored : list Signal }.

Section ledger.
Context (bars : list MarketBar) (stop_loss take_profit : option decimal).

(** The prices a position can be bought at: the open of a bar. *)
Definition buyable (price : decimal) : Prop := ∃ b, b ∈ bars ∧ price = open_price b.

(** The prices a position bought at [price] can be closed at. *)
Definition closable (price x : decimal) : Prop :=
  (0 <= dval x)%Q ∧
  ((∃ b, b ∈ bars ∧ (x = open_price b ∨ x = close_price b)) ∨
   ∃ s p, calculate_risk_levels price stop_loss take_profit = Ok (s, p) ∧
     (s = Some x ∨ p = Some x)).

(** The trade that closes [n] shares bought at [price] for [x] each. *)
Definition closes_position (n : Z) (price x : decimal) (consumed : list Signal)
    (t : CompletedTrade) : Prop :=
  quantity t = n ∧ entry_price t = price ∧ exit_price t = x ∧
  profit_loss t = dsub (dmul (dec_of_Z n) x) (dmul (dec_of_Z n) price) ∧
  match exit_reason t with
  | STRATEGY_EXIT => ∃ s, consumed = [s] ∧ signal_type s = SELL ∧
                      exit_signal_timestamp t = Some (sig_timestamp s)
  | _ => consumed = []
  end.

Inductive ledger_step : Ledger → list Signal → Ledger → Prop :=
  | step_ignore cash pos trades ignored sigs :
      ledger_step (mkLedger cash pos trades ignored) sigs
                  (mkLedger cash pos trades (ignored ++ sigs))
  | step_buy cash trades ignored s n price :
      signal_type s = BUY → 0 < n → buyable price →
      (inject_Z n * dval price <= dval cash)%Q →
      ledger_step (mkLedger cash None trades ignored) [s]
                  (mkLedger (dsub cash (dmul (dec_of_Z n) price)) (Some (n, price)) trades ignored)
  | step_close cash n price trades ignored x t sigs :
      0 < n → closable price x → closes_position n price x sigs t →
      ledger_step (mkLedger cash (Some (n, price)) trades ignored) sigs
                  (mkLedger (dadd cash (dmul (dec_of_Z n) x)) None (trades ++ [t]) ignored).

(** Any number of steps, with the signals they consume in order. *)
Inductive ledger_run : Ledger → list Signal → Ledger → Prop :=
  | run_nil L : ledger_run L [] L
  | run_snoc L1 sigs1 L2 sigs2 L3 :
      ledger_run L1 sigs1 L2 → ledger_step L2 sigs2 L3 → ledger_run L1 (sigs1 ++ sigs2) L3.

Lemma ledger_run_step L sigs L' : ledger_step L sigs L' → ledger_run L sigs L'.
Proof. intros H. rewrite <- (app_nil_l sigs). eapply run_snoc; [constructor|done]. Qed.

Lemma ledger_run_trans L1 s1 L2 s2 L3 :
  ledger_run L1 s1 L2 → ledger_run L2 s2 L3 → ledger_run L1 (s1 ++ s2) L3.
Proof.
  intros H1 H2. induction H2; [by rewrite app_nil_r|].
  rewrite app_assoc. eapply run_snoc; [by apply IHledger_run|done].
Qed.
End ledger.

(** The ledger a state of the loop stands for. *)
Definition ledger_of (st : ExecState) : Ledger :=
  mkLedger (st_cash st) ((λ p, (st_quantity st, p)) <$> st_entry_price st)
    (st_completed_trades st) (st_ignored_signals st).

(** The signals the run can act on: those dated on a bar that has a successor. *)
Definition actionable_signals (bars : list MarketBar) (signals : list Signal) (n : nat) : list Signal :=
  concat ((λ b, pending_signals (group_signals signals) (bar_timestamp b)) <$> take (n - 1) bars).

(** ** The refinement *)
Section refinement.
Context (bars : list MarketBar) (signals : list Signal).
Context (stop_loss take_profit : option decimal).
Context (Hbars : Forall bar_ok bars) (Hinc : increasing bars).
Context (Htp : ∀ p, take_profit = Some p → (0 < dval p)%Q).

Local Abbreviation inv := (exec_inv bars signals stop_loss take_profit).
Local Abbreviation run := (ledger_run bars stop_loss take_profit).
Local Abbreviation step := (ledger_step bars stop_loss take_profit).

Lemma held_price_pos i price ts sig : entry_ok bars signals i price ts sig → (0 < dval price)%Q.
Proof. intros (be & bs & Hbe & _ & _ & -> & _). by eapply bar_ok_open_pos, bar_lookup_ok. Qed.

Lemma closing_trade_closes st price ts sig bar x s t :
  signal_type s = SELL →
  closing_trade st price ts sig bar x (Some (sig_timestamp s)) STRATEGY_EXIT t →
  closes_position (st_quantity st) price x [s] t.
Proof.
  intros Hs (_ & _ & Hpr & Hq & Hxs & _ & Hxp & Hre & _ & Hpl & _).
  split_and!; try done; [by rewrite Hpl, Hq, Hxp, Hpr|]. rewrite Hre. eauto.
Qed.

Lemma closing_trade_risk st price ts sig bar x reason t :
  reason ≠ STRATEGY_EXIT → closing_trade st price ts sig bar x None reason t →
  closes_position (st_quantity st) price x [] t.
Proof.
  intros Hr (_ & _ & Hpr & Hq & _ & _ & Hxp & Hre & _ & Hpl & _).
  split_and!; try done; [by rewrite Hpl, Hq, Hxp, Hpr|]. rewrite Hre. by destruct reason.
Qed.

Lemma closable_open i bar price : bars !! i = Some bar → closable bars stop_loss take_profit price (open_price bar).
Proof.
  intros Hb. split; [by eapply Qlt_le_weak, bar_ok_open_pos, bar_lookup_ok|].
  left. exists bar. split; [by eapply list_elem_of_lookup_2|]. by left.
Qed.

Lemma process_signal_ledger index bar st s st' :
  inv index st → bars !! index = Some bar →
  process_signal index bar stop_loss take_profit st s = Ok st' →
  step (ledger_of st) [s] (ledger_of st').
Proof.
  intros Hinv Hbar. pose proof (bar_ok_open_pos _ (bar_lookup_ok _ Hbars _ _ Hbar)) as Hopen.
  pose proof (inv_position _ _ _ _ _ _ Hinv) as Hpos. unfold process_signal.
  destruct (signal_type s) eqn:Hty.
  - unfold execute_buy. destruct Hpos as [(Hq & Ep & _)|(i & price & ts & sig & _ & Hq & Ep & _)].
    + rewrite Hq. simpl.
      destruct (dfloordiv_spec (st_cash st) (open_price bar) (inv_cash _ _ _ _ _ _ Hinv) Hopen)
        as [(r & -> & [Hn0 _] & Hle & _)|[-> _]]; [|done].
      cbn [mbind result_bind]. destruct (Z.eqb_spec (dint r) 0); simpl.
      * intros [= <-]. unfold ledger_of. simpl. rewrite Ep. constructor.
      * destruct (Z.ltb_spec 0 (dint r)); [|lia]. intros H'. apply bind_Ok_inv in H' as (lv & _ & [= <-]).
        unfold ledger_of. simpl. rewrite Ep. apply step_buy; try done.
        exists bar. split; [by eapply list_elem_of_lookup_2|done].
    + destruct (Z.ltb_spec 0 (st_quantity st)); [|lia]. destruct (Z.eqb_spec (st_quantity st) 0); [lia|].
      simpl. intros [= <-]. unfold ledger_of; simpl. rewrite Ep. constructor.
  - destruct Hpos as [(Hq & Ep & _)|(i & price & ts & sig & _ & Hq & Ep & Et & Es & Ei & Hent & _)].
    + unfold execute_sell. rewrite Hq. simpl. intros [= <-]. unfold ledger_of; simpl. rewrite Ep. constructor.
    + pose proof (held_price_pos _ _ _ _ Hent) as Hp.
      destruct (execute_sell_held st price ts sig bar s Hq Hp Ep Et Es) as (t & -> & Ht). simpl.
      intros [= <-]. unfold ledger_of, close_state; simpl. rewrite Ep. simpl.
      eapply step_close; [done|by eapply closable_open|by eapply closing_trade_closes].
Qed.

Lemma process_signals_ledger index bar bp st sigs st' :
  inv index st → bars !! index = Some bar → (0 < index)%nat → bars !! (index - 1)%nat = Some bp →
  opening_clear index bar st →
  (∀ s, s ∈ sigs → s ∈ signals ∧ sig_timestamp s = bar_timestamp bp) →
  foldM (process_signal index bar stop_loss take_profit) st sigs = Ok st' →
  run (ledger_of st) sigs (ledger_of st').
Proof.
  intros Hinv Hbar H0 Hbp. revert st Hinv. induction sigs as [|s sigs IH]; intros st Hinv Hclear Hsigs H; simpl in H.
  - injection H as <-. constructor.
  - apply bind_Ok_inv in H as (st1 & Hs & H).
    destruct (Hsigs s) as [Hin Hts]; [set_solver|].
    pose proof (process_signal_inv _ _ _ _ Hbars Hinc Htp _ _ _ _ _ Hinv Hbar H0 Hbp Hin Hts Hclear) as Ho.
    rewrite Hs in Ho. destruct Ho as [Hinv1 Hclear1].
    change (s :: sigs) with ([s] ++ sigs). eapply ledger_run_trans.
    + by eapply ledger_run_step, process_signal_ledger.
    + apply IH; try done. set_solver.
Qed.

Lemma process_open_ledger index bar bp st st' :
  inv index st → bars !! index = Some bar → (0 < index)%nat → bars !! (index - 1)%nat = Some bp →
  process_open bars (group_signals signals) stop_loss take_profit index bar st = Ok st' →
  run (ledger_of st) (pending_signals (group_signals signals) (bar_timestamp bp)) (ledger_of st').
Proof.
  intros Hinv Hbar H0 Hbp. unfold process_open.
  destruct (py_index_ok_lt bars (index - 1)) as (bp' & -> & Hbp').
  { apply lookup_lt_Some in Hbar. lia. }
  rewrite Hbp in Hbp'. injection Hbp' as <-. cbn [mbind result_bind].
  destruct (evaluate_opening_risk_exit _ _ _ _ _ _) as [[x reason]|] eqn:Hex.
  - apply opening_exit_Some in Hex as (i & Ei & Hlt & Hq0 & -> & Hreason).
    destruct (inv_position _ _ _ _ _ _ Hinv) as [(Hq & _)|(i' & price & ts & sig & Hle & Hq & Ep & Et & Es & Ei' & Hent & Hlev)]; [done|].
    pose proof (held_price_pos _ _ _ _ Hent) as Hp.
    destruct (close_position_held st price ts sig bar (open_price bar) reason Hq Hp Ep Et Es) as (t & -> & Ht).
    cbn [mbind result_bind fst snd]. intros [= <-].
    rewrite <- (app_nil_l (pending_signals _ _)). eapply run_snoc.
    + apply ledger_run_step. unfold ledger_of. rewrite Ep. simpl.
      apply step_close with (x := open_price bar) (t := t); [done|by eapply closable_open|].
      eapply closing_trade_risk; [|exact Ht]. by destruct Hreason as [[-> _]|[-> _]].
    + unfold ledger_of, close_state; simpl. apply step_ignore.
  - apply process_signals_ledger with bp; try done. intros s. apply pending_signals_elem.
Qed.

Lemma process_intraday_ledger index bar st st' :
  inv index st → bars !! index = Some bar → opening_clear index bar st →
  process_intraday index bar st = Ok st' → run (ledger_of st) [] (ledger_of st').
Proof.
  intros Hinv Hbar Hclear. unfold process_intraday.
  destruct (Z.ltb_spec 0 (st_quantity st)) as [Hq|]; cbn [andb]; [|intros [= <-]; constructor].
  destruct (negb (st_closed_at_open st)); [|intros [= <-]; constructor].
  destruct (evaluate_intraday_risk_exit _ _ _ _ _ _) as [[x reason]|] eqn:Hex; [|intros [= <-]; constructor].
  apply intraday_exit_Some in Hex as (i & Ei & Hlt & Hq0 & Hreason).
  destruct (inv_position _ _ _ _ _ _ Hinv) as [(Hq' & _)|(i' & price & ts & sig & Hle & _ & Ep & Et & Es & Ei' & Hent & Hlev)]; [done|].
  pose proof (held_price_pos _ _ _ _ Hent) as Hp.
  destruct (close_position_held st price ts sig bar x reason Hq Hp Ep Et Es) as (t & -> & Ht).
  cbn [mbind result_bind fst snd]. intros [= <-]. apply ledger_run_step.
  unfold ledger_of, close_state; simpl. rewrite Ep. simpl. apply step_close; [done| |].
  - split; [|right; exists (st_stop_price st), (st_take_profit_price st); split; [done|];
      destruct Hreason as [(_ & ? & _)|(_ & _ & ? & _)]; auto].
    destruct Hreason as [(_ & _ & Hlow)|(_ & _ & Htpx & _)].
    + apply dle_val in Hlow. destruct (bar_lookup_ok _ Hbars _ _ Hbar) as (Hl & _). lra.
    + destruct (risk_levels_total price stop_loss take_profit Hp Htp) as (s' & t' & Hl' & Hpos).
      rewrite Hlev in Hl'. injection Hl' as <- <-. apply Qlt_le_weak. by apply Hpos.
  - eapply closing_trade_risk; [|exact Ht]. by destruct Hreason as [[-> _]|[-> _]].
Qed.

Lemma actionable_S index bp :
  (0 < index)%nat → bars !! (index - 1)%nat = Some bp →
  actionable_signals bars signals (index + 1)
  = actionable_signals bars signals index ++ pending_signals (group_signals signals) (bar_timestamp bp).
Proof.
  intros H0 Hbp. unfold actionable_signals. replace (index + 1 - 1)%nat with (S (index - 1)) by lia.
  rewrite (take_S_r _ _ _ Hbp), fmap_app, concat_app. simpl. by rewrite app_nil_r.
Qed.

(** The part of an iteration before the intraday check. *)
Lemma opening_ledger index bar st st1 :
  bars !! index = Some bar → loop_inv bars signals stop_loss take_profit index st →
  (if (0 <? index)%nat
   then process_open bars (group_signals signals) stop_loss take_profit index bar (begin_bar st)
   else Ok (begin_bar st)) = Ok st1 →
  inv index st1 ∧ opening_clear index bar st1 ∧
  ∃ sigs, run (ledger_of st) sigs (ledger_of st1) ∧
    actionable_signals bars signals (index + 1) = actionable_signals bars signals index ++ sigs.
Proof.
  intros Hb [Hi _] H. destruct (Nat.ltb_spec 0 index) as [H0|H0].
  - assert (inv index (begin_bar st)) as Hi'.
    { destruct index as [|k]; [lia|]. apply exec_inv_begin. eapply exec_inv_next; try done.
      by replace (S k - 1)%nat with k in Hi by lia. }
    pose proof (process_open_inv _ _ _ _ Hbars Hinc Htp index bar _ Hi' Hb H0) as Ho.
    rewrite H in Ho. destruct Ho as [Hi1 Hc1]. split_and!; [done..|].
    destruct (lookup_lt_is_Some_2 bars (index - 1)) as [bp Hbp].
    { apply lookup_lt_Some in Hb. lia. }
    eexists. split; [|by apply actionable_S].
    change (ledger_of st) with (ledger_of (begin_bar st)). by eapply process_open_ledger.
  - replace index with 0%nat in * by lia. injection H as <-.
    split_and!; [by apply exec_inv_begin| |exists []; split; [apply run_nil|done]].
    destruct (inv_position _ _ _ _ _ _ Hi) as [?|(i & p & ts & sg & Hle & _ & _ & _ & _ & _ & Hent & _)];
      [by apply flat_clear|]. destruct Hent as (? & ? & _ & ? & _). simpl in Hle. lia.
Qed.

Lemma process_bar_ledger init index bar st :
  bars !! index = Some bar → loop_inv bars signals stop_loss take_profit index st →
  run init (actionable_signals bars signals index) (ledger_of st) →
  outcome (process_bar bars (group_signals signals) stop_loss take_profit st (index, bar))
    (λ st', loop_inv bars signals stop_loss take_profit (index + 1) st' ∧
            run init (actionable_signals bars signals (index + 1)) (ledger_of st')) oversized.
Proof.
  intros Hb Hl Hrun.
  pose proof (process_bar_inv _ _ _ _ Hbars Hinc Htp _ _ _ Hb Hl) as Ho.
  destruct (process_bar _ _ _ _ _ _) as [st'|e] eqn:E; [|done]. split; [done|].
  unfold process_bar in E. apply bind_Ok_inv in E as (st1 & H1 & E).
  apply bind_Ok_inv in E as (st2 & H2 & [= <-]).
  destruct (opening_ledger _ _ _ _ Hb Hl H1) as (Hi1 & Hc1 & sigs & Hr1 & ->).
  rewrite <- (app_nil_r sigs), app_assoc. eapply ledger_run_trans.
  - by eapply ledger_run_trans.
  - change (ledger_of (record_equity bar st2)) with (ledger_of st2). by eapply (process_intraday_ledger index bar).
Qed.

Lemma run_bars_ledger starting_cash :
  fits starting_cash → (0 <= dval starting_cash)%Q →
  outcome (run_bars bars signals stop_loss take_profit starting_cash)
    (λ st, loop_inv bars signals stop_loss take_profit (length bars) st ∧
       run (mkLedger starting_cash None [] []) (actionable_signals bars signals (length bars)) (ledger_of st))
    oversized.
Proof.
  intros Hf Hc. unfold run_bars, enumerate.
  apply (outcome_enumerate oversized _ (λ n st, loop_inv bars signals stop_loss take_profit n st ∧
    run (mkLedger starting_cash None [] []) (actionable_signals bars signals n) (ledger_of st)) bars 0).
  - split; [by apply initial_state_inv|]. apply run_nil.
  - intros j b s Hj [Hl Hr]. by apply process_bar_ledger.
Qed.

Lemma liquidate_ledger st cash trades :
  loop_inv bars signals stop_loss take_profit (length bars) st →
  liquidate bars st = Ok (cash, trades) →
  run (ledger_of st) [] (mkLedger cash None trades (st_ignored_signals st)).
Proof.
  intros [Hi _]. unfold liquidate. destruct (Z.ltb_spec 0 (st_quantity st)) as [Hq|Hq].
  - intros H. apply bind_Ok_inv in H as (bar & Hb & H).
    destruct (inv_position _ _ _ _ _ _ Hi) as [(Hq' & _)|(i' & price & ts & sig & Hle & _ & Ep & Et & Es & Ei' & Hent & Hlev)]; [lia|].
    pose proof (held_price_pos _ _ _ _ Hent) as Hp.
    destruct (close_position_held st price ts sig bar (close_price bar) FINAL_LIQUIDATION Hq Hp Ep Et Es) as (t & Hc & Ht).
    rewrite Hc in H. injection H as <- <-. apply ledger_run_step. unfold ledger_of. rewrite Ep. simpl.
    assert (bar ∈ bars) as Hin.
    { unfold py_last in Hb. destruct (last bars) eqn:El; [|done]. injection Hb as ->.
      rewrite last_lookup in El. by eapply list_elem_of_lookup_2. }
    apply step_close; [done| |by (eapply closing_trade_risk; [|exact Ht])].
    split; [|left; exists bar; auto].
    rewrite Forall_forall in Hbars. by apply Qlt_le_weak, bar_ok_close_pos, Hbars.
  - intros [= <- <-]. destruct (inv_position _ _ _ _ _ _ Hi) as [(_ & Ep & _)|(? & ? & ? & ? & ? & ? & _)]; [|lia].
    unfold ledger_of. rewrite Ep. constructor.
Qed.
End refinement.

(** ** The engine implements the ledger *)
Lemma engine_ledger bars signals starting_cash slp tpp r :
  Forall bar_ok bars → increasing bars → fits starting_cash →
  execute_long_only_signals bars signals starting_cash slp tpp = Ok r →
  ledger_run bars (finite_percent slp) (finite_percent tpp)
    (mkLedger starting_cash None [] []) (actionable_signals bars signals (length bars))
    (mkLedger (final_portfolio_value r) None (completed_trades r) (ignored_signals r)) ∧
  total_realized_profit_loss r = dsum (profit_loss <$> completed_trades r) ∧
  (0 < dval starting_cash)%Q.
Proof.
  intros Hb Hi Hf Hr.
  destruct (engine_Ok_state _ _ _ _ _ _ Hb Hi Hf Hr) as (_ & Hc & Htp & st & cash & trades & Hst & Hl & Hliq & ->).
  pose proof (run_bars_ledger bars signals (finite_percent slp) (finite_percent tpp) Hb Hi Htp
    starting_cash Hf (Qlt_le_weak _ _ Hc)) as Ho.
  rewrite Hst in Ho. destruct Ho as [_ Hrun]. simpl. split_and!; [|done..].
  rewrite <- (app_nil_r (actionable_signals _ _ _)). eapply ledger_run_trans; [exact Hrun|].
  by apply liquidate_ledger with signals.
Qed.

(** C12: The engine refines the ledger specification: a completed run is a
    sequence of abstract steps (ignore, buy what the cash affords, close) from
    the starting cash to a flat ledger that holds exactly the final value, the
    trades and the ignored signals reported, and it consumes exactly the
    signals dated on the bars but the last, in bar order. *)
Theorem engine_refines_ledger bars signals starting_cash slp tpp r
    (Hbars : Forall bar_ok bars) (Hinc : increasing bars) (Hcash : fits starting_cash)
    (Hrun : execute_long_only_signals bars signals starting_cash slp tpp = Ok r) :
  ledger_run bars (finite_percent slp) (finite_percent tpp)
    (mkLedger starting_cash None [] []) (actionable_signals bars signals (length bars))
    (mkLedger (final_portfolio_value r) None (completed_trades r) (ignored_signals r)).
Proof. by apply engine_ledger. Qed.

Lemma engine_refines_ledger_witness :
  ledger_run sample_bars (Some (dec_of_Z 5)) (Some (dec_of_Z 20))
    (mkLedger sample_cash None [] []) (actionable_signals sample_bars sample_signals 7)
    (mkLedger (final_portfolio_value sample_run) None (completed_trades sample_run)
       (ignored_signals sample_run)).
Proof.
  apply (engine_refines_ledger sample_bars sample_signals sample_cash
    (Some (Finite (dec_of_Z 5))) (Some (Finite (dec_of_Z 20))) sample_run
    sample_bars_ok sample_bars_increasing sample_cash_fits sample_run_eq).
Defined.
