(* ===== verification/EngineAccounting.v ===== *)
(** * Accounting of the engine

    Theorems about a run, proved by rule induction on the ledger it refines:
    where amounts are multiples of a common unit, decimal rounding never
    touches the books, and every actionable signal is accounted for. *)

From S2P Require Import Prelude Decimal Models Samples Sma Engine EngineInvariant EngineSafety EngineLedger.
From Stdlib Require Import ZArith QArith Qabs Lqa Lia Sorted.
From stdpp Require Import base list option strings gmap.
Local Open Scope Z_scope.

(** ** Exact books *)

(** [q] is a whole number of units of 10^g. *)
Definition in_units (g : Z) (q : Q) : Prop := ∃ m : Z, (q == inject_Z m * (10#1) ^ g)%Q.

Definition realized (trades : list CompletedTrade) : Q := Qsum ((λ t, dval (profit_loss t)) <$> trades).

Definition proceeds (trades : list CompletedTrade) : Q :=
  Qsum ((λ t, inject_Z (quantity t) * dval (exit_price t))%Q <$> trades).

(** Gross profit of a trade, with no rounding. *)
Definition trade_gain (t : CompletedTrade) : Q :=
  (inject_Z (quantity t) * (dval (exit_price t) - dval (entry_price t)))%Q.

Section units.
Local Open Scope Q_scope.
Context (g : Z).

#[global] Instance in_units_proper : Proper (Qeq ==> iff) (in_units g).
Proof. intros x y Hxy. unfold in_units. by setoid_rewrite Hxy. Qed.

Lemma in_units_add x y : in_units g x → in_units g y → in_units g (x + y).
Proof. intros [m Hm] [n Hn]. exists (m + n)%Z. rewrite Hm, Hn, inject_Z_plus. ring. Qed.

Lemma in_units_sub x y : in_units g x → in_units g y → in_units g (x - y).
Proof.
  intros [m Hm] [n Hn]. exists (m - n)%Z. unfold Z.sub.
  rewrite Hm, Hn, inject_Z_plus, inject_Z_opp. ring.
Qed.

Lemma in_units_mul_Z n x : in_units g x → in_units g (inject_Z n * x).
Proof. intros [m Hm]. exists (n * m)%Z. rewrite Hm, inject_Z_mult. ring. Qed.

Lemma in_units_decimal d : (g <= d_exp d)%Z → in_units g (dval d).
Proof. intros H. exists (align d g). by rewrite align_val. Qed.

(** The largest amount the unit can carry in 28 digits. *)
Definition capacity : Q := inject_Z (10 ^ prec - 1) * (10#1) ^ g.

Lemma in_units_representable q : in_units g q → - capacity <= q <= capacity → representable q.
Proof.
  intros [m Hm] [Hlo Hhi]. exists m, g. split; [|done]. unfold capacity in *.
  rewrite Hm in Hlo, Hhi. pose proof (p10_pos g) as Hp.
  assert (inject_Z m <= inject_Z (10 ^ prec - 1)) as H1 by (by eapply Qmult_le_r).
  assert (inject_Z (- (10 ^ prec - 1)) <= inject_Z m) as H2.
  { apply (Qmult_le_r _ _ _ Hp). rewrite inject_Z_opp. lra. }
  rewrite <- Zle_Qle in H1, H2. unfold prec in *. lia.
Qed.

Lemma dsum_snoc l x : dsum (l ++ [x]) = dadd (dsum l) x.
Proof. unfold dsum. by rewrite foldl_app. Qed.

Lemma Qsum_snoc l x : Qsum (l ++ [x]) == Qsum l + x.
Proof. rewrite Qsum_app. simpl. ring. Qed.
End units.

Section exact.
Local Open Scope Q_scope.
Context (g : Z) (bars : list MarketBar) (stop_loss take_profit : option decimal) (start : decimal).
Context (Hbars : Forall bar_ok bars) (Hstart0 : 0 < dval start) (Hstart : in_units g (dval start)).
Context (Hopen : ∀ price, buyable bars price → in_units g (dval price)).
Context (Hexit : ∀ price x, buyable bars price →
  closable bars stop_loss take_profit price x → in_units g (dval x)).

(** What a position cost. *)
Definition position_cost (pos : option (Z * decimal)) : Q :=
  match pos with Some (n, p) => inject_Z n * dval p | None => 0 end.

(** The books balance to the last digit. *)
Record balanced (L : Ledger) : Prop := {
  bal_cash : in_units g (dval (l_cash L)) ∧ 0 <= dval (l_cash L);
  bal_position : ∀ n p, l_position L = Some (n, p) → (0 < n)%Z ∧ buyable bars p;
  bal_books : dval (l_cash L) + position_cost (l_position L) == dval start + realized (l_trades L);
  bal_bound : dval (l_cash L) + position_cost (l_position L) <= dval start + proceeds (l_trades L);
  bal_proceeds : 0 <= proceeds (l_trades L);
  bal_total : dval (dsum (profit_loss <$> l_trades L)) == realized (l_trades L);
  bal_gains : Forall (λ t, dval (profit_loss t) == trade_gain t) (l_trades L) }.

Lemma buyable_nonneg p : buyable bars p → 0 < dval p.
Proof.
  intros (b & Hb & ->). rewrite Forall_forall in Hbars. by apply bar_ok_open_pos, Hbars.
Qed.

Lemma cost_nonneg n p : (0 < n)%Z → buyable bars p → 0 <= inject_Z n * dval p.
Proof.
  intros Hn Hp. apply Qmult_le_0_compat; [by apply Qlt_le_weak, inject_Z_pos|].
  by apply Qlt_le_weak, buyable_nonneg.
Qed.

Lemma dmul_in_units n p :
  in_units g (dval p) → 0 <= inject_Z n * dval p <= capacity g →
  dval (dmul (dec_of_Z n) p) == inject_Z n * dval p.
Proof.
  intros Hp Hb. eapply rounds_exact.
  - pose proof (dmul_rounds (dec_of_Z n) p) as H. by rewrite dval_dec_of_Z in H.
  - eapply in_units_representable; [by apply in_units_mul_Z|]. lra.
Qed.

Lemma balanced_init : balanced (mkLedger start None [] []).
Proof.
  split; simpl; try done; try (unfold realized, proceeds; simpl; lra).
  - split; [done|]. by apply Qlt_le_weak.
Qed.

Lemma balanced_buy cash trades ignored s n price :
  (0 < n)%Z → buyable bars price → inject_Z n * dval price <= dval cash →
  dval start + proceeds trades <= capacity g →
  balanced (mkLedger cash None trades ignored) →
  balanced (mkLedger (dsub cash (dmul (dec_of_Z n) price)) (Some (n, price)) trades s).
Proof.
  intros Hn Hp Hle Hcap [[Hu Hc] _ Hbook Hbound Hpro0 Htot Hg]. cbn [l_cash l_position l_trades position_cost] in *.
  pose proof (cost_nonneg _ _ Hn Hp) as Hcost.
  assert (dval (dmul (dec_of_Z n) price) == inject_Z n * dval price) as Hm by (apply dmul_in_units; [auto|lra]).
  assert (dval (dsub cash (dmul (dec_of_Z n) price)) == dval cash - inject_Z n * dval price) as Hd.
  { eapply rounds_exact; [pose proof (dsub_rounds cash (dmul (dec_of_Z n) price)) as H; by rewrite Hm in H|].
    eapply in_units_representable; [apply in_units_sub; [done|apply in_units_mul_Z; auto]|]. lra. }
  split; cbn [l_cash l_position l_trades position_cost]; rewrite ?Hd; try done; try lra.
  - split; [apply in_units_sub; [done|apply in_units_mul_Z; auto]|lra].
  - by intros ? ? [= <- <-].
Qed.

Lemma balanced_close cash n price trades ignored x t sigs :
  (0 < n)%Z → closable bars stop_loss take_profit price x → closes_position n price x sigs t →
  dval start + proceeds (trades ++ [t]) <= capacity g →
  balanced (mkLedger cash (Some (n, price)) trades ignored) →
  balanced (mkLedger (dadd cash (dmul (dec_of_Z n) x)) None (trades ++ [t]) ignored).
Proof.
  intros Hn Hx Ht Hcap [[Hu Hc] Hpos Hbook Hbound Hpro0 Htot Hg]. cbn [l_cash l_position l_trades position_cost] in *.
  destruct (Hpos _ _ eq_refl) as [_ Hp]. destruct Ht as (Hq & Hent & Hext & Hpl & _).
  pose proof (cost_nonneg _ _ Hn Hp) as Hcost.
  assert (0 <= inject_Z n * dval x) as Hpro.
  { apply Qmult_le_0_compat; [by apply Qlt_le_weak, inject_Z_pos|apply Hx]. }
  assert (proceeds (trades ++ [t]) == proceeds trades + inject_Z n * dval x) as Hps.
  { unfold proceeds. rewrite fmap_app. simpl. by rewrite Qsum_snoc, Hq, Hext. }
  rewrite Hps in Hcap.
  assert (dval (dmul (dec_of_Z n) x) == inject_Z n * dval x) as Hmx by (apply dmul_in_units; [eauto|lra]).
  assert (dval (dmul (dec_of_Z n) price) == inject_Z n * dval price) as Hmp by (apply dmul_in_units; [auto|lra]).
  assert (in_units g (inject_Z n * dval x)) as Hux by (apply in_units_mul_Z; eauto).
  assert (in_units g (inject_Z n * dval price)) as Hup by (apply in_units_mul_Z; auto).
  assert (dval (dadd cash (dmul (dec_of_Z n) x)) == dval cash + inject_Z n * dval x) as Hd.
  { eapply rounds_exact; [pose proof (dadd_rounds cash (dmul (dec_of_Z n) x)) as H; by rewrite Hmx in H|].
    eapply in_units_representable; [by apply in_units_add|]. lra. }
  assert (dval (profit_loss t) == inject_Z n * dval x - inject_Z n * dval price) as Hd2.
  { rewrite Hpl. eapply rounds_exact.
    - pose proof (dsub_rounds (dmul (dec_of_Z n) x) (dmul (dec_of_Z n) price)) as H. by rewrite Hmx, Hmp in H.
    - eapply in_units_representable; [by apply in_units_sub|]. lra. }
  assert (realized (trades ++ [t]) == realized trades + dval (profit_loss t)) as Hre.
  { unfold realized. rewrite fmap_app. simpl. by rewrite Qsum_snoc. }
  split; cbn [l_cash l_position l_trades position_cost]; rewrite ?Hd, ?Hre, ?Hps, ?Hd2; try done; try lra.
  - split; [by apply in_units_add|lra].
  - rewrite fmap_app. simpl. rewrite dsum_snoc. eapply rounds_exact.
    + pose proof (dadd_rounds (dsum (profit_loss <$> trades)) (profit_loss t)) as H.
      by rewrite Htot, Hd2 in H.
    + setoid_replace (realized trades + (inject_Z n * dval x - inject_Z n * dval price))
        with ((dval cash + inject_Z n * dval x) - dval start) using relation Qeq by lra.
      eapply in_units_representable; [apply in_units_sub; [by apply in_units_add|done]|]. lra.
  - apply Forall_app. split; [done|]. constructor; [|done]. unfold trade_gain.
    rewrite Hd2, Hq, Hent, Hext. ring.
Qed.

Lemma ledger_run_balanced L sigs :
  ledger_run bars stop_loss take_profit (mkLedger start None [] []) sigs L →
  dval start + proceeds (l_trades L) <= capacity g → balanced L.
Proof.
  remember (mkLedger start None [] []) as L0 eqn:E. induction 1 as [|L1 s1 L2 s2 L3 H1 IH Hs]; intros Hcap; subst.
  - apply balanced_init.
  - specialize (IH eq_refl). destruct Hs as [cash pos trades ign sigs|cash trades ign s n price _ Hn Hp Hle|cash n price trades ign x t sigs Hn Hx Ht];
      cbn [l_trades] in *.
    + by destruct (IH Hcap).
    + eapply balanced_buy; eauto.
    + eapply balanced_close; eauto. apply IH.
      assert (proceeds (trades ++ [t]) == proceeds trades + inject_Z n * dval x) as Hps.
      { unfold proceeds. rewrite fmap_app. simpl. destruct Ht as (Hq & _ & Hext & _). by rewrite Qsum_snoc, Hq, Hext. }
      assert (0 <= inject_Z n * dval x).
      { apply Qmult_le_0_compat; [by apply Qlt_le_weak, inject_Z_pos|apply Hx]. }
      rewrite Hps in Hcap. lra.
Qed.
End exact.

(** ** Signal conservation *)

(** Trades closed by a SELL signal. *)
Definition strategy_exits (trades : list CompletedTrade) : list CompletedTrade :=
  filter (λ t, exit_reason t = STRATEGY_EXIT) trades.

(** How many signals a ledger has spent. *)
Definition spent (L : Ledger) : nat :=
  length (l_ignored L) + length (l_trades L) + length (strategy_exits (l_trades L)) +
  match l_position L with Some _ => 1 | None => 0 end.

Lemma strategy_exits_snoc trades t :
  length (strategy_exits (trades ++ [t])) =
  (length (strategy_exits trades) + if decide (exit_reason t = STRATEGY_EXIT) then 1 else 0)%nat.
Proof.
  unfold strategy_exits. rewrite filter_app, length_app, filter_cons, filter_nil.
  by destruct (decide _).
Qed.

Lemma ledger_step_spent bars sl tp L sigs L' :
  ledger_step bars sl tp L sigs L' → spent L' = (spent L + length sigs)%nat.
Proof.
  intros [cash pos trades ign sigs'|cash trades ign s n price _ Hn Hp Hle|cash n price trades ign x t sigs' Hn Hx Ht];
    unfold spent; cbn [l_cash l_position l_trades l_ignored]; rewrite ?length_app.
  - lia.
  - simpl. lia.
  - rewrite strategy_exits_snoc. destruct Ht as (_ & _ & _ & _ & Hr).
    destruct (decide _) as [E|E]; [rewrite E in Hr; destruct Hr as (s & -> & _); simpl; lia|].
    destruct (exit_reason t); [done|subst sigs'; simpl; lia..].
Qed.

Lemma ledger_run_spent bars sl tp L sigs L' :
  ledger_run bars sl tp L sigs L' → spent L' = (spent L + length sigs)%nat.
Proof.
  induction 1 as [|L1 s1 L2 s2 L3 H1 IH Hs]; [simpl; lia|].
  rewrite (ledger_step_spent _ _ _ _ _ _ Hs), IH, length_app. lia.
Qed.

(** A signal a completed trade was opened or closed on, or that was ignored,
    comes from the signals the run consumed. *)
Lemma ledger_run_ignored bars sl tp L sigs L' s :
  ledger_run bars sl tp L sigs L' → s ∈ l_ignored L' → s ∈ l_ignored L ∨ s ∈ sigs.
Proof.
  induction 1 as [|L1 s1 L2 s2 L3 H1 IH Hs]; [by left|]. intros Hin.
  assert (s ∈ l_ignored L2 ∨ s ∈ s2) as [H|H].
  { destruct Hs; cbn [l_ignored] in *; set_solver. }
  - destruct (IH H); set_solver.
  - set_solver.
Qed.

(** ** The last equity point *)
Lemma process_bar_last bars by_ts sl tp st index bar st' :
  process_bar bars by_ts sl tp st (index, bar) = Ok st' →
  last (st_equity_curve st') = Some (mkPoint (bar_timestamp bar) (mark_to_close bar (st_cash st') (st_quantity st'))).
Proof.
  unfold process_bar. intros H. apply bind_Ok_inv in H as (st1 & _ & H).
  apply bind_Ok_inv in H as (st2 & _ & [= <-]). simpl. by rewrite last_snoc.
Qed.

Lemma liquidate_value bars st bar cash trades :
  last bars = Some bar → fits (st_cash st) → 0 <= st_quantity st →
  liquidate bars st = Ok (cash, trades) →
  (dval cash == dval (mark_to_close bar (st_cash st) (st_quantity st)))%Q.
Proof.
  intros Hl Hf Hq. unfold liquidate. destruct (Z.ltb_spec 0 (st_quantity st)) as [H|H].
  - unfold py_last. rewrite Hl. cbn [mbind result_bind]. unfold close_position.
    destruct (Z.leb_spec (st_quantity st) 0); [lia|].
    destruct (st_entry_price st), (st_entry_timestamp st), (st_entry_signal_timestamp st); try done.
    destruct (ddiv _ _); [|done]. cbn [mbind result_bind fst snd]. by intros [= <- _].
  - intros [= <- _]. replace (st_quantity st) with 0 by lia. unfold mark_to_close.
    by rewrite dadd_no_shares.
Qed.

Lemma run_bars_last bars signals sl tp starting_cash st bar :
  last bars = Some bar → run_bars bars signals sl tp starting_cash = Ok st →
  last (st_equity_curve st) = Some (mkPoint (bar_timestamp bar) (mark_to_close bar (st_cash st) (st_quantity st))).
Proof.
  intros Hl. apply last_Some in Hl as [pre ->]. unfold run_bars, enumerate.
  rewrite enumerate_from_app, foldM_app. intros H. apply bind_Ok_inv in H as (st1 & _ & H).
  simpl in H. apply bind_Ok_inv in H as (st2 & H & [= <-]). by eapply process_bar_last.
Qed.

(** ** The theorems *)

(** The curve ends on the last bar with the value of the account. *)
Definition ends_at_final_value (bars : list MarketBar) (r : ExecutionResult) : Prop :=
  ∃ b p, last bars = Some b ∧ last (equity_curve r) = Some p ∧
    pt_timestamp p = bar_timestamp b ∧ (dval (equity p) == dval (final_portfolio_value r))%Q.

(** C2: The books balance exactly.  When the bar prices, the risk levels and
    the starting cash are whole multiples of one unit 10^g and the cash that
    ever passed through the run fits in 28 digits of that unit, decimal
    rounding never occurs: every trade's profit is shares times (exit - entry),
    and the final value is the starting cash plus [total_realized_profit_loss],
    which is the sum of the trades' profits. *)
Theorem engine_books_balance g bars signals starting_cash slp tpp r
    (Hbars : Forall bar_ok bars) (Hinc : increasing bars) (Hcash : fits starting_cash)
    (Hrun : execute_long_only_signals bars signals starting_cash slp tpp = Ok r)
    (Hstart : in_units g (dval starting_cash))
    (Hprices : ∀ b, b ∈ bars → in_units g (dval (open_price b)) ∧ in_units g (dval (close_price b)))
    (Hlevels : ∀ b s p x, b ∈ bars →
       calculate_risk_levels (open_price b) (finite_percent slp) (finite_percent tpp) = Ok (s, p) →
       s = Some x ∨ p = Some x → in_units g (dval x))
    (Hcap : (dval starting_cash + proceeds (completed_trades r) <= capacity g)%Q) :
  (dval (final_portfolio_value r) == dval starting_cash + dval (total_realized_profit_loss r) ∧
   dval (total_realized_profit_loss r) == realized (completed_trades r))%Q ∧
  Forall (λ t, dval (profit_loss t) == trade_gain t)%Q (completed_trades r).
Proof.
  destruct (engine_ledger _ _ _ _ _ _ Hbars Hinc Hcash Hrun) as (Hl & Htot & Hpos).
  assert (balanced g bars starting_cash
    (mkLedger (final_portfolio_value r) None (completed_trades r) (ignored_signals r))) as [_ _ Hb _ _ Ht Hg].
  { eapply ledger_run_balanced; eauto.
    - intros p (b & Hb & ->). by apply Hprices.
    - intros p x (bp & Hbp & ->) (_ & [(b & Hb & [->| ->])|(s & q & Hlev & Hx)]);
        [by apply Hprices..|by eapply Hlevels]. }
  cbn [l_cash l_position l_trades position_cost] in *. rewrite Htot. split; [|done].
  split; [|done]. rewrite Ht, <- Hb. ring.
Qed.

(** Prices written with at most two decimals are whole cents. *)
Lemma engine_books_balance_witness :
  (dval (final_portfolio_value sample_run)
   == dval sample_cash + dval (total_realized_profit_loss sample_run))%Q.
Proof.
  apply (engine_books_balance (-4) sample_bars sample_signals sample_cash
    (Some (Finite (dec_of_Z 5))) (Some (Finite (dec_of_Z 20))) sample_run
    sample_bars_ok sample_bars_increasing sample_cash_fits sample_run_eq).
  - apply in_units_decimal. vm_compute. discriminate.
  - assert (Forall (λ b, -4 <= d_exp (open_price b) ∧ -4 <= d_exp (close_price b)) sample_bars) as H.
    { unfold sample_bars. repeat (apply Forall_cons; split; [split; vm_compute; discriminate|]). by apply Forall_nil. }
    intros b Hb. rewrite Forall_forall in H. destruct (H b Hb). split; by apply in_units_decimal.
  - assert (Forall (λ b, ∀ s p, calculate_risk_levels (open_price b) (Some (dec_of_Z 5)) (Some (dec_of_Z 20)) = Ok (s, p) →
        ∀ x, s = Some x ∨ p = Some x → -4 <= d_exp x) sample_bars) as H.
    { unfold sample_bars. repeat (apply Forall_cons; split;
        [vm_compute calculate_risk_levels; intros s p [= <- <-] x [[= <-]|[= <-]]; vm_compute; discriminate|]).
      by apply Forall_nil. }
    rewrite Forall_forall in H. intros b s p x Hb Hlev Hx. apply in_units_decimal. by eapply H.
  - vm_compute. discriminate.
Defined.

(** No signal is lost: the signals dated on the bars but the last are
    exactly the ignored ones, the BUYs that opened a trade and the SELLs that
    closed one; and an ignored signal is one of them. *)
Theorem engine_signals_accounted bars signals starting_cash slp tpp r
    (Hbars : Forall bar_ok bars) (Hinc : increasing bars) (Hcash : fits starting_cash)
    (Hrun : execute_long_only_signals bars signals starting_cash slp tpp = Ok r) :
  length (actionable_signals bars signals (length bars))
  = (length (ignored_signals r) + length (completed_trades r) +
     length (strategy_exits (completed_trades r)))%nat ∧
  (∀ s, s ∈ ignored_signals r → s ∈ actionable_signals bars signals (length bars)).
Proof.
  destruct (engine_ledger _ _ _ _ _ _ Hbars Hinc Hcash Hrun) as (Hl & _ & _). split.
  - apply ledger_run_spent in Hl. unfold spent in Hl. simpl in Hl. lia.
  - intros s Hs. edestruct (ledger_run_ignored _ _ _ _ _ _ s Hl) as [H|H]; [done| |done].
    by apply not_elem_of_nil in H.
Qed.

Lemma engine_signals_accounted_witness :
  length (actionable_signals sample_bars sample_signals 7) = 6%nat ∧
  length (actionable_signals sample_bars sample_signals 7)
  = (length (ignored_signals sample_run) + length (completed_trades sample_run) +
     length (strategy_exits (completed_trades sample_run)))%nat.
Proof.
  split; [vm_compute; reflexivity|].
  apply (engine_signals_accounted sample_bars sample_signals sample_cash _ _ sample_run
    sample_bars_ok sample_bars_increasing sample_cash_fits sample_run_eq).
Defined.

(** The last point of the equity curve is the last bar's, and its value is
    the final portfolio value: the liquidation at the last close changes
    nothing that the curve has not already shown. *)
Theorem engine_curve_ends_at_final_value bars signals starting_cash slp tpp r
    (Hbars : Forall bar_ok bars) (Hinc : increasing bars) (Hcash : fits starting_cash)
    (Hrun : execute_long_only_signals bars signals starting_cash slp tpp = Ok r) :
  ends_at_final_value bars r.
Proof.
  destruct (engine_Ok_state _ _ _ _ _ _ Hbars Hinc Hcash Hrun)
    as (Hne & _ & _ & st & cash & trades & Hst & [Hi _] & Hliq & ->).
  destruct (last bars) as [b|] eqn:Hlast; [|by apply last_None in Hlast].
  eexists b, _. split; [done|]. split; [by eapply run_bars_last|]. split; [done|]. simpl.
  symmetry. eapply liquidate_value; eauto; [by destruct Hi|by eapply quantity_nonneg].
Qed.

Lemma engine_curve_ends_at_final_value_witness :
  ends_at_final_value sample_bars sample_run.
Proof.
  apply (engine_curve_ends_at_final_value sample_bars sample_signals sample_cash _ _ sample_run
    sample_bars_ok sample_bars_increasing sample_cash_fits sample_run_eq).
Defined.
