(* ===== verification/EngineCausality.v ===== *)
(** * No look-ahead

    What a run reports up to a bar does not depend on the bars after it, nor
    on signals dated on that bar or later; with the strategy compiler the
    whole backtest is causal. *)

From S2P Require Import Prelude Decimal Models Samples StrategySpec StrategySemantics StrategyCompiler Engine EngineInvariant EngineSafety.
From Stdlib Require Import ZArith QArith Lia Sorted.
From stdpp Require Import base list option strings gmap.
Local Open Scope Z_scope.

(** ** The loop only appends to what it reports *)
Definition grows (st st' : ExecState) : Prop :=
  st_completed_trades st `prefix_of` st_completed_trades st' ∧
  st_equity_curve st `prefix_of` st_equity_curve st' ∧
  st_ignored_signals st `prefix_of` st_ignored_signals st'.

#[global] Instance grows_preorder : PreOrder grows.
Proof.
  split.
  - intros st. done.
  - intros st1 st2 st3 (?&?&?) (?&?&?). split_and!; by etransitivity.
Qed.

Lemma execute_buy_ignored s bar c q ep et es ig c' q' ep' et' es' ig' :
  execute_buy s bar c q ep et es ig = Ok (c', q', ep', et', es', ig') → ig `prefix_of` ig'.
Proof.
  unfold execute_buy. destruct (0 <? q); [intros [= <- <- <- <- <- <-]; by apply prefix_app_r|].
  intros H. apply bind_Ok_inv in H as (n & _ & H).
  destruct (dint n =? 0); injection H as <- <- <- <- <- <-; [by apply prefix_app_r|done].
Qed.

Lemma execute_sell_ignored s bar c q ep et es ig c' q' t ig' :
  execute_sell s bar c q ep et es ig = Ok (c', q', t, ig') → ig `prefix_of` ig'.
Proof.
  unfold execute_sell. destruct (q =? 0); [intros [= <- <- <- <-]; by apply prefix_app_r|].
  destruct ep, et, es; try done. intros H. apply bind_Ok_inv in H as (n & _ & [= <- <- <- <-]). done.
Qed.

Lemma process_signal_grows index bar sl tp st s st' :
  process_signal index bar sl tp st s = Ok st' → grows st st'.
Proof.
  unfold process_signal. destruct (signal_type s); intros H; apply bind_Ok_inv in H as (r & Hr & H).
  - destruct r as [[[[[c q] ep] et] es] ig]. apply execute_buy_ignored in Hr.
    destruct (_ && _); [destruct ep|]; bind_inv; by split_and!.
  - destruct r as [[[c q] [t|]] ig]; apply execute_sell_ignored in Hr; bind_inv;
      split_and!; simpl; try done. by apply prefix_app_r.
Qed.

Lemma process_bar_grows bars by_ts sl tp st ib st' :
  process_bar bars by_ts sl tp st ib = Ok st' → grows st st'.
Proof.
  destruct ib as [index bar]. unfold process_bar. intros H.
  apply bind_Ok_inv in H as (st1 & H1 & H). apply bind_Ok_inv in H as (st2 & H2 & [= <-]).
  transitivity st1; [|transitivity st2; [|split_and!; simpl; try done; by apply prefix_app_r]].
  - transitivity (begin_bar st); [done|]. destruct (0 <? index)%nat; [|by injection H1 as <-].
    unfold process_open in H1. apply bind_Ok_inv in H1 as (bp & _ & H1).
    destruct (evaluate_opening_risk_exit _ _ _ _ _ _) as [[x reason]|].
    + apply bind_Ok_inv in H1 as (cl & _ & [= <-]). split_and!; simpl; try done; by apply prefix_app_r.
    + eapply (foldM_invariant _ (grows (begin_bar st))) in H1; [done| |done].
      intros s a s1 _ Hg Hs. etransitivity; [exact Hg|]. by eapply process_signal_grows.
  - unfold process_intraday in H2. destruct (_ && _); [|by injection H2 as <-].
    destruct (evaluate_intraday_risk_exit _ _ _ _ _ _) as [[x reason]|]; [|by injection H2 as <-].
    apply bind_Ok_inv in H2 as (cl & _ & [= <-]). split_and!; simpl; try done; by apply prefix_app_r.
Qed.

Lemma foldM_process_bar_grows bars by_ts sl tp l st st' :
  foldM (process_bar bars by_ts sl tp) st l = Ok st' → grows st st'.
Proof.
  intros H. eapply (foldM_invariant _ (grows st)) in H; [done| |done].
  intros s a s1 _ Hg Hs. etransitivity; [exact Hg|]. by eapply process_bar_grows.
Qed.

(** ** A step sees only the bars and signals before it *)
Definition same_pending (bars : list MarketBar) (s1 s2 : list Signal) : Prop :=
  ∀ b, b ∈ bars → filter (λ s, sig_timestamp s = bar_timestamp b) s1
                = filter (λ s, sig_timestamp s = bar_timestamp b) s2.

Lemma process_bar_local b1 b2 s1 s2 sl tp st index bar :
  (index < length b1)%nat → same_pending (take (length b1 - 1) b1) s1 s2 →
  process_bar (b1 ++ b2) (group_signals s1) sl tp st (index, bar)
  = process_bar b1 (group_signals s2) sl tp st (index, bar).
Proof.
  intros Hlt Hsame. unfold process_bar. destruct (Nat.ltb_spec 0 index); [|done].
  unfold process_open. unfold py_index at 1 2. rewrite lookup_app_l by lia.
  destruct (b1 !! (index - 1)%nat) as [bp|] eqn:Hbp; [|done]. cbn [mbind result_bind].
  rewrite !group_signals_lookup, Hsame; [done|].
  apply list_elem_of_lookup_2 with (index - 1)%nat. rewrite lookup_take_lt by lia. done.
Qed.

Lemma run_bars_prefix b1 b2 s1 s2 sl tp cash st :
  same_pending (take (length b1 - 1) b1) s1 s2 →
  run_bars (b1 ++ b2) s1 sl tp cash = Ok st →
  ∃ st1, run_bars b1 s2 sl tp cash = Ok st1 ∧ grows st1 st.
Proof.
  intros Hsame. unfold run_bars, enumerate.
  rewrite enumerate_from_app, foldM_app. intros H. apply bind_Ok_inv in H as (st1 & H1 & H).
  exists st1. split; [|by eapply foldM_process_bar_grows].
  rewrite <- H1. symmetry. apply foldM_ext_in. intros s [j b] Hin%enumerate_from_elem.
  apply process_bar_local; [lia|done].
Qed.

(** ** The engine *)

(** [r1] reports what [r] had reported when the bars of [r1] were over: the
    same curve and ignored signals so far and the same trades, but for the
    liquidation that ends [r1]. *)
Definition report_prefix (r1 r : ExecutionResult) : Prop :=
  equity_curve r1 `prefix_of` equity_curve r ∧
  ignored_signals r1 `prefix_of` ignored_signals r ∧
  ∃ closed liquidation, completed_trades r1 = closed ++ liquidation ∧
    closed `prefix_of` completed_trades r ∧ (length liquidation <= 1)%nat ∧
    Forall (λ t, exit_reason t = FINAL_LIQUIDATION) liquidation.

Lemma liquidate_trades bars st cash trades :
  liquidate bars st = Ok (cash, trades) →
  ∃ liquidation, trades = st_completed_trades st ++ liquidation ∧ (length liquidation <= 1)%nat ∧
    Forall (λ t, exit_reason t = FINAL_LIQUIDATION) liquidation.
Proof.
  unfold liquidate. destruct (0 <? st_quantity st).
  - intros H. apply bind_Ok_inv in H as (b & _ & H). apply bind_Ok_inv in H as ([c t] & Hc & [= <- <-]).
    exists [t]. split_and!; [done|simpl; lia|]. constructor; [|done].
    unfold close_position in Hc. destruct (_ <=? 0); [done|].
    destruct (st_entry_price st), (st_entry_timestamp st), (st_entry_signal_timestamp st); try done.
    by apply bind_Ok_inv in Hc as (r & _ & [= _ <-]).
  - intros [= <- <-]. exists []. rewrite app_nil_r. split_and!; [done|simpl; lia|done].
Qed.

Lemma engine_prefix b1 b2 s1 s2 starting_cash slp tpp r :
  Forall bar_ok (b1 ++ b2) → increasing (b1 ++ b2) → fits starting_cash → b1 ≠ [] →
  same_pending (take (length b1 - 1) b1) s1 s2 →
  execute_long_only_signals (b1 ++ b2) s1 starting_cash slp tpp = Ok r →
  ∃ r1, execute_long_only_signals b1 s2 starting_cash slp tpp = Ok r1 ∧ report_prefix r1 r.
Proof.
  intros Hb Hi Hf Hne Hsame Hr.
  apply Forall_app in Hb as Hb'. destruct Hb' as [Hb1 _]. pose proof (increasing_app_l _ _ Hi) as Hi1.
  destruct (engine_Ok_state _ _ _ _ _ _ Hb Hi Hf Hr) as (_ & Hc & Htp & st & cash & trades & Hst & _ & Hliq & ->).
  destruct (run_bars_prefix _ _ _ _ _ _ _ _ Hsame Hst) as (st1 & Hst1 & Ht & He & Hg).
  pose proof (run_bars_inv b1 s2 (finite_percent slp) _ Hb1 Hi1 Htp _ Hf (Qlt_le_weak _ _ Hc)) as Hl.
  rewrite Hst1 in Hl.
  destruct (liquidate_inv b1 s2 Hb1 Hi1 Hne (finite_percent slp) _ st1 Htp Hl) as (cash1 & trades1 & Hliq1 & _).
  unfold execute_long_only_signals in *. bind_inv.
  match goal with H : dle starting_cash dzero = false |- _ => rewrite H end.
  rewrite bool_decide_eq_false_2 by done.
  do 2 match goal with H : validate_risk_control _ _ = Ok _ |- _ => rewrite H; clear H end.
  cbn [raise_if mbind result_bind]. rewrite Hst1. cbn [mbind result_bind]. rewrite Hliq1.
  cbn [mbind result_bind]. eexists. split; [reflexivity|]. unfold report_prefix. simpl.
  split_and!; [done..|].
  apply liquidate_trades in Hliq1 as (l1 & -> & Hlen1 & Hall1).
  apply liquidate_trades in Hliq as (l & -> & _ & _).
  exists (st_completed_trades st1), l1. split_and!; try done. etransitivity; [exact Ht|]. by apply prefix_app_r.
Qed.

(** Signals generated from more bars do not disturb those of the earlier ones. *)
Lemma generated_same_pending cs b1 b2 s12 :
  spec_supported (compiled_specification cs) → increasing (b1 ++ b2) →
  generate_signals cs (b1 ++ b2) = Ok s12 →
  ∃ s1, generate_signals cs b1 = Ok s1 ∧ same_pending b1 s12 s1.
Proof.
  intros Hsup Hi Hg. destruct (generate_signals_app cs Hsup _ _ _ Hg) as (s1 & s2 & -> & H1 & H2).
  exists s1. split; [done|]. intros b Hb. rewrite filter_app.
  assert (filter (λ s, sig_timestamp s = bar_timestamp b) s2 = []) as ->; [|by rewrite app_nil_r].
  apply filter_none. intros s Hs Heq. specialize (H2 s Hs). rewrite Heq in H2.
  apply list_elem_of_fmap in H2 as (b' & Hteq & Hb').
  apply list_elem_of_lookup in Hb as [i Hb]. apply list_elem_of_lookup in Hb' as [j Hb'].
  pose proof (lookup_lt_Some _ _ _ Hb).
  pose proof (Hi i (length b1 + j)%nat b b') as Hlt.
  rewrite lookup_app_l, lookup_app_r in Hlt by lia.
  replace (length b1 + j - length b1)%nat with j in Hlt by lia.
  specialize (Hlt Hb Hb' ltac:(lia)). lia.
Qed.

(** ** The theorems *)

(** The two calls of a preview that turn bars into an execution. *)
Definition run_compiled (cs : CompiledStrategy) (bars : list MarketBar) (starting_cash : decimal)
    : result ExecutionResult :=
  signals ← generate_signals cs bars;
  execute_long_only_signals bars signals starting_cash
    (stop_loss_percent (compiled_specification cs)) (take_profit_percent (compiled_specification cs)).

(** The engine does not look ahead: running on bars [b1 ++ b2] reports, up
    to the last bar of [b1], what running on [b1] alone reports, whatever the
    bars of [b2] are and whatever signals are dated on the last bar of [b1] or
    later; and the shorter run cannot fail where the longer one succeeded. *)
Theorem engine_no_lookahead b1 b2 s1 s2 starting_cash slp tpp r
    (Hbars : Forall bar_ok (b1 ++ b2)) (Hinc : increasing (b1 ++ b2)) (Hcash : fits starting_cash)
    (Hne : b1 ≠ []) (Hsame : same_pending (take (length b1 - 1) b1) s1 s2)
    (Hrun : execute_long_only_signals (b1 ++ b2) s1 starting_cash slp tpp = Ok r) :
  ∃ r1, execute_long_only_signals b1 s2 starting_cash slp tpp = Ok r1 ∧ report_prefix r1 r.
Proof. by eapply engine_prefix. Qed.

Lemma engine_no_lookahead_witness :
  ∃ r1, execute_long_only_signals (take 4 sample_bars) (take 3 sample_signals) sample_cash
          (Some (Finite (dec_of_Z 5))) (Some (Finite (dec_of_Z 20))) = Ok r1 ∧
        report_prefix r1 sample_run.
Proof.
  apply (engine_no_lookahead (take 4 sample_bars) (drop 4 sample_bars) sample_signals
    (take 3 sample_signals) sample_cash (Some (Finite (dec_of_Z 5))) (Some (Finite (dec_of_Z 20))) sample_run).
  - rewrite take_drop. apply sample_bars_ok.
  - rewrite take_drop. apply sample_bars_increasing.
  - apply sample_cash_fits.
  - discriminate.
  - intros b Hb. unfold sample_bars in Hb. simpl in Hb.
    repeat (apply elem_of_cons in Hb as [Hb|Hb]; [subst b; vm_compute; reflexivity|]).
    by apply not_elem_of_nil in Hb.
  - rewrite take_drop. apply sample_run_eq.
Defined.

(** C9: The whole backtest is causal: for a supported strategy, compiling
    signals from [b1 ++ b2] and executing them reports, up to the last bar of
    [b1], what compiling and executing on [b1] alone reports. *)
Theorem backtest_no_lookahead cs b1 b2 starting_cash r
    (Hsup : spec_supported (compiled_specification cs))
    (Hbars : Forall bar_ok (b1 ++ b2)) (Hinc : increasing (b1 ++ b2)) (Hcash : fits starting_cash)
    (Hne : b1 ≠ []) (Hrun : run_compiled cs (b1 ++ b2) starting_cash = Ok r) :
  ∃ r1, run_compiled cs b1 starting_cash = Ok r1 ∧ report_prefix r1 r.
Proof.
  unfold run_compiled in *. apply bind_Ok_inv in Hrun as (s12 & Hg & Hrun).
  destruct (generated_same_pending _ _ _ _ Hsup Hinc Hg) as (s1 & -> & Hsame).
  cbn [mbind result_bind]. eapply engine_prefix; eauto.
  intros b Hb. apply Hsame. apply list_elem_of_lookup in Hb as [i Hb].
  apply lookup_take_Some in Hb as [Hb _]. by eapply list_elem_of_lookup_2.
Qed.

(** Buy when the close is above its two-day average, sell when below. *)
Definition sample_specification : StrategySpecification :=
  mkSpecification "1.0" "SPY" "1d"
    (mkCondition (PriceOperand "close") GREATER_THAN (IndicatorOperand SMA "close" 2))
    (mkCondition (PriceOperand "close") LESS_THAN (IndicatorOperand SMA "close" 2))
    (mkExecutionSettings "long" 100 "next_bar_open")
    (Some (Finite (dec_of_Z 5))) None.

Lemma sample_specification_supported : spec_supported sample_specification.
Proof.
  apply validate_strategy_semantics_iff. vm_compute. reflexivity.
Qed.

Lemma backtest_no_lookahead_witness :
  ∃ r r1, run_compiled (mkCompiled sample_specification) sample_bars sample_cash = Ok r ∧
    run_compiled (mkCompiled sample_specification) (take 5 sample_bars) sample_cash = Ok r1 ∧
    report_prefix r1 r ∧ length (equity_curve r1) = 5%nat ∧ completed_trades r ≠ [].
Proof.
  destruct (run_compiled (mkCompiled sample_specification) sample_bars sample_cash) as [r|e] eqn:E;
    [|vm_compute in E; discriminate E].
  destruct (backtest_no_lookahead (mkCompiled sample_specification) (take 5 sample_bars)
    (drop 5 sample_bars) sample_cash r) as (r1 & E1 & Hp).
  - apply sample_specification_supported.
  - rewrite take_drop. apply sample_bars_ok.
  - rewrite take_drop. apply sample_bars_increasing.
  - apply sample_cash_fits.
  - discriminate.
  - rewrite take_drop. exact E.
  - exists r, r1. split; [reflexivity|]. split; [exact E1|]. split; [exact Hp|]. split.
    + vm_compute in E1. injection E1 as <-. reflexivity.
    + vm_compute in E. injection E as <-. discriminate.
Defined.
