(* ===== verification/Metrics.v ===== *)
(** * Performance metrics ([backend/app/backtesting/metrics.py])

    The buy-and-hold benchmark, the maximum drawdown, the win rate and the
    compound annual growth rate.  [Decimal.__pow__] with a fractional exponent
    is evaluated by decimal through [exp] and [ln]; it is the argument [power]
    of the definitions that use it, and no theorem assumes anything of it. *)

From S2P Require Import Prelude Decimal Models Samples.
From Stdlib Require Import ZArith QArith Qabs Qminmax Lqa Lia.
From stdpp Require Import base list option strings.
Local Open Scope Z_scope.

(** ** Definitions *)
Definition calculate_buy_and_hold_equity_curve (bars : list MarketBar) (starting_cash : decimal)
    (start_index : Z) : result (list EquityPoint) :=
  _ ← raise_if (negb ((0 <=? start_index) && (start_index <? Z.of_nat (length bars))))
        (ValueError "start_index is outside the loaded data range");
  start_bar ← py_index bars (Z.to_nat start_index);
  quotient ← dfloordiv starting_cash (open_price start_bar);
  let shares := dint quotient in
  let remaining_cash := dsub starting_cash (dmul (dec_of_Z shares) (open_price start_bar)) in
  Ok ((λ bar, mkPoint (bar_timestamp bar)
               (dadd remaining_cash (dmul (dec_of_Z shares) (close_price bar))))
      <$> drop (Z.to_nat start_index) bars).

(** [(value / base - 1) * 100] *)
Definition percent_change (value base : decimal) : result decimal :=
  ratio ← ddiv value base;
  Ok (dmul (dsub ratio (dec_of_Z 1)) (dec_of_Z 100)).

(** The loop of [calculate_maximum_drawdown]: the running peak and minimum. *)
Definition drawdown_step (state : decimal * decimal) (point : EquityPoint) : result (decimal * decimal) :=
  let peak := dmax state.1 (equity point) in
  drawdown ← percent_change (equity point) peak;
  Ok (peak, dmin state.2 drawdown).

Definition calculate_maximum_drawdown (curve : list EquityPoint) : result decimal :=
  first ← py_index curve 0;
  final ← foldM drawdown_step (equity first, dzero) curve;
  Ok final.2.

(** [Decimal(str(delta.total_seconds()))] of a [timedelta] in microseconds:
    [str] of a float prints the shortest digits that read back, which are those
    of the exact number of seconds when it has at most 15 significant digits or
    is whole; at least one digit follows the point. *)
Fixpoint strip_fraction (fuel : nat) (c : Z) (e : Z) : Z * Z :=
  match fuel with
  | O => (c, e)
  | S fuel => if (e <? -1) && (c mod 10 =? 0) then strip_fraction fuel (c / 10) (e + 1) else (c, e)
  end.

Definition total_seconds (microseconds : Z) : decimal :=
  let '(c, e) := strip_fraction 5 (Z.abs microseconds) (-6) in
  Dec (microseconds <? 0) (Z.to_N c) e.

(** [sum(trade.profit_loss > 0 for trade in completed_trades)] *)
Definition winning_trades (trades : list CompletedTrade) : nat :=
  length (filter (λ t, dgt (profit_loss t) dzero = true) trades).

Definition calculate_win_rate (trades : list CompletedTrade) : result decimal :=
  match trades with
  | [] => Ok dzero
  | _ =>
      ratio ← ddiv (dec_of_Z (Z.of_nat (winning_trades trades))) (dec_of_Z (Z.of_nat (length trades)));
      Ok (dmul ratio (dec_of_Z 100))
  end.

Section cagr.
Context (power : decimal → decimal → result decimal).

Definition calculate_cagr (starting_cash final_value : decimal)
    (start_timestamp end_timestamp : datetime) : result (option decimal) :=
  elapsed_days ← ddiv (total_seconds (end_timestamp - start_timestamp)) (dec_of_Z 86400);
  if dle elapsed_days dzero then Ok None
  else
    years ← ddiv elapsed_days (Dec false 36525 (-2));
    ratio ← ddiv final_value starting_cash;
    exponent ← ddiv (dec_of_Z 1) years;
    growth ← power ratio exponent;
    Ok (Some (dmul (dsub growth (dec_of_Z 1)) (dec_of_Z 100))).

Definition calculate_metrics (bars : list MarketBar) (curve : list EquityPoint)
    (trades : list CompletedTrade) (starting_cash final_value : decimal)
    (buy_and_hold_start_index : Z) : result BacktestMetrics :=
  _ ← raise_if (bool_decide (bars = []) || bool_decide (curve = []))
        (ValueError "bars and equity_curve are required");
  _ ← raise_if (negb ((0 <=? buy_and_hold_start_index) &&
                      (buy_and_hold_start_index <? Z.of_nat (length bars))))
        (ValueError "buy_and_hold_start_index is outside the loaded data range");
  start_bar ← py_index bars (Z.to_nat buy_and_hold_start_index);
  benchmark ← calculate_buy_and_hold_equity_curve bars starting_cash buy_and_hold_start_index;
  benchmark_last ← py_last benchmark;
  win_rate ← calculate_win_rate trades;
  total_return ← percent_change final_value starting_cash;
  benchmark_return ← percent_change (equity benchmark_last) starting_cash;
  last_bar ← py_last bars;
  drawdown ← calculate_maximum_drawdown curve;
  first_bar ← py_index bars 0;
  cagr ← calculate_cagr starting_cash final_value (bar_timestamp first_bar) (bar_timestamp last_bar);
  Ok (mkMetrics total_return benchmark_return (bar_timestamp start_bar) (open_price start_bar)
        (close_price last_bar) win_rate drawdown cagr).
End cagr.

(** ** References *)

(** The highest equity so far. *)
Definition running_peak (curve : list EquityPoint) (i : nat) : decimal :=
  foldl (λ peak p, dmax peak (equity p)) (default dzero (equity <$> head curve)) (take (S i) curve).

(** ** Lemmas *)
Lemma representable_small z : (Z.abs z <= 1000)%Z → representable (inject_Z z).
Proof. intros H. apply representable_Z. unfold prec. lia. Qed.

Lemma dmax_val a b : (dval (dmax a b) == Qmax (dval a) (dval b))%Q.
Proof.
  unfold dmax. destruct (dlt a b) eqn:E.
  - apply dlt_val in E. rewrite Q.max_r; [reflexivity|lra].
  - apply dlt_val_false in E. rewrite Q.max_l; [reflexivity|lra].
Qed.

Lemma dmin_val a b : (dval (dmin a b) == Qmin (dval a) (dval b))%Q.
Proof.
  unfold dmin. destruct (dlt b a) eqn:E.
  - apply dlt_val in E. rewrite Q.min_r; [reflexivity|lra].
  - apply dlt_val_false in E. rewrite Q.min_l; [reflexivity|lra].
Qed.

(** A loss from a peak is between -100% and 0. *)
Lemma percent_change_drawdown value base :
  (0 < dval base)%Q → (0 <= dval value)%Q → (dval value <= dval base)%Q →
  ∃ d, percent_change value base = Ok d ∧ (-100 <= dval d <= 0)%Q.
Proof.
  intros Hb Hv Hle. unfold percent_change.
  destruct (ddiv_rounds value base) as (r & -> & Hr); [intros E; lra|].
  cbn [mbind result_bind]. eexists; split; [reflexivity|].
  assert (0 <= dval r <= 1)%Q as [Hr0 Hr1].
  { split.
    - eapply rounds_nonneg; [exact Hr|]. apply Qle_shift_div_l; [done|]. lra.
    - eapply (rounds_le _ _ (inject_Z 1)); [exact Hr|by apply representable_small|].
      apply Qle_shift_div_r; [done|]. change (inject_Z 1) with 1%Q. lra. }
  pose proof (dsub_rounds r (dec_of_Z 1)) as Hs. rewrite dval_dec_of_Z in Hs.
  assert (-1 <= dval (dsub r (dec_of_Z 1)) <= 0)%Q as [Hs0 Hs1].
  { change (inject_Z 1) with 1%Q in Hs. split.
    - eapply (rounds_ge _ _ (inject_Z (-1))); [exact Hs|by apply representable_small|].
      change (inject_Z (-1)) with (-1)%Q. lra.
    - eapply rounds_nonpos; [exact Hs|]. lra. }
  pose proof (dmul_rounds (dsub r (dec_of_Z 1)) (dec_of_Z 100)) as Hm. rewrite dval_dec_of_Z in Hm.
  change (inject_Z 100) with 100%Q in Hm. split.
  - eapply (rounds_ge _ _ (inject_Z (-100))); [exact Hm|by apply representable_small|].
    change (inject_Z (-100)) with (-100)%Q. lra.
  - eapply rounds_nonpos; [exact Hm|]. lra.
Qed.

Lemma percent_change_total value base :
  (0 < dval base)%Q → ∃ d, percent_change value base = Ok d.
Proof.
  intros Hb. unfold percent_change.
  destruct (ddiv_rounds value base) as (r & -> & _); [intros E; lra|]. cbn. eauto.
Qed.

(** *** The drawdown loop *)
Definition peak_from (peak : decimal) (l : list EquityPoint) (i : nat) : decimal :=
  foldl (λ peak p, dmax peak (equity p)) peak (take (S i) l).

Lemma dmax_ge_l a b : (dval a <= dval (dmax a b))%Q.
Proof. rewrite dmax_val. apply Q.le_max_l. Qed.
Lemma dmax_ge_r a b : (dval b <= dval (dmax a b))%Q.
Proof. rewrite dmax_val. apply Q.le_max_r. Qed.
Lemma dmin_le_l a b : (dval (dmin a b) <= dval a)%Q.
Proof. rewrite dmin_val. apply Q.le_min_l. Qed.
Lemma dmin_le_r a b : (dval (dmin a b) <= dval b)%Q.
Proof. rewrite dmin_val. apply Q.le_min_r. Qed.
Lemma dmin_choice a b : dmin a b = a ∨ dmin a b = b.
Proof. unfold dmin. destruct (dlt b a); auto. Qed.

Lemma drawdown_loop l peak m :
  (0 < dval peak)%Q → (-100 <= dval m <= 0)%Q → Forall (λ p, 0 <= dval (equity p))%Q l →
  ∃ peak' m', foldM drawdown_step (peak, m) l = Ok (peak', m') ∧
    (-100 <= dval m' <= 0)%Q ∧ (dval m' <= dval m)%Q ∧
    (∀ i p, l !! i = Some p → ∃ d,
       percent_change (equity p) (peak_from peak l i) = Ok d ∧ (dval m' <= dval d)%Q) ∧
    (m' = m ∨ ∃ i p, l !! i = Some p ∧ percent_change (equity p) (peak_from peak l i) = Ok m').
Proof.
  revert peak m. induction l as [|p l IH]; intros peak m Hpeak Hm Hall; simpl.
  - exists peak, m. split_and!; try done; [lra|lra|lra|by left].
  - apply Forall_cons_iff in Hall as [Hp Hall].
    pose proof (dmax_ge_l peak (equity p)) as H1. pose proof (dmax_ge_r peak (equity p)) as H2.
    assert (0 < dval (dmax peak (equity p)))%Q as Hpk by lra.
    destruct (percent_change_drawdown (equity p) (dmax peak (equity p)) Hpk Hp H2) as (d & Hd & Hdr).
    assert (drawdown_step (peak, m) p = Ok (dmax peak (equity p), dmin m d)) as -> by (unfold drawdown_step; cbn [fst snd]; by rewrite Hd). cbn [mbind result_bind].
    pose proof (dmin_le_l m d) as Hml. pose proof (dmin_le_r m d) as Hmr.
    destruct (IH (dmax peak (equity p)) (dmin m d) Hpk) as (pk' & m' & Hrun & Hb & Hle & Hlow & Hex); [|done|].
    { destruct (dmin_choice m d) as [-> | ->]; done. }
    exists pk', m'. split_and!; [done|apply Hb|apply Hb|lra| |].
    + intros [|i] q Hq; simpl in Hq.
      * injection Hq as <-. exists d. split; [exact Hd|lra].
      * destruct (Hlow i q Hq) as (d' & Hd' & Hge). exists d'. done.
    + destruct Hex as [->|(i & q & Hq & Hqd)]; [|by right; exists (S i), q].
      destruct (dmin_choice m d) as [->|E]; [by left|]. right. exists 0%nat, p. rewrite E. done.
Qed.

Lemma running_peak_from curve p rest i :
  curve = p :: rest → running_peak curve i = peak_from (equity p) curve i.
Proof. intros ->. done. Qed.

Lemma maximum_drawdown_spec curve first :
  head curve = Some first → (0 < dval (equity first))%Q →
  Forall (λ p, 0 <= dval (equity p))%Q curve →
  ∃ m, calculate_maximum_drawdown curve = Ok m ∧ (-100 <= dval m <= 0)%Q ∧
    (∀ i p, curve !! i = Some p → ∃ d,
       percent_change (equity p) (running_peak curve i) = Ok d ∧ (dval m <= dval d)%Q) ∧
    (m = dzero ∨ ∃ i p, curve !! i = Some p ∧
       percent_change (equity p) (running_peak curve i) = Ok m).
Proof.
  intros Hhead Hpos Hall. destruct curve as [|p rest]; [done|]. injection Hhead as ->.
  destruct (drawdown_loop (first :: rest) (equity first) dzero Hpos) as (pk & m & Hrun & Hb & _ & Hlow & Hex).
  { rewrite dval_dzero. lra. } { done. }
  exists m. unfold calculate_maximum_drawdown. cbn [py_index lookup]. 
  change (py_index (first :: rest) 0) with (Ok first). cbn [mbind result_bind].
  rewrite Hrun. split_and!; [done|apply Hb|apply Hb|exact Hlow|exact Hex].
Qed.

(** *** Win rate *)
Lemma winning_trades_le trades : (winning_trades trades <= length trades)%nat.
Proof. apply length_filter. Qed.

Lemma win_rate_bounds trades :
  ∃ w, calculate_win_rate trades = Ok w ∧ (0 <= dval w <= 100)%Q.
Proof.
  unfold calculate_win_rate. destruct trades as [|t ts].
  { exists dzero. split; [done|]. rewrite dval_dzero. lra. }
  pose proof (winning_trades_le (t :: ts)) as Hle. set (trades := t :: ts) in *.
  assert (0 < length trades)%nat as Hlen by (simpl; lia).
  assert (0 < inject_Z (Z.of_nat (length trades)))%Q as Hn by (apply inject_Z_pos; lia).
  destruct (ddiv_rounds (dec_of_Z (Z.of_nat (winning_trades trades))) (dec_of_Z (Z.of_nat (length trades))))
    as (r & -> & Hr).
  { rewrite dval_dec_of_Z. intros E. rewrite E in Hn. by apply Qlt_irrefl in Hn. }
  cbn [mbind result_bind]. eexists; split; [reflexivity|].
  rewrite !dval_dec_of_Z in Hr.
  assert (0 <= dval r <= 1)%Q as [Hr0 Hr1].
  { split.
    - eapply rounds_nonneg; [exact Hr|]. apply Qle_shift_div_l; [done|].
      rewrite Qmult_0_l, <- (Zle_Qle 0). lia.
    - eapply (rounds_le _ _ (inject_Z 1)); [exact Hr|by apply representable_small|].
      apply Qle_shift_div_r; [done|]. change (inject_Z 1) with 1%Q. rewrite Qmult_1_l, <- Zle_Qle. lia. }
  pose proof (dmul_rounds r (dec_of_Z 100)) as Hm. rewrite dval_dec_of_Z in Hm.
  change (inject_Z 100) with 100%Q in Hm. split.
  - eapply rounds_nonneg; [exact Hm|]. lra.
  - eapply (rounds_le _ _ (inject_Z 100)); [exact Hm|by apply representable_small|].
    change (inject_Z 100) with 100%Q. lra.
Qed.

(** ** The theorem *)

(** C40: The maximum drawdown of an equity curve that starts positive and never
    goes negative lies in [-100, 0] and is the worst loss from a running peak:
    no point of the curve lost more against the highest equity before it, and
    some point lost exactly that (or the result is the initial 0). *)
Theorem maximum_drawdown_is_worst_loss curve first
    (Hhead : head curve = Some first) (Hpos : (0 < dval (equity first))%Q)
    (Hnonneg : Forall (λ p, 0 <= dval (equity p))%Q curve) :
  ∃ m, calculate_maximum_drawdown curve = Ok m ∧ (-100 <= dval m <= 0)%Q ∧
    (∀ i p, curve !! i = Some p → ∃ d,
       percent_change (equity p) (running_peak curve i) = Ok d ∧ (dval m <= dval d)%Q) ∧
    (m = dzero ∨ ∃ i p, curve !! i = Some p ∧
       percent_change (equity p) (running_peak curve i) = Ok m).
Proof. by apply maximum_drawdown_spec with first. Qed.

Definition sample_curve : list EquityPoint :=
  [ mkPoint (day 1) (cents 1000000); mkPoint (day 2) (cents 1080000);
    mkPoint (day 3) (cents 990000); mkPoint (day 4) (cents 1050000) ].

Lemma maximum_drawdown_is_worst_loss_witness :
  ∃ m, calculate_maximum_drawdown sample_curve = Ok m ∧ dlt m (dec_of_Z (-8)) = true ∧
    (-100 <= dval m <= 0)%Q.
Proof.
  destruct (maximum_drawdown_is_worst_loss sample_curve (mkPoint (day 1) (cents 1000000)))
    as (m & Hm & Hb & _).
  - reflexivity.
  - vm_compute. reflexivity.
  - unfold sample_curve.
    repeat (apply Forall_cons; split; [vm_compute; discriminate|]). by apply Forall_nil.
  - exists m. split; [exact Hm|]. split; [|exact Hb]. vm_compute in Hm. injection Hm as <-. reflexivity.
Defined.
