(* ===== verification/Benchmark.v ===== *)
(** * The benchmark and the engine agree

    [calculate_buy_and_hold_equity_curve] is a closed formula;
    [execute_long_only_signals] on a single BUY dated on the bar before the
    start index computes the same curve, point by point. *)

From S2P Require Import Prelude Decimal Models Samples Engine EngineInvariant EngineSafety Metrics.
From Stdlib Require Import ZArith QArith Lqa Lia.
From stdpp Require Import base list option strings gmap.
Local Open Scope Z_scope.

(** Equal timestamps and equal values: a [Decimal] compares by value. *)
Definition same_point (p q : EquityPoint) : Prop :=
  pt_timestamp p = pt_timestamp q ∧ (dval (equity p) == dval (equity q))%Q.

#[global] Instance same_point_equiv : Equivalence same_point.
Proof.
  split.
  - by intros p.
  - intros p q [H1 H2]. by split; [|symmetry].
  - intros p q r [H1 H2] [H3 H4]. split; [by etransitivity|]. by rewrite H2.
Qed.

Section benchmark.
Context (bars : list MarketBar) (k : nat) (signal_bar start_bar : MarketBar) (cash : decimal).
Context (Hbars : Forall bar_ok bars) (Hinc : increasing bars).
Context (Hf : fits cash) (Hcash : (0 < dval cash)%Q).
Context (Hk : (0 < k)%nat) (Hsig : bars !! (k - 1)%nat = Some signal_bar) (Hstart : bars !! k = Some start_bar).
Context (shares : decimal) (Hshares : dfloordiv cash (open_price start_bar) = Ok shares).

Local Abbreviation buy := (mkSignal (bar_timestamp signal_bar) BUY).

Definition hold_remaining : decimal := dsub cash (dmul (dec_of_Z (dint shares)) (open_price start_bar)).

Definition hold_point (b : MarketBar) : EquityPoint :=
  mkPoint (bar_timestamp b) (dadd hold_remaining (dmul (dec_of_Z (dint shares)) (close_price b))).

Lemma hold_remaining_nothing : dint shares = 0 → (dval hold_remaining == dval cash)%Q.
Proof.
  intros E. unfold hold_remaining. rewrite E. eapply rounds_exact; [|by apply fits_representable].
  pose proof (dsub_rounds cash (dmul (dec_of_Z 0) (open_price start_bar))) as Hr.
  rewrite dmul_zero_val in Hr.
  by setoid_replace (dval cash - 0)%Q with (dval cash) using relation Qeq in Hr by ring.
Qed.

Lemma shares_nonneg : 0 <= dint shares.
Proof.
  destruct (dfloordiv_spec cash (open_price start_bar)) as [(r & Hr & [H0 _] & _)|[Hr _]];
    [by apply Qlt_le_weak|by eapply bar_ok_open_pos, bar_lookup_ok| |congruence].
  rewrite Hshares in Hr. by injection Hr as ->.
Qed.

(** The state before the start bar, and from it on. *)
Definition hold_inv (n : nat) (st : ExecState) : Prop :=
  st_stop_price st = None ∧ st_take_profit_price st = None ∧
  (if (n <=? k)%nat then st_cash st = cash ∧ st_quantity st = 0
   else st_quantity st = dint shares ∧
        st_cash st = if dint shares =? 0 then cash else hold_remaining) ∧
  length (st_equity_curve st) = n ∧
  Forall2 same_point (drop k (st_equity_curve st)) (hold_point <$> drop k (take n bars)).

Lemma pending_buy index b :
  bars !! index = Some b →
  pending_signals (group_signals [buy]) (bar_timestamp b)
  = if (S index =? k)%nat then [buy] else [].
Proof.
  intros Hb. rewrite group_signals_lookup. rewrite filter_cons, filter_nil. cbn [sig_timestamp].
  destruct (Nat.eqb_spec (S index) k) as [E|E].
  - replace index with (k - 1)%nat in Hb by lia. rewrite Hsig in Hb. injection Hb as ->.
    by rewrite decide_True.
  - rewrite decide_False; [done|]. intros Ht.
    destruct (Nat.lt_trichotomy index (k - 1)) as [Hlt|[Heq|Hlt]]; [|lia|].
    + pose proof (Hinc _ _ _ _ Hb Hsig Hlt). lia.
    + pose proof (Hinc _ _ _ _ Hsig Hb Hlt). lia.
Qed.

Lemma no_risk_opening b q ei index : evaluate_opening_risk_exit b q ei index None None = None.
Proof. unfold evaluate_opening_risk_exit. by destruct (no_earlier_position _ _ _). Qed.

Lemma no_risk_intraday b q ei index : evaluate_intraday_risk_exit b q ei index None None = None.
Proof. unfold evaluate_intraday_risk_exit. by destruct (no_earlier_position _ _ _). Qed.

Lemma process_intraday_none index b st :
  st_stop_price st = None → st_take_profit_price st = None → process_intraday index b st = Ok st.
Proof.
  intros H1 H2. unfold process_intraday. rewrite H1, H2, no_risk_intraday. by destruct (_ && _).
Qed.

(** What the opening part of bar [index] leaves. *)
Lemma hold_opening index b st :
  bars !! index = Some b → hold_inv index st →
  ∃ st', (if (0 <? index)%nat then process_open bars (group_signals [buy]) None None index b (begin_bar st)
          else Ok (begin_bar st)) = Ok st' ∧
    st_stop_price st' = None ∧ st_take_profit_price st' = None ∧
    st_equity_curve st' = st_equity_curve st ∧
    (if (index <? k)%nat then st_cash st' = cash ∧ st_quantity st' = 0
     else st_quantity st' = dint shares ∧
          st_cash st' = if dint shares =? 0 then cash else hold_remaining).
Proof.
  intros Hb (Hs & Ht & Hpos & Hlen & Hcurve).
  destruct (Nat.ltb_spec 0 index) as [H0|H0].
  - unfold process_open. destruct (py_index_ok_lt bars (index - 1)) as (bp & -> & Hbp).
    { apply lookup_lt_Some in Hb. lia. }
    cbn [mbind result_bind]. rewrite (pending_buy _ _ Hbp).
    change (st_stop_price (begin_bar st)) with (st_stop_price st).
    change (st_take_profit_price (begin_bar st)) with (st_take_profit_price st).
    rewrite Hs, Ht, no_risk_opening. replace (S (index - 1)) with index by lia.
    destruct (Nat.eqb_spec index k) as [->|Hne].
    + rewrite Nat.leb_refl in Hpos. destruct Hpos as [Hc Hq]. rewrite Hstart in Hb. injection Hb as <-.
      rewrite Nat.ltb_irrefl. cbn [foldM]. unfold process_signal. cbn [signal_type].
      unfold begin_bar; cbn. unfold execute_buy. rewrite Hq, Hc. simpl. rewrite Hshares.
      cbn [mbind result_bind]. destruct (Z.eqb_spec (dint shares) 0) as [E|E]; simpl.
      * eexists; split; [reflexivity|]. simpl. by rewrite E.
      * pose proof shares_nonneg. destruct (Z.ltb_spec 0 (dint shares)); [|lia].
        simpl. eexists; split; [reflexivity|]. by simpl.
    + simpl. eexists; split; [reflexivity|]. simpl.
      revert Hpos. destruct (Nat.leb_spec index k), (Nat.ltb_spec index k); try lia; by intros [? ?].
  - replace index with 0%nat in * by lia. eexists; split; [reflexivity|]. simpl.
    destruct (Nat.ltb_spec 0 k); [|lia]. destruct Hpos. by split_and!.
Qed.

Lemma hold_step index b st :
  bars !! index = Some b → hold_inv index st →
  outcome (process_bar bars (group_signals [buy]) None None st (index, b)) (hold_inv (index + 1)) (λ _, False).
Proof.
  intros Hb Hi. destruct (hold_opening index b st Hb Hi) as (st' & E & Hs & Ht & Hcv & Hpos).
  destruct Hi as (_ & _ & _ & Hlen & Hcurve). unfold process_bar. rewrite E. cbn [mbind result_bind].
  rewrite process_intraday_none by done. simpl. unfold hold_inv; simpl.
  pose proof (lookup_lt_Some _ _ _ Hb) as Hlt.
  split_and!; [done|done| | |].
  - replace (index + 1 <=? k)%nat with (index <? k)%nat; [done|].
    destruct (Nat.ltb_spec index k), (Nat.leb_spec (index + 1) k); try done; lia.
  - rewrite length_app, Hcv, Hlen. simpl. lia.
  - rewrite Hcv, Nat.add_1_r, (take_S_r _ _ _ Hb).
    destruct (Nat.ltb_spec index k) as [Hlk|Hlk].
    + rewrite !drop_ge; [constructor| |]; rewrite length_app; simpl; [rewrite length_take|]; lia.
    + rewrite !drop_app_le by (rewrite ?length_take; lia). rewrite fmap_app.
      apply Forall2_app; [done|]. constructor; [|constructor]. destruct Hpos as [Hq Hc].
      split; [done|]. simpl. unfold mark_to_close. rewrite Hq, Hc.
      destruct (Z.eqb_spec (dint shares) 0) as [E0|E0]; [|reflexivity]. rewrite E0, (dadd_no_shares cash) by done.
      rewrite dadd_no_shares; [by rewrite hold_remaining_nothing|].
      by eapply rounds_to_fits, dsub_rounds.
Qed.

Lemma hold_run :
  outcome (run_bars bars [buy] None None cash) (hold_inv (length bars)) (λ _, False).
Proof.
  unfold run_bars, enumerate. apply (outcome_enumerate (λ _, False) _ hold_inv bars 0).
  - unfold hold_inv, initial_state; simpl. split_and!; try done. rewrite take_0, !drop_nil. constructor.
  - intros j b s Hj Hi. by apply hold_step.
Qed.
End benchmark.

(** The buy-and-hold benchmark is the engine's own behaviour: whenever
    [calculate_buy_and_hold_equity_curve] computes a curve for start index [k],
    executing one BUY dated on bar [k - 1] with no risk controls succeeds, and
    its equity curve from bar [k] on is that curve, point by point. *)
Theorem benchmark_is_a_run bars k signal_bar starting_cash curve
    (Hbars : Forall bar_ok bars) (Hinc : increasing bars) (Hcash : fits starting_cash)
    (Hpos : (0 < dval starting_cash)%Q)
    (Hk : (0 < k)%nat) (Hsig : bars !! (k - 1)%nat = Some signal_bar)
    (Hcurve : calculate_buy_and_hold_equity_curve bars starting_cash (Z.of_nat k) = Ok curve) :
  ∃ r, execute_long_only_signals bars [mkSignal (bar_timestamp signal_bar) BUY]
         starting_cash None None = Ok r ∧
    Forall2 same_point (drop k (equity_curve r)) curve.
Proof.
  unfold calculate_buy_and_hold_equity_curve in Hcurve.
  apply bind_Ok_inv in Hcurve as ([] & _ & Hcurve).
  apply bind_Ok_inv in Hcurve as (b & Hb%py_index_Ok & Hcurve). rewrite Nat2Z.id in Hb, Hcurve.
  apply bind_Ok_inv in Hcurve as (q & Hq & [= <-]).
  pose proof (hold_run bars k signal_bar b starting_cash Hbars Hinc Hcash Hpos Hk Hsig Hb q Hq) as Ho.
  assert (∀ p : decimal, None = Some p → (0 < dval p)%Q) as Htp by done.
  pose proof (run_bars_inv bars [mkSignal (bar_timestamp signal_bar) BUY] None None Hbars Hinc Htp
    starting_cash Hcash (Qlt_le_weak _ _ Hpos)) as Hl.
  assert (bars ≠ []) as Hne by (intros ->; done).
  unfold execute_long_only_signals. cbn [finite_percent validate_risk_control].
  replace (dle starting_cash dzero) with false.
  2:{ symmetry. apply dle_val_false. by rewrite dval_dzero. }
  rewrite bool_decide_eq_false_2 by done. cbn [raise_if mbind result_bind].
  destruct (run_bars _ _ _ _ _) as [st|e]; [|done]. cbn [mbind result_bind].
  destruct (liquidate_inv bars _ Hbars Hinc Hne None None st Htp Hl) as (c & trades & -> & _).
  eexists; split; [reflexivity|]. simpl.
  destruct Ho as (_ & _ & _ & _ & Hcv). by rewrite firstn_all in Hcv.
Qed.

Lemma benchmark_is_a_run_witness :
  ∃ r curve, calculate_buy_and_hold_equity_curve sample_bars sample_cash 2 = Ok curve ∧
    execute_long_only_signals sample_bars [mkSignal (day 2) BUY] sample_cash None None = Ok r ∧
    Forall2 same_point (drop 2 (equity_curve r)) curve ∧ length curve = 5%nat.
Proof.
  destruct (calculate_buy_and_hold_equity_curve sample_bars sample_cash 2) as [curve|e] eqn:E;
    [|vm_compute in E; discriminate E].
  destruct (benchmark_is_a_run sample_bars 2 (sample_bar 2 10100 10300 10000 10200) sample_cash curve)
    as (r & Hr & Hc).
  - apply sample_bars_ok.
  - apply sample_bars_increasing.
  - apply sample_cash_fits.
  - vm_compute. reflexivity.
  - lia.
  - reflexivity.
  - exact E.
  - exists r, curve. split; [reflexivity|]. split; [exact Hr|]. split; [exact Hc|].
    vm_compute in E. injection E as <-. reflexivity.
Defined.
