(* ===== verification/Performance.v ===== *)
(** * Metrics of a run

    What [calculate_metrics] reports of a completed run of the engine: it is
    defined, and its percentages lie where they should. *)

From S2P Require Import Prelude Decimal Models Samples Engine EngineInvariant EngineSafety EngineCausality Metrics.
From Stdlib Require Import ZArith QArith Lqa Lia.
From stdpp Require Import base list option strings gmap.
Local Open Scope Z_scope.

(** ** The first equity point is the starting cash *)
Lemma run_first_point bars signals sl tp cash st b rest :
  bars = b :: rest → run_bars bars signals sl tp cash = Ok st →
  head (st_equity_curve st) = Some (mkPoint (bar_timestamp b) (mark_to_close b cash 0)).
Proof.
  intros -> H. unfold run_bars, enumerate in H. simpl in H.
  unfold process_intraday in H. simpl in H.
  apply foldM_process_bar_grows in H as (_ & [l Hl] & _). rewrite Hl. done.
Qed.

Lemma engine_first_point bars signals cash slp tpp r :
  Forall bar_ok bars → increasing bars → fits cash →
  execute_long_only_signals bars signals cash slp tpp = Ok r →
  ∃ p, head (equity_curve r) = Some p ∧ (dval (equity p) == dval cash)%Q ∧ (0 < dval cash)%Q.
Proof.
  intros Hb Hi Hf Hr.
  destruct (engine_Ok_state _ _ _ _ _ _ Hb Hi Hf Hr) as (Hne & Hpos & _ & st & c & tr & Hst & _ & _ & ->).
  destruct bars as [|b rest] eqn:E; [done|].
  eexists. simpl. split; [eapply run_first_point; [reflexivity|exact Hst]|]. split; [|done]. by apply dadd_no_shares.
Qed.

(** ** CAGR *)
Lemma strip_fraction_pos fuel c e c' e' :
  strip_fraction fuel c e = (c', e') → (0 < c → 0 < c') ∧ (c = 0 → c' = 0).
Proof.
  revert c e. induction fuel as [|fuel IH]; intros c e; simpl; [by intros [= <- <-]|].
  destruct (Z.ltb_spec e (-1)); simpl; [|by intros [= <- <-]].
  destruct (Z.eqb_spec (c mod 10) 0) as [H0|H0]; [|by intros [= <- <-]].
  intros H'. apply IH in H' as [Hp Hz]. split.
  - intros Hc. apply Hp. pose proof (Z.div_mod c 10 ltac:(lia)). lia.
  - intros ->. by apply Hz.
Qed.

Lemma total_seconds_pos n : 0 < n → (0 < dval (total_seconds n))%Q.
Proof.
  intros Hn. unfold total_seconds. destruct (strip_fraction _ _ _) as [c e] eqn:E.
  apply strip_fraction_pos in E as [Hc _]. destruct (Z.ltb_spec n 0); [lia|].
  rewrite dval_Dec. simpl. apply Qmult_lt_0_compat; [|apply p10_pos].
  apply inject_Z_pos. rewrite Z2N.id; lia.
Qed.

Lemma total_seconds_zero : (dval (total_seconds 0) == 0)%Q.
Proof. reflexivity. Qed.

Section metrics.
Context (power : decimal → decimal → result decimal).

(** The only way the growth rate can fail is a failure of [power]. *)
Lemma cagr_outcome cash final t0 t1 :
  (0 < dval cash)%Q → t0 <= t1 →
  outcome (calculate_cagr power cash final t0 t1) (λ c, c = None ↔ t0 = t1)
    (λ e, ∃ x y, power x y = Err e).
Proof.
  intros Hc Hle. unfold calculate_cagr.
  assert (¬ dval (dec_of_Z 86400) == 0)%Q as Hd by (rewrite dval_dec_of_Z; discriminate).
  destruct (ddiv_rounds (total_seconds (t1 - t0)) _ Hd) as (days & -> & Hdays). cbn [mbind result_bind].
  rewrite dval_dec_of_Z in Hdays.
  destruct (dle days dzero) eqn:E.
  - split; [|done]. intros _. apply dle_val in E. rewrite dval_dzero in E.
    destruct (Z.eq_dec t0 t1); [done|]. exfalso.
    assert (0 < dval days)%Q; [|lra]. eapply rounds_pos; [exact Hdays|].
    apply Qlt_shift_div_l; [reflexivity|]. rewrite Qmult_0_l. apply total_seconds_pos. lia.
  - apply dle_val_false in E. rewrite dval_dzero in E.
    destruct (ddiv_rounds days (Dec false 36525 (-2))) as (years & -> & Hy); [discriminate|].
    cbn [mbind result_bind].
    assert (0 < dval years)%Q as Hy0.
    { eapply rounds_pos; [exact Hy|]. apply Qlt_shift_div_l; [reflexivity|]. by rewrite Qmult_0_l. }
    destruct (ddiv_rounds final cash) as (ratio & -> & _); [intros E0; rewrite E0 in Hc; lra|].
    cbn [mbind result_bind].
    destruct (ddiv_rounds (dec_of_Z 1) years) as (ex & -> & _); [intros E0; rewrite E0 in Hy0; lra|].
    cbn [mbind result_bind]. destruct (power ratio ex) as [g|e] eqn:Ep; [|by exists ratio, ex].
    split; [done|]. intros ->. exfalso. rewrite Z.sub_diag in Hdays.
    assert (dval days <= 0)%Q; [|lra]. eapply rounds_nonpos; [exact Hdays|].
    rewrite total_seconds_zero. apply Qle_shift_div_r; [reflexivity|]. lra.
Qed.

Lemma benchmark_outcome bars cash k :
  Forall bar_ok bars → (0 < dval cash)%Q → 0 <= k < Z.of_nat (length bars) →
  outcome (calculate_buy_and_hold_equity_curve bars cash k)
    (λ curve, pt_timestamp <$> curve = bar_timestamp <$> drop (Z.to_nat k) bars) oversized.
Proof.
  intros Hb Hc Hk. unfold calculate_buy_and_hold_equity_curve.
  replace ((0 <=? k) && (k <? Z.of_nat (length bars))) with true.
  2:{ symmetry. rewrite andb_true_iff, Z.leb_le, Z.ltb_lt. lia. }
  cbn [raise_if negb mbind result_bind].
  destruct (py_index_ok_lt bars (Z.to_nat k)) as (b & -> & Hbk); [lia|]. cbn [mbind result_bind].
  destruct (dfloordiv_spec cash (open_price b)) as [(q & -> & _)|[-> _]]; [by apply Qlt_le_weak| | |done].
  { by eapply bar_ok_open_pos, bar_lookup_ok. }
  cbn [mbind result_bind outcome]. rewrite <- list_fmap_compose. by apply list_fmap_ext.
Qed.

(** What a report of metrics satisfies. *)
Record metrics_ok (bars : list MarketBar) (k : Z) (m : BacktestMetrics) : Prop := {
  metrics_win_rate : (0 <= dval (win_rate_percentage m) <= 100)%Q;
  metrics_drawdown : (-100 <= dval (maximum_drawdown_percentage m) <= 0)%Q;
  metrics_start : ∃ b, bars !! Z.to_nat k = Some b ∧
    buy_and_hold_start_timestamp m = bar_timestamp b ∧ buy_and_hold_start_price m = open_price b;
  metrics_end : ∃ b, last bars = Some b ∧ buy_and_hold_end_price m = close_price b;
  metrics_cagr : cagr_percentage m = None ↔ length bars = 1%nat }.

Lemma last_first_timestamps bars b0 bl :
  increasing bars → bars !! 0%nat = Some b0 → last bars = Some bl →
  bar_timestamp b0 <= bar_timestamp bl ∧ (bar_timestamp b0 = bar_timestamp bl ↔ length bars = 1%nat).
Proof.
  intros Hi H0 Hl. rewrite last_lookup in Hl.
  assert (0 < length bars)%nat by (by eapply lookup_lt_Some).
  destruct (Nat.eq_dec (length bars) 1%nat) as [E|E].
  - rewrite E in Hl. simpl in Hl. rewrite H0 in Hl. injection Hl as ->. split; [lia|done].
  - assert (bar_timestamp b0 < bar_timestamp bl) by (eapply (Hi 0%nat (Nat.pred (length bars))); eauto; lia).
    split; [lia|]. split; [lia|done].
Qed.

Lemma metrics_outcome bars signals cash slp tpp r k :
  Forall bar_ok bars → increasing bars → fits cash →
  execute_long_only_signals bars signals cash slp tpp = Ok r →
  0 <= k < Z.of_nat (length bars) →
  outcome (calculate_metrics power bars (equity_curve r) (completed_trades r) cash
             (final_portfolio_value r) k)
    (metrics_ok bars k) (λ e, oversized e ∨ ∃ x y, power x y = Err e).
Proof.
  intros Hb Hi Hf Hr Hk.
  destruct (engine_first_point _ _ _ _ _ _ Hb Hi Hf Hr) as (p & Hp & Hpv & Hpos).
  destruct (engine_Ok_inv _ _ _ _ _ _ Hb Hi Hf Hr) as [_ _ Hnn _ _].
  unfold calculate_metrics.
  rewrite (bool_decide_eq_false_2 (bars = [])) by (intros ->; simpl in Hk; lia).
  rewrite (bool_decide_eq_false_2 (equity_curve r = [])) by (intros E; by rewrite E in Hp).
  replace ((0 <=? k) && (k <? Z.of_nat (length bars))) with true.
  2:{ symmetry. rewrite andb_true_iff, Z.leb_le, Z.ltb_lt. lia. }
  cbn [raise_if negb orb mbind result_bind].
  destruct (py_index_ok_lt bars (Z.to_nat k)) as (b & -> & Hbk); [lia|]. cbn [mbind result_bind].
  pose proof (benchmark_outcome bars cash k Hb Hpos Hk) as Hbench.
  destruct (calculate_buy_and_hold_equity_curve _ _ _) as [curve|e]; [|by left]. cbn [mbind result_bind].
  assert (length curve = (length bars - Z.to_nat k)%nat) as Hlen.
  { apply (f_equal length) in Hbench. by rewrite !length_fmap, length_drop in Hbench. }
  destruct (last curve) as [lp|] eqn:Elp.
  2:{ apply last_None in Elp. subst curve. simpl in Hlen. lia. }
  assert (py_last curve = Ok lp) as -> by (unfold py_last; by rewrite Elp). cbn [mbind result_bind].
  destruct (win_rate_bounds (completed_trades r)) as (w & -> & Hw). cbn [mbind result_bind].
  destruct (percent_change_total (final_portfolio_value r) cash Hpos) as (tr & ->). cbn [mbind result_bind].
  destruct (percent_change_total (equity lp) cash Hpos) as (br & ->). cbn [mbind result_bind].
  destruct (last bars) as [bl|] eqn:Ebl.
  2:{ apply last_None in Ebl. subst bars. simpl in Hk. lia. }
  assert (py_last bars = Ok bl) as -> by (unfold py_last; by rewrite Ebl). cbn [mbind result_bind].
  destruct (maximum_drawdown_spec (equity_curve r) p Hp) as (d & -> & Hd & _); [by rewrite Hpv|done|].
  cbn [mbind result_bind].
  destruct (py_index_ok_lt bars 0) as (b0 & -> & Hb0); [lia|]. cbn [mbind result_bind].
  destruct (last_first_timestamps _ _ _ Hi Hb0 Ebl) as [Hle Heq].
  pose proof (cagr_outcome cash (final_portfolio_value r) (bar_timestamp b0) (bar_timestamp bl) Hpos Hle) as Hc.
  destruct (calculate_cagr _ _ _ _ _) as [c|e]; [|by right]. simpl.
  split; simpl; try done; [eauto|eauto|]. simpl in Hc. tauto.
Qed.
End metrics.

(** ** The theorems *)

(** On a completed run, [calculate_metrics] is defined for every start
    index inside the data, whatever [power] is, unless [power] itself or the
    benchmark's share count raises: the win rate is in [0, 100], the maximum
    drawdown in [-100, 0], the benchmark prices are those of the start and last
    bars, and the growth rate is absent exactly for a single bar. *)
Theorem calculate_metrics_of_run power bars signals starting_cash slp tpp r k
    (Hbars : Forall bar_ok bars) (Hinc : increasing bars) (Hcash : fits starting_cash)
    (Hrun : execute_long_only_signals bars signals starting_cash slp tpp = Ok r)
    (Hk : 0 <= k < Z.of_nat (length bars)) :
  outcome (calculate_metrics power bars (equity_curve r) (completed_trades r) starting_cash
             (final_portfolio_value r) k)
    (metrics_ok bars k) (λ e, oversized e ∨ ∃ x y, power x y = Err e).
Proof. by eapply metrics_outcome. Qed.

Lemma calculate_metrics_of_run_witness :
  ∃ m, calculate_metrics (λ x _, Ok x) sample_bars (equity_curve sample_run)
         (completed_trades sample_run) sample_cash (final_portfolio_value sample_run) 2 = Ok m ∧
    metrics_ok sample_bars 2 m.
Proof.
  assert (0 <= 2 < Z.of_nat (length sample_bars)) as Hk by (split; vm_compute; [discriminate|reflexivity]).
  pose proof (calculate_metrics_of_run (λ x _, Ok x) sample_bars sample_signals sample_cash
    (Some (Finite (dec_of_Z 5))) (Some (Finite (dec_of_Z 20))) sample_run 2
    sample_bars_ok sample_bars_increasing sample_cash_fits sample_run_eq Hk) as H.
  destruct (calculate_metrics _ _ _ _ _ _ _) as [m|e] eqn:E.
  - exists m. split; [reflexivity|exact H].
  - vm_compute in E. discriminate E.
Defined.
