(* ===== verification/Preview.v ===== *)
(** * Backtest previews ([backend/app/services/strategy_preview.py] and
    [serialize_preview] of [backend/app/services/preview_job_service.py])

    The whole deterministic pipeline from a specification and the stored
    market data to the JSON result of a preview job.  [power] is decimal's
    power function (see Metrics). *)

From S2P Require Import Prelude Decimal Models Samples Text MarketData StrategySpec StrategySemantics StrategyCompiler Serialization Engine EngineInvariant EngineSafety EngineCausality Metrics Performance.
From Stdlib Require Import ZArith QArith Lqa Lia.
From stdpp Require Import base list option strings gmap.
Local Open Scope Z_scope.

Definition STARTING_CASH : decimal := dec_of_Z 10000.

Record StrategyPreview : Type := mkPreview {
  parsed_strategy : ParsedStrategyResult;
  interpretation : string;
  preview_execution : ExecutionResult;
  metrics : BacktestMetrics;
  bar_count : Z;
  start_timestamp : datetime;
  end_timestamp : datetime;
  preview_bars : list MarketBar;
  comparison_start_index : Z;
  buy_and_hold_equity_curve : list EquityPoint }.

Definition not_enough_data : exn :=
  MarketDataUnavailableError "Not enough SPY daily market data is available for this strategy.".

(** [buy_and_hold_equity_curve[0] = EquityPoint(...)] *)
Definition set_first {A} (l : list A) (a : A) : result (list A) :=
  match l with [] => Err IndexError | _ :: rest => Ok (a :: rest) end.

Section preview.
Context (power : decimal → decimal → result decimal).

Definition create_specification_preview (table : list MarketDataRow) (spec : StrategySpecification)
    (parsed : ParsedStrategyResult) : result StrategyPreview :=
  compiled ← compile_strategy spec;
  let bars := load_market_bars table (symbol spec) (interval spec) in
  let eligible_index := first_signal_eligible_index compiled in
  _ ← raise_if (bool_decide (bars = []) || (Z.of_nat (length bars) <=? eligible_index)) not_enough_data;
  signals ← generate_signals compiled bars;
  execution ← execute_long_only_signals bars signals STARTING_CASH
                (stop_loss_percent spec) (take_profit_percent spec);
  metrics ← calculate_metrics power bars (equity_curve execution) (completed_trades execution)
              STARTING_CASH (final_portfolio_value execution) eligible_index;
  benchmark ← calculate_buy_and_hold_equity_curve bars STARTING_CASH eligible_index;
  eligible_bar ← py_index bars (Z.to_nat eligible_index);
  benchmark ← set_first benchmark (mkPoint (bar_timestamp eligible_bar) STARTING_CASH);
  first_bar ← py_index bars 0;
  last_bar ← py_last bars;
  Ok (mkPreview parsed (interpret_strategy parsed) execution metrics (Z.of_nat (length bars))
        (bar_timestamp first_bar) (bar_timestamp last_bar) bars eligible_index benchmark).

Definition create_preview (table : list MarketDataRow) (parsed : ParsedStrategyResult)
    : result StrategyPreview :=
  create_specification_preview table (specification parsed) parsed.
End preview.

(** ** Serialization *)
Definition optional_decimal (value : option decimal) : json :=
  match value with None => JNull | Some d => JStr (decimal_str d) end.

(** [zip(l1, l2, strict=True)] *)
Fixpoint zip_strict {A B} (l1 : list A) (l2 : list B) : result (list (A * B)) :=
  match l1, l2 with
  | [], [] => Ok []
  | a :: l1, b :: l2 => rest ← zip_strict l1 l2; Ok ((a, b) :: rest)
  | [], _ => Err (ValueError "zip() argument 2 is longer than argument 1")
  | _, [] => Err (ValueError "zip() argument 2 is shorter than argument 1")
  end.

Definition ExitReason_value (r : ExitReason) : string :=
  match r with
  | STRATEGY_EXIT => "strategy_exit" | STOP_LOSS => "stop_loss"
  | TAKE_PROFIT => "take_profit" | FINAL_LIQUIDATION => "final_liquidation"
  end.

Definition dump_comparison (pb : EquityPoint * EquityPoint) : json :=
  JObj [("timestamp"%string, JStr (isoformat (pt_timestamp pb.1)));
        ("strategy_value"%string, JStr (decimal_str (equity pb.1)));
        ("buy_and_hold_value"%string, JStr (decimal_str (equity pb.2)))].

Definition dump_price (b : MarketBar) : json :=
  JObj [("timestamp"%string, JStr (isoformat (bar_timestamp b)));
        ("close_price"%string, JStr (decimal_str (close_price b)))].

Definition dump_trade (t : CompletedTrade) : json :=
  JObj [("signal_timestamp"%string, JStr (isoformat (signal_timestamp t)));
        ("entry_timestamp"%string, JStr (isoformat (entry_timestamp t)));
        ("entry_price"%string, JStr (decimal_str (entry_price t)));
        ("quantity"%string, JInt (quantity t));
        ("exit_signal_timestamp"%string,
           dump_option (λ ts, JStr (isoformat ts)) (exit_signal_timestamp t));
        ("exit_timestamp"%string, JStr (isoformat (exit_timestamp t)));
        ("exit_price"%string, JStr (decimal_str (exit_price t)));
        ("profit_loss"%string, JStr (decimal_str (profit_loss t)));
        ("return_percentage"%string, JStr (decimal_str (return_percentage t)));
        ("exit_reason"%string, JStr (ExitReason_value (exit_reason t)))].

Definition dump_parsed_strategy (parsed : ParsedStrategyResult) (text : string) : json :=
  JObj [("specification"%string, dump_specification (specification parsed));
        ("defaults_applied"%string, JList (dump_default <$> defaults_applied parsed));
        ("assumptions"%string, JList (dump_assumption <$> assumptions parsed));
        ("requires_confirmation"%string, JBool (requires_confirmation parsed));
        ("original_text"%string, JStr (original_text parsed));
        ("interpretation"%string, JStr text)].

Definition serialize_preview (parsed : ParsedStrategyResult) (preview : StrategyPreview) : result json :=
  let m := metrics preview in
  let ex := preview_execution preview in
  points ← zip_strict (drop (Z.to_nat (comparison_start_index preview)) (equity_curve ex))
             (buy_and_hold_equity_curve preview);
  Ok (JObj
    [("parsed_strategy"%string, dump_parsed_strategy parsed (interpretation preview));
     ("backtest"%string, JObj
       [("symbol"%string, JStr (symbol (specification parsed)));
        ("interval"%string, JStr (interval (specification parsed)));
        ("start_date"%string, JStr (isoformat (start_timestamp preview)));
        ("end_date"%string, JStr (isoformat (end_timestamp preview)));
        ("bar_count"%string, JInt (bar_count preview));
        ("starting_cash"%string, JStr (decimal_str STARTING_CASH));
        ("ending_value"%string, JStr (decimal_str (final_portfolio_value ex)));
        ("total_return_percent"%string, JStr (decimal_str (total_return_percentage m)));
        ("cagr_percent"%string, optional_decimal (cagr_percentage m));
        ("max_drawdown_percent"%string, JStr (decimal_str (maximum_drawdown_percentage m)));
        ("trade_count"%string, JInt (Z.of_nat (length (completed_trades ex))));
        ("win_rate_percent"%string, JStr (decimal_str (win_rate_percentage m)));
        ("buy_and_hold_return_percent"%string, JStr (decimal_str (buy_and_hold_return_percentage m)));
        ("equity_curve"%string, JList (dump_comparison <$> points));
        ("price_series"%string, JList (dump_price <$> preview_bars preview));
        ("trades"%string, JList (dump_trade <$> completed_trades ex))])]).

(** ** Lemmas *)
Lemma zip_strict_Ok {A B} (l1 : list A) (l2 : list B) :
  length l1 = length l2 → zip_strict l1 l2 = Ok (zip l1 l2).
Proof.
  revert l2. induction l1 as [|a l1 IH]; intros [|b l2] H; try done.
  simpl in *. rewrite IH by lia. done.
Qed.

Lemma starting_cash_fits : fits STARTING_CASH.
Proof. vm_compute. reflexivity. Qed.

Lemma starting_cash_pos : (0 < dval STARTING_CASH)%Q.
Proof. reflexivity. Qed.

Lemma eligible_index_nonneg cs : 0 <= first_signal_eligible_index cs.
Proof. unfold first_signal_eligible_index. lia. Qed.

(** The controls of a supported specification pass the engine's checks. *)
Lemma supported_control v name : risk_supported v → validate_risk_control v name = Ok ().
Proof.
  destruct v as [[d| |]|]; simpl; try done. intros [Hd _].
  replace (dle d dzero) with false; [done|]. symmetry. apply dle_val_false. by rewrite dval_dzero.
Qed.

Lemma supported_argument_error bars s :
  bars ≠ [] → spec_supported s →
  engine_argument_error bars STARTING_CASH (stop_loss_percent s) (take_profit_percent s) = None.
Proof.
  intros Hne (_ & _ & _ & _ & _ & Hsl & Htp). unfold engine_argument_error.
  replace (dle STARTING_CASH dzero) with false by (vm_compute; reflexivity).
  rewrite bool_decide_eq_false_2 by done.
  by rewrite !supported_control.
Qed.

(** What a preview promises. *)
Record preview_ok (table : list MarketDataRow) (s : StrategySpecification)
    (parsed : ParsedStrategyResult) (p : StrategyPreview) : Prop := {
  preview_parsed : parsed_strategy p = parsed;
  preview_loaded : preview_bars p = load_market_bars table (symbol s) (interval s);
  preview_period : Some (start_timestamp p) = bar_timestamp <$> head (preview_bars p) ∧
    Some (end_timestamp p) = bar_timestamp <$> last (preview_bars p);
  preview_count : bar_count p = Z.of_nat (length (preview_bars p)) ∧ 0 < bar_count p;
  preview_run : run_compiled (mkCompiled s) (preview_bars p) STARTING_CASH = Ok (preview_execution p);
  preview_index : comparison_start_index p = first_signal_eligible_index (mkCompiled s) ∧
    0 <= comparison_start_index p < bar_count p;
  preview_metrics : metrics_ok (preview_bars p) (comparison_start_index p) (metrics p);
  preview_benchmark :
    pt_timestamp <$> buy_and_hold_equity_curve p
      = pt_timestamp <$> drop (Z.to_nat (comparison_start_index p)) (equity_curve (preview_execution p)) ∧
    ∃ q, head (buy_and_hold_equity_curve p) = Some q ∧ equity q = STARTING_CASH }.

(** The only ways the arithmetic of a preview can fail. *)
Definition arithmetic_failure (power : decimal → decimal → result decimal) (e : exn) : Prop :=
  oversized e ∨ ∃ x y, power x y = Err e.

Lemma preview_outcome power table s parsed :
  table_ok table → spec_supported s →
  0 <= first_signal_eligible_index (mkCompiled s)
    < Z.of_nat (length (load_market_bars table (symbol s) (interval s))) →
  outcome (create_specification_preview power table s parsed) (preview_ok table s parsed)
    (arithmetic_failure power).
Proof.
  intros Ht Hs Hk. destruct (load_market_bars_ok table (symbol s) (interval s) Ht) as [Hb Hi].
  unfold create_specification_preview.
  assert (compile_strategy s = Ok (mkCompiled s)) as -> by (by apply compile_strategy_Ok).
  cbn [mbind result_bind]. set (bars := load_market_bars table (symbol s) (interval s)) in *.
  set (k := first_signal_eligible_index (mkCompiled s)) in *.
  assert (bars ≠ []) as Hne by (intros E; rewrite E in Hk; simpl in Hk; lia).
  rewrite bool_decide_eq_false_2 by done.
  destruct (Z.leb_spec (Z.of_nat (length bars)) k); [lia|]. cbn [orb raise_if mbind result_bind].
  destruct (generate_signals_columns (mkCompiled s) Hs bars) as (ev & xv & _ & _ & _ & _ & Eg).
  set (signals := collect_signals bars ev xv) in *. rewrite Eg. cbn [mbind result_bind].
  destruct (engine_runs bars signals Hb Hi Hne _ _ _ starting_cash_fits (supported_argument_error _ _ Hne Hs))
    as (_ & _ & Hrun).
  destruct (execute_long_only_signals _ _ _ _ _) as [r|e] eqn:Er; [|by left]. cbn [mbind result_bind].
  pose proof (metrics_outcome power bars signals STARTING_CASH _ _ r k Hb Hi starting_cash_fits Er Hk) as Hm.
  destruct (calculate_metrics _ _ _ _ _ _ _) as [m|e]; [|done]. cbn [mbind result_bind].
  pose proof (benchmark_outcome bars STARTING_CASH k Hb starting_cash_pos Hk) as Hbench.
  destruct (calculate_buy_and_hold_equity_curve _ _ _) as [curve|e]; [|by left]. cbn [mbind result_bind].
  destruct (py_index_ok_lt bars (Z.to_nat k)) as (be & -> & Hbe); [lia|]. cbn [mbind result_bind].
  simpl in Hbench. rewrite (drop_S _ _ _ Hbe) in Hbench. destruct curve as [|c0 curve]; [done|].
  cbn [set_first mbind result_bind]. injection Hbench as Hc0 Hcurve.
  destruct (py_index_ok_lt bars 0) as (b0 & -> & Hb0); [lia|]. cbn [mbind result_bind].
  destruct (last bars) as [bl|] eqn:Ebl; [|by apply last_None in Ebl].
  assert (py_last bars = Ok bl) as -> by (unfold py_last; by rewrite Ebl). cbn [mbind result_bind outcome].
  split; simpl; try done.
  - rewrite head_lookup, Hb0, Ebl. done.
  - split; [done|lia].
  - unfold run_compiled. rewrite Eg. exact Er.
  - split; [|by eexists]. destruct Hrun as [_ Hts _ _ _].
    rewrite fmap_drop, Hts, <- fmap_drop, (drop_S _ _ _ Hbe). simpl. by rewrite Hcurve.
Qed.

(** The three ways [create_preview] can end. *)
Lemma create_preview_cases power table parsed :
  table_ok table →
  let s := specification parsed in
  let bars := load_market_bars table (symbol s) (interval s) in
  match create_preview power table parsed with
  | Ok p => spec_supported s ∧ preview_ok table s parsed p
  | Err e =>
      (¬ spec_supported s ∧ is_validation_error e) ∨
      (spec_supported s ∧ e = not_enough_data ∧
         Z.of_nat (length bars) <= first_signal_eligible_index (mkCompiled s)) ∨
      (spec_supported s ∧ arithmetic_failure power e)
  end.
Proof.
  intros Htable s bars. unfold create_preview. change (specification parsed) with s.
  destruct (compile_strategy s) as [cs|e] eqn:Ec.
  - apply compile_strategy_Ok in Ec as [Hs ->].
    destruct (Z.le_gt_cases (Z.of_nat (length bars)) (first_signal_eligible_index (mkCompiled s))) as [Hk|Hk].
    + unfold create_specification_preview.
      assert (compile_strategy s = Ok (mkCompiled s)) as -> by (by apply compile_strategy_Ok).
      cbn [mbind result_bind]. apply Z.leb_le in Hk as Hk'. fold bars. rewrite Hk', orb_true_r.
      right; left. done.
    + pose proof (preview_outcome power table s parsed Htable Hs
        (conj (eligible_index_nonneg _) Hk)) as Ho.
      destruct (create_specification_preview _ _ _ _); [done|]. right; right. done.
  - unfold create_specification_preview. rewrite Ec. cbn [mbind result_bind]. left.
    unfold compile_strategy in Ec. rewrite <- validate_strategy_semantics_iff.
    destruct (validate_strategy_semantics s) as [[]|e'] eqn:V; simpl in Ec; [done|].
    injection Ec as <-. split; [done|]. by apply (validate_strategy_semantics_error s).
Qed.

(** ** The theorems *)

(** C14: Previews of stored data.  Over a table that satisfies its constraints,
    an unsupported specification is refused with a [StrategyValidationError]; a
    supported one with too few bars for its warm-up is refused with
    [MarketDataUnavailableError]; every other preview is the run of the
    compiled strategy on exactly the stored bars, over their period, with
    consistent metrics and a benchmark aligned with the strategy's curve from the first eligible bar,
    both starting there from the starting cash, unless the arithmetic itself
    (an oversized share count, or [power]) raises. *)
Theorem create_preview_correct power table parsed (Htable : table_ok table) :
  let s := specification parsed in
  let bars := load_market_bars table (symbol s) (interval s) in
  match create_preview power table parsed with
  | Ok p => spec_supported s ∧ preview_ok table s parsed p
  | Err e =>
      (¬ spec_supported s ∧ is_validation_error e) ∨
      (spec_supported s ∧ e = not_enough_data ∧
         Z.of_nat (length bars) <= first_signal_eligible_index (mkCompiled s)) ∨
      (spec_supported s ∧ arithmetic_failure power e)
  end.
Proof.
  by apply create_preview_cases.
Qed.

Definition sample_parsed : ParsedStrategyResult :=
  mkParsed sample_specification [] [] false "close above its 2-day SMA".

Lemma create_preview_correct_witness :
  ∃ p, create_preview (λ x _, Ok x) sample_table sample_parsed = Ok p ∧
    preview_ok sample_table sample_specification sample_parsed p.
Proof.
  pose proof (create_preview_correct (λ x _, Ok x) sample_table sample_parsed sample_table_ok) as H.
  destruct (create_preview (λ x _, Ok x) sample_table sample_parsed) as [p|e] eqn:E.
  - exists p. split; [reflexivity|]. apply H.
  - vm_compute in E. discriminate E.
Defined.

(** A created preview always serializes: the two curves that the result
    zips strictly have the same length, so [serialize_preview] never raises. *)
Theorem serialize_preview_total power table parsed p
    (Htable : table_ok table) (Hp : create_preview power table parsed = Ok p) :
  ∃ fields, serialize_preview parsed p = Ok (JObj fields) ∧
    fields.*1 = ["parsed_strategy"%string; "backtest"%string].
Proof.
  pose proof (create_preview_cases power table parsed Htable) as Hc. cbv zeta in Hc. rewrite Hp in Hc.
  destruct Hc as [_ [_ _ _ _ _ _ _ [Hts _]]]. apply (f_equal length) in Hts. rewrite !length_fmap in Hts.
  unfold serialize_preview. rewrite zip_strict_Ok by done. cbn [mbind result_bind].
  eexists. split; [reflexivity|]. done.
Qed.

Lemma serialize_preview_total_witness :
  ∃ p fields, create_preview (λ x _, Ok x) sample_table sample_parsed = Ok p ∧
    serialize_preview sample_parsed p = Ok (JObj fields).
Proof.
  destruct (create_preview (λ x _, Ok x) sample_table sample_parsed) as [p|e] eqn:E;
    [|vm_compute in E; discriminate E].
  destruct (serialize_preview_total (λ x _, Ok x) sample_table sample_parsed p sample_table_ok E) as (f & Hf & _).
  exists p, f. split; [reflexivity|exact Hf].
Defined.
