(* ===== verification/SmaBacktest.v ===== *)
(** * The command-line backtest ([backend/app/scripts/run_sma_backtest.py])

    [run_sma_backtest] over the stored market data, and the report it prints.
    The starting cash is a finite decimal. *)

From S2P Require Import Prelude Decimal Text Models MarketData Samples Sma StrategySpec StrategySemantics StrategyCompiler Serialization Engine EngineInvariant EngineSafety Metrics Performance Preview.
From Stdlib Require Import ZArith QArith Qabs Lqa Lia Ascii.
From stdpp Require Import base list option strings.
Local Open Scope Z_scope.

(** ** The run *)

(** [BacktestResult] of [backend/app/backtesting/models.py] *)
Record BacktestResult : Type := mkBacktestResult {
  br_symbol : string;
  br_interval : string;
  br_data_start_timestamp : datetime;
  br_data_end_timestamp : datetime;
  br_bar_count : Z;
  br_first_sma_timestamp : datetime;
  br_starting_cash : decimal;
  br_execution : ExecutionResult;
  br_metrics : BacktestMetrics }.

(** The dictionary given to [StrategySpecification.model_validate]. *)
Definition sma_specification (sym int : string) (short_window long_window : Z) : StrategySpecification :=
  mkSpecification "1.0" sym int
    (mkCondition (IndicatorOperand SMA "close" short_window) CROSSES_ABOVE (IndicatorOperand SMA "close" long_window))
    (mkCondition (IndicatorOperand SMA "close" short_window) CROSSES_BELOW (IndicatorOperand SMA "close" long_window))
    (mkExecutionSettings "long" 100 "next_bar_open") None None.

Definition not_enough_bars : exn :=
  ValueError "not enough bars to calculate both SMAs and execute a next-day signal".

Definition run_sma_backtest (power : decimal → decimal → result decimal) (table : list MarketDataRow)
    (sym int : string) (short_window long_window : Z) (starting_cash : decimal) : result BacktestResult :=
  _ ← raise_if (long_window <=? short_window) (ValueError "short_window must be less than long_window");
  let bars := load_market_bars table sym int in
  _ ← raise_if (Z.of_nat (length bars) <=? long_window) not_enough_bars;
  spec ← validated (sma_specification sym int short_window long_window);
  compiled ← compile_strategy spec;
  signals ← generate_signals compiled bars;
  execution ← execute_long_only_signals bars signals starting_cash None None;
  first_sma_bar ← py_index bars (Z.to_nat (long_window - 1));
  metrics ← calculate_metrics power bars (equity_curve execution) (completed_trades execution) starting_cash
              (final_portfolio_value execution) (first_signal_eligible_index compiled);
  first_bar ← py_index bars 0;
  last_bar ← py_last bars;
  Ok (mkBacktestResult sym int (bar_timestamp first_bar) (bar_timestamp last_bar) (Z.of_nat (length bars))
        (bar_timestamp first_sma_bar) starting_cash execution metrics).

(** ** The report *)

(** The magnitude of a decimal in hundredths, rounded half to even. *)
Definition cents (d : decimal) : Z :=
  let c := Z.of_N (d_coef d) in
  if -2 <=? d_exp d then c * 10 ^ (d_exp d + 2) else half_even c (10 ^ (- 2 - d_exp d)).

(** Commas between groups of three, of digits in reverse order. *)
Fixpoint group_reversed (l : list ascii) : list ascii :=
  match l with
  | a :: b :: c :: ((_ :: _) as rest) => a :: b :: c :: ","%char :: group_reversed rest
  | _ => l
  end.

Definition grouped (ds : list ascii) : list ascii := reverse (group_reversed (reverse ds)).

(** [f"{value:.2f}"], with thousands separators when [grouping]. *)
Definition format_fixed (grouping : bool) (d : decimal) : string :=
  let units := digits (Z.to_N (cents d / 100)) in
  of_chars ((if d_neg d then ["-"%char] else []) ++ (if grouping then grouped units else units) ++
            "."%char :: to_chars (padded 2 (cents d mod 100))).

Definition format_money (value : decimal) : string := "$" +:+ format_fixed true value.

Definition format_percentage (value : option decimal) : string :=
  match value with None => "n/a" | Some value => format_fixed false value +:+ "%" end.

Definition format_trade (index : Z) (trade : CompletedTrade) : string :=
  let exit_signal := match exit_signal_timestamp trade with Some t => isoformat t | None => "none"%string end in
  str_join newline
    ["Trade " +:+ str_int index;
     "  Signal timestamp: " +:+ isoformat (signal_timestamp trade);
     "  Entry timestamp: " +:+ isoformat (entry_timestamp trade);
     "  Entry price: " +:+ format_money (entry_price trade);
     "  Quantity: " +:+ str_int (quantity trade);
     "  Exit signal timestamp: " +:+ exit_signal;
     "  Exit timestamp: " +:+ isoformat (exit_timestamp trade);
     "  Exit price: " +:+ format_money (exit_price trade);
     "  Profit/loss: " +:+ format_money (profit_loss trade);
     "  Return: " +:+ format_percentage (Some (return_percentage trade));
     "  Exit reason: " +:+ ExitReason_value (exit_reason trade)].

Definition format_result (r : BacktestResult) : string :=
  let m := br_metrics r in
  let ex := br_execution r in
  str_join newline
    (["Symbol: " +:+ br_symbol r;
      "Interval: " +:+ br_interval r;
      "Data start: " +:+ isoformat (br_data_start_timestamp r);
      "Data end: " +:+ isoformat (br_data_end_timestamp r);
      "Bars loaded: " +:+ str_int (br_bar_count r);
      "First timestamp where both SMAs are available: " +:+ isoformat (br_first_sma_timestamp r);
      "Starting cash: " +:+ format_money (br_starting_cash r);
      "Final portfolio value: " +:+ format_money (final_portfolio_value ex);
      "Total return: " +:+ format_percentage (Some (total_return_percentage m));
      "Buy-and-hold window: buy at " +:+ isoformat (buy_and_hold_start_timestamp m) +:+ " open (" +:+
        format_money (buy_and_hold_start_price m) +:+ "), value at final close (" +:+
        format_money (buy_and_hold_end_price m) +:+ ")";
      "Buy-and-hold return: " +:+ format_percentage (Some (buy_and_hold_return_percentage m));
      "Completed trades: " +:+ str_int (Z.of_nat (length (completed_trades ex)));
      "Win rate: " +:+ format_percentage (Some (win_rate_percentage m));
      "Total realized profit/loss: " +:+ format_money (total_realized_profit_loss ex);
      "Maximum drawdown: " +:+ format_percentage (Some (maximum_drawdown_percentage m));
      "CAGR: " +:+ format_percentage (cagr_percentage m);
      "Trades:"%string] ++
     ((λ '(index, trade), format_trade (Z.of_nat index) trade) <$> enumerate_from 1 (completed_trades ex)) ++
     (match completed_trades ex with [] => ["  No completed trades."%string] | _ => [] end)).

(** [main], with the parsed arguments: the text printed and the exit status. *)
Definition main (power : decimal → decimal → result decimal) (table : list MarketDataRow)
    (sym int : string) (short_window long_window : Z) (starting_cash : decimal) : result (string * Z) :=
  r ← run_sma_backtest power table sym int short_window long_window starting_cash;
  Ok (format_result r, 0).

(** Examples of the formats. *)
Example money_examples :
  format_money (Dec false 1234567895 (-3)) = "$1,234,567.90"%string ∧
  format_money (Dec true 5 (-3)) = "$-0.00"%string ∧ format_money (Dec false 15 (-3)) = "$0.02"%string ∧
  format_money (Dec false 1 5) = "$100,000.00"%string ∧ format_percentage (Some (Dec true 12345 (-3))) = "-12.34%"%string.
Proof. by vm_compute. Qed.

(** ** Lemmas: the report *)
Lemma cents_nonneg d : 0 <= cents d.
Proof.
  unfold cents. destruct (Z.leb_spec (-2) (d_exp d)) as [H|H].
  - assert (0 < 10 ^ (d_exp d + 2)) by (apply Z.pow_pos_nonneg; lia). nia.
  - pose proof (half_even_bounds (Z.of_N (d_coef d)) (10 ^ (- 2 - d_exp d)) ltac:(apply Z.pow_pos_nonneg; lia)) as Hb.
    assert (0 < 10 ^ (- 2 - d_exp d)) by (apply Z.pow_pos_nonneg; lia). nia.
Qed.

(** The value shown. *)
Definition shown (d : decimal) : decimal := Dec (d_neg d) (Z.to_N (cents d)) (-2).

(** Digits in groups, reversed: three at a time, the leading group of one to three. *)
Inductive thousands_reversed : list ascii → Prop :=
  | leading_group g : (1 <= length g <= 3)%nat → Forall (λ c, is_digit c = true) g → thousands_reversed g
  | next_group a b c l : is_digit a = true → is_digit b = true → is_digit c = true → thousands_reversed l →
      thousands_reversed (a :: b :: c :: ","%char :: l).

Definition thousands (l : list ascii) : Prop := thousands_reversed (reverse l).

Lemma digit_not_comma c : is_digit c = true → c ≠ ","%char.
Proof. intros H ->. discriminate H. Qed.

Lemma group_reversed_spec n l :
  (length l <= n)%nat → Forall (λ c, is_digit c = true) l →
  filter (λ c, c ≠ ","%char) (group_reversed l) = l ∧ (l ≠ [] → thousands_reversed (group_reversed l)).
Proof.
  revert l. induction n as [|n IH]; intros l Hn Hl; [by destruct l; [|simpl in Hn; lia]|].
  assert (∀ l, Forall (λ c, is_digit c = true) l → filter (λ c, c ≠ ","%char) l = l) as Hall.
  { clear. induction 1 as [|c l Hc Hl IH]; [done|]. rewrite filter_cons_True by (by apply digit_not_comma). by rewrite IH. }
  destruct l as [|a [|b [|c [|d l]]]].
  - done.
  - split; [by apply Hall|]. intros _. apply leading_group; [simpl; lia|done].
  - split; [by apply Hall|]. intros _. apply leading_group; [simpl; lia|done].
  - split; [by apply Hall|]. intros _. apply leading_group; [simpl; lia|done].
  - apply Forall_cons_iff in Hl as [Ha Hl]. apply Forall_cons_iff in Hl as [Hb Hl]. apply Forall_cons_iff in Hl as [Hc Hl].
    destruct (IH (d :: l)) as [H1 H2]; [simpl in *; lia|done|].
    change (group_reversed (a :: b :: c :: d :: l)) with (a :: b :: c :: ","%char :: group_reversed (d :: l)).
    split; [|intros _; constructor; auto; by apply H2].
    rewrite !filter_cons_True by (by apply digit_not_comma). rewrite filter_cons_False by (intros H; by apply H). by rewrite H1.
Qed.

Lemma filter_reverse {A} (Q : A → Prop) `{!∀ x, Decision (Q x)} l : filter Q (reverse l) = reverse (filter Q l).
Proof.
  induction l as [|x l IH]; [done|]. rewrite reverse_cons, filter_app, IH. destruct (decide (Q x)).
  - rewrite !filter_cons_True, reverse_cons by done. done.
  - rewrite !filter_cons_False by done. by rewrite app_nil_r.
Qed.

Lemma grouped_spec ds :
  ds ≠ [] → Forall (λ c, is_digit c = true) ds →
  filter (λ c, c ≠ ","%char) (grouped ds) = ds ∧ thousands (grouped ds).
Proof.
  intros Hne Hds. destruct (group_reversed_spec (length (reverse ds)) (reverse ds)) as [H1 H2];
    [done|by apply Forall_reverse|]. unfold grouped, thousands. rewrite filter_reverse, H1, !reverse_involutive.
  split; [done|]. apply H2. intros H. apply Hne. by rewrite <- (reverse_involutive ds), H.
Qed.

(** What is shown differs from the value by at most half a cent. *)
Lemma shown_error d : (Qabs (dval (shown d) - dval d) <= 1 # 200)%Q.
Proof.
  unfold shown. destruct d as [s c e]. pose proof (cents_nonneg (Dec s c e)) as Hc. unfold cents in *. cbn [d_neg d_coef d_exp] in *.
  rewrite !dval_Dec. destruct (Z.leb_spec (-2) e) as [He|He].
  - rewrite Z2N.id by lia. assert (inject_Z (Z.of_N c * 10 ^ (e + 2)) * (10#1) ^ (-2) == inject_Z (Z.of_N c) * (10#1) ^ e)%Q as ->.
    { rewrite inject_Z_mult, <- p10_Z by lia. replace e with ((e + 2) + -2) at 2 by lia. rewrite (p10_plus (e + 2) (-2)). ring. }
    assert (∀ q : Q, Qabs (q - q) == 0)%Q as -> by (intros q; unfold Qminus; by rewrite Qplus_opp_r). discriminate.
  - set (m := 10 ^ (- 2 - e)) in *. assert (0 < m) as Hm by (apply Z.pow_pos_nonneg; lia).
    pose proof (half_even_bounds (Z.of_N c) m Hm) as Hb. set (h := half_even (Z.of_N c) m) in *. rewrite Z2N.id by lia.
    assert ((10#1) ^ e == (10#1) ^ (-2) * / inject_Z m)%Q as He10.
    { unfold m. rewrite <- p10_Z by lia. replace (-2) with ((-2 - e) + e) at 1 by lia. rewrite (p10_plus (-2 - e) e). field.
      intros H. pose proof (p10_pos (-2 - e)) as Hp. rewrite H in Hp. discriminate Hp. }
    rewrite He10. change ((10#1) ^ (-2))%Q with (1 # 100)%Q.
    assert (∀ x y : Q, Qabs (signed s x - signed s y) == Qabs (x - y))%Q as ->.
    { intros x y. destruct s; cbn [signed]; [|reflexivity]. transitivity (Qabs (- (x - y)))%Q; [apply Qabs_wd; ring|apply Qabs_opp]. }
    assert (0 < inject_Z m)%Q as HM by (change 0%Q with (inject_Z 0); by rewrite <- Zlt_Qlt).
    set (x := (inject_Z (Z.of_N c) * / inject_Z m)%Q).
    assert (inject_Z (Z.of_N c) == x * inject_Z m)%Q as Hx by (unfold x; field; intros H; rewrite H in HM; discriminate HM).
    assert (inject_Z (2 * h - 1) <= 2 * x /\ 2 * x <= inject_Z (2 * h + 1))%Q as [H1 H2].
    { destruct Hb as [Hb1 Hb2]. rewrite Zle_Qle, !inject_Z_mult in Hb1, Hb2. rewrite Hx in Hb1, Hb2.
      split; apply (Qmult_le_r _ _ (inject_Z m) HM); rewrite <- Qmult_assoc; assumption. }
    rewrite inject_Z_plus, inject_Z_mult in H2. change (2 * h - 1) with (2 * h + -1) in H1.
    rewrite inject_Z_plus, inject_Z_mult in H1. change (inject_Z 2) with 2%Q in *. change (inject_Z 1) with 1%Q in *.
    change (inject_Z (-1)) with (-(1))%Q in *.
    assert (inject_Z (Z.of_N c) * ((1 # 100) * / inject_Z m) == (1 # 100) * x)%Q as -> by (unfold x; ring).
    apply Qabs_case; intros _; lra.
Qed.

(** ** The theorems *)

(** Money as printed: the digits, without the separators, read back as the
    value in hundredths, which is within half a cent of the value, keeps its
    sign, and is separated into a leading group of one to three digits and
    groups of three. *)
Theorem format_money_exact (d : decimal) :
  ∃ units fraction, format_money d =
      of_chars ("$"%char :: (if d_neg d then ["-"%char] else []) ++ units ++ "."%char :: fraction) ∧
    thousands units ∧ length fraction = 2%nat ∧
    decimal_of_string (of_chars ((if d_neg d then ["-"%char] else []) ++
      filter (λ c, c ≠ ","%char) units ++ "."%char :: fraction)) = Ok (Finite (shown d)) ∧
    (Qabs (dval (shown d) - dval d) <= 1 # 200)%Q.
Proof.
  pose proof (cents_nonneg d) as Hc. set (units := digits (Z.to_N (cents d / 100))).
  destruct (digits_spec (Z.to_N (cents d / 100))) as (Hne & Hall & Hv). fold units in Hne, Hall, Hv.
  destruct (padded_digits 1 (cents d mod 100)) as (Hlen & Hf & Hfv); [apply Z.mod_pos_bound; lia|].
  destruct (grouped_spec units Hne Hall) as [Hfilter Hth].
  exists (grouped units), (to_chars (padded 2 (cents d mod 100))). split; [reflexivity|]. split; [exact Hth|].
  split; [exact Hlen|]. rewrite Hfilter. split; [|apply shown_error].
  set (fraction := to_chars (padded 2 (cents d mod 100))) in *.
  assert (parse_finite (d_neg d) (units ++ "."%char :: fraction) = Some (shown d)) as Hp.
  { pose proof (parse_finite_point (d_neg d) units fraction 0 Hne Hall Hf) as H. change (exponent_chars 0) with (@nil ascii) in H.
    rewrite app_nil_r in H. rewrite H, digits_value_app, Hv, Hfv, Hlen. unfold shown. f_equal. f_equal.
    pose proof (Z.div_mod (cents d) 100 ltac:(lia)). pose proof (Z.mod_pos_bound (cents d) 100 ltac:(lia)).
    pose proof (Z.div_pos (cents d) 100 Hc ltac:(lia)). change (10 ^ N.of_nat 2)%N with 100%N. lia. }
  assert (Forall (λ c, plain c = true) ((if d_neg d then ["-"%char] else []) ++ units ++ "."%char :: fraction)) as Hplain.
  { apply Forall_app. split; [by destruct (d_neg d); repeat constructor|]. apply Forall_app.
    split; [eapply Forall_impl; [exact Hall|apply digit_plain]|]. constructor; [done|].
    eapply Forall_impl; [exact Hf|apply digit_plain]. }
  unfold decimal_of_string. rewrite to_of_chars, plain_chars by exact Hplain. unfold parse_decimal_chars.
  destruct units as [|u units']; [done|]. apply Forall_cons_iff in Hall as [Hu _]. destruct (d_neg d); cbn [app].
  - change (span_sign ("-"%char :: u :: ?l)) with (true, u :: l). cbn beta iota.
    cbn [app] in Hp. by rewrite Hp.
  - rewrite span_sign_digits by done. cbn beta iota. cbn [app] in Hp. by rewrite Hp.
Qed.

(** *** The run *)
Lemma sma_validated sym int short long :
  validated (sma_specification sym int short long) =
  if bool_decide (sym = "SPY"%string) && bool_decide (int = "1d"%string)
  then Ok (sma_specification sym int short long) else Err ValidationError.
Proof.
  unfold validated, sma_specification, spec_schema_ok, condition_schema_ok, execution_schema_ok.
  cbn [version symbol interval entry exit execution stop_loss_percent take_profit_percent left right operand_schema_ok
       direction position_size_percent signal_execution risk_field_ok].
  by destruct (bool_decide (sym = "SPY"%string)), (bool_decide (int = "1d"%string)).
Qed.

Lemma sma_supported short long :
  spec_supported (sma_specification "SPY" "1d" short long) ↔ 1 <= short <= 1000 ∧ 1 <= long <= 1000.
Proof. unfold spec_supported, sma_specification, condition_supported; simpl. tauto. Qed.

Lemma sma_eligible short long :
  0 < short < long → first_signal_eligible_index (mkCompiled (sma_specification "SPY" "1d" short long)) = long.
Proof. intros H. unfold first_signal_eligible_index, condition_first_eligible_index; simpl. lia. Qed.

(** What the command reports. *)
Record backtest_ok (bars : list MarketBar) (short long : Z) (cash : decimal) (r : BacktestResult) : Prop := mkBacktestOk {
  bo_run : ∃ signals, generate_sma_crossover_signals bars short long = Ok signals ∧
    execute_long_only_signals bars signals cash None None = Ok (br_execution r);
  bo_period : Some (br_data_start_timestamp r) = bar_timestamp <$> head bars ∧
    Some (br_data_end_timestamp r) = bar_timestamp <$> last bars ∧ br_bar_count r = Z.of_nat (length bars);
  bo_first_sma : Some (br_first_sma_timestamp r) = bar_timestamp <$> bars !! Z.to_nat (long - 1);
  bo_cash : br_starting_cash r = cash;
  bo_metrics : metrics_ok bars long (br_metrics r) }.

Lemma sma_run_outcome power bars short long cash :
  Forall bar_ok bars → increasing bars → fits cash → (0 < dval cash)%Q →
  0 < short < long → long <= 1000 → long < Z.of_nat (length bars) →
  outcome
    (signals ← generate_signals (mkCompiled (sma_specification "SPY" "1d" short long)) bars;
     execution ← execute_long_only_signals bars signals cash None None;
     first_sma_bar ← py_index bars (Z.to_nat (long - 1));
     metrics ← calculate_metrics power bars (equity_curve execution) (completed_trades execution) cash
                 (final_portfolio_value execution)
                 (first_signal_eligible_index (mkCompiled (sma_specification "SPY" "1d" short long)));
     first_bar ← py_index bars 0;
     last_bar ← py_last bars;
     Ok (mkBacktestResult "SPY" "1d" (bar_timestamp first_bar) (bar_timestamp last_bar) (Z.of_nat (length bars))
           (bar_timestamp first_sma_bar) cash execution metrics))
    (backtest_ok bars short long cash) (arithmetic_failure power).
Proof.
  intros Hb Hi Hf Hpos Hw H1000 Hn.
  destruct (crossover_equivalence bars short long (sma_specification "SPY" "1d" short long)
    (mkCompiled (sma_specification "SPY" "1d" short long)) Hw H1000 eq_refl eq_refl eq_refl) as (signals & Hsig & ->).
  cbn [mbind result_bind]. rewrite sma_eligible by done.
  assert (bars ≠ []) as Hne by (intros ->; simpl in Hn; lia).
  assert (engine_argument_error bars cash None None = None) as Ha.
  { unfold engine_argument_error. replace (dle cash dzero) with false; [by rewrite bool_decide_eq_false_2|].
    symmetry. apply dle_val_false. by rewrite dval_dzero. }
  destruct (engine_runs bars signals Hb Hi Hne cash None None Hf Ha) as (_ & _ & Hrun).
  destruct (execute_long_only_signals bars signals cash None None) as [ex|e] eqn:Ex; [|by left]. cbn [mbind result_bind].
  destruct (py_index_ok_lt bars (Z.to_nat (long - 1))) as (bs & -> & Hbs); [lia|]. cbn [mbind result_bind].
  pose proof (metrics_outcome power bars signals cash None None ex long Hb Hi Hf Ex ltac:(lia)) as Hm.
  destruct (calculate_metrics _ _ _ _ _ _ _) as [m|e]; [|done]. cbn [mbind result_bind].
  destruct (py_index_ok_lt bars 0) as (b0 & -> & Hb0); [lia|]. cbn [mbind result_bind].
  destruct (last bars) as [bl|] eqn:El; [|by apply last_None in El].
  assert (py_last bars = Ok bl) as -> by (unfold py_last; by rewrite El). cbn [mbind result_bind outcome].
  constructor; simpl; try done; [by exists signals|rewrite head_lookup, Hb0, El; done|by rewrite Hbs].
Qed.

(** The command-line backtest over stored data: it reports exactly the run of
    the SMA crossover of the two windows on the stored bars of SPY, with its
    metrics measured from the first bar on which a signal could act; windows
    out of order or range, too few bars, another symbol or interval and a
    starting cash that is not positive are refused, each with its own error,
    and nothing else is, unless the arithmetic itself raises. *)
Theorem sma_backtest_exact power table sym int short long cash (Htable : table_ok table) (Hcash : fits cash) :
  let bars := load_market_bars table sym int in
  match run_sma_backtest power table sym int short long cash with
  | Ok r => 1 <= short < long ∧ long <= 1000 ∧ sym = "SPY"%string ∧ int = "1d"%string ∧ (0 < dval cash)%Q ∧
      backtest_ok bars short long cash r
  | Err e =>
      (long <= short ∧ e = ValueError "short_window must be less than long_window") ∨
      (Z.of_nat (length bars) <= long ∧ e = not_enough_bars) ∨
      ((sym ≠ "SPY"%string ∨ int ≠ "1d"%string) ∧ e = ValidationError) ∨
      ((short < 1 ∨ 1000 < long) ∧ is_validation_error e) ∨
      (¬ (0 < dval cash)%Q ∧ e = ValueError "starting_cash must be positive") ∨
      arithmetic_failure power e
  end.
Proof.
  intros bars. destruct (load_market_bars_ok table sym int Htable) as [Hb Hi]. fold bars in Hb, Hi.
  unfold run_sma_backtest. fold bars. destruct (Z.leb_spec long short) as [Hsl|Hsl]; cbn [raise_if mbind result_bind]; [by left|].
  destruct (Z.leb_spec (Z.of_nat (length bars)) long) as [Hn|Hn]; cbn [raise_if mbind result_bind]; [by right; left|].
  rewrite sma_validated. destruct (bool_decide_reflect (sym = "SPY"%string)) as [Hsym|Hsym]; [|right; right; left; split; [by left|done]].
  destruct (bool_decide_reflect (int = "1d"%string)) as [Hint|Hint]; [|right; right; left; split; [by right|done]].
  subst sym int. cbn [andb mbind result_bind].
  destruct (decide (1 <= short ∧ long <= 1000)) as [Hp|Hp].
  2:{ destruct (compile_strategy (sma_specification "SPY" "1d" short long)) as [cs|e] eqn:Ec.
      - apply compile_strategy_Ok in Ec as [Hs _]. apply sma_supported in Hs. lia.
      - cbn [mbind result_bind]. right; right; right; left. split; [lia|]. unfold compile_strategy in Ec.
        destruct (validate_strategy_semantics _) as [[]|e'] eqn:V; simpl in Ec; [done|]. injection Ec as <-.
        by apply (validate_strategy_semantics_error _ _ V). }
  rewrite (proj2 (compile_strategy_Ok _ _) (conj (proj2 (sma_supported short long) ltac:(lia)) eq_refl)). cbn [mbind result_bind].
  destruct (Qlt_le_dec 0 (dval cash)) as [Hpos|Hpos].
  - pose proof (sma_run_outcome power bars short long cash Hb Hi Hcash Hpos ltac:(lia) ltac:(lia) Hn) as Hr.
    destruct (mbind _ (generate_signals _ _)) as [r|e]; cbn [outcome] in Hr; [|tauto].
    split; [lia|]. split; [lia|]. done.
  - destruct (crossover_equivalence bars short long (sma_specification "SPY" "1d" short long)
      (mkCompiled (sma_specification "SPY" "1d" short long)) ltac:(lia) ltac:(lia) eq_refl eq_refl eq_refl) as (signals & _ & ->).
    cbn [mbind result_bind]. assert (engine_argument_error bars cash None None = Some (ValueError "starting_cash must be positive")) as Ha.
    { unfold engine_argument_error. rewrite bool_decide_eq_false_2 by (intros H; rewrite H in Hn; simpl in Hn; lia).
      replace (dle cash dzero) with true; [done|]. symmetry. apply dle_val. by rewrite dval_dzero. }
    rewrite (engine_argument_error_raised bars signals cash None None _ Ha). cbn [mbind result_bind].
    right; right; right; right; left. split; [by apply Qle_not_lt|done].
Qed.

Lemma sma_backtest_exact_witness :
  let power := λ x _ : decimal, Ok x in
  ∃ r, run_sma_backtest power sample_table "SPY" "1d" 1 2 (dec_of_Z 1000) = Ok r ∧
    backtest_ok (load_market_bars sample_table "SPY" "1d") 1 2 (dec_of_Z 1000) r ∧
    format_percentage (Some (total_return_percentage (br_metrics r))) = "3.00%"%string.
Proof.
  intros power.
  pose proof (sma_backtest_exact power sample_table "SPY" "1d" 1 2 (dec_of_Z 1000) sample_table_ok ltac:(vm_compute; reflexivity)) as H.
  destruct (run_sma_backtest power sample_table "SPY" "1d" 1 2 (dec_of_Z 1000)) as [r|e] eqn:E.
  - exists r. split; [reflexivity|]. split; [apply H|]. vm_compute in E. injection E as <-. reflexivity.
  - vm_compute in E. discriminate E.
Defined.
