(* ===== verification/Uuid.v ===== *)
(** * Job identifiers ([uuid.UUID]; [advisory_lock_keys] of
    [backend/app/services/job_store.py])

    A [UUID] is its 128-bit integer.  The queue carries [str(job_id)]; the
    worker reads it back with [UUID(text)].  PostgreSQL's advisory lock takes
    two signed 32-bit keys computed from the identifier. *)

From S2P Require Import Prelude Text.
From Stdlib Require Import ZArith Lia Ascii.
From stdpp Require Import base list option strings.
Local Open Scope Z_scope.

Definition UUID : Type := Z.
Definition uuid_ok (u : UUID) : Prop := 0 <= u < 2 ^ 128.

(** ** Text form *)
Definition hex_char (n : Z) : ascii := ascii_of_N (Z.to_N (if n <? 10 then 48 + n else 87 + n)).

Definition hex_value (c : ascii) : option Z :=
  let n := char_code c in
  if (48 <=? n) && (n <=? 57) then Some (n - 48)
  else if (97 <=? n) && (n <=? 102) then Some (n - 87)
  else if (65 <=? n) && (n <=? 70) then Some (n - 55)
  else None.

(** [k] hex digits of [u], most significant first. *)
Fixpoint hex_digits (k : nat) (u : Z) : list ascii :=
  match k with O => [] | S k => hex_digits k (u / 16) ++ [hex_char (u mod 16)] end.

Fixpoint hex_number (acc : Z) (l : list ascii) : option Z :=
  match l with
  | [] => Some acc
  | c :: l => match hex_value c with Some d => hex_number (16 * acc + d) l | None => None end
  end.

(** [str(uuid)]: 8-4-4-4-12 digits. *)
Definition uuid_chars (u : UUID) : list ascii :=
  let h := hex_digits 32 u in
  take 8 h ++ "-"%char :: take 4 (drop 8 h) ++ "-"%char :: take 4 (drop 12 h) ++ "-"%char ::
  take 4 (drop 16 h) ++ "-"%char :: drop 20 h.

Definition uuid_str (u : UUID) : string := of_chars (uuid_chars u).

(** [text.replace(p, "")] for a nonempty [p]: occurrences from left to right;
    [skip] characters of the current one are left to drop. *)
Fixpoint remove_text (p : list ascii) (skip : nat) (l : list ascii) : list ascii :=
  match l with
  | [] => []
  | c :: l' =>
      match skip with
      | S k => remove_text p k l'
      | O => if bool_decide (take (length p) l = p) then remove_text p (length p - 1) l'
             else c :: remove_text p 0 l'
      end
  end.

Fixpoint drop_braces (l : list ascii) : list ascii :=
  match l with
  | c :: l' => if Ascii.eqb c "{" || Ascii.eqb c "}" then drop_braces l' else l
  | [] => []
  end.

(** [UUID(text)]: without the prefixes, outer braces and hyphens the text must
    be 32 hex digits.  (Python's [int(hex, 16)] also accepts a sign, blanks,
    underscores or a [0x] among the 32 characters; [str(uuid)] has none.) *)
Definition uuid_of_string (s : string) : result UUID :=
  let l := remove_text (to_chars "uuid:") 0 (remove_text (to_chars "urn:") 0 (to_chars s)) in
  let l := reverse (drop_braces (reverse (drop_braces l))) in
  let l := filter (λ c, c ≠ "-"%char) l in
  if (length l =? 32)%nat then
    match hex_number 0 l with
    | Some u => Ok u
    | None => Err (ValueError "badly formed hexadecimal UUID string")
    end
  else Err (ValueError "badly formed hexadecimal UUID string").

(** ** Advisory-lock keys *)
Definition signed32 (value : Z) : Z := if value <? 2 ^ 31 then value else value - 2 ^ 32.

Definition advisory_lock_keys (job_id : UUID) : Z * Z :=
  (signed32 (Z.land (Z.shiftr job_id 32) (2 ^ 32 - 1)), signed32 (Z.land job_id (2 ^ 32 - 1))).

(** ** Lemmas *)
Lemma char_code_small n : 0 <= n < 256 → char_code (ascii_of_N (Z.to_N n)) = n.
Proof. intros H. unfold char_code. rewrite N_ascii_embedding; lia. Qed.

Lemma hex_value_char n : 0 <= n < 16 → hex_value (hex_char n) = Some n.
Proof.
  intros H. unfold hex_value, hex_char. destruct (Z.ltb_spec n 10).
  - rewrite char_code_small by lia.
    replace ((48 <=? 48 + n) && (48 + n <=? 57)) with true; [f_equal; lia|].
    symmetry. rewrite andb_true_iff, !Z.leb_le. lia.
  - rewrite char_code_small by lia.
    replace ((48 <=? 87 + n) && (87 + n <=? 57)) with false.
    2:{ symmetry. rewrite andb_false_iff, !Z.leb_gt. lia. }
    replace ((97 <=? 87 + n) && (87 + n <=? 102)) with true; [f_equal; lia|].
    symmetry. rewrite andb_true_iff, !Z.leb_le. lia.
Qed.

Lemma hex_digits_length k u : length (hex_digits k u) = k.
Proof. revert u. induction k; intros u; simpl; [done|]. rewrite length_app, IHk. simpl. lia. Qed.

Lemma hex_digits_hex k u : Forall (λ c, is_Some (hex_value c)) (hex_digits k u).
Proof.
  revert u. induction k as [|k IH]; intros u; simpl; [by apply Forall_nil|].
  apply Forall_app; split; [done|]. apply Forall_cons; split; [|by apply Forall_nil].
  rewrite hex_value_char; [done|]. apply Z.mod_pos_bound. lia.
Qed.

Lemma hex_digits_no_hyphen k u : Forall (λ c, c ≠ "-"%char) (hex_digits k u).
Proof.
  eapply Forall_impl; [apply hex_digits_hex|]. intros c Hc ->. by vm_compute in Hc; destruct Hc.
Qed.

Lemma hex_number_app acc l1 l2 :
  hex_number acc (l1 ++ l2) = match hex_number acc l1 with Some v => hex_number v l2 | None => None end.
Proof.
  revert acc. induction l1 as [|c l1 IH]; intros acc; simpl; [done|].
  destruct (hex_value c); [apply IH|done].
Qed.

Lemma hex_number_digits k u acc :
  0 <= u < 16 ^ Z.of_nat k → hex_number acc (hex_digits k u) = Some (acc * 16 ^ Z.of_nat k + u).
Proof.
  revert u acc. induction k as [|k IH]; intros u acc Hu.
  - simpl. change (16 ^ Z.of_nat 0) with 1 in *. f_equal. lia.
  - rewrite Nat2Z.inj_succ, Z.pow_succ_r in Hu by lia. cbn [hex_digits].
    rewrite hex_number_app, IH.
    + cbn [hex_number]. rewrite hex_value_char by (apply Z.mod_pos_bound; lia). f_equal.
      rewrite Nat2Z.inj_succ, Z.pow_succ_r by lia. pose proof (Z.div_mod u 16 ltac:(lia)). lia.
    + split; [apply Z.div_pos; lia|]. apply Z.div_lt_upper_bound; lia.
Qed.

Lemma filter_keep {A} (P : A → Prop) `{!∀ x, Decision (P x)} l : Forall P l → filter P l = l.
Proof.
  induction l as [|x l IH]; intros Hl; [done|]. apply Forall_cons_iff in Hl as [Hx Hl].
  rewrite filter_cons_True by done. by rewrite IH.
Qed.

Lemma regroup {A} (l : list A) :
  take 8 l ++ take 4 (drop 8 l) ++ take 4 (drop 12 l) ++ take 4 (drop 16 l) ++ drop 20 l = l.
Proof.
  change 20%nat with (16 + 4)%nat. rewrite <- (drop_drop l 4 16), take_drop.
  change 16%nat with (12 + 4)%nat. rewrite <- (drop_drop l 4 12), take_drop.
  change 12%nat with (8 + 4)%nat. rewrite <- (drop_drop l 4 8), take_drop. apply take_drop.
Qed.

Lemma uuid_chars_hex u : filter (λ c, c ≠ "-"%char) (uuid_chars u) = hex_digits 32 u.
Proof.
  pose proof (hex_digits_no_hyphen 32 u) as Hh. unfold uuid_chars.
  repeat (rewrite filter_app || rewrite filter_cons_False by (by intros [])).
  rewrite !filter_keep by (repeat first [apply Forall_take | apply Forall_drop]; done).
  apply regroup.
Qed.

(** The characters of an identifier's text: hex digits and hyphens. *)
Lemma uuid_chars_plain u : Forall (λ c, c ≠ "u"%char ∧ c ≠ "{"%char ∧ c ≠ "}"%char) (uuid_chars u).
Proof.
  assert (Forall (λ c, c ≠ "u"%char ∧ c ≠ "{"%char ∧ c ≠ "}"%char) (hex_digits 32 u)) as Hh.
  { eapply Forall_impl; [apply hex_digits_hex|].
    intros c Hc. split_and!; intros ->; by vm_compute in Hc; destruct Hc. }
  unfold uuid_chars. generalize dependent (hex_digits 32 u). intros l Hh.
  repeat first [ apply Forall_app; split | apply Forall_cons; split
               | apply Forall_take | apply Forall_drop | done | (split_and!; discriminate) ].
Qed.

Lemma remove_text_absent c p l : Forall (λ x, x ≠ c) l → remove_text (c :: p) 0 l = l.
Proof.
  induction 1 as [|x l Hx Hl IH]; [done|]. cbn [remove_text].
  rewrite bool_decide_eq_false_2 by (simpl; congruence). by rewrite IH.
Qed.

Lemma drop_braces_absent l : Forall (λ x, x ≠ "{"%char ∧ x ≠ "}"%char) l → drop_braces l = l.
Proof.
  destruct 1 as [|x l [H1 H2]]; [done|]. simpl.
  by rewrite (proj2 (Ascii.eqb_neq _ _) H1), (proj2 (Ascii.eqb_neq _ _) H2).
Qed.

Lemma uuid_roundtrip u : uuid_ok u → uuid_of_string (uuid_str u) = Ok u.
Proof.
  intros Hu. unfold uuid_of_string, uuid_str. rewrite to_of_chars.
  pose proof (uuid_chars_plain u) as Hp.
  assert (Forall (λ x, x ≠ "u"%char) (uuid_chars u)) as H1 by (eapply Forall_impl; [exact Hp|]; naive_solver).
  assert (Forall (λ x, x ≠ "{"%char ∧ x ≠ "}"%char) (uuid_chars u)) as H2
    by (eapply Forall_impl; [exact Hp|]; naive_solver).
  cbn [to_chars Stdlib.Strings.String.list_ascii_of_string].
  rewrite (remove_text_absent "u" _ _ H1), (remove_text_absent "u" _ _ H1), (drop_braces_absent _ H2).
  rewrite drop_braces_absent by by apply Forall_reverse. rewrite reverse_involutive.
  rewrite uuid_chars_hex, hex_digits_length.
  cbn [Nat.eqb]. rewrite hex_number_digits; [done|]. exact Hu.
Qed.

Lemma signed32_range v : 0 <= v < 2 ^ 32 → - 2 ^ 31 <= signed32 v < 2 ^ 31.
Proof. intros H. unfold signed32. destruct (Z.ltb_spec v (2 ^ 31)); lia. Qed.

Lemma signed32_inj v w : 0 <= v < 2 ^ 32 → 0 <= w < 2 ^ 32 → signed32 v = signed32 w → v = w.
Proof.
  intros Hv Hw. unfold signed32. destruct (Z.ltb_spec v (2 ^ 31)), (Z.ltb_spec w (2 ^ 31)); lia.
Qed.

Lemma low32_range u : 0 <= Z.land u (2 ^ 32 - 1) < 2 ^ 32.
Proof. change (2 ^ 32 - 1) with (Z.ones 32). rewrite Z.land_ones by lia. apply Z.mod_pos_bound. lia. Qed.

Lemma low64_split u :
  u mod 2 ^ 64 = Z.land (Z.shiftr u 32) (2 ^ 32 - 1) * 2 ^ 32 + Z.land u (2 ^ 32 - 1).
Proof.
  change (2 ^ 32 - 1) with (Z.ones 32). rewrite !Z.land_ones, Z.shiftr_div_pow2 by lia.
  change (2 ^ 64) with (2 ^ 32 * 2 ^ 32). rewrite Z.rem_mul_r by lia. lia.
Qed.

(** ** The theorems *)

(** The identifier in a queue payload is the job's: [UUID(str(u))] is [u]
    for every 128-bit [u], so a worker always recovers the enqueued job. *)
Theorem uuid_text_roundtrip u (Hu : uuid_ok u) : uuid_of_string (uuid_str u) = Ok u.
Proof. by apply uuid_roundtrip. Qed.

Lemma uuid_text_roundtrip_witness :
  uuid_str 24197857200151252728969465429440056815 = "12345678-90ab-cdef-1234-567890abcdef"%string ∧
  uuid_of_string (uuid_str 24197857200151252728969465429440056815)
    = Ok 24197857200151252728969465429440056815.
Proof. split; [vm_compute; reflexivity|]. apply uuid_text_roundtrip. split; vm_compute; [discriminate|reflexivity]. Defined.

(** The advisory-lock keys of a job are two signed 32-bit integers, and two
    jobs share a lock exactly when their identifiers agree on the low 64 bits. *)
Theorem advisory_lock_keys_sound u v :
  (- 2 ^ 31 <= (advisory_lock_keys u).1 < 2 ^ 31) ∧ (- 2 ^ 31 <= (advisory_lock_keys u).2 < 2 ^ 31) ∧
  (advisory_lock_keys u = advisory_lock_keys v ↔ u mod 2 ^ 64 = v mod 2 ^ 64).
Proof.
  unfold advisory_lock_keys. cbn [fst snd]. split; [apply signed32_range, low32_range|].
  split; [apply signed32_range, low32_range|]. rewrite !low64_split.
  pose proof (low32_range u). pose proof (low32_range v).
  pose proof (low32_range (Z.shiftr u 32)). pose proof (low32_range (Z.shiftr v 32)). split.
  - intros [= H3 H4]. apply signed32_inj in H3, H4; try done. lia.
  - intros E. assert (Z.land (Z.shiftr u 32) (2 ^ 32 - 1) = Z.land (Z.shiftr v 32) (2 ^ 32 - 1)) as -> by lia.
    assert (Z.land u (2 ^ 32 - 1) = Z.land v (2 ^ 32 - 1)) as -> by lia. done.
Qed.
