(* ===== verification/Regex.v ===== *)
(** * Regular expressions of Python's [re], as the code uses them

    The constructs of the patterns in
    [backend/app/services/strategy_semantics.py]: character classes,
    sequences, ordered alternatives, greedy repetition, capturing groups and
    word boundaries, over ASCII text.  [match_here] is the backtracking matcher
    with its order of alternatives, [search] and [finditer] scan from left to
    right; [matches] is the declarative meaning, and the matcher is sound and
    complete for it. *)

From S2P Require Import Prelude Text.
From Stdlib Require Import ZArith Lia Ascii.
From stdpp Require Import base list option strings sets.
Local Open Scope Z_scope.

Inductive regex : Type :=
  | Eps
  | Chr (p : ascii → bool)
  | Cat (r1 r2 : regex)
  | Or (r1 r2 : regex)
  | Many (r : regex)
  | Grp (n : nat) (r : regex)
  | Bnd.

(** A position: the text before it, nearest character first, the text after
    it, and the groups captured so far, latest first. *)
Record mstate : Type := mkState {
  before : list ascii; rest : list ascii; groups : list (nat * list ascii) }.

(** [\w] *)
Definition is_word (c : ascii) : bool := is_digit c || is_upper c || is_lower c || Ascii.eqb c "_".

Definition at_boundary (s : mstate) : bool :=
  let word l := match l with c :: _ => is_word c | [] => false end in
  xorb (word (before s)) (word (rest s)).

(** The text between two positions. *)
Definition consumed (s s' : mstate) : list ascii :=
  reverse (take (length (before s') - length (before s)) (before s')).

Definition capture (n : nat) (s s' : mstate) : mstate :=
  mkState (before s') (rest s') ((n, consumed s s') :: groups s').

(** ** The matcher, with what is left to match as a continuation *)
Section matcher.
Context {B : Type}.

Fixpoint match_re (r : regex) (k : mstate → option B) (s : mstate) : option B :=
  match r with
  | Eps => k s
  | Chr p =>
      match rest s with
      | c :: l => if p c then k (mkState (c :: before s) l (groups s)) else None
      | [] => None
      end
  | Cat r1 r2 => match_re r1 (match_re r2 k) s
  | Or r1 r2 => match match_re r1 k s with Some b => Some b | None => match_re r2 k s end
  | Many r =>
      (fix loop (n : nat) (s : mstate) : option B :=
         match n with
         | O => k s
         | S n =>
             match match_re r (λ s', if (length (rest s') <? length (rest s))%nat then loop n s' else None) s with
             | Some b => Some b
             | None => k s
             end
         end) (length (rest s)) s
  | Grp n r => match_re r (λ s', k (capture n s s')) s
  | Bnd => if at_boundary s then k s else None
  end.

(** The repetition loop by name. *)
Definition many_loop (r : regex) (k : mstate → option B) : nat → mstate → option B :=
  fix loop (n : nat) (s : mstate) : option B :=
    match n with
    | O => k s
    | S n =>
        match match_re r (λ s', if (length (rest s') <? length (rest s))%nat then loop n s' else None) s with
        | Some b => Some b
        | None => k s
        end
    end.
End matcher.

Definition match_here (r : regex) (s : mstate) : option mstate := match_re r Some s.

(** [re.search] from a position *)
Fixpoint search_from (r : regex) (bef : list ascii) (l : list ascii) : option mstate :=
  match match_here r (mkState bef l []) with
  | Some s => Some s
  | None => match l with [] => None | c :: l => search_from r (c :: bef) l end
  end.

Definition search (r : regex) (text : string) : option mstate := search_from r [] (to_chars text).

(** [pattern.finditer]: matches do not overlap; [skip] characters of the last
    one are still to pass. *)
Fixpoint finditer_from (r : regex) (skip : nat) (bef : list ascii) (l : list ascii) : list mstate :=
  let here := match skip with O => match_here r (mkState bef l []) | S _ => None end in
  let skip' := match here with Some s => (length l - length (rest s) - 1)%nat | None => pred skip end in
  let found := match here with Some s => [s] | None => [] end in
  match l with
  | [] => found
  | c :: l => found ++ finditer_from r skip' (c :: bef) l
  end.

Definition finditer (r : regex) (text : string) : list mstate := finditer_from r 0 [] (to_chars text).

(** [match.group(n)] *)
Definition group (n : nat) (s : mstate) : string :=
  match list_find (λ g, g.1 = n) (groups s) with Some (_, (_, l)) => of_chars l | None => EmptyString end.

(** ** Derived forms *)
Definition many1 (r : regex) : regex := Cat r (Many r).
Definition opt (r : regex) : regex := Or r Eps.
Definition digit : regex := Chr is_digit.
Definition space : regex := Chr is_space.

(** A literal, and a literal under [re.IGNORECASE]. *)
Fixpoint lit (l : list ascii) : regex :=
  match l with [] => Eps | c :: l => Cat (Chr (λ x, Ascii.eqb x c)) (lit l) end.
Fixpoint lit_ic (l : list ascii) : regex :=
  match l with [] => Eps | c :: l => Cat (Chr (λ x, Ascii.eqb (lower_char x) c)) (lit_ic l) end.
Definition text (s : string) : regex := lit (to_chars s).
Definition text_ic (s : string) : regex := lit_ic (to_chars s).

(** [[- ]] *)
Definition dash_or_space : regex := Chr (λ c, Ascii.eqb c "-" || Ascii.eqb c " ").

(** ** The declarative meaning *)
Inductive matches : regex → mstate → mstate → Prop :=
  | m_eps s : matches Eps s s
  | m_chr p c bef l g : p c = true → matches (Chr p) (mkState bef (c :: l) g) (mkState (c :: bef) l g)
  | m_cat r1 r2 s1 s2 s3 : matches r1 s1 s2 → matches r2 s2 s3 → matches (Cat r1 r2) s1 s3
  | m_or_l r1 r2 s s' : matches r1 s s' → matches (Or r1 r2) s s'
  | m_or_r r1 r2 s s' : matches r2 s s' → matches (Or r1 r2) s s'
  | m_many_nil r s : matches (Many r) s s
  | m_many_cons r s1 s2 s3 :
      matches r s1 s2 → (length (rest s2) < length (rest s1))%nat → matches (Many r) s2 s3 →
      matches (Many r) s1 s3
  | m_grp n r s s' : matches r s s' → matches (Grp n r) s (capture n s s')
  | m_bnd s : at_boundary s = true → matches Bnd s s.

(** The pattern occurs in the text. *)
Definition occurs (r : regex) (text : string) : Prop :=
  ∃ pre post s', text = of_chars (pre ++ post) ∧ matches r (mkState (reverse pre) post []) s'.

(** A match of the pattern in the text. *)
Definition match_of (r : regex) (text : string) (s' : mstate) : Prop :=
  ∃ pre post, text = of_chars (pre ++ post) ∧ matches r (mkState (reverse pre) post []) s'.

(** ** Lemmas *)
Section lemmas.
Context {B : Type}.

Lemma many_loop_sound r (k : mstate → option B) n s b :
  (∀ (k' : mstate → option B) s b, match_re r k' s = Some b → ∃ s', matches r s s' ∧ k' s' = Some b) →
  many_loop r k n s = Some b → ∃ s', matches (Many r) s s' ∧ k s' = Some b.
Proof.
  intros IHr. revert s. induction n as [|n IHn]; intros s H; simpl in H.
  - exists s. split; [constructor|done].
  - destruct (match_re r _ s) as [b'|] eqn:E.
    + injection H as ->. apply IHr in E as (s1 & H1 & E). destruct (Nat.ltb_spec (length (rest s1)) (length (rest s))); [|done].
      apply IHn in E as (s2 & H2 & Hk). exists s2. split; [by eapply m_many_cons|done].
    + exists s. split; [constructor|done].
Qed.

(** Everything found is a match. *)
Lemma match_re_sound r (k : mstate → option B) s b :
  match_re r k s = Some b → ∃ s', matches r s s' ∧ k s' = Some b.
Proof.
  revert k s b. induction r as [|p|r1 IH1 r2 IH2|r1 IH1 r2 IH2|r IH|n r IH|]; intros k s b H.
  - exists s. split; [constructor|done].
  - destruct s as [bef [|c l] g]; simpl in H; [done|]. destruct (p c) eqn:Hp; [|done].
    eexists. split; [by constructor|done].
  - apply IH1 in H as (s1 & H1 & H). apply IH2 in H as (s2 & H2 & H). exists s2. split; [by econstructor|done].
  - simpl in H. destruct (match_re r1 k s) as [b'|] eqn:E.
    + injection H as ->. apply IH1 in E as (s' & H1 & H). exists s'. split; [by constructor|done].
    + apply IH2 in H as (s' & H1 & H). exists s'. split; [by apply m_or_r|done].
  - by apply (many_loop_sound r k (length (rest s))).
  - simpl in H. apply IH in H as (s' & H1 & H). exists (capture n s s'). split; [by constructor|done].
  - simpl in H. destruct (at_boundary s) eqn:Hb; [|done]. exists s. split; [by constructor|done].
Qed.

Lemma many_loop_complete r (k : mstate → option B) s s' n :
  (∀ (k' : mstate → option B) s s', matches r s s' → k' s' ≠ None → match_re r k' s ≠ None) →
  matches (Many r) s s' → (length (rest s) <= n)%nat → k s' ≠ None → many_loop r k n s ≠ None.
Proof.
  intros IHr Hm. remember (Many r) as q eqn:Hq. revert n Hq.
  induction Hm as [| | | | |r' s|r' s1 s2 s3 H1 _ Hlt _ IH|m r' s s' ? ?|]; intros n Hq Hn Hk; try done; injection Hq as ->.
  - destruct n as [|n]; simpl; [done|]. by destruct (match_re _ _ s).
  - destruct n as [|n]; [lia|]. simpl. destruct (match_re r _ s1) eqn:E; [done|]. exfalso. revert E.
    apply (IHr _ s1 s2 H1). rewrite (proj2 (Nat.ltb_lt _ _)) by done. apply IH; [done|lia|done].
Qed.

(** A match that the rest accepts is never missed. *)
Lemma match_re_complete r (k : mstate → option B) s s' :
  matches r s s' → k s' ≠ None → match_re r k s ≠ None.
Proof.
  revert k s s'. induction r as [|p|r1 IH1 r2 IH2|r1 IH1 r2 IH2|r IH|n r IH|]; intros k s s' Hm Hk.
  - by inversion Hm; subst.
  - inversion Hm; subst. simpl. by case_match.
  - inversion Hm; subst. simpl. eapply IH1; [done|]. by eapply IH2.
  - simpl. destruct (match_re r1 k s) eqn:E; [done|]. inversion Hm; subst; [|by eapply IH2].
    exfalso. by eapply IH1.
  - by apply (many_loop_complete r k s s').
  - inversion Hm; subst. simpl. by eapply IH.
  - inversion Hm; subst. simpl. by case_match.
Qed.
End lemmas.

Lemma match_here_sound r s s' : match_here r s = Some s' → matches r s s'.
Proof. intros H. apply match_re_sound in H as (s1 & H1 & [= ->]). done. Qed.

Lemma match_here_complete r s s' : matches r s s' → match_here r s ≠ None.
Proof. intros H. by eapply match_re_complete. Qed.

(** [search] decides whether a pattern occurs. *)
Lemma search_from_sound r bef l s' :
  search_from r bef l = Some s' → ∃ pre post, l = pre ++ post ∧ matches r (mkState (reverse pre ++ bef) post []) s'.
Proof.
  revert bef. induction l as [|c l IH]; intros bef H; simpl in H; destruct (match_here r _) as [s1|] eqn:E.
  - injection H as ->. exists [], []. split; [done|]. by apply match_here_sound.
  - done.
  - injection H as ->. exists [], (c :: l). split; [done|]. by apply match_here_sound.
  - apply IH in H as (pre & post & -> & H). exists (c :: pre), post. split; [done|].
    rewrite reverse_cons, <- app_assoc. exact H.
Qed.

Lemma search_from_complete r pre post bef s' :
  matches r (mkState (reverse pre ++ bef) post []) s' → search_from r bef (pre ++ post) ≠ None.
Proof.
  revert bef. induction pre as [|c pre IH]; intros bef H.
  - apply match_here_complete in H. destruct post as [|c post]; simpl in *; by destruct (match_here _ _).
  - simpl. destruct (match_here _ _); [done|]. apply IH. rewrite reverse_cons, <- app_assoc in H. exact H.
Qed.

Lemma search_sound r t s' : search r t = Some s' → match_of r t s'.
Proof.
  intros H. apply search_from_sound in H as (pre & post & E & H). exists pre, post.
  rewrite app_nil_r in H. split; [by rewrite <- E, of_to_chars|done].
Qed.

Lemma search_spec r t : (∃ s, search r t = Some s) ↔ occurs r t.
Proof.
  split.
  - intros [s H]. apply search_sound in H as (pre & post & H). by exists pre, post, s.
  - intros (pre & post & s' & -> & H). unfold search. rewrite to_of_chars.
    destruct (search_from r [] (pre ++ post)) as [s|] eqn:E; [by exists s|]. exfalso. revert E.
    apply (search_from_complete _ _ _ _ s'). by rewrite app_nil_r.
Qed.

(** [finditer] finds only matches, and none only when there is none. *)
Lemma finditer_from_sound r skip bef l s' :
  s' ∈ finditer_from r skip bef l →
  ∃ pre post, l = pre ++ post ∧ matches r (mkState (reverse pre ++ bef) post []) s'.
Proof.
  revert skip bef. induction l as [|c l IH]; intros skip bef H.
  - destruct skip; simpl in H; [|by apply not_elem_of_nil in H]. destruct (match_here r _) as [s1|] eqn:E.
    + apply list_elem_of_singleton in H as ->. exists [], []. split; [done|]. by apply match_here_sound.
    + by apply not_elem_of_nil in H.
  - cbn [finditer_from] in H. apply elem_of_app in H as [H|H].
    + destruct skip; [|by apply not_elem_of_nil in H]. destruct (match_here r _) as [s1|] eqn:E.
      * apply list_elem_of_singleton in H as ->. exists [], (c :: l). split; [done|]. by apply match_here_sound.
      * by apply not_elem_of_nil in H.
    + apply IH in H as (pre & post & -> & H). exists (c :: pre), post. split; [done|].
      rewrite reverse_cons, <- app_assoc. exact H.
Qed.

Lemma finditer_from_nil r bef l : finditer_from r 0 bef l = [] → search_from r bef l = None.
Proof.
  revert bef. induction l as [|c l IH]; intros bef H; simpl in *; destruct (match_here r _) eqn:E; try done.
  by apply IH.
Qed.

Lemma finditer_sound r t s' : s' ∈ finditer r t → match_of r t s'.
Proof.
  intros H. apply finditer_from_sound in H as (pre & post & E & H). exists pre, post.
  rewrite app_nil_r in H. split; [by rewrite <- E, of_to_chars|done].
Qed.

Lemma finditer_nil r t : finditer r t = [] → ¬ occurs r t.
Proof.
  intros H Ho. apply finditer_from_nil in H. apply search_spec in Ho as [s Hs]. unfold search in Hs. congruence.
Qed.

(** ** What a match consumes and captures *)
Fixpoint in_lang (r : regex) (l : list ascii) : Prop :=
  match r with
  | Eps | Bnd => l = []
  | Chr p => ∃ c, l = [c] ∧ p c = true
  | Cat r1 r2 => ∃ l1 l2, l = l1 ++ l2 ∧ in_lang r1 l1 ∧ in_lang r2 l2
  | Or r1 r2 => in_lang r1 l ∨ in_lang r2 l
  | Many r => ∃ ls, l = concat ls ∧ Forall (in_lang r) ls
  | Grp _ r => in_lang r l
  end.

(** The groups of a pattern, and the ones every match captures. *)
Fixpoint group_bodies (r : regex) : list (nat * regex) :=
  match r with
  | Eps | Chr _ | Bnd => []
  | Cat r1 r2 | Or r1 r2 => group_bodies r1 ++ group_bodies r2
  | Many r => group_bodies r
  | Grp n r => (n, r) :: group_bodies r
  end.

Fixpoint must_capture (n : nat) (r : regex) : bool :=
  match r with
  | Eps | Chr _ | Bnd | Many _ => false
  | Cat r1 r2 => must_capture n r1 || must_capture n r2
  | Or r1 r2 => must_capture n r1 && must_capture n r2
  | Grp m r => (m =? n)%nat || must_capture n r
  end.

(** From [s] the match passes [l] and adds the groups [new]. *)
Definition passes (s s' : mstate) (l : list ascii) (new : list (nat * list ascii)) : Prop :=
  rest s = l ++ rest s' ∧ before s' = reverse l ++ before s ∧ groups s' = new ++ groups s.

Definition captured_ok (r : regex) (g : nat * list ascii) : Prop :=
  ∃ r', (g.1, r') ∈ group_bodies r ∧ in_lang r' g.2.

Lemma passes_trans s1 s2 s3 l1 l2 n1 n2 :
  passes s1 s2 l1 n1 → passes s2 s3 l2 n2 → passes s1 s3 (l1 ++ l2) (n2 ++ n1).
Proof.
  intros (H1 & H2 & H3) (H4 & H5 & H6). split_and!.
  - by rewrite H1, H4, app_assoc.
  - by rewrite H5, H2, reverse_app, app_assoc.
  - by rewrite H6, H3, app_assoc.
Qed.

Lemma captured_weaken r1 r2 new :
  (∀ x, x ∈ group_bodies r1 → x ∈ group_bodies r2) → Forall (captured_ok r1) new → Forall (captured_ok r2) new.
Proof. intros Hs H. eapply Forall_impl; [exact H|]. intros g (r' & Hr & Hl). exists r'. split; [by apply Hs|done]. Qed.

Lemma consumed_passes s s' l new : passes s s' l new → consumed s s' = l.
Proof.
  intros (_ & H & _). unfold consumed. rewrite H, length_app, length_reverse.
  replace (length l + length (before s) - length (before s))%nat with (length (reverse l)) by (rewrite length_reverse; lia).
  by rewrite take_app_length, reverse_involutive.
Qed.

(** A match passes a word of the pattern's language; every group it captures is
    a word of that group's language, and the mandatory ones are captured. *)
Lemma matches_passes r s s' :
  matches r s s' → ∃ l new, passes s s' l new ∧ in_lang r l ∧ Forall (captured_ok r) new ∧
    ∀ n, must_capture n r = true → Exists (λ g, g.1 = n) new.
Proof.
  induction 1 as [s|p c bef l g Hp|r1 r2 s1 s2 s3 _ IH1 _ IH2|r1 r2 s s' _ IH|r1 r2 s s' _ IH|r s
                 |r s1 s2 s3 _ IH1 _ _ IH2|n r s s' _ IH|s Hb].
  - exists [], []. by split_and!.
  - exists [c], []. split_and!; [done|by exists c|done|done].
  - destruct IH1 as (l1 & n1 & P1 & L1 & C1 & M1), IH2 as (l2 & n2 & P2 & L2 & C2 & M2).
    exists (l1 ++ l2), (n2 ++ n1). split_and!; [by eapply passes_trans|by exists l1, l2| |].
    + apply Forall_app. split; [apply (captured_weaken r2)|apply (captured_weaken r1)]; try done; set_solver.
    + intros n Hn. simpl in Hn. apply Exists_app. apply orb_true_iff in Hn as []; auto.
  - destruct IH as (l & new & P & L & C & M). exists l, new. split_and!; [done|by left| |].
    + apply (captured_weaken r1); [set_solver|done].
    + intros n Hn. simpl in Hn. apply andb_true_iff in Hn as []. auto.
  - destruct IH as (l & new & P & L & C & M). exists l, new. split_and!; [done|by right| |].
    + apply (captured_weaken r2); [set_solver|done].
    + intros n Hn. simpl in Hn. apply andb_true_iff in Hn as []. auto.
  - exists [], []. split_and!; [done|by exists []|done|done].
  - destruct IH1 as (l1 & n1 & P1 & L1 & C1 & M1), IH2 as (l2 & n2 & P2 & (ls & -> & Ls) & C2 & M2).
    exists (l1 ++ concat ls), (n2 ++ n1). split_and!; [by eapply passes_trans|exists (l1 :: ls); by split; [|constructor]| |done].
    apply Forall_app. by split.
  - destruct IH as (l & new & P & L & C & M). pose proof (consumed_passes _ _ _ _ P) as Hc.
    exists l, ((n, l) :: new). split_and!; [|done| |].
    + destruct P as (P1 & P2 & P3). unfold capture. rewrite Hc. split_and!; [done|done|simpl; by rewrite P3].
    + constructor; [exists r; split; [by left|done]|]. apply (captured_weaken r); [set_solver|done].
    + intros m Hm. simpl in Hm. apply orb_true_iff in Hm as [Hm|Hm].
      * apply Nat.eqb_eq in Hm. by left.
      * right. auto.
  - exists [], []. by split_and!.
Qed.

(** A mandatory group of a match from the start is a word of its language. *)
Lemma group_in_lang r n r' t s' :
  match_of r t s' → must_capture n r = true → (∀ x, (n, x) ∈ group_bodies r → x = r') →
  ∃ l, group n s' = of_chars l ∧ in_lang r' l.
Proof.
  intros (pre & post & _ & H) Hm Hb. apply matches_passes in H as (l & new & (_ & _ & Hg) & _ & Hc & Hn).
  cbn [groups] in Hg. rewrite app_nil_r in Hg. specialize (Hn n Hm). unfold group. rewrite Hg.
  destruct (list_find _ new) as [[i [m l']]|] eqn:E.
  - apply list_find_Some in E as (Hi & Hm' & _). simpl in Hm'. subst m. exists l'. split; [done|].
    rewrite Forall_lookup in Hc. destruct (Hc _ _ Hi) as (r1 & Hr1 & Hl'). simpl in *.
    by rewrite <- (Hb _ Hr1).
  - apply list_find_None in E. exfalso. apply Exists_exists in Hn as (g & Hg1 & Hg2).
    rewrite Forall_forall in E. by apply (E g).
Qed.
