(* ===== verification/StrategyText.v ===== *)
(** * Analysis of the user's text
    ([backend/app/services/strategy_semantics.py], the functions on text)

    The phrase tables, the patterns and the functions that use them, in the
    code's order.  The patterns are the code's, piece by piece; [\d], [\s] and
    [\w] are those of ASCII text. *)

From S2P Require Import Prelude Decimal Text Regex StrategySpec StrategySemantics.
From Stdlib Require Import ZArith QArith Lia Ascii.
From stdpp Require Import base list option strings sets.
Local Open Scope Z_scope.

(** ** Phrases *)
Definition UNSUPPORTED_LANGUAGE : list (string * string) :=
  [("rsi", "RSI is not supported in version 1.");
   ("macd", "MACD is not supported in version 1.");
   ("bollinger", "Bollinger Bands are not supported in version 1.");
   ("volume", "Volume rules and volume indicators are not supported in version 1.");
   ("trailing stop", "Trailing stops are not supported in version 1.");
   ("short ", "Short selling is not supported in version 1.");
   ("leverage", "Leverage is not supported in version 1.");
   ("option", "Options are not supported in version 1.");
   ("news", "News-based rules are not supported in version 1.");
   ("sentiment", "Sentiment-based rules are not supported in version 1.");
   ("fundamental", "Fundamental-based rules are not supported in version 1.");
   ("earnings", "Earnings-based rules are not supported in version 1.");
   ("analyst", "Analyst-rating rules are not supported in version 1.");
   ("python code", "Code generation is not supported for strategies.");
   ("sql query", "SQL generation is not supported for strategies.");
   ("select *", "SQL generation is not supported for strategies.")]%string.

Definition AMBIGUOUS_LANGUAGE : list (string * string) :=
  [("looks strong", "Specify a supported price or moving-average condition instead of 'looks strong'.");
   ("momentum", "Momentum is undefined here. Specify a supported price or moving-average condition.");
   ("risk increases", "Risk is undefined here. Specify a supported price or moving-average condition.");
   ("conditions are favorable", "Specify a supported price or moving-average condition.");
   ("good moving average", "Specify explicit moving-average periods.");
   ("tight stop", "Specify an explicit stop-loss percentage.");
   ("take profit when appropriate", "Specify an explicit take-profit percentage.");
   ("control my downside", "Specify an explicit stop-loss percentage.");
   ("good risk management", "Specify an explicit stop-loss or take-profit percentage.")]%string.

(** The first phrase of a table found in the text. *)
Fixpoint reject_phrase (table : list (string * string)) (normalized_text : string) : result unit :=
  match table with
  | [] => Ok ()
  | (phrase, message) :: table =>
      if contains phrase normalized_text then Err (StrategyValidationError message)
      else reject_phrase table normalized_text
  end.

(** ** Patterns *)

(** [[+-]?(?:\d+(?:\.\d+)?|\.\d+)] *)
Definition sign_re : regex := Chr (λ c, Ascii.eqb c "+" || Ascii.eqb c "-").
Definition dot_re : regex := Chr (λ c, Ascii.eqb c ".").
Definition number_re : regex :=
  Cat (opt sign_re) (Or (Cat (many1 digit) (opt (Cat dot_re (many1 digit)))) (Cat dot_re (many1 digit))).

(** [(?P<value>...)\s*(?:%|percent\b)] *)
Definition PERCENT_VALUE : regex :=
  Cat (Grp 1 number_re) (Cat (Many space) (Or (Chr (λ c, Ascii.eqb c "%")) (Cat (text_ic "percent") Bnd))).

(** [stop[- ]loss], [take[- ]profit], [los(?:e|es|ing)], [gain(?:s|ing)?] *)
Definition stop_loss_re : regex := Cat (text_ic "stop") (Cat dash_or_space (text_ic "loss")).
Definition take_profit_re : regex := Cat (text_ic "take") (Cat dash_or_space (text_ic "profit")).
Definition lose_re : regex := Cat (text_ic "los") (Or (text_ic "e") (Or (text_ic "es") (text_ic "ing"))).
Definition gain_re : regex := Cat (text_ic "gain") (opt (Or (text_ic "s") (text_ic "ing"))).
(** [(?:\s+(?:of|at))?] *)
Definition of_at_re : regex := opt (Cat (many1 space) (Or (text_ic "of") (text_ic "at"))).

Definition STOP_LOSS_PATTERNS : list regex :=
  [Cat PERCENT_VALUE (Cat (many1 space) (Cat stop_loss_re Bnd));
   Cat Bnd (Cat stop_loss_re (Cat of_at_re (Cat (many1 space) PERCENT_VALUE)));
   Cat Bnd (Cat (opt (Cat (text_ic "the") (many1 space)))
     (Cat (text_ic "position") (Cat (many1 space) (Cat lose_re (Cat (many1 space) PERCENT_VALUE)))))].

Definition TAKE_PROFIT_PATTERNS : list regex :=
  [Cat PERCENT_VALUE (Cat (many1 space) (Cat take_profit_re Bnd));
   Cat Bnd (Cat take_profit_re (Cat of_at_re (Cat (many1 space) PERCENT_VALUE)));
   Cat Bnd (Cat gain_re (Cat (many1 space) PERCENT_VALUE))].

Definition stop_loss_phrase : regex :=
  Or (Cat Bnd (Cat stop_loss_re Bnd))
    (Or (Cat Bnd (Cat (text_ic "position") (Cat (many1 space) (Cat lose_re Bnd))))
        (Cat Bnd (Cat (text_ic "tight") (Cat (many1 space) (Cat (text_ic "stop") Bnd))))).

Definition take_profit_phrase : regex :=
  Or (Cat Bnd (Cat take_profit_re Bnd)) (Cat Bnd (Cat gain_re Bnd)).

(** A number followed by [-day], [day] or a slash. *)
Definition period_re : regex :=
  Cat Bnd (Cat (many1 digit) (Cat (Many space)
    (Cat (Or (Cat (opt (text "-")) (Cat (text "day") Bnd)) (text "/")) (Cat (Many space) (Many digit))))).

(** Two numbers around a slash, groups 1 and 2, an optional [day], [crossover]. *)
Definition shorthand_re : regex :=
  Cat Bnd (Cat (Grp 1 (many1 digit)) (Cat (Many space) (Cat (text "/") (Cat (Many space)
    (Cat (Grp 2 (many1 digit)) (Cat (Many space)
      (Cat (opt (Cat (text "day") (Many space))) (Cat (text "crossover") Bnd)))))))).

(** ** Risk controls *)
Record RiskControls : Type := mkRisk {
  rc_stop_loss_percent : option pydecimal; rc_take_profit_percent : option pydecimal }.

(** [==] and [<=] of Decimals that are not NaN. *)
Definition py_eq (x y : pydecimal) : bool :=
  match x, y with
  | Finite a, Finite b => dle a b && dle b a
  | Infinity a, Infinity b => Bool.eqb a b
  | _, _ => false
  end.
Definition py_le (x y : pydecimal) : bool :=
  match x, y with
  | Finite a, Finite b => dle a b
  | Infinity a, Infinity b => a || negb b
  | Infinity a, Finite _ => a
  | Finite _, Infinity b => negb b
  | _, _ => false
  end.

(** [values.add(v)]: the set keeps the element it has. *)
Definition set_add (values : list pydecimal) (v : pydecimal) : list pydecimal :=
  if existsb (py_eq v) values then values else values ++ [v].

(** [sorted(values)] *)
Fixpoint insert_sorted (v : pydecimal) (l : list pydecimal) : list pydecimal :=
  match l with [] => [v] | x :: l' => if py_le v x then v :: l else x :: insert_sorted v l' end.
Definition sorted_values (values : list pydecimal) : list pydecimal := foldr insert_sorted [] values.

Definition add_match (label : string) (values : list pydecimal) (m : mstate) : result (list pydecimal) :=
  match decimal_of_string (group 1 m) with
  | Ok v => Ok (set_add values v)
  | Err InvalidOperation => Err (StrategyValidationError (label +:+ " must be an explicit percentage."))
  | Err e => Err e
  end.

Definition collect_values (patterns : list regex) (label : string) (strategy_text : string)
    : result (list pydecimal) :=
  foldM (λ values pattern, foldM (add_match label) values (finditer pattern strategy_text)) [] patterns.

Definition explicit_percentage_error (label : string) : exn :=
  StrategyValidationError
    (label +:+ " must be an explicit percentage greater than 0% and no greater than 50%.").

Definition extract_control_percent (strategy_text : string) (patterns : list regex)
    (phrase_pattern : regex) (label : string) : result (option pydecimal) :=
  values ← collect_values patterns label strategy_text;
  match values with
  | _ :: _ :: _ =>
      let rendered := str_join ", " ((λ v, pydecimal_str v +:+ "%") <$> sorted_values values) in
      Err (StrategyValidationError
             ("Conflicting " +:+ str_lower label +:+ " percentages were provided: " +:+ rendered +:+ "."))
  | [value] => _ ← validate_risk_percent (Some value) label; Ok (Some value)
  | [] => match search phrase_pattern strategy_text with
          | Some _ => Err (explicit_percentage_error label)
          | None => Ok None
          end
  end.

Definition extract_risk_controls (strategy_text : string) : result RiskControls :=
  stop_loss ← extract_control_percent strategy_text STOP_LOSS_PATTERNS stop_loss_phrase "Stop-loss";
  take_profit ← extract_control_percent strategy_text TAKE_PROFIT_PATTERNS take_profit_phrase "Take-profit";
  Ok (mkRisk stop_loss take_profit).

(** ** The gate on the text *)
Definition has_resolvable_moving_average (strategy_text : string) : bool :=
  match search period_re strategy_text with
  | Some _ => true
  | None => contains "golden cross" strategy_text || contains "death cross" strategy_text
  end.

Definition moving_average_error : exn :=
  StrategyValidationError "Specify moving-average periods, such as '50-day SMA' or '50/200 crossover'.".

Definition validate_strategy_text (strategy_text : string) : result unit :=
  let normalized_text := str_lower strategy_text in
  _ ← reject_phrase UNSUPPORTED_LANGUAGE normalized_text;
  _ ← reject_phrase AMBIGUOUS_LANGUAGE normalized_text;
  _ ← extract_risk_controls strategy_text;
  raise_if (contains "moving average" normalized_text && negb (has_resolvable_moving_average normalized_text))
    moving_average_error.

(** ** Shorthand *)
Record NormalizationHint : Type := mkHint {
  hint_name : string; short_period : Z; long_period : Z; bullish_entry : bool }.

(** [int(text)] of a run of digits: the interpreter refuses to convert more
    than 4300 of them. *)
Definition digits_limit_error : exn := ValueError "Exceeds the limit (4300 digits) for integer string conversion".

Definition int_of_digits (s : string) : result Z :=
  if 4300 <? Z.of_nat (String.length s) then Err digits_limit_error
  else Ok (Z.of_N (digits_value (to_chars s))).

Definition find_normalization_hint (strategy_text : string) : result (option NormalizationHint) :=
  let normalized_text := str_lower strategy_text in
  if contains "golden cross" normalized_text then Ok (Some (mkHint "golden cross" 50 200 true))
  else if contains "death cross" normalized_text then Ok (Some (mkHint "death cross" 50 200 false))
  else match search shorthand_re normalized_text with
       | Some shorthand =>
           short ← int_of_digits (group 1 shorthand);
           long ← int_of_digits (group 2 shorthand);
           Ok (Some (mkHint "crossover shorthand" short long true))
       | None => Ok None
       end.

(** The text's shorthand has a number the interpreter does not convert. *)
Definition unreadable_shorthand (strategy_text : string) : Prop :=
  let normalized_text := str_lower strategy_text in
  contains "golden cross" normalized_text = false ∧ contains "death cross" normalized_text = false ∧
  ∃ shorthand, search shorthand_re normalized_text = Some shorthand ∧
    (4300 < Z.of_nat (String.length (group 1 shorthand)) ∨ 4300 < Z.of_nat (String.length (group 2 shorthand))).

Lemma find_normalization_hint_outcome text :
  outcome (find_normalization_hint text)
    (λ _, ¬ unreadable_shorthand text)
    (λ e, e = digits_limit_error ∧ unreadable_shorthand text).
Proof.
  unfold find_normalization_hint, unreadable_shorthand, int_of_digits. cbv zeta.
  destruct (contains "golden cross" _); [simpl; naive_solver|].
  destruct (contains "death cross" _); [simpl; naive_solver|].
  destruct (search shorthand_re _) as [m|]; [|simpl; naive_solver].
  destruct (Z.ltb_spec 4300 (Z.of_nat (String.length (group 1 m)))); simpl; [eauto 10|].
  destruct (Z.ltb_spec 4300 (Z.of_nat (String.length (group 2 m)))); simpl; [eauto 10|].
  intros (_ & _ & m' & [= <-] & ?). lia.
Qed.

(** ** Lemmas: a matched number is a Decimal *)
Lemma lang_digits l : in_lang (many1 digit) l → l ≠ [] ∧ Forall (λ c, is_digit c = true) l.
Proof.
  intros (l1 & l2 & -> & (c & -> & Hc) & ls & -> & Hls). split; [done|]. constructor; [done|].
  induction Hls as [|x ls (c' & -> & Hc') _ IH]; [constructor|]. by constructor.
Qed.

Lemma parse_finite_digits neg ds :
  ds ≠ [] → Forall (λ c, is_digit c = true) ds → parse_finite neg ds = Some (Dec neg (digits_value ds) 0).
Proof.
  intros Hne Hds. pose proof (parse_finite_int neg ds 0 Hne Hds) as H.
  change (exponent_chars 0) with (@nil ascii) in H. by rewrite app_nil_r in H.
Qed.

Lemma parse_finite_fraction neg ds1 ds2 :
  ds1 ++ ds2 ≠ [] → Forall (λ c, is_digit c = true) ds1 → Forall (λ c, is_digit c = true) ds2 →
  ∃ d, parse_finite neg (ds1 ++ "."%char :: ds2) = Some d.
Proof.
  intros Hne H1 H2. unfold parse_finite. rewrite span_digits_app by done.
  change (Ascii.eqb "." ".") with true. cbn beta iota.
  pose proof (span_digits_app ds2 [] H2 I) as Hs. rewrite app_nil_r in Hs. rewrite Hs. cbn beta iota.
  destruct (ds1 ++ ds2) eqn:E; [done|]. by eexists.
Qed.

Lemma lang_number_body l neg :
  in_lang (Or (Cat (many1 digit) (opt (Cat dot_re (many1 digit)))) (Cat dot_re (many1 digit))) l →
  (∃ d, parse_finite neg l = Some d) ∧ Forall (λ c, plain c = true) l ∧
  (∃ c l', l = c :: l' ∧ (is_digit c = true ∨ c = "."%char)).
Proof.
  assert (∀ c, (Ascii.eqb c "." = true) → c = "."%char) as Hdot by (intros c; apply Ascii.eqb_eq).
  assert (∀ l, Forall (λ c, is_digit c = true) l → Forall (λ c, plain c = true) l) as Hplain.
  { intros k Hk. eapply Forall_impl; [exact Hk|]. apply digit_plain. }
  intros [(l1 & l2 & -> & H1 & H2)|(l1 & l2 & -> & (c & -> & ->%Hdot) & H2)].
  - apply lang_digits in H1 as [Hne H1]. assert (∃ c l', l1 = c :: l' ∧ (is_digit c = true ∨ c = "."%char)) as Hhead.
    { destruct l1 as [|c l1]; [done|]. apply Forall_cons_iff in H1 as [H1 _]. exists c, l1. auto. }
    destruct H2 as [(d1 & l2' & -> & (c & -> & ->%Hdot) & H2)|H2].
    + apply lang_digits in H2 as [_ H2]. split_and!.
      * apply parse_finite_fraction; [by destruct l1|done|done].
      * apply Forall_app. split; [by apply Hplain|]. constructor; [done|by apply Hplain].
      * destruct Hhead as (c & l' & -> & Hc). eexists c, _. split; [reflexivity|done].
    + simpl in H2. subst l2. rewrite app_nil_r. split_and!; [eexists; by apply parse_finite_digits|by apply Hplain|done].
  - apply lang_digits in H2 as [Hne H2]. split_and!.
    + by apply (parse_finite_fraction neg []).
    + constructor; [done|by apply Hplain].
    + exists "."%char, l2. auto.
Qed.

Lemma lang_number l : in_lang number_re l → ∃ d, decimal_of_string (of_chars l) = Ok (Finite d).
Proof.
  intros (sg & body & -> & Hsg & Hbody).
  assert (sg = [] ∨ sg = ["+"%char] ∨ sg = ["-"%char]) as Hs.
  { destruct Hsg as [(c & -> & Hc)| ->]; [|by left]. apply orb_true_iff in Hc as [->%Ascii.eqb_eq| ->%Ascii.eqb_eq]; auto. }
  assert (Forall (λ c, plain c = true) (sg ++ body)) as Hp.
  { apply Forall_app. split; [destruct Hs as [->|[->| ->]]; repeat constructor|apply (lang_number_body body false Hbody)]. }
  unfold decimal_of_string. rewrite to_of_chars, plain_chars by done. unfold parse_decimal_chars.
  assert (∃ neg, span_sign (sg ++ body) = (neg, body)) as [neg ->].
  { destruct Hs as [->|[->| ->]]; [|by eexists..]. destruct (lang_number_body body false Hbody) as (_ & _ & c & l & -> & [Hc| ->]).
    - exists false. by apply span_sign_digits.
    - by exists false. }
  destruct (lang_number_body body neg Hbody) as [[d ->] _]. by exists d.
Qed.

(** Every pattern captures exactly a number. *)
Lemma pattern_number p t m :
  p ∈ STOP_LOSS_PATTERNS ++ TAKE_PROFIT_PATTERNS → match_of p t m →
  ∃ d, decimal_of_string (group 1 m) = Ok (Finite d).
Proof.
  intros Hp Hm. destruct (group_in_lang p 1 number_re t m Hm) as (l & -> & Hl); [| |by apply lang_number].
  - repeat (apply elem_of_cons in Hp as [->|Hp]; [reflexivity|]). by apply not_elem_of_nil in Hp.
  - intros x Hx.
    repeat (apply elem_of_cons in Hp as [->|Hp];
      [change (group_bodies _) with [(1%nat, number_re)] in Hx; apply list_elem_of_singleton in Hx; congruence|]).
    by apply not_elem_of_nil in Hp.
Qed.

(** ** Lemmas: the collected values *)

(** The text states [d] percent for one of the patterns. *)
Definition stated (patterns : list regex) (t : string) (d : decimal) : Prop :=
  ∃ p m, p ∈ patterns ∧ m ∈ finditer p t ∧ decimal_of_string (group 1 m) = Ok (Finite d).

Lemma py_eq_finite a b : py_eq (Finite a) (Finite b) = true ↔ (dval a == dval b)%Q.
Proof.
  simpl. rewrite andb_true_iff, !dle_val. split; [intros []; by apply Qle_antisym|].
  intros ->. split; apply Qle_refl.
Qed.

(** The values are stated numbers, no two equal, and every stated one is
    represented. *)
Record represents_values (S : decimal → Prop) (values : list pydecimal) : Prop := mkRep {
  rv_sound : ∀ v, v ∈ values → ∃ d, v = Finite d ∧ S d;
  rv_complete : ∀ d, S d → ∃ d', Finite d' ∈ values ∧ (dval d == dval d')%Q;
  rv_distinct : ∀ d d', [Finite d; Finite d'] ⊆+ values → ¬ (dval d == dval d')%Q }.

Lemma set_add_represents S values d :
  represents_values S values → represents_values (λ x, S x ∨ x = d) (set_add values (Finite d)).
Proof.
  intros [Hs Hc Hd]. unfold set_add. destruct (existsb (py_eq (Finite d)) values) eqn:E.
  - apply existsb_exists in E as (v & Hv & E). apply list_elem_of_In in Hv.
    destruct (Hs v Hv) as (d' & -> & _). apply py_eq_finite in E. constructor.
    + intros v Hv'. destruct (Hs v Hv') as (x & -> & ?). eauto.
    + intros x [Hx| ->]; [by apply Hc|by exists d'].
    + done.
  - assert (∀ d', Finite d' ∈ values → ¬ (dval d == dval d')%Q) as Hne.
    { intros d' Hd' Heq. apply py_eq_finite in Heq. apply list_elem_of_In in Hd'.
      assert (existsb (py_eq (Finite d)) values = true); [|congruence]. apply existsb_exists. eauto. }
    constructor.
    + intros v [Hv|Hv]%elem_of_app.
      * destruct (Hs v Hv) as (x & -> & ?). eauto.
      * apply list_elem_of_singleton in Hv as ->. eauto.
    + intros x [Hx| ->].
      * destruct (Hc x Hx) as (d' & Hd' & ?). exists d'. split; [|done]. apply elem_of_app. by left.
      * exists d. split; [|reflexivity]. apply elem_of_app. right. by apply list_elem_of_singleton.
    + intros x y Hsub. rewrite Permutation_app_comm in Hsub. simpl in Hsub.
      apply submseteq_cons_r in Hsub as [Hsub|(k & Hk & Hsub)]; [by apply Hd|].
      assert (∀ z, [Finite z] ⊆+ values → Finite z ∈ values) as Hin.
      { intros z Hz. eapply elem_of_submseteq; [|exact Hz]. by left. }
      apply Permutation_length_2_inv in Hk as [[= -> ->]|[= -> ->]].
      * intros Heq. by apply (Hne y); [apply Hin|].
      * intros Heq. apply (Hne x); [by apply Hin|]. by symmetry.
Qed.

Lemma represents_ext S S' values :
  (∀ d, S d ↔ S' d) → represents_values S values → represents_values S' values.
Proof.
  intros HS [Hs Hc Hd]. constructor; [|intros d Hx; apply Hc; by apply HS|done].
  intros v Hv. destruct (Hs v Hv) as (d & -> & ?). exists d. split; [done|]. by apply HS.
Qed.

Lemma add_matches_represents label S values ms :
  (∀ m, m ∈ ms → ∃ d, decimal_of_string (group 1 m) = Ok (Finite d)) → represents_values S values →
  ∃ values', foldM (add_match label) values ms = Ok values' ∧
    represents_values (λ d, S d ∨ ∃ m, m ∈ ms ∧ decimal_of_string (group 1 m) = Ok (Finite d)) values'.
Proof.
  revert S values. induction ms as [|m ms IH]; intros S values Hms Hr; cbn [foldM].
  - exists values. split; [done|]. eapply represents_ext; [|exact Hr]. intros d. split; [by left|].
    intros [?|(m & Hm & _)]; [done|by apply not_elem_of_nil in Hm].
  - destruct (Hms m) as [d Hd]; [by left|]. unfold add_match at 2. rewrite Hd. cbn [mbind result_bind].
    destruct (IH _ _ (λ m' Hm', Hms m' (list_elem_of_further m' m ms Hm')) (set_add_represents S values d Hr)) as (v' & Hv' & Hr').
    exists v'. split; [exact Hv'|]. eapply represents_ext; [|exact Hr']. intros x. setoid_rewrite elem_of_cons. split.
    + intros [[?| ->]|(m' & ? & ?)]; [by left|right; eauto|right; eauto].
    + intros [?|(m' & [->|?] & Hx)]; [by left; left| |right; eauto].
      left. right. congruence.
Qed.

Lemma collect_values_represents patterns label t :
  (∀ p, p ∈ patterns → p ∈ STOP_LOSS_PATTERNS ++ TAKE_PROFIT_PATTERNS) →
  ∃ values, collect_values patterns label t = Ok values ∧ represents_values (stated patterns t) values.
Proof.
  intros Hp. unfold collect_values.
  assert (∀ S values, represents_values S values → ∃ values',
    foldM (λ values pattern, foldM (add_match label) values (finditer pattern t)) values patterns = Ok values' ∧
    represents_values (λ d, S d ∨ stated patterns t d) values') as H.
  { induction patterns as [|p patterns IH]; intros S values Hr; cbn [foldM].
    - exists values. split; [done|]. eapply represents_ext; [|exact Hr]. intros d. split; [by left|].
      intros [?|(p & m & Hpm & _)]; [done|by apply not_elem_of_nil in Hpm].
    - destruct (add_matches_represents label S values (finditer p t)) as (v1 & -> & Hr1); [|done|].
      { intros m Hm. apply (pattern_number p t); [apply Hp; by left|by apply finditer_sound]. }
      cbn [mbind result_bind]. destruct (IH (λ q Hq, Hp q (list_elem_of_further q p patterns Hq)) _ v1 Hr1) as (v2 & -> & Hr2).
      exists v2. split; [done|]. eapply represents_ext; [|exact Hr2]. intros d. unfold stated. setoid_rewrite elem_of_cons.
      clear. split.
      + intros [[?|(m & ? & ?)]|(q & m & ? & ? & ?)]; [by left|right; exists p, m; auto|right; exists q, m; auto].
      + intros [?|(q & m & [->|?] & ? & ?)]; [by left; left|left; right; eauto|right; eauto]. }
  destruct (H (λ _, False) []) as (values & Hv & Hr).
  { constructor; [intros v Hv; by apply not_elem_of_nil in Hv|done|]. intros d d' Hs. by apply submseteq_length in Hs; simpl in Hs; lia. }
  exists values. split; [done|]. eapply represents_ext; [|exact Hr]. tauto.
Qed.

(** ** What the extraction promises *)
Definition acceptable (d : decimal) : Prop := (0 < dval d <= 50)%Q.

Definition control_spec (patterns : list regex) (phrase : regex) (t : string) (r : result (option pydecimal)) : Prop :=
  match r with
  | Ok None => (∀ p, p ∈ patterns → ¬ occurs p t) ∧ ¬ occurs phrase t
  | Ok (Some v) => ∃ d, v = Finite d ∧ stated patterns t d ∧ acceptable d ∧
                     ∀ d', stated patterns t d' → (dval d' == dval d)%Q
  | Err e => (∃ msg, e = StrategyValidationError msg) ∧
      ((∃ d d', stated patterns t d ∧ stated patterns t d' ∧ ¬ (dval d == dval d')%Q) ∨
       (∃ d, stated patterns t d ∧ ¬ acceptable d) ∨
       ((∀ p, p ∈ patterns → ¬ occurs p t) ∧ occurs phrase t))
  end.

Lemma extract_control_spec patterns phrase label t :
  (∀ p, p ∈ patterns → p ∈ STOP_LOSS_PATTERNS ++ TAKE_PROFIT_PATTERNS) →
  control_spec patterns phrase t (extract_control_percent t patterns phrase label).
Proof.
  intros Hp. unfold extract_control_percent.
  destruct (collect_values_represents patterns label t Hp) as (values & -> & [Hs Hc Hd]). cbn [mbind result_bind].
  destruct values as [|v [|v' values]].
  - assert (∀ p, p ∈ patterns → ¬ occurs p t) as Hno.
    { intros p Hpp. apply finditer_nil. destruct (finditer p t) as [|m ms] eqn:E; [done|]. exfalso.
      assert (m ∈ finditer p t) as Hm by (rewrite E; by left).
      destruct (pattern_number p t m) as [d Hdd]; [by apply Hp|by apply finditer_sound|].
      destruct (Hc d) as (d' & Hd' & _); [by exists p, m|]. by apply not_elem_of_nil in Hd'. }
    destruct (search phrase t) as [m|] eqn:E.
    + split; [by eexists|]. right. right. split; [done|]. apply search_spec. eauto.
    + split; [done|]. rewrite <- search_spec. intros [s Hss]. congruence.
  - destruct (Hs v) as (d & -> & Hsd); [by left|].
    pose proof (validate_risk_percent_iff (Some (Finite d)) label) as Hv.
    destruct (validate_risk_percent (Some (Finite d)) label) as [[]|e] eqn:E.
    + exists d. split_and!; [done|done|by apply Hv|]. intros d' Hd'. destruct (Hc d' Hd') as (x & Hx & Heq).
      apply list_elem_of_singleton in Hx as [= ->]. done.
    + simpl in E. unfold raise_if in E. destruct (_ || _); [|done]. injection E as <-.
      split; [by eexists|]. right. left. exists d. split; [done|]. intros Ha. by apply Hv in Ha.
  - destruct (Hs v) as (d & -> & Hsd); [by left|]. destruct (Hs v') as (d' & -> & Hsd'); [by right; left|].
    split; [by eexists|]. left. exists d, d'. split_and!; [done|done|]. apply Hd.
    by apply submseteq_skip, submseteq_skip, submseteq_nil_l.
Qed.

Lemma extract_risk_controls_error t e : extract_risk_controls t = Err e → ∃ msg, e = StrategyValidationError msg.
Proof.
  unfold extract_risk_controls. intros H.
  pose proof (extract_control_spec STOP_LOSS_PATTERNS stop_loss_phrase "Stop-loss" t) as H1.
  pose proof (extract_control_spec TAKE_PROFIT_PATTERNS take_profit_phrase "Take-profit" t) as H2.
  apply bind_Err_inv in H as [H|(a & _ & H)].
  - rewrite H in H1. destruct H1 as [Hm _]; [intros p Hp; apply elem_of_app; by left|exact Hm].
  - apply bind_Err_inv in H as [H|(b & _ & H)]; [|done].
    rewrite H in H2. destruct H2 as [Hm _]; [intros p Hp; apply elem_of_app; by right|exact Hm].
Qed.

(** ** The theorems *)

(** C25: Risk controls are read faithfully: a control that is returned is a
    percentage the text states after or before its phrase, in (0, 50], and every
    other statement of it agrees; none is returned only when neither a stated
    percentage nor the phrase occurs; and the only error is
    StrategyValidationError, for conflicting or unacceptable percentages or a
    phrase without one.  In particular Decimal never rejects a match. *)
Theorem risk_controls_spec (t : string) :
  control_spec STOP_LOSS_PATTERNS stop_loss_phrase t
    (extract_control_percent t STOP_LOSS_PATTERNS stop_loss_phrase "Stop-loss") ∧
  control_spec TAKE_PROFIT_PATTERNS take_profit_phrase t
    (extract_control_percent t TAKE_PROFIT_PATTERNS take_profit_phrase "Take-profit") ∧
  match extract_risk_controls t with
  | Ok rc => control_spec STOP_LOSS_PATTERNS stop_loss_phrase t (Ok (rc_stop_loss_percent rc)) ∧
             control_spec TAKE_PROFIT_PATTERNS take_profit_phrase t (Ok (rc_take_profit_percent rc))
  | Err e => control_spec STOP_LOSS_PATTERNS stop_loss_phrase t (Err e) ∨
             control_spec TAKE_PROFIT_PATTERNS take_profit_phrase t (Err e)
  end.
Proof.
  assert (∀ p, p ∈ STOP_LOSS_PATTERNS → p ∈ STOP_LOSS_PATTERNS ++ TAKE_PROFIT_PATTERNS) as H1
    by (intros p Hp; apply elem_of_app; by left).
  assert (∀ p, p ∈ TAKE_PROFIT_PATTERNS → p ∈ STOP_LOSS_PATTERNS ++ TAKE_PROFIT_PATTERNS) as H2
    by (intros p Hp; apply elem_of_app; by right).
  pose proof (extract_control_spec STOP_LOSS_PATTERNS stop_loss_phrase "Stop-loss" t H1) as Hs.
  pose proof (extract_control_spec TAKE_PROFIT_PATTERNS take_profit_phrase "Take-profit" t H2) as Ht.
  split; [exact Hs|]. split; [exact Ht|]. unfold extract_risk_controls.
  destruct (extract_control_percent t STOP_LOSS_PATTERNS _ _) as [sl|e]; [|by left]. cbn [mbind result_bind].
  destruct (extract_control_percent t TAKE_PROFIT_PATTERNS _ _) as [tp|e]; [by split|by right].
Qed.

(** *** The gate *)

(** [p] is a substring of [s]. *)
Definition substring_of (p s : string) : Prop := ∃ a b, s = a +:+ p +:+ b.

Lemma prefix_spec p s : String.prefix p s = true ↔ ∃ b, s = p +:+ b.
Proof.
  revert s. induction p as [|c p IH]; intros s; simpl.
  - split; [intros _; by exists s|by destruct s].
  - destruct s as [|c' s]; [split; [done|by intros [b Hb]]|].
    cbn [String.prefix]. destruct (ascii_dec c c') as [<-|Hne].
    + rewrite IH. split; intros [b Hb]; exists b; [by rewrite Hb|by injection Hb].
    + split; [done|]. intros [b Hb]. injection Hb as -> _. done.
Qed.

Lemma contains_spec p s : contains p s = true ↔ substring_of p s.
Proof.
  unfold substring_of. induction s as [|c s IH]; cbn [contains]; rewrite orb_true_iff, prefix_spec.
  - split.
    + intros [[b Hb]|H]; [exists EmptyString, b; exact Hb|discriminate].
    + intros (a & b & H). left. exists b. destruct a; [done|discriminate].
  - rewrite IH. split.
    + intros [[b Hb]|(a & b & ->)]; [exists EmptyString, b; exact Hb|by exists (String c a), b].
    + intros (a & b & H). destruct a as [|c' a]; [left; by exists b|].
      right. exists a, b. by injection H.
Qed.

Lemma reject_phrase_spec table s :
  match reject_phrase table s with
  | Ok _ => ∀ phrase message, (phrase, message) ∈ table → ¬ substring_of phrase s
  | Err e => ∃ phrase message, (phrase, message) ∈ table ∧ substring_of phrase s ∧ e = StrategyValidationError message
  end.
Proof.
  induction table as [|[p msg] table IH]; cbn [reject_phrase]; [intros ? ? H; by apply not_elem_of_nil in H|].
  destruct (contains p s) eqn:E.
  - exists p, msg. split_and!; [by left|by apply contains_spec|done].
  - destruct (reject_phrase table s).
    + intros q m [[= -> ->]|H]%elem_of_cons; [|by eapply IH]. intros Hs. apply contains_spec in Hs. congruence.
    + destruct IH as (q & m & ? & ? & ?). exists q, m. split_and!; [by right|done|done].
Qed.

Lemma validate_strategy_text_error t e : validate_strategy_text t = Err e → is_validation_error e.
Proof.
  unfold validate_strategy_text. intros H.
  pose proof (reject_phrase_spec UNSUPPORTED_LANGUAGE (str_lower t)) as Hu.
  pose proof (reject_phrase_spec AMBIGUOUS_LANGUAGE (str_lower t)) as Ha.
  apply bind_Err_inv in H as [H|([] & _ & H)]; [rewrite H in Hu; by destruct Hu as (? & ? & _ & _ & ->)|].
  apply bind_Err_inv in H as [H|([] & _ & H)]; [rewrite H in Ha; by destruct Ha as (? & ? & _ & _ & ->)|].
  apply bind_Err_inv in H as [H|(rc & _ & H)]; [by destruct (extract_risk_controls_error _ _ H) as [? ->]|].
  by apply raise_if_Err in H as [_ ->].
Qed.

Definition all_phrases : list (string * string) := UNSUPPORTED_LANGUAGE ++ AMBIGUOUS_LANGUAGE.

(** The gate accepts a text exactly when, in lower case, it contains no
    unsupported or ambiguous phrase, its risk controls can be read, and a
    mention of a moving average comes with a period or a named cross; it
    rejects every other text with StrategyValidationError. *)
Theorem validate_strategy_text_spec (t : string) :
  let lower := str_lower t in
  (validate_strategy_text t = Ok () ↔
     (∀ phrase message, (phrase, message) ∈ all_phrases → ¬ substring_of phrase lower) ∧
     is_ok (extract_risk_controls t) = true ∧
     (substring_of "moving average" lower →
        occurs period_re lower ∨ substring_of "golden cross" lower ∨ substring_of "death cross" lower)) ∧
  (validate_strategy_text t = Ok () ∨ ∃ message, validate_strategy_text t = Err (StrategyValidationError message)).
Proof.
  cbv zeta. unfold validate_strategy_text, all_phrases.
  pose proof (reject_phrase_spec UNSUPPORTED_LANGUAGE (str_lower t)) as Hu.
  pose proof (reject_phrase_spec AMBIGUOUS_LANGUAGE (str_lower t)) as Ha.
  destruct (reject_phrase UNSUPPORTED_LANGUAGE _) as [[]|e]; cbn [mbind result_bind].
  2:{ destruct Hu as (p & m & Hp & Hs & ->). split; [|right; by eexists]. split; [done|].
      intros [H _]. exfalso. apply (H p m); [apply elem_of_app; by left|done]. }
  destruct (reject_phrase AMBIGUOUS_LANGUAGE _) as [[]|e]; cbn [mbind result_bind].
  2:{ destruct Ha as (p & m & Hp & Hs & ->). split; [|right; by eexists]. split; [done|].
      intros [H _]. exfalso. apply (H p m); [apply elem_of_app; by right|done]. }
  assert (∀ phrase message, (phrase, message) ∈ UNSUPPORTED_LANGUAGE ++ AMBIGUOUS_LANGUAGE →
            ¬ substring_of phrase (str_lower t)) as Hp.
  { intros p m [H|H]%elem_of_app; eauto. }
  destruct (extract_risk_controls t) as [rc|e] eqn:Er; cbn [mbind result_bind is_ok].
  2:{ destruct (extract_risk_controls_error _ _ Er) as [msg ->].
      split; [split; [done|by intros (_ & ? & _)]|]. right. by eexists. }
  rewrite <- !contains_spec, <- search_spec. unfold has_resolvable_moving_average.
  destruct (contains "moving average" (str_lower t)), (search period_re (str_lower t)) as [m|],
    (contains "golden cross" (str_lower t)), (contains "death cross" (str_lower t)); cbn;
    (split; [|first [by left|right; by eexists]]); (split; [try done; eauto 10|]); try done;
    intros (_ & _ & H); destruct (H eq_refl) as [[? ?]|[|]]; done.
Qed.

(** The gate looks for substrings, so it rejects words that contain a phrase. *)
Example reversion_rejected_as_rsi :
  validate_strategy_text "Buy on mean reversion below the 20 day SMA" =
  Err (StrategyValidationError "RSI is not supported in version 1.").
Proof. by vm_compute. Qed.
