(* ===== verification/Config.v ===== *)
(** * Settings ([backend/app/core/config.py])

    The settings as a record, after their values have been read from the
    environment.  URLs are given by the parts the validators look at, as
    [urlsplit] and pydantic's URL types return them; floats are rationals. *)

From S2P Require Import Prelude Text.
From Stdlib Require Import ZArith QArith Lia.
From stdpp Require Import base list option strings.
Local Open Scope Z_scope.

Inductive Environment : Type := LOCAL | TEST | STAGING | PRODUCTION.
#[global] Instance Environment_eq_dec : EqDecision Environment.
Proof. solve_decision. Defined.

(** [urlsplit(url)]: [hostname], [port], [password]. *)
Record UrlParts : Type := mkUrl {
  url_hostname : option string;
  url_port : option Z;
  url_password : option string }.

Record Settings : Type := mkSettings {
  environment : Environment;
  log_level : string;
  database_url : UrlParts;
  database_connect_timeout_seconds : Z;
  database_pool_size : Z;
  database_max_overflow : Z;
  database_pool_timeout_seconds : Z;
  database_pool_recycle_seconds : Z;
  redis_connect_timeout_seconds : Q;
  redis_socket_timeout_seconds : Q;
  redis_connection_retries : Z;
  supabase_url : UrlParts;
  supabase_anon_key : string;
  cors_origins : list UrlParts;
  openai_api_key : option string;
  openai_model : option string;
  preview_job_ttl_hours : Z;
  preview_job_timeout_seconds : Z;
  preview_job_max_retries : Z;
  preview_job_retry_intervals_seconds : list Z;
  preview_job_result_ttl_seconds : Z;
  preview_job_failure_ttl_seconds : Z;
  preview_job_stale_after_seconds : Z;
  preview_job_reconciliation_batch_size : Z;
  preview_job_registry_scan_limit : Z;
  preview_job_lock_wait_seconds : Q;
  preview_queue_name : string }.

(** ** Field constraints *)

(** [Field(gt=0, le=hi)] and [Field(ge=0, le=hi)] *)
Definition gt0_le (hi v : Z) : bool := (0 <? v) && (v <=? hi).
Definition ge0_le (hi v : Z) : bool := (0 <=? v) && (v <=? hi).
Definition gt0_leQ (hi : Z) (v : Q) : bool := negb (Qle_bool v 0) && Qle_bool v (inject_Z hi).

Definition log_levels : list string := ["DEBUG"; "INFO"; "WARNING"; "ERROR"; "CRITICAL"]%string.

Definition settings_fields_ok (s : Settings) : bool :=
  bool_decide (log_level s ∈ log_levels) &&
  gt0_le 30 (database_connect_timeout_seconds s) && gt0_le 50 (database_pool_size s) &&
  ge0_le 50 (database_max_overflow s) && gt0_le 60 (database_pool_timeout_seconds s) &&
  gt0_le 3600 (database_pool_recycle_seconds s) &&
  gt0_leQ 30 (redis_connect_timeout_seconds s) && gt0_leQ 60 (redis_socket_timeout_seconds s) &&
  ge0_le 10 (redis_connection_retries s) &&
  gt0_le 168 (preview_job_ttl_hours s) && gt0_le 3600 (preview_job_timeout_seconds s) &&
  ge0_le 10 (preview_job_max_retries s) &&
  (0 <=? preview_job_result_ttl_seconds s) && (0 <? preview_job_failure_ttl_seconds s) &&
  gt0_le 86400 (preview_job_stale_after_seconds s) &&
  gt0_le 1000 (preview_job_reconciliation_batch_size s) &&
  gt0_le 10000 (preview_job_registry_scan_limit s) &&
  gt0_leQ 30 (preview_job_lock_wait_seconds s).

(** ** Validators *)
Definition validate_retry_intervals (intervals : list Z) : result (list Z) :=
  if existsb (λ interval, interval <? 0) intervals
  then Err (ValueError "preview job retry intervals must be nonnegative")
  else Ok intervals.

Definition validate_retry_configuration (s : Settings) : result Settings :=
  if Z.of_nat (length (preview_job_retry_intervals_seconds s)) <? preview_job_max_retries s
  then Err (ValueError "preview job retry intervals must cover every configured retry")
  else Ok s.

Definition local_hosts : list string := ["localhost"; "127.0.0.1"; "::1"; "host.docker.internal"]%string.
Definition placeholder_markers : list string :=
  ["replace_me"; "replace-with"; "replace_with"; "project_ref"]%string.

Definition has_marker (text : string) : bool := existsb (λ marker, contains marker text) placeholder_markers.

(** [s.endswith(p)] *)
Definition endswith (p s : string) : bool :=
  bool_decide (drop (String.length s - String.length p) (to_chars s) = to_chars p).

(** [value or ""] *)
Definition or_empty (v : option string) : string := default EmptyString v.

Definition required_values (s : Settings) : list (string * option string) :=
  [("DATABASE_URL password", url_password (database_url s));
   ("SUPABASE_ANON_KEY", Some (supabase_anon_key s));
   ("OPENAI_API_KEY", openai_api_key s);
   ("OPENAI_MODEL", openai_model s)]%string.

Definition check_required (u : unit) (item : string * option string) : result unit :=
  let normalized := str_lower (strip (or_empty item.2)) in
  if String.eqb normalized EmptyString || has_marker normalized
  then Err (ValueError (String.append "production " (String.append item.1 " must be configured")))
  else Ok u.

Definition validate_production_configuration (s : Settings) : result Settings :=
  if negb (bool_decide (environment s = PRODUCTION)) then Ok s
  else
    let database_parts := database_url s in
    let database_host := str_lower (or_empty (url_hostname database_parts)) in
    let supabase_host := str_lower (or_empty (url_hostname (supabase_url s))) in
    if bool_decide (database_host ∈ local_hosts) || bool_decide (url_port database_parts = Some 54322)
       || has_marker database_host
    then Err (ValueError "production DATABASE_URL must use hosted PostgreSQL")
    else if bool_decide (supabase_host ∈ local_hosts) || endswith ".localhost" supabase_host
       || has_marker supabase_host
    then Err (ValueError "production SUPABASE_URL must use hosted Supabase")
    else if existsb (λ origin, match url_hostname origin with
                               | Some host => endswith ".example.com" (str_lower host)
                               | None => false
                               end) (cors_origins s)
    then Err (ValueError "production CORS_ORIGINS must use deployed frontend origins")
    else _ ← foldM check_required () (required_values s); Ok s.

(** [Settings()]: pydantic turns a validator's ValueError into a
    ValidationError. *)
Definition as_validation_error {A} (m : result A) : result A :=
  match m with Ok a => Ok a | Err _ => Err ValidationError end.

Definition load_settings (s : Settings) : result Settings :=
  as_validation_error
    (_ ← raise_if (negb (settings_fields_ok s)) ValidationError;
     _ ← validate_retry_intervals (preview_job_retry_intervals_seconds s);
     s ← validate_retry_configuration s;
     validate_production_configuration s).

(** ** The contract *)

(** A value an operator must have filled in. *)
Definition filled_in (v : option string) : Prop :=
  str_lower (strip (or_empty v)) ≠ EmptyString ∧ has_marker (str_lower (strip (or_empty v))) = false.

Definition retries_covered (s : Settings) : Prop :=
  Forall (λ i, 0 <= i) (preview_job_retry_intervals_seconds s) ∧
  0 <= preview_job_max_retries s <= Z.of_nat (length (preview_job_retry_intervals_seconds s)).

Definition hosted (s : Settings) : Prop :=
  str_lower (or_empty (url_hostname (database_url s))) ∉ local_hosts ∧
  url_port (database_url s) ≠ Some 54322 ∧
  has_marker (str_lower (or_empty (url_hostname (database_url s)))) = false ∧
  str_lower (or_empty (url_hostname (supabase_url s))) ∉ local_hosts ∧
  endswith ".localhost" (str_lower (or_empty (url_hostname (supabase_url s)))) = false ∧
  has_marker (str_lower (or_empty (url_hostname (supabase_url s)))) = false ∧
  (∀ origin host, origin ∈ cors_origins s → url_hostname origin = Some host →
     endswith ".example.com" (str_lower host) = false) ∧
  filled_in (url_password (database_url s)) ∧ filled_in (Some (supabase_anon_key s)) ∧
  filled_in (openai_api_key s) ∧ filled_in (openai_model s).

(** ** Lemmas *)
Lemma intervals_ok l : validate_retry_intervals l = Ok l ↔ Forall (λ i, 0 <= i) l.
Proof.
  unfold validate_retry_intervals. destruct (existsb _ l) eqn:He.
  - split; [done|]. intros Hl. apply existsb_exists in He as (x & Hx & Hlt). rewrite Forall_forall in Hl.
    apply Z.ltb_lt in Hlt. apply list_elem_of_In in Hx. apply Hl in Hx. lia.
  - split; [intros _|done]. apply Forall_forall. intros x Hx. apply list_elem_of_In in Hx.
    destruct (Z.ltb_spec x 0) as [Hlt|]; [|lia].
    assert (existsb (λ i, i <? 0) l = true) as Ht; [|congruence].
    apply existsb_exists. exists x. split; [done|by apply Z.ltb_lt].
Qed.

Lemma check_required_ok item u : check_required u item = Ok u ↔ filled_in item.2.
Proof.
  unfold check_required, filled_in. destruct (String.eqb_spec (str_lower (strip (or_empty item.2))) EmptyString) as [E|E].
  - rewrite E. simpl. split; [done|by intros []].
  - simpl. destruct (has_marker _); split; try done. by intros [].
Qed.

Lemma required_ok s :
  is_ok (foldM check_required () (required_values s)) = true ↔
  filled_in (url_password (database_url s)) ∧ filled_in (Some (supabase_anon_key s)) ∧
  filled_in (openai_api_key s) ∧ filled_in (openai_model s).
Proof.
  assert (∀ l, is_ok (foldM check_required () l) = true ↔ Forall (λ item, filled_in item.2) l) as H.
  { induction l as [|item l IH]; simpl; [done|]. rewrite Forall_cons_iff, <- IH, <- (check_required_ok item ()).
    destruct (check_required () item) as [[]|e]; simpl; [tauto|]. split; [done|by intros []]. }
  rewrite H. unfold required_values. rewrite !Forall_cons_iff, Forall_nil. simpl. tauto.
Qed.

Lemma cors_ok s :
  existsb (λ origin, match url_hostname origin with
                     | Some host => endswith ".example.com" (str_lower host)
                     | None => false
                     end) (cors_origins s) = false ↔
  (∀ origin host, origin ∈ cors_origins s → url_hostname origin = Some host →
     endswith ".example.com" (str_lower host) = false).
Proof.
  induction (cors_origins s) as [|o l IH]; simpl; [split; [intros _ ? ? H; by apply not_elem_of_nil in H|done]|].
  rewrite orb_false_iff, IH. split.
  - intros [H1 H2] origin host [->|Ho]%elem_of_cons Hh; [by rewrite Hh in H1|eauto].
  - intros H. split; [|intros origin host Ho Hh; apply (H origin host); [by right|done]].
    destruct (url_hostname o) as [h|] eqn:Hh; [|done]. apply (H o h); [by left|done].
Qed.

Lemma production_ok s :
  validate_production_configuration s = Ok s ↔ (environment s = PRODUCTION → hosted s).
Proof.
  unfold validate_production_configuration. destruct (decide (environment s = PRODUCTION)) as [E|E].
  2:{ rewrite bool_decide_eq_false_2 by done. simpl. tauto. }
  rewrite bool_decide_eq_true_2 by done. cbn [negb]. unfold hosted.
  rewrite <- required_ok, <- cors_ok.
  destruct (bool_decide_reflect (str_lower (or_empty (url_hostname (database_url s))) ∈ local_hosts)); [simpl; naive_solver|].
  destruct (bool_decide_reflect (url_port (database_url s) = Some 54322)); [simpl; naive_solver|].
  destruct (has_marker (str_lower (or_empty (url_hostname (database_url s))))); [simpl; naive_solver|].
  destruct (bool_decide_reflect (str_lower (or_empty (url_hostname (supabase_url s))) ∈ local_hosts)); [simpl; naive_solver|].
  destruct (endswith ".localhost" _); [simpl; naive_solver|].
  destruct (has_marker (str_lower (or_empty (url_hostname (supabase_url s))))); [simpl; naive_solver|].
  cbn [orb]. destruct (existsb _ _); [naive_solver|].
  destruct (foldM _ _ _) as [[]|]; simpl; naive_solver.
Qed.

Lemma validators_return s s' :
  (validate_retry_configuration s = Ok s' → s' = s) ∧
  (validate_production_configuration s = Ok s' → s' = s).
Proof.
  unfold validate_retry_configuration, validate_production_configuration. split.
  - destruct (_ <? _); congruence.
  - intros H. repeat case_in H; try congruence. by destruct (foldM _ _ _); simpl in *; congruence.
Qed.

Lemma settings_load_iff (s : Settings) :
  (load_settings s = Ok s ↔
     settings_fields_ok s = true ∧ retries_covered s ∧ (environment s = PRODUCTION → hosted s)) ∧
  (load_settings s = Ok s ∨ load_settings s = Err ValidationError).
Proof.
  rewrite <- production_ok. unfold load_settings, retries_covered. rewrite <- intervals_ok.
  destruct (settings_fields_ok s) eqn:Hf; simpl; [|split; [naive_solver|by right]].
  assert (0 <= preview_job_max_retries s) as Hm.
  { unfold settings_fields_ok, ge0_le in Hf. repeat (apply andb_true_iff in Hf as [Hf ?]). propify_bool. done. }
  assert (∀ l l', validate_retry_intervals l = Ok l' → l' = l) as Hi
    by (intros l l'; unfold validate_retry_intervals; destruct (existsb _ _); congruence).
  destruct (validate_retry_intervals _) as [l|e] eqn:Hv; simpl; [|split; [naive_solver|by right]].
  apply Hi in Hv as ->. pose proof (proj1 (validators_return s s)) as _.
  unfold validate_retry_configuration. destruct (Z.ltb_spec (Z.of_nat (length (preview_job_retry_intervals_seconds s)))
    (preview_job_max_retries s)) as [Hl|Hl]; simpl.
  - split; [|by right]. split; [done|]. intros (_ & [_ [_ H]] & _). lia.
  - destruct (validate_production_configuration s) as [s'|e] eqn:Hp; simpl.
    + apply (validators_return s s') in Hp as ->. split; [|by left]. split; [|done]. intros _. by split_and!.
    + split; [|by right]. split; [done|]. intros (_ & _ & H). discriminate H.
Qed.

(** ** The theorem *)

(** Settings load exactly when every field is within its declared bounds, the
    retry intervals are nonnegative and cover every retry, and, in production,
    the database and Supabase are hosted, no CORS origin is a placeholder and
    every required secret is filled in; otherwise loading raises
    ValidationError. *)
Theorem load_settings_spec (s : Settings) :
  (load_settings s = Ok s ↔
     settings_fields_ok s = true ∧ retries_covered s ∧ (environment s = PRODUCTION → hosted s)) ∧
  (load_settings s = Ok s ∨ load_settings s = Err ValidationError).
Proof. apply settings_load_iff. Qed.

(** The defaults, with the required values filled in. *)
Definition sample_settings : Settings :=
  mkSettings PRODUCTION "INFO" (mkUrl (Some "db.abc.supabase.co") (Some 5432) (Some "secret"))
    5 5 5 10 300 3 5 2 (mkUrl (Some "abc.supabase.co") None None) "anon-key"
    [mkUrl (Some "app.trading.dev") None None] (Some "sk-1") (Some "gpt") 24 180 2 [5; 30] 86400 604800
    300 100 1000 5 "preview".

(** They load. *)
Lemma sample_settings_load : load_settings sample_settings = Ok sample_settings.
Proof. by vm_compute. Qed.
