(* ===== verification/Parser.v ===== *)
(** * From text to a specification
    ([backend/app/services/strategy_parser.py])

    The provider's SDK is a library: a call to it is a function that returns a
    response or raises.  Everything the code does around the call, and the
    deterministic normalization of the draft, is modelled.  The lists of
    defaults and assumptions that the code appends to are threaded through the
    functions in the order of the appends. *)

From S2P Require Import Prelude Decimal Text Regex StrategySpec StrategySemantics StrategyText Serialization Config.
From Stdlib Require Import ZArith QArith Lia Ascii.
From stdpp Require Import base list option strings sets.
Local Open Scope Z_scope.

(** ** The provider adapter *)

(** [dict.get] on a dumped response *)
Definition json_get (key : string) (v : json) : option json :=
  match v with
  | JObj fields => snd <$> (list_find (λ f, f.1 = key) fields ≫= λ x, Some x.2)
  | _ => None
  end.

Definition is_refusal (part : json) : bool :=
  match json_get "type" part with Some (JStr s) => String.eqb s "refusal" | _ => false end.

Definition item_refuses (item : json) : bool :=
  match json_get "content" item with Some (JList parts) => existsb is_refusal parts | _ => false end.

Definition response_contains_refusal (response : json) : bool :=
  match json_get "output" response with Some (JList items) => existsb item_refuses items | _ => false end.

Definition provider_error_message (env : Environment) (error_text : string) : string :=
  if bool_decide (env = LOCAL) then "The strategy parser provider returned " +:+ error_text
  else "The strategy parser provider returned an error.".

Record ProviderResponse : Type := mkResponse { output_parsed : option StrategyParseDraft; dumped : json }.

(** [OpenAIResponsesProvider.parse]: [call] is [client.responses.parse],
    [describe e] is the class name and text of an exception. *)
Definition provider_parse (env : Environment) (describe : exn → string)
    (call : string → string → result ProviderResponse) (model strategy_text : string) : result StrategyParseDraft :=
  match call model strategy_text with
  | Err e =>
      if bool_decide (e = OtherException "TimeoutError") || bool_decide (e = OtherException "APITimeoutError")
      then Err (StrategyProviderTimeoutError "The strategy parser timed out. Please try again.")
      else Err (StrategyProviderError (provider_error_message env (describe e)))
  | Ok response =>
      match output_parsed response with
      | Some parsed => Ok parsed
      | None =>
          if response_contains_refusal (dumped response)
          then Err (StrategyProviderRefusalError "The strategy parser refused this request.")
          else Err (StrategyMalformedOutputError "The strategy parser returned malformed structured output.")
      end
  end.

(** [OpenAIResponsesProvider(api_key).parse]: [sdk] is the installed client
    library, if any. *)
Definition OpenAIResponsesProvider (env : Environment) (describe : exn → string)
    (sdk : option (string → string → string → result ProviderResponse)) (api_key model strategy_text : string)
    : result StrategyParseDraft :=
  match sdk with
  | None => Err (StrategyProviderError "OpenAI SDK is not installed.")
  | Some OpenAI => provider_parse env describe (OpenAI api_key) model strategy_text
  end.

(** ** Normalization *)

(** The defaults and assumptions appended so far. *)
Record Notes : Type := mkNotes { notes_defaults : list AppliedDefault; notes_assumptions : list StrategyAssumption }.

Definition apply_default (n : Notes) (field : string) (value : json) (reason : string) : Notes :=
  mkNotes (notes_defaults n ++ [mkDefault field value reason]) (notes_assumptions n).

Definition assumption (field : string) (inferred_value : json) (reason : string) : StrategyAssumption :=
  mkAssumption field inferred_value reason HIGH true.

Definition assume (n : Notes) (field : string) (inferred_value : json) (reason : string) : Notes :=
  mkNotes (notes_defaults n) (notes_assumptions n ++ [assumption field inferred_value reason]).

(** [if value is None: value = ...; apply_default(...)] *)
Definition default_field {A} (n : Notes) (v : option A) (d : A) (f : A → json) (field reason : string) : A * Notes :=
  match v with Some a => (a, n) | None => (d, apply_default n field (f d) reason) end.

Definition crossover_draft (short_period long_period : Z) (operator : Operator) : ConditionDraft :=
  mkConditionDraft (mkOperandDraft IndicatorType None None (Some short_period) None) (Some operator)
    (mkOperandDraft IndicatorType None None (Some long_period) None).

Definition infer_shorthand_pair (strategy_text : string) (n : Notes)
    : result (option ConditionDraft * option ConditionDraft * Notes) :=
  hint ← find_normalization_hint strategy_text;
  match hint with
  | None => Ok (None, None, n)
  | Some hint =>
      let bullish := crossover_draft (short_period hint) (long_period hint) CROSSES_ABOVE in
      let bearish := crossover_draft (short_period hint) (long_period hint) CROSSES_BELOW in
      let '(entry, exit) := if bullish_entry hint then (bullish, bearish) else (bearish, bullish) in
      Ok (Some entry, Some exit,
          assume n "entry_and_exit"
            (JObj [("entry"%string, dump_condition_draft entry); ("exit"%string, dump_condition_draft exit)])
            ("The " +:+ hint_name hint +:+ " was interpreted as " +:+ str_int (short_period hint) +:+
             "-day SMA and " +:+ str_int (long_period hint) +:+ "-day SMA crossover rules."))
  end.

Definition opposite (operator : Operator) : option Operator :=
  match operator with
  | CROSSES_ABOVE => Some CROSSES_BELOW
  | CROSSES_BELOW => Some CROSSES_ABOVE
  | _ => None
  end.

Definition inference_error : exn :=
  StrategyValidationError "An omitted rule can be inferred only from a supported crossover condition.".

Definition opposite_crossover_draft (condition : ConditionDraft) : result ConditionDraft :=
  match cd_operator condition ≫= opposite with
  | Some operator => Ok (mkConditionDraft (cd_left condition) (Some operator) (cd_right condition))
  | None => Err inference_error
  end.

Definition close_reason : string := "Raw close price is the fixed source in version 1.".

(** Construction of an operand, with pydantic's check of its literals. *)
Definition built (o : Operand) : result Operand := if operand_schema_ok o then Ok o else Err ValidationError.

Definition normalize_operand (operand : OperandDraft) (field_name : string) (n : Notes) : result (Operand * Notes) :=
  match od_type operand with
  | IndicatorType =>
      match od_period operand with
      | None => Err (StrategyValidationError ("Specify the moving-average period for " +:+ field_name +:+ "."))
      | Some period =>
          let '(name, n) :=
            match od_name operand with
            | Some name => (name, n)
            | None => (SMA, assume n (field_name +:+ ".name") (JStr "sma")
                              ("Unspecified moving-average type for " +:+ field_name +:+ " was interpreted as SMA."))
            end in
          let '(source, n) := default_field n (od_source operand) "close" JStr (field_name +:+ ".source") close_reason in
          o ← built (IndicatorOperand name source period); Ok (o, n)
      end
  | PriceType =>
      let '(source, n) := default_field n (od_source operand) "close" JStr (field_name +:+ ".source") close_reason in
      o ← built (PriceOperand source); Ok (o, n)
  | ConstantType =>
      match od_value operand with
      | None => Err (StrategyValidationError ("Specify the numeric constant for " +:+ field_name +:+ "."))
      | Some value => Ok (ConstantOperand value, n)
      end
  end.

Definition normalize_condition (condition : ConditionDraft) (field_name : string) (n : Notes)
    : result (Condition * Notes) :=
  match cd_operator condition with
  | None => Err (StrategyValidationError ("Specify the comparison operator for the " +:+ field_name +:+ " rule."))
  | Some operator =>
      '(left, n) ← normalize_operand (cd_left condition) (field_name +:+ ".left") n;
      '(right, n) ← normalize_operand (cd_right condition) (field_name +:+ ".right") n;
      Ok (mkCondition left operator right, n)
  end.

(** The five fixed fields. *)
Definition normalize_settings (draft : StrategyParseDraft) : string * string * ExecutionSettings * Notes :=
  let n := mkNotes [] [] in
  let '(symbol, n) := default_field n (d_symbol draft) "SPY" JStr "symbol" "SPY is the only supported symbol." in
  let '(interval, n) := default_field n (d_interval draft) "1d" JStr "interval" "Daily bars are fixed in version 1." in
  let '(direction, n) := default_field n (d_direction draft) "long" JStr "execution.direction"
                           "Long-only execution is fixed in version 1." in
  let '(position_size, n) := default_field n (d_position_size_percent draft) 100 JInt
                               "execution.position_size_percent"
                               "Position sizing is fixed at 100% of available cash in version 1." in
  let '(signal_execution, n) := default_field n (d_signal_execution draft) "next_bar_open" JStr
                                  "execution.signal_execution"
                                  "Signals execute at the next available trading bar open in version 1." in
  (symbol, interval, mkExecutionSettings direction position_size signal_execution, n).

Definition missing_rules_error : exn :=
  StrategyValidationError "Specify an entry and exit rule, or use a supported crossover shorthand.".

(** The entry and exit drafts, inferred where they are missing. *)
Definition infer_rules (draft : StrategyParseDraft) (original_text : string) (n : Notes)
    : result (ConditionDraft * ConditionDraft * Notes) :=
  '(entry_draft, exit_draft, n) ←
    match d_entry draft, d_exit draft with
    | None, None => infer_shorthand_pair original_text n
    | entry_draft, exit_draft => Ok (entry_draft, exit_draft, n)
    end;
  match entry_draft, exit_draft with
  | Some entry, Some exit => Ok (entry, exit, n)
  | None, Some exit =>
      entry ← opposite_crossover_draft exit;
      Ok (entry, exit, assume n "entry" (dump_condition_draft entry)
            "No entry rule was provided, so the opposite crossover was used as the entry.")
  | Some entry, None =>
      exit ← opposite_crossover_draft entry;
      Ok (entry, exit, assume n "exit" (dump_condition_draft exit)
            "No exit rule was provided, so the opposite crossover was used as the exit.")
  | None, None => Err missing_rules_error
  end.

Definition normalize_strategy_draft (draft : StrategyParseDraft) (original_text : string)
    : result ParsedStrategyResult :=
  let '(symbol, interval, execution, n) := normalize_settings draft in
  '(entry_draft, exit_draft, n) ← infer_rules draft original_text n;
  risk_controls ← extract_risk_controls original_text;
  '(entry, n) ← normalize_condition entry_draft "entry" n;
  '(exit, n) ← normalize_condition exit_draft "exit" n;
  _ ← raise_if (negb (execution_schema_ok execution)) ValidationError;
  specification ← validated
    (mkSpecification "1.0" symbol interval entry exit execution
       (rc_stop_loss_percent risk_controls) (rc_take_profit_percent risk_controls));
  _ ← validate_strategy_semantics specification;
  Ok (mkParsed specification (notes_assumptions n) (notes_defaults n)
        (match notes_assumptions n with [] => false | _ => true end) original_text).

(** ** The entry point *)

(** [not value] of an optional string *)
Definition missing (v : option string) : bool :=
  match v with None => true | Some s => String.eqb s EmptyString end.

Definition parse_strategy (api_key model : option string)
    (provider_factory : string → string → string → result StrategyParseDraft) (strategy_text : string)
    : result ParsedStrategyResult :=
  if String.eqb (strip strategy_text) EmptyString then Err (StrategyValidationError "Enter a strategy description.")
  else
    _ ← validate_strategy_text strategy_text;
    if missing api_key then Err (StrategyParserError "OPENAI_API_KEY is required to parse a strategy.")
    else if missing model then Err (StrategyParserError "OPENAI_MODEL is required to parse a strategy.")
    else
      draft ← provider_factory (or_empty api_key) (or_empty model) strategy_text;
      normalize_strategy_draft draft strategy_text.

(** [OpenAIStrategyParser.from_settings().parse] *)
Definition parser_from_settings (s : Settings)
    (provider_factory : string → string → string → result StrategyParseDraft)
    : string → result ParsedStrategyResult :=
  parse_strategy (openai_api_key s) (openai_model s) provider_factory.

(** ** Specification of the normalization *)

(** [o] is the draft with the two permitted gaps filled in. *)
Definition operand_completes (d : OperandDraft) (o : Operand) : Prop :=
  match od_type d with
  | IndicatorType => ∃ p, od_period d = Some p ∧
      o = IndicatorOperand (default SMA (od_name d)) (default "close"%string (od_source d)) p
  | PriceType => o = PriceOperand (default "close"%string (od_source d))
  | ConstantType => ∃ v, od_value d = Some v ∧ o = ConstantOperand v
  end.

Definition condition_completes (d : ConditionDraft) (c : Condition) : Prop :=
  operand_completes (cd_left d) (left c) ∧ cd_operator d = Some (operator c) ∧
  operand_completes (cd_right d) (right c).

(** [b] is [a] with the crossover turned round. *)
Definition opposite_of (a b : ConditionDraft) : Prop :=
  cd_left b = cd_left a ∧ cd_right b = cd_right a ∧
  ((cd_operator a = Some CROSSES_ABOVE ∧ cd_operator b = Some CROSSES_BELOW) ∨
   (cd_operator a = Some CROSSES_BELOW ∧ cd_operator b = Some CROSSES_ABOVE)).

(** The rules a strategy has: its own, the opposite of the one it states, or
    the pair a recognized shorthand names. *)
Definition rules_of (draft : StrategyParseDraft) (text : string) (e x : ConditionDraft) : Prop :=
  match d_entry draft, d_exit draft with
  | Some e', Some x' => e = e' ∧ x = x'
  | Some e', None => e = e' ∧ opposite_of e' x
  | None, Some x' => x = x' ∧ opposite_of x' e
  | None, None => ∃ h, find_normalization_hint text = Ok (Some h) ∧
      opposite_of e x ∧
      e = crossover_draft (short_period h) (long_period h) (if bullish_entry h then CROSSES_ABOVE else CROSSES_BELOW)
  end.

(** The draft leaves both rules to a shorthand that has a number the
    interpreter does not convert. *)
Definition oversized (draft : StrategyParseDraft) (text : string) : Prop :=
  d_entry draft = None ∧ d_exit draft = None ∧ unreadable_shorthand text.

(** How a draft that determines no strategy is refused. *)
Definition refuses (draft : StrategyParseDraft) (text : string) (e : exn) : Prop :=
  (is_validation_error e ∧ ¬ oversized draft text) ∨ (e = digits_limit_error ∧ oversized draft text).

Definition omitted {A} (field : string) (v : option A) (value : json) : list (string * json) :=
  match v with None => [(field, value)] | Some _ => [] end.

Definition operand_defaults (d : OperandDraft) (field : string) : list (string * json) :=
  match od_type d with
  | ConstantType => []
  | _ => omitted (field +:+ ".source") (od_source d) (JStr "close")
  end.

Definition operand_assumptions (d : OperandDraft) (field : string) : list (string * json) :=
  match od_type d with
  | IndicatorType => omitted (field +:+ ".name") (od_name d) (JStr "sma")
  | _ => []
  end.

Definition condition_notes (f : OperandDraft → string → list (string * json)) (d : ConditionDraft) (field : string)
    : list (string * json) :=
  f (cd_left d) (field +:+ ".left") ++ f (cd_right d) (field +:+ ".right").

(** Every omitted field with a fixed value, in the order of the code. *)
Definition expected_defaults (draft : StrategyParseDraft) (e x : ConditionDraft) : list (string * json) :=
  omitted "symbol" (d_symbol draft) (JStr "SPY") ++
  omitted "interval" (d_interval draft) (JStr "1d") ++
  omitted "execution.direction" (d_direction draft) (JStr "long") ++
  omitted "execution.position_size_percent" (d_position_size_percent draft) (JInt 100) ++
  omitted "execution.signal_execution" (d_signal_execution draft) (JStr "next_bar_open") ++
  condition_notes operand_defaults e "entry" ++ condition_notes operand_defaults x "exit".

Definition rule_assumptions (draft : StrategyParseDraft) (e x : ConditionDraft) : list (string * json) :=
  match d_entry draft, d_exit draft with
  | Some _, Some _ => []
  | Some _, None => [("exit"%string, dump_condition_draft x)]
  | None, Some _ => [("entry"%string, dump_condition_draft e)]
  | None, None => [("entry_and_exit"%string,
      JObj [("entry"%string, dump_condition_draft e); ("exit"%string, dump_condition_draft x)])]
  end.

(** Everything the provider or the user did not say and the code guessed. *)
Definition expected_assumptions (draft : StrategyParseDraft) (e x : ConditionDraft) : list (string * json) :=
  rule_assumptions draft e x ++
  condition_notes operand_assumptions e "entry" ++ condition_notes operand_assumptions x "exit".

Definition default_pair (d : AppliedDefault) : string * json := (df_field d, df_value d).
Definition assumption_pair (a : StrategyAssumption) : string * json := (a_field a, inferred_value a).

(** The notes list [ds] and [as_], and every assumption asks for confirmation. *)
Record notes_are (n : Notes) (ds as_ : list (string * json)) : Prop := mkNotesAre {
  na_defaults : map default_pair (notes_defaults n) = ds;
  na_assumptions : map assumption_pair (notes_assumptions n) = as_;
  na_confirm : Forall (λ a, confidence a = HIGH ∧ a_requires_confirmation a = true) (notes_assumptions n) }.

(** *** Lemmas *)
Lemma notes_default n ds as_ f v r : notes_are n ds as_ → notes_are (apply_default n f v r) (ds ++ [(f, v)]) as_.
Proof. intros [Hd Ha Hc]. constructor; [simpl; by rewrite map_app, Hd|done|done]. Qed.

Lemma notes_assume n ds as_ f v r : notes_are n ds as_ → notes_are (assume n f v r) ds (as_ ++ [(f, v)]).
Proof.
  intros [Hd Ha Hc]. constructor; [done|simpl; by rewrite map_app, Ha|].
  simpl. apply Forall_app. split; [done|]. by repeat constructor.
Qed.

Lemma notes_default_field {A} n ds as_ (v : option A) d f field r :
  notes_are n ds as_ →
  (default_field n v d f field r).1 = default d v ∧
  notes_are (default_field n v d f field r).2 (ds ++ omitted field v (f d)) as_.
Proof.
  intros H. destruct v as [a|]; simpl; (split; [done|]).
  - by rewrite app_nil_r.
  - by apply notes_default.
Qed.

Lemma literal_default lit v : literal_ok lit v = true → default lit v = lit.
Proof. destruct v as [s|]; simpl; [apply bool_decide_eq_true|done]. Qed.

Lemma normalize_operand_outcome d field n ds as_ :
  operand_draft_ok d = true → notes_are n ds as_ →
  outcome (normalize_operand d field n)
    (λ r, operand_completes d r.1 ∧ operand_schema_ok r.1 = true ∧
          notes_are r.2 (ds ++ operand_defaults d field) (as_ ++ operand_assumptions d field))
    (λ e, is_validation_error e ∧ ¬ ∃ o, operand_completes d o).
Proof.
  intros Hok Hn. pose proof (literal_default _ _ Hok) as Hsrc.
  unfold normalize_operand, operand_completes, operand_defaults, operand_assumptions.
  destruct (od_type d).
  - destruct (od_period d) as [p|]; [|split; [done|naive_solver]].
    set (named := match od_name d with Some _ => _ | None => _ end).
    assert (named.1 = default SMA (od_name d) ∧
            notes_are named.2 ds (as_ ++ omitted (field +:+ ".name") (od_name d) (JStr "sma"))) as [Hname Hn'].
    { unfold named. destruct (od_name d); simpl; (split; [done|]); [by rewrite app_nil_r|by apply notes_assume]. }
    destruct named as [name n']. simpl in Hname, Hn'. subst name.
    destruct (notes_default_field _ _ _ (od_source d) "close"%string JStr (field +:+ ".source") close_reason Hn') as [E Hn''].
    destruct (default_field n' _ _ _ _ _) as [src n'']. simpl in E, Hn''. rewrite Hsrc in E. subst src.
    unfold built; simpl. rewrite Hsrc. by split; [eexists|split].
  - destruct (notes_default_field _ _ _ (od_source d) "close"%string JStr (field +:+ ".source") close_reason Hn) as [E Hn'].
    destruct (default_field n _ _ _ _ _) as [src n']. simpl in E, Hn'. rewrite Hsrc in E. subst src.
    unfold built; simpl. rewrite Hsrc, app_nil_r. by split.
  - destruct (od_value d) as [v|]; [|split; [done|naive_solver]].
    simpl. rewrite !app_nil_r. by split; [eexists|split].
Qed.

Lemma normalize_condition_outcome d field n ds as_ :
  condition_draft_ok d = true → notes_are n ds as_ →
  outcome (normalize_condition d field n)
    (λ r, condition_completes d r.1 ∧ condition_schema_ok r.1 = true ∧
          notes_are r.2 (ds ++ condition_notes operand_defaults d field)
            (as_ ++ condition_notes operand_assumptions d field))
    (λ e, is_validation_error e ∧ ¬ ∃ c, condition_completes d c).
Proof.
  intros [Hl Hr]%andb_true_iff Hn. unfold normalize_condition, condition_completes, condition_notes.
  destruct (cd_operator d) as [op|]; [|split; [done|naive_solver]].
  eapply outcome_bind.
  { eapply outcome_weaken; [by apply normalize_operand_outcome|intros r H; exact H|].
    intros e [He Hnot]; split; [done|]. naive_solver. }
  intros [l n1] (Hcl & Hsl & Hn1); simpl in *.
  eapply outcome_bind.
  { eapply outcome_weaken; [by apply normalize_operand_outcome|intros r H; exact H|].
    intros e [He Hnot]; split; [done|]. naive_solver. }
  intros [r n2] (Hcr & Hsr & Hn2); simpl in *.
  rewrite !app_assoc. unfold condition_schema_ok; simpl. rewrite Hsl, Hsr. by split_and!.
Qed.

Lemma normalize_settings_spec draft :
  draft_schema_ok draft = true →
  ∃ n, normalize_settings draft =
         ("SPY"%string, "1d"%string, mkExecutionSettings "long" 100 "next_bar_open", n) ∧
       notes_are n
         (omitted "symbol" (d_symbol draft) (JStr "SPY") ++
          omitted "interval" (d_interval draft) (JStr "1d") ++
          omitted "execution.direction" (d_direction draft) (JStr "long") ++
          omitted "execution.position_size_percent" (d_position_size_percent draft) (JInt 100) ++
          omitted "execution.signal_execution" (d_signal_execution draft) (JStr "next_bar_open")) [].
Proof.
  unfold draft_schema_ok. rewrite !andb_true_iff. intros ((((((Hs & Hi) & _) & _) & Hd) & Hp) & Hx).
  destruct draft as [s i e x d p g]; simpl in *.
  destruct s, i, d, p, g; simpl in *;
    repeat match goal with
    | H : bool_decide _ = true |- _ => apply bool_decide_eq_true in H; subst
    | H : (_ =? _) = true |- _ => apply Z.eqb_eq in H; subst
    end; (eexists; split; [reflexivity|by repeat constructor]).
Qed.

Lemma opposite_crossover_outcome c :
  outcome (opposite_crossover_draft c) (opposite_of c)
    (λ e, is_validation_error e ∧ ¬ ∃ c', opposite_of c c').
Proof.
  unfold opposite_crossover_draft, opposite_of.
  destruct (cd_operator c) as [[]|]; simpl; try (split; [done|naive_solver]);
    (split; [done|split; [done|]]); tauto.
Qed.

Lemma opposite_sym_operands a b : opposite_of a b → condition_draft_ok b = condition_draft_ok a.
Proof. intros (Hl & Hr & _). unfold condition_draft_ok. by rewrite Hl, Hr. Qed.

Lemma infer_rules_outcome draft text n ds :
  draft_schema_ok draft = true → notes_are n ds [] →
  outcome (infer_rules draft text n)
    (λ r, rules_of draft text r.1.1 r.1.2 ∧ condition_draft_ok r.1.1 = true ∧ condition_draft_ok r.1.2 = true ∧
          notes_are r.2 ds (rule_assumptions draft r.1.1 r.1.2))
    (λ e, refuses draft text e ∧ ¬ ∃ e x, rules_of draft text e x).
Proof.
  unfold draft_schema_ok. rewrite !andb_true_iff. intros ((((((_ & _) & He) & Hx) & _) & _) & _) Hn.
  assert (∀ err, is_validation_error err → (d_entry draft ≠ None ∨ d_exit draft ≠ None) → refuses draft text err) as Hstated.
  { intros err Herr Hs. left. split; [done|]. intros (? & ? & _). tauto. }
  unfold infer_rules, rules_of, rule_assumptions.
  destruct (d_entry draft) as [e|] eqn:Ee, (d_exit draft) as [x|] eqn:Ex; cbn [mbind result_bind].
  - by split_and!.
  - eapply outcome_bind.
    { eapply outcome_weaken; [apply opposite_crossover_outcome|intros r H; exact H|].
      intros err [? Hnot]; split; [apply Hstated; [done|by left]|]. intros (? & ? & -> & ?). naive_solver. }
    intros x' Hx'. simpl. split_and!; [done|done|done|by rewrite (opposite_sym_operands _ _ Hx')|].
    by apply (notes_assume n ds []).
  - eapply outcome_bind.
    { eapply outcome_weaken; [apply opposite_crossover_outcome|intros r H; exact H|].
      intros err [? Hnot]; split; [apply Hstated; [done|by right]|]. intros (? & ? & -> & ?). naive_solver. }
    intros e' He'. simpl. split_and!; [done|done|by rewrite (opposite_sym_operands _ _ He')|done|].
    by apply (notes_assume n ds []).
  - unfold infer_shorthand_pair. pose proof (find_normalization_hint_outcome text) as Hh.
    destruct (find_normalization_hint text) as [[h|]|err]; cbn [mbind result_bind].
    2:{ split; [|naive_solver]. left. split; [done|]. by intros (_ & _ & ?). }
    2:{ simpl in Hh. destruct Hh as [-> ?]. split; [by right|naive_solver]. }
    destruct (bullish_entry h) eqn:Hb; simpl;
      (split_and!; [exists h; rewrite Hb; split_and!; [done| |done]; unfold opposite_of; simpl; tauto|done|done|];
       by apply (notes_assume n ds [])).
Qed.

(** The periods the semantic check accepts. *)
Definition operand_in_bounds (d : OperandDraft) : Prop :=
  od_type d = IndicatorType → ∀ p, od_period d = Some p → 1 <= p <= 1000.
Definition condition_in_bounds (d : ConditionDraft) : Prop :=
  operand_in_bounds (cd_left d) ∧ operand_in_bounds (cd_right d).

Lemma operand_completes_supported d o :
  operand_completes d o → operand_schema_ok o = true → (operand_supported o ↔ operand_in_bounds d).
Proof.
  unfold operand_completes, operand_in_bounds. intros H Ho.
  destruct (od_type d) eqn:Ht.
  - destruct H as (p & Hp & ->). simpl in Ho. apply bool_decide_eq_true in Ho. simpl. rewrite Ho, Hp. naive_solver.
  - subst o. simpl in Ho. apply bool_decide_eq_true in Ho. simpl. naive_solver.
  - destruct H as (v & Hv & ->). simpl. naive_solver.
Qed.

Lemma condition_completes_supported d c :
  condition_completes d c → condition_schema_ok c = true → (condition_supported c ↔ condition_in_bounds d).
Proof.
  intros (Hl & _ & Hr) [Hsl Hsr]%andb_true_iff. unfold condition_supported, condition_in_bounds.
  by rewrite (operand_completes_supported _ _ Hl Hsl), (operand_completes_supported _ _ Hr Hsr).
Qed.

Lemma operand_completes_unique d o o' : operand_completes d o → operand_completes d o' → o = o'.
Proof. unfold operand_completes. destruct (od_type d); naive_solver. Qed.

Lemma condition_completes_unique d c c' : condition_completes d c → condition_completes d c' → c = c'.
Proof.
  intros (Hl & Ho & Hr) (Hl' & Ho' & Hr'). destruct c, c'; simpl in *.
  pose proof (operand_completes_unique _ _ _ Hl Hl'). pose proof (operand_completes_unique _ _ _ Hr Hr'). congruence.
Qed.

Lemma opposite_unique a b b' : opposite_of a b → opposite_of a b' → b = b'.
Proof. destruct a, b, b'; unfold opposite_of; simpl. naive_solver. Qed.

Lemma rules_of_unique draft text e x e' x' :
  rules_of draft text e x → rules_of draft text e' x' → e = e' ∧ x = x'.
Proof.
  unfold rules_of. destruct (d_entry draft), (d_exit draft).
  - naive_solver.
  - intros [-> H1] [-> H2]. eauto using opposite_unique.
  - intros [-> H1] [-> H2]. eauto using opposite_unique.
  - intros (h & Hh & Ho & ->) (h' & Hh' & Ho' & ->). rewrite Hh in Hh'. simplify_eq. eauto using opposite_unique.
Qed.

(** Extracted risk controls are within the field's bounds. *)
Lemma controls_in_range text rc :
  extract_risk_controls text = Ok rc →
  (risk_field_ok (rc_stop_loss_percent rc) = true ∧ risk_supported (rc_stop_loss_percent rc)) ∧
  (risk_field_ok (rc_take_profit_percent rc) = true ∧ risk_supported (rc_take_profit_percent rc)).
Proof.
  assert (∀ patterns phrase v, control_spec patterns phrase text (Ok v) → risk_field_ok v = true ∧ risk_supported v) as Hv.
  { intros patterns phrase v H. assert (risk_supported v) as Hs.
    { unfold control_spec in H. destruct v as [[d| |]|]; naive_solver. }
    split; [|done]. by apply risk_field_ok_spec. }
  unfold extract_risk_controls. intros H. bind_inv. simpl.
  pose proof (extract_control_spec STOP_LOSS_PATTERNS stop_loss_phrase "Stop-loss" text) as H1.
  pose proof (extract_control_spec TAKE_PROFIT_PATTERNS take_profit_phrase "Take-profit" text) as H2.
  rewrite Hr in H1. rewrite Hr0 in H2.
  split; eapply Hv; [apply H1|apply H2]; intros p Hp; apply elem_of_app; [by left|by right].
Qed.

(** A draft and a text determine a strategy: rules [e] and [x] completed to
    [c] and [c'], with indicator periods in range, and risk controls [rc]. *)
Definition determines (draft : StrategyParseDraft) (text : string) (e x : ConditionDraft)
    (c c' : Condition) (rc : RiskControls) : Prop :=
  rules_of draft text e x ∧ condition_completes e c ∧ condition_completes x c' ∧
  condition_in_bounds e ∧ condition_in_bounds x ∧ extract_risk_controls text = Ok rc.

Definition strategy_of (c c' : Condition) (rc : RiskControls) : StrategySpecification :=
  mkSpecification "1.0" "SPY" "1d" c c' (mkExecutionSettings "long" 100 "next_bar_open")
    (rc_stop_loss_percent rc) (rc_take_profit_percent rc).

(** The result presents the determined strategy, which the backtester supports, lists exactly the defaults
    applied and the assumptions made, and asks for confirmation exactly when
    there is an assumption. *)
Definition presents (draft : StrategyParseDraft) (text : string) (e x : ConditionDraft)
    (c c' : Condition) (rc : RiskControls) (p : ParsedStrategyResult) : Prop :=
  specification p = strategy_of c c' rc ∧ spec_supported (specification p) ∧
  map default_pair (defaults_applied p) = expected_defaults draft e x ∧
  map assumption_pair (assumptions p) = expected_assumptions draft e x ∧
  Forall (λ a, confidence a = HIGH ∧ a_requires_confirmation a = true) (assumptions p) ∧
  (requires_confirmation p = true ↔ expected_assumptions draft e x ≠ []) ∧
  original_text p = text.

Lemma strategy_of_checks c c' rc text :
  extract_risk_controls text = Ok rc →
  condition_schema_ok c = true → condition_schema_ok c' = true →
  validated (strategy_of c c' rc) = Ok (strategy_of c c' rc) ∧
  (spec_supported (strategy_of c c' rc) ↔ condition_supported c ∧ condition_supported c').
Proof.
  intros Hrc Hc Hc'. destruct (controls_in_range _ _ Hrc) as [[H1 H2] [H3 H4]]. split.
  - unfold validated, spec_schema_ok, strategy_of; simpl. by rewrite Hc, Hc', H1, H3.
  - unfold spec_supported, strategy_of; simpl. naive_solver.
Qed.

Lemma determines_rules draft text e x e' x' c c' rc :
  rules_of draft text e x → determines draft text e' x' c c' rc →
  condition_completes e c ∧ condition_completes x c' ∧ condition_in_bounds e ∧ condition_in_bounds x ∧
  extract_risk_controls text = Ok rc.
Proof.
  intros H (H' & Hd). destruct (rules_of_unique _ _ _ _ _ _ H H') as [-> ->]. exact Hd.
Qed.

Lemma rules_of_readable draft text e x : rules_of draft text e x → ¬ oversized draft text.
Proof.
  unfold rules_of, oversized. intros H (He & Hx & Hs). rewrite He, Hx in H. destruct H as (h & Hh & _).
  pose proof (find_normalization_hint_outcome text) as Ho. by rewrite Hh in Ho.
Qed.

Lemma refuses_stated draft text e x err : rules_of draft text e x → is_validation_error err → refuses draft text err.
Proof. intros H Herr. left. split; [done|]. by eapply rules_of_readable. Qed.

Lemma normalize_outcome draft text :
  draft_schema_ok draft = true →
  outcome (normalize_strategy_draft draft text)
    (λ p, ∃ e x c c' rc, determines draft text e x c c' rc ∧ presents draft text e x c c' rc p)
    (λ err, refuses draft text err ∧ ¬ ∃ e x c c' rc, determines draft text e x c c' rc).
Proof.
  intros Hd. unfold normalize_strategy_draft.
  destruct (normalize_settings_spec draft Hd) as (n & -> & Hn). cbv beta iota.
  eapply outcome_bind.
  { eapply outcome_weaken; [by apply infer_rules_outcome|intros r H; exact H|].
    intros err [? Hnot]; split; [done|]. intros (e & x & ? & ? & ? & [Hr _]). eauto. }
  intros [[e x] n1] (Hrules & Hoe & Hox & Hn1). simpl in Hrules, Hoe, Hox, Hn1. cbv beta iota.
  pose proof (λ e' x' c c' rc, determines_rules draft text e x e' x' c c' rc Hrules) as Hdet.
  pose proof (λ err, refuses_stated draft text e x err Hrules) as Href.
  destruct (extract_risk_controls text) as [rc|err] eqn:Erc; cbn [mbind result_bind].
  2:{ split; [apply Href; by destruct (extract_risk_controls_error _ _ Erc) as [? ->]|]. intros (e' & x' & c & c' & rc & Hdt). apply Hdet in Hdt. naive_solver. }
  eapply outcome_bind.
  { eapply outcome_weaken; [by apply normalize_condition_outcome|intros r H; exact H|].
    intros err [? Hnot]; split; [by apply Href|]. intros (e' & x' & c & c' & rc' & Hdt). apply Hdet in Hdt. naive_solver. }
  intros [c n2] (Hc & Hsc & Hn2). simpl in Hc, Hsc, Hn2. cbv beta iota.
  eapply outcome_bind.
  { eapply outcome_weaken; [by apply normalize_condition_outcome|intros r H; exact H|].
    intros err [? Hnot]; split; [by apply Href|]. intros (e' & x' & c1 & c1' & rc' & Hdt). apply Hdet in Hdt. naive_solver. }
  intros [c' n3] (Hc' & Hsc' & Hn3). simpl in Hc', Hsc', Hn3. cbn [raise_if negb mbind result_bind].
  change (mkSpecification _ _ _ _ _ _ _ _) with (strategy_of c c' rc).
  destruct (strategy_of_checks c c' rc text Erc Hsc Hsc') as [-> Hsup]. cbn [mbind result_bind].
  rewrite (condition_completes_supported _ _ Hc Hsc), (condition_completes_supported _ _ Hc' Hsc') in Hsup.
  destruct (validate_strategy_semantics _) as [[]|err] eqn:Ev; cbn [mbind result_bind].
  - apply validate_strategy_semantics_iff in Ev. destruct Hsup as [Hsup _].
    destruct (Hsup Ev) as [Hb Hb'].
    exists e, x, c, c', rc. split; [done|]. destruct Hn3 as [Hd3 Ha3 Hf3].
    rewrite <- !app_assoc in Hd3, Ha3. unfold presents, expected_defaults, expected_assumptions; simpl.
    split; [done|]. split; [done|]. split; [by rewrite Hd3, <- !app_assoc|]. split; [done|]. split; [done|]. split; [|done].
    rewrite <- Ha3. by destruct (notes_assumptions n3).
  - split; [apply Href; by eapply validate_strategy_semantics_error|].
    intros (e' & x' & c1 & c1' & rc' & Hdt). apply Hdet in Hdt as (_ & _ & Hb & Hb' & _).
    assert (spec_supported (strategy_of c c' rc)) as Hs by tauto.
    apply validate_strategy_semantics_iff in Hs. congruence.
Qed.

(** ** The theorems *)

(** C11: Normalization is exact: it produces a result exactly when the draft
    and the text determine a strategy (rules stated, mirrored or named by a
    shorthand; operators, periods and constants given; periods in range; risk
    controls readable), the result is that strategy with every default and
    every assumption listed in order and nothing the draft states changed,
    confirmation is asked for exactly when something was assumed, and every
    other draft is refused with StrategyValidationError - except that a
    draft that leaves both rules to a shorthand with a number of more than
    4300 digits escapes as the ValueError of int(). *)
Theorem normalize_strategy_draft_exact (draft : StrategyParseDraft) (text : string) :
  draft_schema_ok draft = true →
  match normalize_strategy_draft draft text with
  | Ok p => ∃ e x c c' rc, determines draft text e x c c' rc ∧ presents draft text e x c c' rc p
  | Err err =>
      ((is_validation_error err ∧ ¬ oversized draft text) ∨ (err = digits_limit_error ∧ oversized draft text)) ∧
      ¬ ∃ e x c c' rc, determines draft text e x c c' rc
  end.
Proof. apply normalize_outcome. Qed.

Definition empty_draft : StrategyParseDraft := mkDraft None None None None None None None.

Lemma normalize_strategy_draft_exact_witness :
  let text := "Trade the 20/50 golden cross with a 5% stop loss"%string in
  draft_schema_ok empty_draft = true ∧
  is_ok (normalize_strategy_draft empty_draft text) = true ∧
  match normalize_strategy_draft empty_draft text with
  | Ok p => ∃ e x c c' rc, determines empty_draft text e x c c' rc ∧ presents empty_draft text e x c c' rc p
  | Err err =>
      ((is_validation_error err ∧ ¬ oversized empty_draft text) ∨
       (err = digits_limit_error ∧ oversized empty_draft text)) ∧
      ¬ ∃ e x c c' rc, determines empty_draft text e x c c' rc
  end.
Proof.
  split; [reflexivity|]. split; [vm_compute; reflexivity|].
  apply (normalize_strategy_draft_exact empty_draft). reflexivity.
Defined.

(** The shorthand whose number the interpreter does not convert. *)
Definition long_shorthand : string := of_chars (repeat "9"%char 4301) +:+ "/200 crossover".

Example long_shorthand_escapes :
  normalize_strategy_draft empty_draft long_shorthand = Err digits_limit_error.
Proof. vm_compute. reflexivity. Qed.

(** A draft that states everything. *)
Definition draft_of_operand (o : Operand) : OperandDraft :=
  match o with
  | IndicatorOperand name source period => mkOperandDraft IndicatorType (Some name) (Some source) (Some period) None
  | PriceOperand source => mkOperandDraft PriceType None (Some source) None None
  | ConstantOperand value => mkOperandDraft ConstantType None None None (Some value)
  end.

Definition draft_of_condition (c : Condition) : ConditionDraft :=
  mkConditionDraft (draft_of_operand (left c)) (Some (operator c)) (draft_of_operand (right c)).

Definition draft_of (s : StrategySpecification) : StrategyParseDraft :=
  mkDraft (Some (symbol s)) (Some (interval s)) (Some (draft_of_condition (entry s)))
    (Some (draft_of_condition (exit s))) (Some (direction (execution s)))
    (Some (position_size_percent (execution s))) (Some (signal_execution (execution s))).

Lemma normalize_draft_of_operand o field n :
  operand_supported o → normalize_operand (draft_of_operand o) field n = Ok (o, n).
Proof.
  destruct o as [name src p|src|v]; simpl; [intros [-> _]|intros ->|done];
    unfold normalize_operand, built; simpl; reflexivity.
Qed.

Lemma normalize_draft_of_condition c field n :
  condition_supported c → normalize_condition (draft_of_condition c) field n = Ok (c, n).
Proof.
  intros [Hl Hr]. unfold normalize_condition; simpl.
  rewrite normalize_draft_of_operand by done; simpl. rewrite normalize_draft_of_operand by done; simpl.
  by destruct c.
Qed.

Lemma condition_supported_schema c : condition_supported c → condition_schema_ok c = true.
Proof.
  intros [Hl Hr]. apply andb_true_iff. split.
  - destruct (left c); simpl in *; try done; apply bool_decide_eq_true; tauto.
  - destruct (right c); simpl in *; try done; apply bool_decide_eq_true; tauto.
Qed.

(** Round trip: a draft that states a whole supported strategy comes back
    as exactly that strategy, with no default, no assumption and no
    confirmation to ask for. *)
Theorem explicit_draft_roundtrip (s : StrategySpecification) (text : string) (rc : RiskControls) :
  spec_supported s → version s = "1.0"%string →
  extract_risk_controls text = Ok rc →
  stop_loss_percent s = rc_stop_loss_percent rc → take_profit_percent s = rc_take_profit_percent rc →
  normalize_strategy_draft (draft_of s) text = Ok (mkParsed s [] [] false text).
Proof.
  intros Hs Hv Hrc Hsl Htp. pose proof Hs as (Hsym & Hi & He & Hc & Hc' & _).
  assert (s = strategy_of (entry s) (exit s) rc) as Es.
  { destruct s; simpl in *; subst. reflexivity. }
  unfold normalize_strategy_draft, draft_of, normalize_settings; simpl.
  rewrite Hrc; simpl. rewrite normalize_draft_of_condition by done; simpl.
  rewrite normalize_draft_of_condition by done; simpl. rewrite Hsym, Hi, He; simpl.
  change (mkSpecification _ _ _ _ _ _ _ _) with (strategy_of (entry s) (exit s) rc).
  destruct (strategy_of_checks _ _ _ _ Hrc (condition_supported_schema _ Hc) (condition_supported_schema _ Hc')) as [-> _].
  simpl. rewrite <- Es. rewrite (proj2 (validate_strategy_semantics_iff s) Hs). reflexivity.
Qed.

Definition sample_specification : StrategySpecification :=
  mkSpecification "1.0" "SPY" "1d"
    (mkCondition (IndicatorOperand EMA "close" 20) GREATER_THAN (PriceOperand "close"))
    (mkCondition (IndicatorOperand SMA "close" 50) LESS_THAN (ConstantOperand (dec_of_Z 400)))
    (mkExecutionSettings "long" 100 "next_bar_open") (Some (Finite (dec_of_Z 5))) None.

Lemma explicit_draft_roundtrip_witness :
  normalize_strategy_draft (draft_of sample_specification) "Use a stop loss of 5%" =
    Ok (mkParsed sample_specification [] [] false "Use a stop loss of 5%").
Proof.
  apply (explicit_draft_roundtrip sample_specification "Use a stop loss of 5%"
           (mkRisk (Some (Finite (dec_of_Z 5))) None));
    [apply validate_strategy_semantics_iff; reflexivity|reflexivity|vm_compute; reflexivity|reflexivity..].
Defined.

(** [StrategyParserError] and its subclasses *)
Definition is_parser_error (e : exn) : Prop :=
  match e with
  | StrategyParserError _ | StrategyProviderError _ | StrategyProviderRefusalError _
  | StrategyProviderTimeoutError _ | StrategyMalformedOutputError _ => True
  | _ => False
  end.

(** The drafts a client returns have passed pydantic's validation. *)
Definition client_validates (sdk : option (string → string → string → result ProviderResponse)) : Prop :=
  ∀ client key model text r d, sdk = Some client → client key model text = Ok r →
    output_parsed r = Some d → draft_schema_ok d = true.

Lemma provider_outcome env describe sdk key model text :
  client_validates sdk →
  outcome (OpenAIResponsesProvider env describe sdk key model text) (λ d, draft_schema_ok d = true) is_parser_error.
Proof.
  intros Hsdk. unfold OpenAIResponsesProvider. destruct sdk as [client|]; [|done].
  unfold provider_parse. destruct (client key model text) as [r|e] eqn:E.
  - destruct (output_parsed r) as [d|] eqn:Ed; [by eapply Hsdk|]. by destruct (response_contains_refusal _).
  - by destruct (_ || _).
Qed.

(** An error of a parse of [text]: a validation error, one of the parser's
    own, or, for an accepted text with such a shorthand, the ValueError of
    [int]. *)
Definition parse_error (text : string) (e : exn) : Prop :=
  is_validation_error e ∨ is_parser_error e ∨
  (e = digits_limit_error ∧ unreadable_shorthand text ∧ validate_strategy_text text = Ok ()).

(** Where a parse ends: in what normalization made of a valid draft, or in one
    of these errors. *)
Lemma parse_strategy_outcome env describe sdk key model text :
  client_validates sdk →
  outcome (parse_strategy key model (OpenAIResponsesProvider env describe sdk) text)
    (λ p, strip text ≠ EmptyString ∧ validate_strategy_text text = Ok () ∧
          ∃ draft, draft_schema_ok draft = true ∧ normalize_strategy_draft draft text = Ok p)
    (parse_error text).
Proof.
  intros Hsdk. unfold parse_error, parse_strategy. destruct (String.eqb_spec (strip text) EmptyString) as [Hb|Hb]; [by left|].
  destruct (validate_strategy_text text) as [[]|e] eqn:Ev; cbn [mbind result_bind]; [|left; by eapply validate_strategy_text_error].
  destruct (missing key); [by right; left|]. destruct (missing model); [by right; left|].
  eapply outcome_bind; [eapply outcome_weaken; [by apply provider_outcome|intros d Hd; exact Hd|intros e He; by right; left]|].
  intros d Hd. pose proof (normalize_outcome d text Hd) as H.
  destruct (normalize_strategy_draft d text) as [p|e] eqn:En.
  2:{ destruct H as [[[? _]|[-> (_ & _ & ?)]] _]; [by left|by right; right]. }
  split; [done|]. split; [done|]. by exists d.
Qed.

(** C30: The parser's boundary: whatever the provider's client does, a parse
    ends in a supported strategy for an accepted text, in
    StrategyValidationError, in one of the parser's own errors, or - only for
    an accepted text whose shorthand has a number of more than 4300 digits - in
    the ValueError of int(); a blank or
    rejected text never reaches the provider; and outside the local
    environment no detail of a provider's exception reaches the caller. *)
Theorem parser_boundary (env : Environment) (describe : exn → string) sdk (key model : option string) (text : string) :
  client_validates sdk →
  let parse env describe sdk := parse_strategy key model (OpenAIResponsesProvider env describe sdk) text in
  outcome (parse env describe sdk)
    (λ p, spec_supported (specification p) ∧ original_text p = text ∧ validate_strategy_text text = Ok () ∧
          strip text ≠ EmptyString ∧ (requires_confirmation p = true ↔ assumptions p ≠ []))
    (λ e, is_validation_error e ∨ is_parser_error e ∨
          (e = digits_limit_error ∧ unreadable_shorthand text ∧ validate_strategy_text text = Ok ())) ∧
  (strip text = EmptyString ∨ validate_strategy_text text ≠ Ok () → ∀ sdk', parse env describe sdk' = parse env describe sdk) ∧
  (env ≠ LOCAL → ∀ describe', parse env describe' sdk = parse env describe sdk).
Proof.
  intros Hsdk. cbv zeta. split; [|split].
  - eapply outcome_weaken; [by apply parse_strategy_outcome| |done].
    intros p (Hb & Ev & d & Hd & Hp). pose proof (normalize_outcome d text Hd) as H. rewrite Hp in H.
    destruct H as (e & x & c & c' & rc & _ & _ & Hs & _ & Ha & _ & Hc & Ho).
    split_and!; try done; rewrite Hc, <- Ha; by destruct (assumptions p).
  - unfold parse_strategy. intros [Hb|Hv] sdk'; [by rewrite Hb|].
    destruct (String.eqb _ _); [done|]. by destruct (validate_strategy_text text) as [[]|e].
  - intros Henv describe'. unfold parse_strategy, OpenAIResponsesProvider, provider_parse, provider_error_message.
    by rewrite bool_decide_eq_false_2.
Qed.

Definition sample_client (key model text : string) : result ProviderResponse :=
  Ok (mkResponse (Some empty_draft) JNull).

Lemma parser_boundary_witness :
  let text := "Trade the 20/50 golden cross"%string in
  let describe := λ _ : exn, EmptyString in
  let parse env describe sdk :=
    parse_strategy (Some "key"%string) (Some "model"%string) (OpenAIResponsesProvider env describe sdk) text in
  is_ok (parse PRODUCTION describe (Some sample_client)) = true ∧
  outcome (parse PRODUCTION describe (Some sample_client))
    (λ p, spec_supported (specification p) ∧ original_text p = text ∧ validate_strategy_text text = Ok () ∧
          strip text ≠ EmptyString ∧ (requires_confirmation p = true ↔ assumptions p ≠ []))
    (λ e, is_validation_error e ∨ is_parser_error e ∨
          (e = digits_limit_error ∧ unreadable_shorthand text ∧ validate_strategy_text text = Ok ())) ∧
  (∀ describe', parse PRODUCTION describe' (Some sample_client) = parse PRODUCTION describe (Some sample_client)).
Proof.
  cbv zeta. split; [vm_compute; reflexivity|].
  destruct (parser_boundary PRODUCTION (λ _ : exn, EmptyString) (Some sample_client) (Some "key"%string)
              (Some "model"%string) "Trade the 20/50 golden cross") as (H & _ & Hd).
  - intros client k m t r d [= <-] [= <-] [= <-]. reflexivity.
  - split; [exact H|]. apply Hd. discriminate.
Defined.
