(* ===== verification/Auth.v ===== *)
(** * Authentication ([backend/app/services/supabase_auth.py],
    [backend/app/api/dependencies/auth.py], [backend/app/api/routes/auth.py])

    The backend asks Supabase who owns a bearer token and trusts nothing else.
    The HTTP client and pydantic's UUID parser are libraries: a request is a
    function that returns a response or raises - [HTTPError], or
    [UnicodeEncodeError] for a header value that is not ASCII - and an
    identifier is parsed by a function. *)

From S2P Require Import Prelude Text StrategySpec StrategySemantics Uuid.
From Stdlib Require Import ZArith Lia Ascii.
From stdpp Require Import base list option strings.
Local Open Scope Z_scope.

(** [backend/app/schemas/auth.py] *)
Record AuthenticatedUser : Type := mkUser { au_id : UUID; au_email : option string; au_role : string }.

Definition InvalidAccessTokenError : exn := OtherException "InvalidAccessTokenError".
Definition AuthServiceUnavailableError : exn := OtherException "AuthServiceUnavailableError".
Definition HTTPError : exn := OtherException "httpx.HTTPError".
Definition UnicodeEncodeError : exn := OtherException "UnicodeEncodeError".

(** [response.json()] raises a ValueError when the body is not JSON. *)
Record HttpResponse : Type := mkHttp { status_code : Z; json_body : result json }.

(** [200 <= status_code <= 299] *)
Definition is_success (r : HttpResponse) : bool := (200 <=? status_code r) && (status_code r <=? 299).

Definition obj_get {A} (key : string) (fields : list (string * A)) : option A :=
  foldl (λ acc kv, if String.eqb kv.1 key then Some kv.2 else acc) None fields.

(** [s.rstrip("/")] *)
Fixpoint drop_slashes (l : list ascii) : list ascii :=
  match l with c :: l' => if Ascii.eqb c "/" then drop_slashes l' else l | [] => [] end.
Definition rstrip_slash (s : string) : string := of_chars (reverse (drop_slashes (reverse (to_chars s)))).

(** [s.isascii()] *)
Definition is_ascii (s : string) : bool := forallb (λ c, (nat_of_ascii c <? 128)%nat) (to_chars s).

Lemma is_ascii_app s1 s2 : is_ascii (s1 +:+ s2) = is_ascii s1 && is_ascii s2.
Proof. unfold is_ascii. rewrite to_chars_append. apply List.forallb_app. Qed.

Section client.
Context (parse_uuid : string → option UUID).
Context (http_get : string → list (string * string) → result HttpResponse).

(** [AuthenticatedUser.model_validate]: other fields of the user are ignored. *)
Definition validate_user (v : json) : result AuthenticatedUser :=
  match v with
  | JObj fields =>
      match obj_get "id" fields, obj_get "email" fields, obj_get "role" fields with
      | Some (JStr id_text), email, Some (JStr role) =>
          match parse_uuid id_text, email with
          | Some u, Some (JStr e) => Ok (mkUser u (Some e) role)
          | Some u, (None | Some JNull) => Ok (mkUser u None role)
          | _, _ => Err ValidationError
          end
      | _, _, _ => Err ValidationError
      end
  | _ => Err ValidationError
  end.

Record SupabaseAuthClient : Type := mkClient { user_url : string; api_key : string }.

Definition make_client (supabase_url api_key : string) : SupabaseAuthClient :=
  mkClient (rstrip_slash supabase_url +:+ "/auth/v1/user") api_key.

Definition user_headers (c : SupabaseAuthClient) (access_token : string) : list (string * string) :=
  [("apikey"%string, api_key c); ("Authorization"%string, "Bearer " +:+ access_token)].

Definition get_user (c : SupabaseAuthClient) (access_token : string) : result AuthenticatedUser :=
  match http_get (user_url c) (user_headers c access_token) with
  | Err e => if decide (e = HTTPError) then Err AuthServiceUnavailableError else Err e
  | Ok response =>
      if bool_decide (status_code response ∈ [401; 403]) then Err InvalidAccessTokenError
      else if negb (is_success response) then Err AuthServiceUnavailableError
      else
        match (v ← json_body response; validate_user v) with
        | Ok u => Ok u
        | Err (ValueError _ | ValidationError) => Err AuthServiceUnavailableError
        | Err e => Err e
        end
  end.

Definition unauthorized_exception : exn := HTTPException 401 "Invalid or missing authentication credentials.".
Definition auth_unavailable : exn := HTTPException 503 "Authentication service is temporarily unavailable.".

(** [credentials] is the bearer token of the request, if it has one. *)
Definition get_current_user (credentials : option string) (c : SupabaseAuthClient) : result AuthenticatedUser :=
  match credentials with
  | None => Err unauthorized_exception
  | Some token =>
      match get_user c token with
      | Ok u => Ok u
      | Err e =>
          if decide (e = InvalidAccessTokenError) then Err unauthorized_exception
          else if decide (e = AuthServiceUnavailableError) then Err auth_unavailable
          else Err e
      end
  end.

(** [GET /auth/me] *)
Definition auth_me (current_user : AuthenticatedUser) : AuthenticatedUser := current_user.

(** httpx encodes header values as ASCII, and [encode] raises UnicodeEncodeError
    before anything is sent; otherwise a request to the configured URL returns
    a response or raises an HTTPError, and a body that is not JSON raises a
    ValueError. *)
Definition ascii_values (headers : list (string * string)) : bool := forallb (λ h, is_ascii h.2) headers.

Definition well_behaved (c : SupabaseAuthClient) : Prop :=
  ∀ headers, match http_get (user_url c) headers with
             | Err e => if ascii_values headers then e = HTTPError else e = UnicodeEncodeError
             | Ok r => ascii_values headers = true ∧
                       match json_body r with Ok _ => True | Err e => ∃ m, e = ValueError m end
             end.

(** The headers of the question about the token can be sent. *)
Definition encodable (c : SupabaseAuthClient) (token : string) : bool := is_ascii (api_key c) && is_ascii token.

Lemma ascii_user_headers c token : ascii_values (user_headers c token) = encodable c token.
Proof. unfold ascii_values, user_headers, encodable. cbn [forallb snd]. by rewrite is_ascii_app, andb_true_r. Qed.

(** Supabase vouched for the token: [u] is the user it returned. *)
Definition vouched (c : SupabaseAuthClient) (token : string) (u : AuthenticatedUser) : Prop :=
  ∃ r v, http_get (user_url c) (user_headers c token) = Ok r ∧ status_code r ∉ [401; 403] ∧
    200 <= status_code r <= 299 ∧ json_body r = Ok v ∧ validate_user v = Ok u.

(** Supabase rejected the token. *)
Definition rejected_token (c : SupabaseAuthClient) (token : string) : Prop :=
  ∃ r, http_get (user_url c) (user_headers c token) = Ok r ∧ (status_code r = 401 ∨ status_code r = 403).

Lemma validate_user_error v e : validate_user v = Err e → e = ValidationError.
Proof. unfold validate_user. intros H. repeat (case_in H; try discriminate H); congruence. Qed.

(** What becomes of a request with these credentials. *)
Definition auth_outcome (credentials : option string) (c : SupabaseAuthClient) (r : result AuthenticatedUser) : Prop :=
  match r with
  | Ok u => ∃ token, credentials = Some token ∧ vouched c token u
  | Err e =>
      (e = unauthorized_exception ∧ (credentials = None ∨ ∃ token, credentials = Some token ∧ rejected_token c token)) ∨
      (e = auth_unavailable ∧ ∃ token, credentials = Some token ∧ encodable c token = true ∧
         ¬ rejected_token c token ∧ ¬ ∃ u, vouched c token u) ∨
      (e = UnicodeEncodeError ∧ ∃ token, credentials = Some token ∧ encodable c token = false)
  end.

Lemma get_current_user_outcome credentials c : well_behaved c → auth_outcome credentials c (get_current_user credentials c).
Proof.
  intros Hwb. unfold auth_outcome, get_current_user. destruct credentials as [token|]; [|by left; auto].
  specialize (Hwb (user_headers c token)). rewrite ascii_user_headers in Hwb. unfold get_user, vouched, rejected_token.
  destruct (http_get _ _) as [r|e] eqn:Eh; [destruct Hwb as [Henc Hwb]|destruct (encodable c token) eqn:Henc; subst e].
  3:{ rewrite !decide_False by done. right; right. eauto. }
  2:{ rewrite decide_True by done. rewrite decide_False, decide_True by done. right; left. split; [done|].
      exists token. split; [done|]. split; [done|]. rewrite Eh. split; [by intros (r & ? & _)|by intros (u & r & v & ? & _)]. }
  case_bool_decide as H4.
  { rewrite decide_True by done. left. split; [done|]. right. exists token. split; [done|]. exists r.
    rewrite elem_of_cons, list_elem_of_singleton in H4. rewrite Eh. auto. }
  assert (¬ ∃ r0, http_get (user_url c) (user_headers c token) = Ok r0 ∧ (status_code r0 = 401 ∨ status_code r0 = 403)) as Hnr.
  { rewrite Eh. intros (r0 & [= <-] & Hor). apply H4. rewrite elem_of_cons, list_elem_of_singleton. tauto. }
  unfold is_success. destruct (Z.leb_spec 200 (status_code r)), (Z.leb_spec (status_code r) 299); cbn [andb negb];
    try (rewrite decide_False, decide_True by done; right; left; split; [done|]; exists token; do 3 (split; [done|]); rewrite Eh;
         intros (u & r' & v & [= <-] & _ & ? & _); lia).
  destruct (json_body r) as [v|e] eqn:Ej; cbn [mbind result_bind].
  - destruct (validate_user v) as [u|e] eqn:Ev.
    + exists token. split; [done|]. exists r, v. rewrite Eh. split_and!; auto.
    + apply validate_user_error in Ev as He. subst e. rewrite decide_False, decide_True by done. right; left. split; [done|].
      exists token. do 3 (split; [done|]). rewrite Eh. intros (u & r' & v' & [= <-] & _ & _ & ? & ?). congruence.
  - destruct Hwb as [m ->]. rewrite decide_False, decide_True by done. right; left. split; [done|].
    exists token. do 3 (split; [done|]). rewrite Eh. intros (u & r' & v' & [= <-] & _ & _ & ? & ?). congruence.
Qed.

(** C21: The security boundary: a request is authenticated as [u] exactly when it
    has a token for which Supabase answered with success and a valid user [u];
    a missing or rejected token is 401; anything else that goes wrong is 503;
    except that a token that is not ASCII (or such an API key), which cannot be
    sent as a header, is never authenticated and escapes as the client's
    UnicodeEncodeError. *)
Theorem authentication_exact (credentials : option string) (c : SupabaseAuthClient) :
  well_behaved c →
  match get_current_user credentials c with
  | Ok u => ∃ token, credentials = Some token ∧ vouched c token u
  | Err e =>
      (e = unauthorized_exception ∧ (credentials = None ∨ ∃ token, credentials = Some token ∧ rejected_token c token)) ∨
      (e = auth_unavailable ∧ ∃ token, credentials = Some token ∧ encodable c token = true ∧
         ¬ rejected_token c token ∧ ¬ ∃ u, vouched c token u) ∨
      (e = UnicodeEncodeError ∧ ∃ token, credentials = Some token ∧ encodable c token = false)
  end.
Proof. apply get_current_user_outcome. Qed.
End client.

(** A Supabase that knows one token. *)
Definition sample_get (url : string) (headers : list (string * string)) : result HttpResponse :=
  if negb (ascii_values headers) then Err UnicodeEncodeError
  else if bool_decide (("Authorization", "Bearer good")%string ∈ headers)
  then Ok (mkHttp 200 (Ok (JObj [("id", JStr "7"); ("role", JStr "authenticated"); ("aud", JStr "x")]%string)))
  else Ok (mkHttp 401 (Err (ValueError "no body"))).

Definition sample_uuid (s : string) : option UUID := if String.eqb s "7" then Some 7 else None.

Definition sample_client : SupabaseAuthClient := make_client "https://project.supabase.co/" "anon".

Lemma sample_get_well_behaved : well_behaved sample_get sample_client.
Proof.
  intros headers. unfold sample_get. destruct (ascii_values headers) eqn:E; cbn [negb]; [|done].
  destruct (bool_decide _); cbn; [done|by split; [|eexists]].
Qed.

(** The bearer token is two bytes that are not ASCII. *)
Definition accented_token : string := of_chars [ascii_of_nat 195; ascii_of_nat 169].

(** It ends in the server's 500, not in 401 or 503. *)
Example non_ascii_token_escapes :
  get_current_user sample_uuid sample_get (Some accented_token) sample_client = Err UnicodeEncodeError.
Proof. vm_compute. reflexivity. Qed.

Lemma authentication_exact_witness :
  get_current_user sample_uuid sample_get (Some "good"%string) sample_client = Ok (mkUser 7 None "authenticated") ∧
  vouched sample_uuid sample_get sample_client "good" (mkUser 7 None "authenticated") ∧
  get_current_user sample_uuid sample_get (Some "bad"%string) sample_client = Err unauthorized_exception ∧
  rejected_token sample_get sample_client "bad".
Proof.
  pose proof sample_get_well_behaved as Hwb.
  pose proof (authentication_exact sample_uuid sample_get (Some "good"%string) sample_client Hwb) as Hg.
  pose proof (authentication_exact sample_uuid sample_get (Some "bad"%string) sample_client Hwb) as Hb.
  assert (get_current_user sample_uuid sample_get (Some "good"%string) sample_client = Ok (mkUser 7 None "authenticated")) as Eg
    by (vm_compute; reflexivity).
  assert (get_current_user sample_uuid sample_get (Some "bad"%string) sample_client = Err unauthorized_exception) as Eb
    by (vm_compute; reflexivity).
  rewrite Eg in Hg. rewrite Eb in Hb. destruct Hg as (token & [= <-] & Hv).
  destruct Hb as [[_ [?|(token & [= <-] & Hr)]]|[[? _]|[? _]]]; [discriminate| |discriminate..].
  split; [exact Eg|]. split; [exact Hv|]. split; [exact Eb|exact Hr].
Defined.
