(* ===== verification/Csv.v ===== *)
(** * Reading CSV text: [csv.DictReader], [date.fromisoformat], [int]

    The parts of the standard library that the market-data import relies on.
    The reader is CPython's state machine for the default dialect, fed with the
    lines of a file opened with [newline=""]; its output is a stream that an
    error ends, because rows before the error have already been handed out. *)

From S2P Require Import Prelude Decimal Text Models.
From Stdlib Require Import ZArith Lia Ascii.
From stdpp Require Import base list option strings.
Local Open Scope Z_scope.

(** ** The reader *)
Inductive csv_state : Type :=
  | START_RECORD | START_FIELD | IN_FIELD | IN_QUOTED_FIELD | QUOTE_IN_QUOTED_FIELD | EAT_CRNL.
#[global] Instance csv_state_eq_dec : EqDecision csv_state.
Proof. solve_decision. Defined.

(** The field being read, and the fields already saved. *)
Record csv_reader : Type := mkReader {
  rd_state : csv_state; rd_field : list ascii; rd_fields : list string }.

Definition csv_error : exn := OtherException "csv.Error".
Definition field_limit : Z := 131072.
Definition quote : ascii := ascii_of_N 34.
Definition newline_char (c : ascii) : bool := Ascii.eqb c (ascii_of_N 10) || Ascii.eqb c (ascii_of_N 13).

Definition goto (s : csv_state) (r : csv_reader) : csv_reader := mkReader s (rd_field r) (rd_fields r).

Definition save_field (s : csv_state) (r : csv_reader) : csv_reader :=
  mkReader s [] (rd_fields r ++ [of_chars (rd_field r)]).

Definition add_char (s : csv_state) (c : ascii) (r : csv_reader) : result csv_reader :=
  if field_limit <=? Z.of_nat (length (rd_field r)) then Err csv_error
  else Ok (mkReader s (rd_field r ++ [c]) (rd_fields r)).

(** The start of a field. *)
Definition start_field (c : ascii) (r : csv_reader) : result csv_reader :=
  if newline_char c then Ok (save_field EAT_CRNL r)
  else if Ascii.eqb c quote then Ok (goto IN_QUOTED_FIELD r)
  else if Ascii.eqb c "," then Ok (save_field START_FIELD r)
  else add_char IN_FIELD c r.

Definition process_char (r : csv_reader) (c : ascii) : result csv_reader :=
  match rd_state r with
  | START_RECORD => if newline_char c then Ok (goto EAT_CRNL r) else start_field c r
  | START_FIELD => start_field c r
  | IN_FIELD =>
      if newline_char c then Ok (save_field EAT_CRNL r)
      else if Ascii.eqb c "," then Ok (save_field START_FIELD r)
      else add_char IN_FIELD c r
  | IN_QUOTED_FIELD =>
      if Ascii.eqb c quote then Ok (goto QUOTE_IN_QUOTED_FIELD r) else add_char IN_QUOTED_FIELD c r
  | QUOTE_IN_QUOTED_FIELD =>
      if Ascii.eqb c quote then add_char IN_QUOTED_FIELD c r
      else if Ascii.eqb c "," then Ok (save_field START_FIELD r)
      else if newline_char c then Ok (save_field EAT_CRNL r)
      else add_char IN_FIELD c r
  | EAT_CRNL => if newline_char c then Ok r else Err csv_error
  end.

(** The end of a line. *)
Definition process_eol (r : csv_reader) : csv_reader :=
  match rd_state r with
  | START_RECORD | EAT_CRNL => goto START_RECORD r
  | START_FIELD | IN_FIELD | QUOTE_IN_QUOTED_FIELD => save_field START_RECORD r
  | IN_QUOTED_FIELD => r
  end.

Definition new_record : csv_reader := mkReader START_RECORD [] [].

Definition process_line (line : string) (r : csv_reader) : result csv_reader :=
  r ← foldM process_char r (to_chars line); Ok (process_eol r).

(** The records of the remaining lines, when [r] has been read so far. *)
Fixpoint read_records (lines : list string) (r : csv_reader) : list (result (list string)) :=
  match lines with
  | [] => match rd_state r, rd_field r with
          | IN_QUOTED_FIELD, _ | _, _ :: _ => [Ok (rd_fields (save_field START_RECORD r))]
          | _, [] => []
          end
  | line :: lines =>
      match process_line line r with
      | Err e => [Err e]
      | Ok r => if decide (rd_state r = START_RECORD) then Ok (rd_fields r) :: read_records lines new_record
                else read_records lines r
      end
  end.

(** The lines of the text, each with its terminator. *)
Fixpoint split_lines (l : list ascii) (line : list ascii) : list string :=
  match l with
  | [] => match line with [] => [] | _ => [of_chars line] end
  | c :: l' =>
      if Ascii.eqb c (ascii_of_N 10) then of_chars (line ++ [c]) :: split_lines l' []
      else if Ascii.eqb c (ascii_of_N 13) then
        match l' with
        | d :: l'' => if Ascii.eqb d (ascii_of_N 10) then of_chars (line ++ [c; d]) :: split_lines l'' []
                      else of_chars (line ++ [c]) :: split_lines l' []
        | [] => [of_chars (line ++ [c])]
        end
      else split_lines l' (line ++ [c])
  end.

Definition csv_reader_rows (text : string) : list (result (list string)) :=
  read_records (split_lines (to_chars text) []) new_record.

(** ** [csv.DictReader] *)

(** A row as a dictionary, in the order of the assignments. *)
Definition row_dict (fieldnames : list string) (row : list string) : list (string * option string) :=
  zip fieldnames (map Some row ++ replicate (length fieldnames - length row) None).

(** [d.get(key)]: the last assignment of a key counts. *)
Definition dict_get (key : string) (d : list (string * option string)) : option string :=
  foldl (λ acc kv, if String.eqb kv.1 key then kv.2 else acc) None d.

Definition nonblank (row : result (list string)) : bool := match row with Ok [] => false | _ => true end.

(** [reader.fieldnames or []], and the rows that follow; blank rows are skipped. *)
Definition dict_reader (text : string) : result (list string) * list (result (list string)) :=
  match csv_reader_rows text with
  | [] => (Ok [], [])
  | Err e :: _ => (Err e, [])
  | Ok fieldnames :: rows => (Ok fieldnames, filter (λ r, nonblank r = true) rows)
  end.

(** ** [int(text)] *)

(** The digits of a literal; single underscores may separate them. *)
Fixpoint int_digits (l : list ascii) : option (list ascii) :=
  match l with
  | [] => None
  | c :: l' =>
      if is_digit c then
        match l' with
        | [] => Some [c]
        | d :: l'' => if Ascii.eqb d "_" then cons c <$> int_digits l'' else cons c <$> int_digits l'
        end
      else None
  end.

(** The interpreter refuses to convert more than 4300 digits. *)
Definition int_of_string (s : string) : result Z :=
  let '(neg, l) := span_sign (strip_list (to_chars s)) in
  match int_digits l with
  | Some ds => if 4300 <? Z.of_nat (length ds) then Err (ValueError "Exceeds the limit")
               else let n := Z.of_N (digits_value ds) in Ok (if neg : bool then - n else n)
  | None => Err (ValueError "invalid literal for int()")
  end.

(** ** Calendar dates *)
Definition leap (y : Z) : bool := (y mod 4 =? 0) && (negb (y mod 100 =? 0) || (y mod 400 =? 0)).

Definition days_in_month (y m : Z) : Z :=
  if m =? 2 then (if leap y then 29 else 28)
  else if (m =? 4) || (m =? 6) || (m =? 9) || (m =? 11) then 30 else 31.

Definition valid_date (y m d : Z) : bool :=
  (1 <=? y) && (y <=? 9999) && (1 <=? m) && (m <=? 12) && (1 <=? d) && (d <=? days_in_month y m).

(** The day number of a civil date; 0 is 1970-01-01. *)
Definition days_from_civil (y m d : Z) : Z :=
  let y' := if m <=? 2 then y - 1 else y in
  let era := y' / 400 in
  let yoe := y' mod 400 in
  let doy := (153 * (if 2 <? m then m - 3 else m + 9) + 2) / 5 + d - 1 in
  era * 146097 + (yoe * 365 + yoe / 4 - yoe / 100 + doy) - 719468.

(** The Monday that starts ISO week 1 of a year: the week of January 4th. *)
Definition iso_week1_monday (y : Z) : Z :=
  let jan4 := days_from_civil y 1 4 in jan4 - (jan4 + 3) mod 7.

Definition iso_weeks (y : Z) : Z := (iso_week1_monday (y + 1) - iso_week1_monday y) / 7.

Definition first_day : Z := days_from_civil 1 1 1.
Definition last_day : Z := days_from_civil 9999 12 31.

Definition date_of_week (y week weekday : Z) : option Z :=
  let day := iso_week1_monday y + (week - 1) * 7 + (weekday - 1) in
  if (1 <=? y) && (y <=? 9999) && (1 <=? week) && (week <=? iso_weeks y) && (1 <=? weekday) && (weekday <=? 7)
     && (first_day <=? day) && (day <=? last_day)
  then Some day else None.

Definition date_of_civil (y m d : Z) : option Z :=
  if valid_date y m d then Some (days_from_civil y m d) else None.

(** [n] digits, and what follows. *)
Definition take_number (n : nat) (l : list ascii) : option (Z * list ascii) :=
  if (length (take n l) =? n)%nat && forallb is_digit (take n l)
  then Some (Z.of_N (digits_value (take n l)), drop n l) else None.

Definition take_dash (l : list ascii) : option (list ascii) :=
  match l with c :: l => if Ascii.eqb c "-" then Some l else None | [] => None end.

(** [date.fromisoformat(text)] as a day number: YYYY-MM-DD, YYYYMMDD,
    YYYY-Www-D, YYYYWwwD, YYYY-Www and YYYYWww. *)
Definition date_fromisoformat (s : string) : option Z :=
  '(y, l) ← take_number 4 (to_chars s);
  let '(dashed, l) := match take_dash l with Some l => (true, l) | None => (false, l) end in
  let separator (l : list ascii) := if dashed : bool then take_dash l else Some l in
  match l with
  | [] => None
  | c :: l' =>
      if Ascii.eqb c "W" then
        '(week, l) ← take_number 2 l';
        match l with
        | [] => date_of_week y week 1
        | _ => l ← separator l; '(weekday, l) ← take_number 1 l;
               match l with [] => date_of_week y week weekday | _ => None end
        end
      else
        '(m, l) ← take_number 2 l; l ← separator l; '(d, l) ← take_number 2 l;
        match l with [] => date_of_civil y m d | _ => None end
  end.

(** ** Examples *)
Definition crlf : string := of_chars [ascii_of_N 13; ascii_of_N 10].

Example csv_quoting :
  csv_reader_rows (of_chars (to_chars "a,b" ++ to_chars crlf ++ [quote] ++ to_chars "x,y" ++ [quote; quote]
    ++ to_chars "z" ++ [quote] ++ to_chars ",2" ++ to_chars crlf)) =
  [Ok ["a"; "b"]; Ok [of_chars (to_chars "x,y" ++ [quote] ++ to_chars "z"); "2"]]%string.
Proof. reflexivity. Qed.

Example iso_dates :
  date_fromisoformat "2024-02-29" = Some 19782 ∧ date_fromisoformat "20240229" = Some 19782 ∧
  date_fromisoformat "2024-W09-4" = Some 19782 ∧ date_fromisoformat "2023-02-29" = None ∧
  date_fromisoformat "2024-2-9" = None ∧ date_fromisoformat "1970-01-01" = Some 0 ∧
  date_fromisoformat "2021-W53" = None ∧ date_fromisoformat "2020W53" = Some 18624.
Proof. vm_compute. by split_and!. Qed.

(** ** Lemmas *)

(** An error is the last element of the stream. *)
Lemma read_records_error lines r i e :
  read_records lines r !! i = Some (Err e) → S i = length (read_records lines r).
Proof.
  revert r i; induction lines as [|line lines IH]; intros r i; simpl.
  - destruct (rd_state r), (rd_field r), i as [|i]; try done; by destruct i.
  - destruct (process_line line r) as [r'|e']; [|destruct i as [|i]; [done|by destruct i]].
    destruct (decide _); [|apply IH]. destruct i as [|i]; [done|]. simpl. intros H. f_equal. by apply IH in H.
Qed.

(** A field without separators, quotes and newlines. *)
Definition plain_field (f : string) : Prop :=
  Forall (λ c, newline_char c = false ∧ c ≠ quote ∧ c ≠ ","%char) (to_chars f) ∧
  Z.of_nat (length (to_chars f)) <= field_limit.

Lemma in_field_chars cs pre fs :
  Forall (λ c, newline_char c = false ∧ c ≠ quote ∧ c ≠ ","%char) cs →
  Z.of_nat (length pre + length cs) <= field_limit →
  foldM process_char (mkReader IN_FIELD pre fs) cs = Ok (mkReader IN_FIELD (pre ++ cs) fs).
Proof.
  intros Hcs. revert pre; induction Hcs as [|c cs (Hn & _ & Hc) _ IH]; intros pre Hl.
  - by rewrite app_nil_r.
  - cbn [foldM]. assert (process_char (mkReader IN_FIELD pre fs) c = add_char IN_FIELD c (mkReader IN_FIELD pre fs)) as ->.
    { unfold process_char; cbn [rd_state]. apply Ascii.eqb_neq in Hc. by rewrite Hn, Hc. }
    unfold add_char; cbn [rd_field rd_fields]. cbn [length] in Hl.
    destruct (Z.leb_spec field_limit (Z.of_nat (length pre))); [lia|]. cbn [mbind result_bind].
    rewrite IH by (rewrite length_app; cbn [length]; lia). by rewrite <- app_assoc.
Qed.

(** A plain field at the start of a field or record, up to its end. *)
Lemma plain_field_chars f fs s :
  plain_field f → s = START_FIELD ∨ (s = START_RECORD ∧ to_chars f ≠ []) →
  ∃ s', foldM process_char (mkReader s [] fs) (to_chars f) = Ok (mkReader s' (to_chars f) fs) ∧
        (s' = IN_FIELD ∨ s' = START_FIELD).
Proof.
  intros [Hf Hl] Hs. destruct (to_chars f) as [|c cs] eqn:E.
  - destruct Hs as [->|[_ ?]]; [|done]. exists START_FIELD. simpl. auto.
  - apply Forall_cons_iff in Hf as [(Hn & Hq & Hc) Hf]. exists IN_FIELD. split; [|by left]. cbn [foldM].
    assert (process_char (mkReader s [] fs) c = Ok (mkReader IN_FIELD [c] fs)) as ->.
    { apply Ascii.eqb_neq in Hq, Hc. unfold process_char, start_field; cbn [rd_state].
      destruct Hs as [->|[-> _]]; rewrite Hn, Hq, Hc; reflexivity. }
    cbn [mbind result_bind]. cbn [length] in Hl. rewrite in_field_chars by (done || (cbn [length]; lia)). done.
Qed.

(** The line that holds the fields [fs], separated by commas. *)
Definition csv_line (fs : list string) : list ascii :=
  to_chars (str_join "," fs) ++ to_chars crlf.

Lemma foldM_char_app l1 l2 r :
  foldM process_char r (l1 ++ l2) =
  (foldM process_char r l1 ≫= λ r, foldM process_char r l2).
Proof. apply foldM_app. Qed.

Lemma read_plain_fields fs f saved s :
  Forall plain_field (f :: fs) → s = START_FIELD ∨ (s = START_RECORD ∧ to_chars f ≠ []) →
  foldM process_char (mkReader s [] saved) (csv_line (f :: fs)) =
    Ok (mkReader EAT_CRNL [] (saved ++ f :: fs)).
Proof.
  revert f saved s; induction fs as [|g fs IH]; intros f saved s [Hf Hfs]%Forall_cons_iff Hs; unfold csv_line.
  - cbn [str_join]. rewrite foldM_char_app.
    destruct (plain_field_chars f saved s Hf Hs) as (s' & -> & Hs'). cbn [mbind result_bind].
    destruct Hs' as [-> | ->]; cbn; unfold save_field; cbn [rd_field rd_fields]; by rewrite of_to_chars.
  - change (str_join "," (f :: g :: fs)) with (String.append f (String.append "," (str_join "," (g :: fs)))).
    rewrite !to_chars_append, <- !app_assoc, foldM_char_app.
    destruct (plain_field_chars f saved s Hf Hs) as (s' & -> & Hs'). cbn [mbind result_bind].
    change (to_chars "," ++ ?l) with ([","%char] ++ l). rewrite foldM_char_app.
    assert (foldM process_char (mkReader s' (to_chars f) saved) [","%char] =
            Ok (mkReader START_FIELD [] (saved ++ [f]))) as ->.
    { destruct Hs' as [-> | ->]; cbn; unfold save_field; cbn [rd_field rd_fields]; by rewrite of_to_chars. }
    cbn [mbind result_bind]. specialize (IH g (saved ++ [f]) START_FIELD Hfs (or_introl eq_refl)).
    unfold csv_line in IH. rewrite IH, <- app_assoc. done.
Qed.

(** Splitting stops at the terminator of a line of plain text. *)
Lemma split_plain_line cs line rest :
  Forall (λ c, newline_char c = false) cs →
  split_lines (cs ++ to_chars crlf ++ rest) line = of_chars (line ++ cs ++ to_chars crlf) :: split_lines rest [].
Proof.
  intros Hcs. revert line; induction Hcs as [|c cs Hc Hcs IH]; intros line.
  - reflexivity.
  - cbn [app split_lines]. unfold newline_char in Hc. apply orb_false_iff in Hc as [-> ->].
    by rewrite IH, <- app_assoc.
Qed.

Lemma join_no_newline fs :
  Forall plain_field fs → Forall (λ c, newline_char c = false) (to_chars (str_join "," fs)).
Proof.
  assert (∀ f, plain_field f → Forall (λ c, newline_char c = false) (to_chars f)) as Hp.
  { intros f [Hf _]. eapply Forall_impl; [exact Hf|]. by intros c (? & _). }
  induction 1 as [|f fs Hf Hfs IH]; [constructor|]. destruct fs as [|g fs]; [by apply Hp|].
  change (str_join "," (f :: g :: fs)) with (String.append f (String.append "," (str_join "," (g :: fs)))).
  rewrite !to_chars_append. apply Forall_app. split; [by apply Hp|]. apply Forall_app. split; [by repeat constructor|done].
Qed.

(** A table of plain fields, as text. *)
Definition csv_text (rows : list (list string)) : string := of_chars (concat (csv_line <$> rows)).

Definition plain_row (row : list string) : Prop :=
  Forall plain_field row ∧ ∃ f fs, row = f :: fs ∧ f ≠ EmptyString.

Lemma csv_plain_roundtrip rows : Forall plain_row rows → csv_reader_rows (csv_text rows) = Ok <$> rows.
Proof.
  intros Hrows. unfold csv_reader_rows, csv_text. rewrite to_of_chars.
  induction Hrows as [|row rows (Hp & f & fs & -> & Hf) _ IH]; [done|].
  rewrite fmap_cons. cbn [concat]. unfold csv_line at 1. rewrite <- app_assoc, split_plain_line by by apply join_no_newline.
  cbn [app read_records]. unfold process_line. rewrite to_of_chars.
  change (to_chars (str_join "," (f :: fs)) ++ to_chars crlf) with (csv_line (f :: fs)).
  assert (to_chars f ≠ []) as Hne. { intros E. apply Hf. by rewrite <- (of_to_chars f), E. }
  unfold new_record at 1. rewrite (read_plain_fields fs f [] START_RECORD Hp) by auto.
  cbn. by rewrite IH.
Qed.

(** Only the reader's own error ends a stream. *)
Lemma process_char_error r c e : process_char r c = Err e → e = csv_error.
Proof.
  assert (∀ s c r e, add_char s c r = Err e → e = csv_error) as Ha
    by (intros ???? H; unfold add_char in H; destruct (_ <=? _); [by injection H as <-|done]).
  assert (∀ c r e, start_field c r = Err e → e = csv_error) as Hs.
  { intros c' r' e' H. unfold start_field in H. repeat case_in H; try done; eauto. }
  unfold process_char. intros H. repeat case_in H; try done; eauto. by injection H as <-.
Qed.

Lemma read_records_csv_error lines r e : Err e ∈ read_records lines r → e = csv_error.
Proof.
  revert r; induction lines as [|line lines IH]; intros r H; cbn [read_records] in H.
  - repeat case_in H; try (by apply not_elem_of_nil in H); by apply list_elem_of_singleton in H.
  - destruct (process_line line r) as [r'|e'] eqn:E.
    + destruct (decide _); [|by eapply IH]. apply elem_of_cons in H as [?|H]; [done|by eapply IH].
    + apply list_elem_of_singleton in H as [= ->]. unfold process_line in E.
      apply bind_Err_inv in E as [E|(r' & _ & ?)]; [|done].
      apply (foldM_Err process_char (λ _, True)) in E as (s & a & _ & _ & E); [|done..]. by eapply process_char_error.
Qed.

(** A stream is a list of rows, or rows up to an error. *)
Lemma stream_cases {A} (l : list (result A)) :
  (∃ data, l = Ok <$> data) ∨ ∃ data e rest, l = (Ok <$> data) ++ Err e :: rest.
Proof.
  induction l as [|[a|e] l IH]; [left; by exists []| |right; by exists [], e, l].
  destruct IH as [(data & ->)|(data & e & rest & ->)]; [left; by exists (a :: data)|right; by exists (a :: data), e, rest].
Qed.

Lemma dict_reader_error text e :
  (dict_reader text).1 = Err e ∨ Err e ∈ (dict_reader text).2 → e = csv_error.
Proof.
  unfold dict_reader, csv_reader_rows. pose proof (read_records_csv_error (split_lines (to_chars text) []) new_record) as He.
  destruct (read_records _ _) as [|[fieldnames|e'] rows]; simpl.
  - intros [?|H]; [done|]. by apply not_elem_of_nil in H.
  - intros [?|[_ H]%list_elem_of_filter]; [done|]. apply He. by right.
  - intros [[= ->]|H]; [apply He; by left|]. by apply not_elem_of_nil in H.
Qed.
