(* ===== verification/Timestamps.v ===== *)
(** * Reading timestamps back

    [isoformat] prints an aware UTC instant; [parse_isoformat] reads that layout,
    and the round trip holds for every instant a [datetime] can be, by way of
    the civil calendar. *)

From S2P Require Import Prelude Decimal Text Models StrategySpec StrategySemantics Serialization Csv.
From Stdlib Require Import ZArith Lia Ascii.
From stdpp Require Import base list option strings.
Local Open Scope Z_scope.

(** The instants of years 1 to 9999, in microseconds. *)
Definition datetime_ok (t : datetime) : Prop :=
  first_day * 86400000000 <= t < (last_day + 1) * 86400000000.

(** ** Reading *)
Definition take_char (c : ascii) (l : list ascii) : option (list ascii) :=
  match l with c' :: l => if Ascii.eqb c' c then Some l else None | [] => None end.

(** An optional fraction of six digits. *)
Definition take_fraction (l : list ascii) : option (Z * list ascii) :=
  match take_char "." l with Some l => take_number 6 l | None => Some (0, l) end.

Definition parse_isoformat (s : string) : option datetime :=
  '(y, l) ← take_number 4 (to_chars s); l ← take_char "-" l;
  '(m, l) ← take_number 2 l; l ← take_char "-" l;
  '(d, l) ← take_number 2 l; l ← take_char "T" l;
  '(hour, l) ← take_number 2 l; l ← take_char ":" l;
  '(minute, l) ← take_number 2 l; l ← take_char ":" l;
  '(second, l) ← take_number 2 l;
  '(fraction, l) ← take_fraction l;
  if bool_decide (of_chars l = "+00:00"%string)
  then Some (days_from_civil y m d * 86400000000 +
             (hour * 3600000000 + minute * 60000000 + second * 1000000 + fraction))
  else None.

(** ** The calendar *)
Lemma div_bounds a n : 0 < n → n * (a / n) <= a < n * (a / n) + n.
Proof. intros. pose proof (Z.div_mod a n ltac:(lia)). pose proof (Z.mod_pos_bound a n ltac:(lia)). lia. Qed.

(** Abstracts [a / n] as [x] with its bounds. *)
Ltac name_div x a n := pose proof (div_bounds a n ltac:(lia)); set (x := a / n) in *; clearbody x.

(** The year and the day of the year in an era of 146097 days. *)
Lemma doe_parts doe : 0 <= doe < 146097 →
  let yoe := (doe - doe / 1460 + doe / 36524 - doe / 146096) / 365 in
  let doy := doe - (365 * yoe + yoe / 4 - yoe / 100) in
  0 <= yoe <= 399 ∧ 0 <= doy <= 366.
Proof.
  intros H. cbv zeta. destruct (Z.eq_dec doe 146096) as [->|Hne]; [vm_compute; repeat split; discriminate|].
  rewrite (Z.div_small doe 146096) by lia.
  name_div b doe 36524. name_div a doe 1460.
  name_div yoe (doe - a + b - 0) 365. name_div q4 yoe 4. name_div c yoe 100.
  assert (b = 0 ∨ b = 1 ∨ b = 2 ∨ b = 3) as Hb by lia.
  assert (0 <= yoe <= 399) by lia. split; [assumption|].
  assert (c = 0 ∨ c = 1 ∨ c = 2 ∨ c = 3) as Hc by lia.
  destruct Hb as [->|[->|[->| ->]]], Hc as [->|[->|[->| ->]]]; lia.
Qed.

(** A day number is determined by its civil date. *)
Lemma civil_round_trip days :
  let '(y, m, d) := civil_from_days days in
  days_from_civil y m d = days ∧ 1 <= m <= 12 ∧ 1 <= d <= 31 ∧
  (first_day <= days <= last_day → 1 <= y <= 9999).
Proof.
  unfold civil_from_days. pose proof (Z.div_mod (days + 719468) 146097 ltac:(lia)) as Hz.
  pose proof (Z.mod_pos_bound (days + 719468) 146097 ltac:(lia)) as Hdoe.
  set (doe := (days + 719468) mod 146097) in *. set (era := (days + 719468) / 146097) in *. clearbody doe era.
  destruct (doe_parts doe Hdoe) as [Hy Hd]. cbv zeta in Hy, Hd.
  set (yoe := (doe - doe / 1460 + doe / 36524 - doe / 146096) / 365) in *. clearbody yoe.
  set (leaps := yoe / 4 - yoe / 100).
  replace (365 * yoe + yoe / 4 - yoe / 100) with (365 * yoe + leaps) in Hd |- * by (unfold leaps; lia).
  set (doy := doe - (365 * yoe + leaps)) in *. set (mp := (5 * doy + 2) / 153).
  pose proof (div_bounds (5 * doy + 2) 153 ltac:(lia)) as Hmp. fold mp in Hmp. clearbody mp.
  pose proof (div_bounds (153 * mp + 2) 5 ltac:(lia)) as Hm5. set (md := (153 * mp + 2) / 5) in *.
  assert (0 <= mp <= 11) as Hmr by lia. cbv zeta.
  assert ((yoe + era * 400) / 400 = era) as Hera by (rewrite Z.div_add by lia; rewrite Z.div_small; lia).
  assert ((yoe + era * 400) mod 400 = yoe) as Hyoe by (rewrite Z.mod_add by lia; apply Z.mod_small; lia).
  assert (0 <= leaps) as Hl0 by (unfold leaps; pose proof (div_bounds yoe 4); pose proof (div_bounds yoe 100); lia).
  assert (yoe = 399 → leaps = 96) as Hl399 by (intros ->; reflexivity).
  assert (yoe = 0 → leaps = 0) as Hl00 by (intros ->; reflexivity).
  change first_day with (-719162). change last_day with 2932896. unfold days_from_civil.
  destruct (Z.ltb_spec mp 10).
  - destruct (Z.leb_spec (mp + 3) 2); [lia|]. destruct (Z.ltb_spec 2 (mp + 3)); [|lia].
    rewrite Z.add_0_r. rewrite Hera, Hyoe. replace (mp + 3 - 3) with mp by lia. fold md. unfold leaps in *. lia.
  - destruct (Z.leb_spec (mp - 9) 2); [|lia]. destruct (Z.ltb_spec 2 (mp - 9)); [lia|].
    replace (yoe + era * 400 + 1 - 1) with (yoe + era * 400) by lia. rewrite Hera, Hyoe.
    replace (mp - 9 + 9) with mp by lia. fold md. unfold leaps in *. lia.
Qed.

(** ** Padded numbers *)
Lemma take_number_app ds l :
  Forall (λ c, is_digit c = true) ds → take_number (length ds) (ds ++ l) = Some (Z.of_N (digits_value ds), l).
Proof.
  intros Hds. unfold take_number. rewrite take_app_length, drop_app_length, Nat.eqb_refl. cbn [andb].
  rewrite (proj2 (forallb_forall _ _)); [done|]. intros c Hc. rewrite Forall_forall in Hds. apply Hds, list_elem_of_In, Hc.
Qed.

(** A number printed with its width reads back. *)
Lemma take_padded w n l :
  0 <= n < 10 ^ Z.of_nat (S w) → take_number (S w) (to_chars (padded (S w) n) ++ l) = Some (n, l).
Proof.
  intros Hn. destruct (padded_digits w n Hn) as (Hlen & Hall & Hv).
  rewrite <- Hlen at 1. rewrite take_number_app by done. by rewrite Hv, Z2N.id by lia.
Qed.

Lemma to_chars_app s1 s2 : to_chars (s1 +:+ s2) = to_chars s1 ++ to_chars s2.
Proof. induction s1 as [|c s1 IH]; [done|]. change (c :: to_chars (s1 +:+ s2) = c :: to_chars s1 ++ to_chars s2). by rewrite IH. Qed.

Lemma take_char_cons c l : take_char c (c :: l) = Some l.
Proof. unfold take_char. by rewrite Ascii.eqb_refl. Qed.

Lemma take_fraction_printed f :
  0 <= f < 1000000 →
  take_fraction (to_chars (if f =? 0 then EmptyString else "." +:+ padded 6 f) ++ to_chars "+00:00") =
  Some (f, to_chars "+00:00").
Proof.
  intros Hf. unfold take_fraction. destruct (Z.eqb_spec f 0) as [->|]; [done|].
  rewrite to_chars_app, <- app_assoc. change (to_chars ".") with ["."%char]. cbn [app].
  rewrite take_char_cons. by apply take_padded.
Qed.

(** ** The round trip *)
Lemma isoformat_round_trip (t : datetime) : datetime_ok t → parse_isoformat (isoformat t) = Some t.
Proof.
  intros Hok. unfold datetime_ok in Hok. unfold isoformat, parse_isoformat.
  pose proof (Z.div_mod t 86400000000 ltac:(lia)) as Ht. pose proof (Z.mod_pos_bound t 86400000000 ltac:(lia)) as Hus.
  set (us := t mod 86400000000) in *. set (days := t / 86400000000) in *. clearbody us days.
  pose proof (civil_round_trip days) as Hc. destruct (civil_from_days days) as [[y m] d].
  destruct Hc as (Hdays & Hm & Hd & Hy). specialize (Hy ltac:(lia)). cbv zeta.
  pose proof (div_bounds us 3600000000 ltac:(lia)) as Hh.
  pose proof (Z.mod_pos_bound (us / 60000000) 60 ltac:(lia)) as Hmin.
  pose proof (Z.mod_pos_bound (us / 1000000) 60 ltac:(lia)) as Hsec.
  pose proof (Z.mod_pos_bound us 1000000 ltac:(lia)) as Hfr.
  assert (us = us / 3600000000 * 3600000000 + (us / 60000000) mod 60 * 60000000 +
               (us / 1000000) mod 60 * 1000000 + us mod 1000000) as Hsplit.
  { pose proof (Z.div_mod us 1000000 ltac:(lia)) as H1. pose proof (Z.div_mod (us / 1000000) 60 ltac:(lia)) as H2.
    pose proof (Z.div_mod (us / 1000000 / 60) 60 ltac:(lia)) as H3.
    rewrite !Z.div_div in H2, H3 by lia. rewrite Z.div_div in H3 by lia.
    change (1000000 * 60) with 60000000 in *. change (60000000 * 60) with 3600000000 in *. lia. }
  rewrite !to_chars_app. do 6 rewrite <- ?app_assoc.
  change (to_chars "-") with ["-"%char]. change (to_chars "T") with ["T"%char]. change (to_chars ":") with [":"%char].
  cbn [app].
  do 5 (rewrite take_padded by (simpl; lia); cbn [mbind option_bind]; rewrite take_char_cons; cbn [mbind option_bind]).
  rewrite take_padded by (simpl; lia). cbn [mbind option_bind]. rewrite take_fraction_printed by done.
  cbn [mbind option_bind]. rewrite of_to_chars, bool_decide_eq_true_2 by done. f_equal. rewrite Hdays. lia.
Qed.
