(* ===== verification/JsonText.v ===== *)
(** * JSON text

    [json.dumps] of Python's standard library with [ensure_ascii=True], in its
    two layouts (one line, and [indent]), and a strict reader of JSON text.
    Floats are not part of the data.  What is printed is ASCII and reads back
    as the value. *)

From S2P Require Import Prelude Decimal Text StrategySpec Uuid Auth.
From Stdlib Require Import ZArith Lia Ascii.
From stdpp Require Import base list option strings.
Local Open Scope Z_scope.

(** ** Printing *)
Definition quotation : ascii := ascii_of_nat 34.
Definition line_feed : ascii := ascii_of_nat 10.

Definition escape (c : ascii) : list ascii :=
  if Ascii.eqb c quotation || Ascii.eqb c "\" then ["\"%char; c]
  else if char_code c =? 10 then ["\"; "n"]%char
  else if char_code c =? 13 then ["\"; "r"]%char
  else if char_code c =? 9 then ["\"; "t"]%char
  else if char_code c =? 12 then ["\"; "f"]%char
  else if char_code c =? 8 then ["\"; "b"]%char
  else if in_range 32 126 c then [c]
  else ["\"; "u"; "0"; "0"]%char ++ [hex_char (char_code c / 16); hex_char (char_code c mod 16)].

Definition string_chars (s : string) : list ascii := quotation :: concat (escape <$> to_chars s) ++ [quotation].

(** The items of a list or object, separated. *)
Fixpoint separated (sep : list ascii) (items : list (list ascii)) : list ascii :=
  match items with
  | [] => []
  | [item] => item
  | item :: items => item ++ sep ++ separated sep items
  end.

(** A line break and the indentation of a level. *)
Definition line_break (indent : option nat) (level : nat) : list ascii :=
  match indent with None => [] | Some width => line_feed :: replicate (width * level) " "%char end.

Definition item_separator (indent : option nat) (level : nat) : list ascii :=
  ","%char :: match indent with None => [" "%char] | Some _ => line_break indent level end.

Definition bracketed (indent : option nat) (level : nat) (opening closing : ascii) (items : list (list ascii)) : list ascii :=
  match items with
  | [] => [opening; closing]
  | _ => opening :: line_break indent (S level) ++ separated (item_separator indent (S level)) items ++
         line_break indent level ++ [closing]
  end.

Fixpoint json_chars (indent : option nat) (level : nat) (v : json) : list ascii :=
  match v with
  | JNull => to_chars "null"
  | JBool b => to_chars (if b then "true" else "false")
  | JInt z => to_chars (str_int z)
  | JStr s => string_chars s
  | JList l => bracketed indent level "[" "]" (json_chars indent (S level) <$> l)
  | JObj fields =>
      bracketed indent level "{" "}"
        ((λ kv, string_chars kv.1 ++ ":"%char :: " "%char :: json_chars indent (S level) kv.2) <$> fields)
  end.

(** [json.dumps(v, indent=indent)] *)
Definition json_dumps (indent : option nat) (v : json) : string := of_chars (json_chars indent 0 v).

(** ** Reading *)
Definition is_blank (c : ascii) : bool := Ascii.eqb c " " || in_range 9 10 c || Ascii.eqb c (ascii_of_nat 13).

Fixpoint skip_blanks (l : list ascii) : list ascii :=
  match l with c :: l' => if is_blank c then skip_blanks l' else l | [] => [] end.

Definition unescape (c : ascii) : option ascii :=
  if Ascii.eqb c quotation || Ascii.eqb c "\" || Ascii.eqb c "/" then Some c
  else if Ascii.eqb c "n" then Some (ascii_of_nat 10) else if Ascii.eqb c "r" then Some (ascii_of_nat 13)
  else if Ascii.eqb c "t" then Some (ascii_of_nat 9) else if Ascii.eqb c "f" then Some (ascii_of_nat 12)
  else if Ascii.eqb c "b" then Some (ascii_of_nat 8) else None.

(** Four hex digits that name a character of the model. *)
Definition unicode_char (l : list ascii) : option ascii :=
  code ← hex_number 0 l; if code <? 256 then Some (ascii_of_N (Z.to_N code)) else None.

(** The rest of a string after its opening quotation mark. *)
Fixpoint read_string (l : list ascii) : option (list ascii * list ascii) :=
  match l with
  | [] => None
  | c :: l' =>
      if Ascii.eqb c quotation then Some ([], l')
      else if Ascii.eqb c "\" then
        match l' with
        | [] => None
        | e :: l'' =>
            if Ascii.eqb e "u" then
              match l'' with
              | h1 :: h2 :: h3 :: h4 :: rest =>
                  u ← unicode_char [h1; h2; h3; h4]; '(s, r) ← read_string rest; Some (u :: s, r)
              | _ => None
              end
            else u ← unescape e; '(s, r) ← read_string l''; Some (u :: s, r)
        end
      else if char_code c <? 32 then None
      else '(s, r) ← read_string l'; Some (c :: s, r)
  end.

(** A run of digits without a superfluous zero in front. *)
Definition read_natural (l : list ascii) : option (N * list ascii) :=
  match span_digits l with
  | ([], _) => None
  | (c :: (_ :: _), _) as ds => if Ascii.eqb c "0" then None else Some (digits_value ds.1, ds.2)
  | (ds, r) => Some (digits_value ds, r)
  end.

Definition read_number (l : list ascii) : option (Z * list ascii) :=
  match l with
  | c :: l' => if Ascii.eqb c "-" then '(n, r) ← read_natural l'; Some (- Z.of_N n, r)
               else '(n, r) ← read_natural l; Some (Z.of_N n, r)
  | [] => None
  end.

Fixpoint drop_prefix (p l : list ascii) : option (list ascii) :=
  match p, l with
  | [], _ => Some l
  | a :: p, b :: l => if Ascii.eqb a b then drop_prefix p l else None
  | _, [] => None
  end.

(** Items up to the closing bracket; [fuel] bounds their number. *)
Fixpoint read_items {A} (read : list ascii → option (A * list ascii)) (closing : ascii) (fuel : nat) (l : list ascii)
    : option (list A * list ascii) :=
  match fuel with
  | O => None
  | S fuel =>
      '(a, r) ← read l;
      match skip_blanks r with
      | c :: r => if Ascii.eqb c closing then Some ([a], r)
                  else if Ascii.eqb c "," then '(items, r) ← read_items read closing fuel r; Some (a :: items, r) else None
      | [] => None
      end
  end.

Definition read_bracketed {A} (read : list ascii → option (A * list ascii)) (closing : ascii) (fuel : nat) (l : list ascii)
    : option (list A * list ascii) :=
  match skip_blanks l with
  | c :: r => if Ascii.eqb c closing then Some ([], r) else read_items read closing fuel l
  | [] => None
  end.

Definition read_entry {A} (read : list ascii → option (A * list ascii)) (l : list ascii) : option ((string * A) * list ascii) :=
  match skip_blanks l with
  | c :: r =>
      if Ascii.eqb c quotation then
        '(key, r) ← read_string r;
        match skip_blanks r with
        | c :: r => if Ascii.eqb c ":" then '(a, r) ← read r; Some ((of_chars key, a), r) else None
        | [] => None
        end
      else None
  | [] => None
  end.

(** [fuel] bounds the depth and the number of items. *)
Fixpoint read_value (fuel : nat) (l : list ascii) : option (json * list ascii) :=
  match fuel with
  | O => None
  | S fuel =>
      match skip_blanks l with
      | [] => None
      | c :: r =>
          if Ascii.eqb c quotation then '(s, r) ← read_string r; Some (JStr (of_chars s), r)
          else if Ascii.eqb c "[" then '(items, r) ← read_bracketed (read_value fuel) "]" fuel r; Some (JList items, r)
          else if Ascii.eqb c "{" then
            '(fields, r) ← read_bracketed (read_entry (read_value fuel)) "}" fuel r; Some (JObj fields, r)
          else if Ascii.eqb c "n" then r ← drop_prefix (to_chars "ull") r; Some (JNull, r)
          else if Ascii.eqb c "t" then r ← drop_prefix (to_chars "rue") r; Some (JBool true, r)
          else if Ascii.eqb c "f" then r ← drop_prefix (to_chars "alse") r; Some (JBool false, r)
          else '(z, r) ← read_number (c :: r); Some (JInt z, r)
      end
  end.

(** A whole text: one value and blanks. *)
Definition json_loads (s : string) : option json :=
  '(v, r) ← read_value (S (String.length s)) (to_chars s);
  match skip_blanks r with [] => Some v | _ => None end.

Example json_example :
  let v := JObj [("a", JList [JInt (-12); JNull; JBool true]); ("b", JObj []); ("c", JStr (of_chars [line_feed; quotation; ascii_of_nat 233]))]%string in
  json_loads (json_dumps None v) = Some v ∧ json_loads (json_dumps (Some 2%nat) v) = Some v.
Proof. by vm_compute. Qed.

(** ** Lemmas *)
Lemma ascii_cases (f : ascii → bool) : forallb f (ascii_of_nat <$> seq 0 256) = true → ∀ c, f c = true.
Proof.
  intros H c. rewrite forallb_forall in H. apply H, list_elem_of_In, list_elem_of_fmap. exists (nat_of_ascii c).
  split; [by rewrite ascii_nat_embedding|]. apply elem_of_seq. pose proof (nat_ascii_bounded c). lia.
Qed.

Lemma escape_printable c : Forall (λ a, in_range 32 126 a = true) (escape c).
Proof.
  apply Forall_forall. intros a Ha.
  pose proof (ascii_cases (λ c, forallb (in_range 32 126) (escape c)) ltac:(vm_compute; reflexivity) c) as H.
  cbn beta in H. rewrite forallb_forall in H. by apply H, list_elem_of_In.
Qed.

Lemma read_string_escape c r :
  read_string (escape c ++ r) = '(s, r) ← read_string r; Some (c :: s, r).
Proof. destruct c as [[] [] [] [] [] [] [] []]; reflexivity. Qed.

Lemma read_string_chars l r : read_string (concat (escape <$> l) ++ quotation :: r) = Some (l, r).
Proof.
  induction l as [|c l IH]; [done|]. rewrite fmap_cons. cbn [concat]. by rewrite <- app_assoc, read_string_escape, IH.
Qed.

(** A printed number has no superfluous zero in front. *)
Lemma digits_aux_head fuel n acc :
  (n < 2 ^ N.of_nat fuel)%N → n ≠ 0%N → ∃ c l, digits_aux fuel n acc = c :: l ∧ c ≠ "0"%char.
Proof.
  revert n acc. induction fuel as [|fuel IH]; intros n acc Hn H0; [simpl in Hn; lia|]. cbn [digits_aux].
  destruct (N.ltb_spec n 10) as [H|H].
  - eexists _, _. split; [reflexivity|]. intros E. apply (f_equal N_of_ascii) in E.
    rewrite digit_char_code in E by (by apply N.mod_lt). rewrite N.mod_small in E by done. vm_compute N_of_ascii in E. lia.
  - rewrite Nat2N.inj_succ, N.pow_succ_r' in Hn. apply IH; [apply N.Div0.div_lt_upper_bound; lia|].
    pose proof (N.div_le_mono 10 n 10 ltac:(lia) H) as Hd. rewrite N.div_same in Hd by lia. lia.
Qed.

Lemma read_digits n rest : no_digit_head rest → read_natural (digits n ++ rest) = Some (n, rest).
Proof.
  intros Hr. destruct (digits_spec n) as (Hne & Hall & Hv). unfold read_natural. rewrite span_digits_app by done.
  destruct (digits n) as [|c [|c' l]] eqn:E; [done|by rewrite Hv|].
  destruct (decide (n = 0)%N) as [->|H0]; [by vm_compute in E|].
  destruct (digits_aux_head (N.size_nat n) n [] (size_nat_gt n) H0) as (d & k & Ed & Hd). unfold digits in E.
  rewrite E in Ed. injection Ed as <- <-. destruct (Ascii.eqb_spec c "0") as [->|_]; [done|]. cbn [fst snd]. by rewrite Hv.
Qed.

Definition blanks (l : list ascii) : Prop := Forall (λ c, is_blank c = true) l.

Lemma skip_blanks_app ws c l : blanks ws → is_blank c = false → skip_blanks (ws ++ c :: l) = c :: l.
Proof. intros H Hc. induction H as [|b ws Hb H IH]; simpl; [by rewrite Hc|by rewrite Hb]. Qed.

Lemma skip_nonblank c l : is_blank c = false → skip_blanks (c :: l) = c :: l.
Proof. intros Hc. by apply (skip_blanks_app []); [constructor|]. Qed.

Lemma line_break_blanks indent level : blanks (line_break indent level).
Proof. destruct indent; constructor; [done|]. by apply Forall_replicate. Qed.

Lemma separator_spec indent level : ∃ ws, item_separator indent level = ","%char :: ws ∧ blanks ws.
Proof. destruct indent as [w|]; eexists; (split; [reflexivity|]); [apply (line_break_blanks (Some w))|by repeat constructor]. Qed.

Lemma blank_not_digit c : is_blank c = true → is_digit c = false.
Proof.
  intros H. pose proof (ascii_cases (λ c, negb (is_blank c) || negb (is_digit c)) ltac:(vm_compute; reflexivity) c) as Hc.
  cbn beta in Hc. rewrite H in Hc. by destruct (is_digit c).
Qed.

(** What may follow a number. *)
Definition ends_number (l : list ascii) : Prop :=
  match l with c :: _ => is_digit c = false ∧ Ascii.eqb c "." = false | [] => True end.

Lemma ends_no_digit l : ends_number l → no_digit_head l.
Proof. destruct l; [done|]. by intros []. Qed.

Lemma blanks_not_digit ws r : blanks ws → ends_number r → ends_number (ws ++ r).
Proof.
  intros [|c ws' Hc _] Hr; [done|]. split; [by apply blank_not_digit|].
  destruct (Ascii.eqb_spec c ".") as [->|]; [by vm_compute in Hc|done].
Qed.

Lemma length_separated {A} (sep : list ascii) (print : A → list ascii) xs :
  (∀ x, x ∈ xs → print x ≠ []) → (length xs <= length (separated sep (print <$> xs)))%nat.
Proof.
  intros H. induction xs as [|x [|y xs] IH]; [done| |].
  - pose proof (H x ltac:(left)). simpl. destruct (print x); [done|simpl; lia].
  - pose proof (H x ltac:(left)) as Hx. change (separated sep (print <$> x :: y :: xs)) with (print x ++ sep ++ separated sep (print <$> y :: xs)).
    rewrite !length_app. specialize (IH ltac:(intros z Hz; apply H; by right)).
    destruct (print x); [done|]. cbn [length] in *. lia.
Qed.

Lemma item_shorter {A} (sep : list ascii) (print : A → list ascii) xs x :
  x ∈ xs → (length (print x) <= length (separated sep (print <$> xs)))%nat.
Proof.
  induction 1 as [x [|y xs]|x y [|z xs] H IH]; [done| | |].
  - rewrite !fmap_cons. cbn [separated]. rewrite length_app. lia.
  - by apply not_elem_of_nil in H.
  - change (separated sep (print <$> y :: z :: xs)) with (print y ++ sep ++ separated sep (print <$> z :: xs)).
    rewrite !length_app. lia.
Qed.

(** *** Bracketed items *)
Section items.
Context {A : Type} (read : list ascii → option (A * list ascii)) (print : A → list ascii) (closing : ascii).
Hypothesis (Hcomma : Ascii.eqb "," closing = false) (Hblank : is_blank closing = false) (Hdigit : is_digit closing = false)
  (Hdot : Ascii.eqb closing "." = false).

Lemma read_separated indent level level' xs rest fuel ws :
  (∀ x, x ∈ xs → ∀ ws r, blanks ws → ends_number r → read (ws ++ print x ++ r) = Some (x, r)) →
  xs ≠ [] → (length xs <= fuel)%nat → blanks ws →
  read_items read closing fuel
    (ws ++ separated (item_separator indent level) (print <$> xs) ++ line_break indent level' ++ closing :: rest) = Some (xs, rest).
Proof.
  revert ws fuel. induction xs as [|x xs IH]; intros ws fuel Hread Hne Hfuel Hws; [done|].
  destruct fuel as [|fuel]; [simpl in Hfuel; lia|]. cbn [read_items]. destruct xs as [|y xs].
  - cbn [separated fmap list_fmap]. rewrite Hread; [|by left|done|by apply blanks_not_digit; [apply line_break_blanks|]].
    cbn [mbind option_bind]. rewrite skip_blanks_app by (done || apply line_break_blanks).
    by rewrite (proj2 (Ascii.eqb_eq closing closing) eq_refl).
  - destruct (separator_spec indent level) as (sp & Hsep & Hsp).
    change (separated (item_separator indent level) (print <$> x :: y :: xs))
      with (print x ++ item_separator indent level ++ separated (item_separator indent level) (print <$> y :: xs)).
    rewrite Hsep at 1. rewrite <- !app_assoc. cbn [app]. rewrite Hread; [|by left|done|done].
    cbn [mbind option_bind]. change (skip_blanks (","%char :: ?l)) with (","%char :: l). cbn iota. rewrite Hcomma.
    change (Ascii.eqb "," ",") with true. cbn iota.
    rewrite IH; [done| |done|simpl in *; lia|done]. intros z Hz. apply Hread. by right.
Qed.

Lemma read_bracketed_items indent level opening xs rest fuel :
  (∀ x, x ∈ xs → ∀ ws r, blanks ws → ends_number r → read (ws ++ print x ++ r) = Some (x, r)) →
  (∀ x, x ∈ xs → ∃ c l, print x = c :: l ∧ is_blank c = false ∧ Ascii.eqb c closing = false) →
  (length xs <= fuel)%nat →
  ∃ body, bracketed indent level opening closing (print <$> xs) = opening :: body ∧
    read_bracketed read closing fuel (body ++ rest) = Some (xs, rest).
Proof.
  intros Hread Hhead Hfuel. destruct xs as [|x xs].
  - exists [closing]. split; [done|]. unfold read_bracketed. cbn [app]. rewrite skip_nonblank by done.
    by rewrite (proj2 (Ascii.eqb_eq closing closing) eq_refl).
  - eexists. split; [reflexivity|]. rewrite <- !app_assoc. cbn [app].
    unfold read_bracketed. destruct (Hhead x ltac:(by left)) as (c & l & Ec & Hb & Hc).
    assert (∃ k, separated (item_separator indent (S level)) (print <$> (x :: xs)) = c :: k) as [k Hk]
      by (rewrite fmap_cons, Ec; destruct xs; eexists; reflexivity).
    rewrite Hk at 1. cbn [app]. rewrite skip_blanks_app by (done || apply line_break_blanks). rewrite Hc.
    apply (read_separated indent (S level) level); [done|done|done|apply line_break_blanks].
Qed.
End items.

(** ** The round trip *)
Lemma string_chars_head s : ∃ l, string_chars s = quotation :: l.
Proof. by eexists. Qed.

Lemma read_string_after s r : read_string (concat (escape <$> to_chars s) ++ [quotation] ++ r) = Some (to_chars s, r).
Proof. apply read_string_chars. Qed.

(** The first character decides how a value is read. *)
Definition plain_head (c : ascii) : Prop :=
  is_blank c = false ∧ Ascii.eqb c "]" = false ∧ Ascii.eqb c "}" = false.

Lemma number_head c :
  is_digit c = true ∨ c = "-"%char →
  plain_head c ∧ Ascii.eqb c quotation = false ∧ Ascii.eqb c "[" = false ∧ Ascii.eqb c "{" = false ∧
  Ascii.eqb c "n" = false ∧ Ascii.eqb c "t" = false ∧ Ascii.eqb c "f" = false.
Proof.
  intros [Hc| ->]; [|done]. unfold plain_head. split_and!; try by apply is_digit_neq.
  destruct (is_blank c) eqn:E; [|done]. by rewrite (blank_not_digit c E) in Hc.
Qed.

Lemma str_int_chars z :
  ∃ c l, to_chars (str_int z) = c :: l ∧ (is_digit c = true ∨ c = "-"%char) ∧
    ∀ rest, no_digit_head rest → read_number (c :: l ++ rest) = Some (z, rest).
Proof.
  unfold str_int. rewrite to_of_chars. destruct (digits_spec (Z.abs_N z)) as (Hne & Hall & _).
  destruct (Z.ltb_spec z 0) as [Hz|Hz]; cbn [app].
  - eexists _, _. split; [reflexivity|]. split; [by right|]. intros rest Hr. unfold read_number.
    change (Ascii.eqb "-" "-") with true. cbn iota. rewrite read_digits by done. cbn. f_equal. f_equal. lia.
  - destruct (digits (Z.abs_N z)) as [|c l] eqn:E; [done|]. apply Forall_cons_iff in Hall as [Hc _].
    eexists _, _. split; [reflexivity|]. split; [by left|]. intros rest Hr. unfold read_number.
    rewrite (is_digit_neq c "-") by done. change (c :: l ++ rest) with ((c :: l) ++ rest). rewrite <- E, read_digits by done.
    cbn. f_equal. f_equal. lia.
Qed.

Lemma bracketed_head indent level opening closing items : ∃ l, bracketed indent level opening closing items = opening :: l.
Proof. destruct items; by eexists. Qed.

Lemma json_head indent level v : ∃ c l, json_chars indent level v = c :: l ∧ plain_head c.
Proof.
  destruct v as [|[]|z|s|l|fields]; try (by eexists _, _).
  - destruct (str_int_chars z) as (c & l & E & Hc & _). exists c, l. split; [exact E|]. by apply number_head.
  - destruct (bracketed_head indent level "[" "]" (json_chars indent (S level) <$> l)) as [k E]. by eexists _, _.
  - destruct (bracketed_head indent level "{" "}"
      ((λ kv, string_chars kv.1 ++ ":"%char :: " "%char :: json_chars indent (S level) kv.2) <$> fields)) as [k E]. by eexists _, _.
Qed.

Lemma bracketed_length indent level opening closing items :
  items ≠ [] → (length (separated (item_separator indent (S level)) items) + 2 <= length (bracketed indent level opening closing items))%nat.
Proof. intros H. destruct items; [done|]. cbn [bracketed length]. rewrite !length_app. simpl. lia. Qed.

(** Items shorter than what contains them. *)
Lemma bracketed_bounds {A} indent level opening closing (print : A → list ascii) xs n :
  (∀ x, x ∈ xs → print x ≠ []) → (length (bracketed indent level opening closing (print <$> xs)) < S n)%nat →
  (length xs <= n)%nat ∧ ∀ x, x ∈ xs → (length (print x) < n)%nat.
Proof.
  intros Hne Hn. destruct xs as [|x xs]; [split; [simpl; lia|intros x H; by apply not_elem_of_nil in H]|].
  pose proof (bracketed_length indent level opening closing (print <$> (x :: xs)) ltac:(by rewrite fmap_cons)) as Hb.
  split.
  - pose proof (length_separated (item_separator indent (S level)) print (x :: xs) Hne). lia.
  - intros y Hy. pose proof (item_shorter (item_separator indent (S level)) print (x :: xs) y Hy). lia.
Qed.

Definition print_entry {A} (print : A → list ascii) (kv : string * A) : list ascii :=
  string_chars kv.1 ++ ":"%char :: " "%char :: print kv.2.

Lemma json_nonempty indent level v : json_chars indent level v ≠ [].
Proof. by destruct (json_head indent level v) as (? & ? & -> & _). Qed.

Lemma entry_nonempty {A} (print : A → list ascii) kv : print_entry print kv ≠ [].
Proof. done. Qed.

Lemma read_entry_printed {A} (read : list ascii → option (A * list ascii)) print kv ws r :
  blanks ws → ends_number r →
  (∀ ws r, blanks ws → ends_number r → read (ws ++ print kv.2 ++ r) = Some (kv.2, r)) →
  read_entry read (ws ++ print_entry print kv ++ r) = Some (kv, r).
Proof.
  intros Hws Hr Hread. unfold read_entry, print_entry, string_chars. rewrite <- !app_assoc. cbn [app].
  rewrite skip_blanks_app by done. cbn iota. change (Ascii.eqb quotation quotation) with true. cbn iota.
  rewrite <- !app_assoc. rewrite read_string_after. cbn [mbind option_bind].
  cbn [app]. rewrite skip_nonblank by done. change (Ascii.eqb ":" ":") with true. cbn iota.
  change (" "%char :: ?l) with ([" "%char] ++ l). rewrite Hread by (done || by repeat constructor).
  cbn [mbind option_bind]. rewrite of_to_chars. by destruct kv.
Qed.

Lemma read_printed n indent level v ws rest :
  (length (json_chars indent level v) < n)%nat → blanks ws → ends_number rest →
  read_value n (ws ++ json_chars indent level v ++ rest) = Some (v, rest).
Proof.
  revert level v ws rest. induction n as [|n IH]; intros level v ws rest Hn Hws Hr; [lia|]. cbn [read_value].
  destruct (json_head indent level v) as (h & tl & Eh & Hh).
  assert (skip_blanks (ws ++ json_chars indent level v ++ rest) = json_chars indent level v ++ rest) as ->
    by (rewrite Eh; cbn [app]; apply skip_blanks_app; [done|apply Hh]).
  destruct v as [|[]|z|s|l|fields]; try reflexivity.
  - destruct (str_int_chars z) as (c & l & E & Hc & Hread). cbn [json_chars]. rewrite E. cbn [app].
    destruct (number_head c Hc) as (_ & -> & -> & -> & -> & -> & ->). rewrite Hread by (by apply ends_no_digit). done.
  - cbn [json_chars]. unfold string_chars. cbn [app]. rewrite <- app_assoc. cbn iota.
    change (Ascii.eqb quotation quotation) with true. cbn iota. rewrite read_string_after. cbn [mbind option_bind].
    by rewrite of_to_chars.
  - cbn [json_chars] in *. destruct (bracketed_bounds _ _ _ _ _ _ _ (λ x _, json_nonempty indent (S level) x) Hn) as [Hlen Hitem].
    destruct (read_bracketed_items (read_value n) (json_chars indent (S level)) "]" eq_refl eq_refl eq_refl eq_refl
      indent level "[" l rest n) as (body & -> & Hread); [|intros x Hx|done|].
    + intros x Hx ws' r Hws' Hr'. by apply IH; [apply Hitem|..].
    + destruct (json_head indent (S level) x) as (c & k & -> & Hc & Hc' & _). by eexists _, _.
    + cbn [app]. change (Ascii.eqb "[" quotation) with false. change (Ascii.eqb "[" "[") with true. cbn iota. by rewrite Hread.
  - cbn [json_chars] in *. change (λ kv, string_chars kv.1 ++ ":"%char :: " "%char :: json_chars indent (S level) kv.2)
      with (print_entry (json_chars indent (S level))) in *.
    destruct (bracketed_bounds _ _ _ _ _ _ _ (λ x _, entry_nonempty (json_chars indent (S level)) x) Hn) as [Hlen Hitem].
    destruct (read_bracketed_items (read_entry (read_value n)) (print_entry (json_chars indent (S level))) "}" eq_refl eq_refl eq_refl eq_refl
      indent level "{" fields rest n) as (body & -> & Hread); [|intros x Hx|done|].
    + intros x Hx ws' r Hws' Hr'. apply read_entry_printed; [done|done|]. intros ws'' r' Hws'' Hr''. apply IH; [|done|done].
      pose proof (Hitem x Hx) as Hlt. unfold print_entry in Hlt. rewrite length_app in Hlt. cbn [length] in Hlt. lia.
    + by eexists _, _.
    + cbn [app]. change (Ascii.eqb "{" quotation) with false. change (Ascii.eqb "{" "[") with false.
      change (Ascii.eqb "{" "{") with true. cbn iota. by rewrite Hread.
Qed.

Lemma length_to_chars s : length (to_chars s) = String.length s.
Proof. induction s as [|c s IH]; [done|]. simpl. by f_equal. Qed.

Lemma loads_dumps indent v : json_loads (json_dumps indent v) = Some v.
Proof.
  unfold json_loads, json_dumps. rewrite <- length_to_chars, to_of_chars.
  pose proof (read_printed (S (length (json_chars indent 0 v))) indent 0 v [] []) as H. cbn [app] in H.
  rewrite app_nil_r in H. by rewrite H by (done || lia || constructor).
Qed.

(** *** One printable line *)
Definition printable (l : list ascii) : Prop := Forall (λ c, in_range 32 126 c = true) l.

Lemma string_printable s : printable (string_chars s).
Proof.
  unfold string_chars. constructor; [done|]. apply Forall_app. split; [|by repeat constructor].
  induction (to_chars s) as [|c l IH]; [constructor|]. rewrite fmap_cons. apply Forall_app. split; [apply escape_printable|done].
Qed.

Lemma digit_printable c : is_digit c = true → in_range 32 126 c = true.
Proof. unfold is_digit, in_range. rewrite !andb_true_iff, !Z.leb_le. lia. Qed.

Lemma separated_printable items : Forall printable items → printable (separated [","%char; " "%char] items).
Proof.
  induction 1 as [|x items Hx Hitems IH]; [constructor|]. destruct items as [|y items]; [done|].
  change (printable (x ++ [","%char; " "%char] ++ separated [","%char; " "%char] (y :: items))).
  apply Forall_app. split; [done|]. by apply Forall_app; split; [repeat constructor|].
Qed.

Lemma bracketed_printable level opening closing items :
  in_range 32 126 opening = true → in_range 32 126 closing = true → Forall printable items →
  printable (bracketed None level opening closing items).
Proof.
  intros Ho Hc H. destruct items as [|x items]; [by repeat constructor|]. cbn [bracketed line_break item_separator app].
  constructor; [done|]. apply Forall_app. split; [by apply separated_printable|by repeat constructor].
Qed.

(** Without [indent] the text is one line of printable ASCII. *)
Lemma dumps_printable level v n : (length (json_chars None level v) < n)%nat → printable (json_chars None level v).
Proof.
  revert level v. induction n as [|n IH]; intros level v Hn; [lia|]. destruct v as [|[]|z|s|l|fields]; try by repeat constructor.
  - cbn [json_chars]. unfold str_int. rewrite to_of_chars. apply Forall_app. split; [destruct (z <? 0); by repeat constructor|].
    eapply Forall_impl; [apply digits_spec|apply digit_printable].
  - apply string_printable.
  - cbn [json_chars] in *. destruct (bracketed_bounds _ _ _ _ _ _ _ (λ x _, json_nonempty None (S level) x) Hn) as [_ Hitem].
    apply bracketed_printable; [done|done|]. apply Forall_fmap, Forall_forall. intros x Hx. by apply IH, Hitem.
  - cbn [json_chars] in *. destruct (bracketed_bounds _ _ _ _ _ _ _ (λ x _, entry_nonempty (json_chars None (S level)) x) Hn) as [_ Hitem].
    apply bracketed_printable; [done|done|]. apply Forall_fmap, Forall_forall. intros x Hx. cbn beta.
    apply Forall_app. split; [apply string_printable|]. constructor; [done|]. constructor; [done|]. apply IH.
    assert (length (print_entry (json_chars None (S level)) x) < n)%nat as Hlt by exact (Hitem x Hx).
    unfold print_entry in Hlt. rewrite length_app in Hlt. cbn [length] in Hlt. lia.
Qed.
