(* ===== verification/Logging.v ===== *)
(** * Log lines ([backend/app/core/logging.py])

    [JsonFormatter] and [configure_logging].  The message of a record has its
    arguments in place and its exception is the traceback as text, the work of
    the [logging] module; the attributes a call sets with [extra] are JSON
    values or durations, the only floats of the program's logs. *)

From S2P Require Import Prelude Decimal Text Models StrategySpec Auth Serialization JsonText.
From Stdlib Require Import ZArith Lia Ascii.
From stdpp Require Import base list option strings.
Local Open Scope Z_scope.

Definition OPERATIONAL_FIELDS : list string :=
  ["event"; "component"; "job_id"; "queue"; "previous_status"; "new_status"; "reconciliation_action"; "attempt";
   "max_attempts"; "duration_ms"; "dependency"; "outcome"; "reconciliation_scanned"; "reconciliation_recovered";
   "reconciliation_failed"]%string.

(** The value of a field: JSON data, or a duration in milliseconds, a float
    rounded to two decimals, as a number of hundredths (of durations below
    10^16 milliseconds, which [repr] prints without an exponent). *)
Inductive LogValue : Type := JsonValue (v : json) | Milliseconds (hundredths : N).

Definition log_fields (fields : list (string * json)) : list (string * LogValue) := (λ kv, (kv.1, JsonValue kv.2)) <$> fields.

(** [logging.LogRecord] *)
Record LoggedRecord : Type := mkLogged {
  lr_created : datetime;
  lr_levelname : string;
  lr_name : string;
  lr_message : string;
  lr_exception : option string;
  lr_extra : list (string * LogValue) }.

(** [hasattr] and [getattr] of an operational field. *)
Definition attribute (r : LoggedRecord) (field_name : string) : option LogValue := obj_get field_name (lr_extra r).

Definition add_operational (r : LoggedRecord) (field_name : string) : option (string * LogValue) :=
  v ← attribute r field_name; Some (field_name, v).

Definition log_payload (r : LoggedRecord) : list (string * LogValue) :=
  log_fields
    ([("timestamp", JStr (isoformat (lr_created r))); ("level", JStr (lr_levelname r)); ("logger", JStr (lr_name r));
      ("message", JStr (lr_message r))]%string ++
     (match lr_exception r with Some text => [("exception"%string, JStr text)] | None => [] end)) ++
  omap (add_operational r) OPERATIONAL_FIELDS.

(** [float.__repr__] of a duration *)
Definition milliseconds_chars (h : N) : list ascii :=
  digits (h / 100) ++ "."%char :: digit_char (h / 10 mod 10) ::
  (if (h mod 10 =? 0)%N then [] else [digit_char (h mod 10)]).

Definition value_chars (v : LogValue) : list ascii :=
  match v with JsonValue v => json_chars None 1 v | Milliseconds h => milliseconds_chars h end.

(** [json.dumps(payload, ensure_ascii=True)] *)
Definition format (r : LoggedRecord) : string :=
  of_chars (bracketed None 0 "{" "}" (print_entry value_chars <$> log_payload r)).

(** *** Reading a line *)

(** The rest of a float after its point. *)
Definition read_fraction (n : N) (l : list ascii) : option (LogValue * list ascii) :=
  match span_digits l with
  | ([d], r) => Some (Milliseconds (100 * n + 10 * digits_value [d])%N, r)
  | ([d; d'], r) => Some (Milliseconds (100 * n + digits_value [d; d'])%N, r)
  | _ => None
  end.

Definition read_log_value (fuel : nat) (l : list ascii) : option (LogValue * list ascii) :=
  '(v, r) ← read_value fuel l;
  match v, r with
  | JInt z, c :: r' => if Ascii.eqb c "." then read_fraction (Z.to_N z) r' else Some (JsonValue v, r)
  | _, _ => Some (JsonValue v, r)
  end.

(** A line as an object. *)
Definition log_loads (line : string) : option (list (string * LogValue)) :=
  match to_chars line with
  | c :: r =>
      if Ascii.eqb c "{" then
        '(fields, r) ← read_bracketed (read_entry (read_log_value (S (String.length line)))) "}" (String.length line) r;
        match r with [] => Some fields | _ => None end
      else None
  | [] => None
  end.

(** ** [configure_logging] *)
Inductive Handler : Type := JsonConsole | OtherHandler (name : string).

Record RootLogger : Type := mkRoot { rl_handlers : list Handler; rl_level : string }.

Definition configure_logging (level : string) (root : RootLogger) : RootLogger :=
  let cleared := mkRoot [] (rl_level root) in
  let added := mkRoot (rl_handlers cleared ++ [JsonConsole]) (rl_level cleared) in
  mkRoot (rl_handlers added) level.

(** ** Lemmas *)
Lemma obj_get_foldl {A} key (fields : list (string * A)) acc :
  foldl (λ acc kv, if String.eqb kv.1 key then Some kv.2 else acc) acc fields
  = match obj_get key fields with Some v => Some v | None => acc end.
Proof.
  unfold obj_get. revert acc. induction fields as [|[k v] fields IH]; intros acc; [done|]. cbn [foldl fst snd].
  rewrite IH. rewrite (IH (if String.eqb k key then Some v else None)). destruct (foldl _ None fields); [done|].
  by destruct (String.eqb k key).
Qed.

Lemma obj_get_app {A} key (l1 l2 : list (string * A)) :
  obj_get key (l1 ++ l2) = match obj_get key l2 with Some v => Some v | None => obj_get key l1 end.
Proof. unfold obj_get at 1. rewrite foldl_app. apply obj_get_foldl. Qed.

Lemma obj_get_absent {A} key (fields : list (string * A)) : key ∉ fields.*1 → obj_get key fields = None.
Proof.
  induction fields as [|[k v] fields IH]; [done|]. rewrite fmap_cons, not_elem_of_cons. intros [Hk Hf].
  change ((k, v) :: fields) with ([(k, v)] ++ fields). rewrite obj_get_app, IH by done.
  unfold obj_get. cbn [foldl fst snd]. by destruct (String.eqb_spec k key) as [->|_].
Qed.

Lemma operational_keys r names : (omap (add_operational r) names).*1 = filter (λ name, is_Some (attribute r name)) names.
Proof.
  induction names as [|name names IH]; [done|]. cbn [omap list_omap]. unfold add_operational at 1.
  destruct (attribute r name) as [v|] eqn:E; cbn [mbind option_bind].
  - rewrite filter_cons_True by (by rewrite E). rewrite fmap_cons. cbn [fst]. f_equal. exact IH.
  - rewrite filter_cons_False by (rewrite E; by intros [? ?]). exact IH.
Qed.

Lemma operational_get r names name :
  name ∈ names → NoDup names → obj_get name (omap (add_operational r) names) = attribute r name.
Proof.
  intros Hin Hnd. induction Hnd as [|n names Hn Hnd IH]; [by apply not_elem_of_nil in Hin|].
  assert (obj_get n (omap (add_operational r) names) = None) as Habs.
  { apply obj_get_absent. rewrite operational_keys. by intros [_ H]%list_elem_of_filter. }
  cbn [omap list_omap]. unfold add_operational at 1.
  apply elem_of_cons in Hin as [->|Hin].
  - destruct (attribute r n) as [v|] eqn:E; cbn [mbind option_bind].
    + change ((n, v) :: omap (add_operational r) names) with ([(n, v)] ++ omap (add_operational r) names).
      rewrite obj_get_app, Habs. unfold obj_get. cbn [foldl fst snd]. by rewrite String.eqb_refl.
    + exact Habs.
  - destruct (attribute r n) as [v|] eqn:E; cbn [mbind option_bind]; [|by apply IH].
    change ((n, v) :: omap (add_operational r) names) with ([(n, v)] ++ omap (add_operational r) names).
    rewrite obj_get_app, IH by done. destruct (attribute r name); [done|]. unfold obj_get. cbn [foldl fst snd].
    destruct (String.eqb_spec n name) as [->|_]; [|done]. by destruct Hn.
Qed.

(** *** Durations *)
Lemma digit_chars_value a b : (a < 10)%N → (b < 10)%N →
  digits_value [digit_char a] = a ∧ digits_value [digit_char a; digit_char b] = (10 * a + b)%N.
Proof. intros Ha Hb. unfold digits_value. cbn [foldl]. rewrite !digit_char_code by done. split; lia. Qed.

Lemma read_fraction_printed h rest :
  no_digit_head rest →
  read_fraction (h / 100) (digit_char (h / 10 mod 10) :: (if (h mod 10 =? 0)%N then [] else [digit_char (h mod 10)]) ++ rest)
  = Some (Milliseconds h, rest).
Proof.
  intros Hr. pose proof (N.mod_lt h 10 ltac:(lia)) as Hm. pose proof (N.mod_lt (h / 10) 10 ltac:(lia)) as Hm'.
  assert (h = 100 * (h / 100) + 10 * (h / 10 mod 10) + h mod 10)%N as Hh.
  { pose proof (N.div_mod h 10 ltac:(lia)). pose proof (N.div_mod (h / 10) 10 ltac:(lia)) as Hq.
    rewrite N.Div0.div_div in Hq. change (10 * 10)%N with 100%N in Hq. lia. }
  destruct (digit_chars_value _ _ Hm' Hm) as [H1 H2]. unfold read_fraction. rewrite app_comm_cons.
  rewrite span_digits_app; [|destruct (_ =? _)%N; repeat constructor; by apply digit_char_is_digit|done].
  destruct (N.eqb_spec (h mod 10) 0) as [E|E]; cbn [app].
  - rewrite H1. repeat f_equal. lia.
  - rewrite H2. repeat f_equal. lia.
Qed.

Lemma digits_head n : ∃ c l, digits n = c :: l ∧ is_digit c = true.
Proof. destruct (digits_spec n) as (Hne & Hall & _). destruct (digits n) as [|c l]; [done|]. apply Forall_cons_iff in Hall as [Hc _]. eauto. Qed.

Lemma read_value_digits fuel n ws rest :
  blanks ws → no_digit_head rest → read_value (S fuel) (ws ++ digits n ++ rest) = Some (JInt (Z.of_N n), rest).
Proof.
  intros Hws Hr. pose proof (read_digits n rest Hr) as Hd. destruct (digits_head n) as (c & l & E & Hc). rewrite E in *.
  destruct (number_head c (or_introl Hc)) as ((Hb & _) & H1 & H2 & H3 & H4 & H5 & H6). cbn [read_value app].
  rewrite skip_blanks_app by done. rewrite H1, H2, H3, H4, H5, H6. unfold read_number. rewrite (is_digit_neq c "-") by done.
  cbn [app] in Hd. by rewrite Hd.
Qed.

Lemma read_log_value_printed fuel v ws rest :
  (length (value_chars v) < fuel)%nat → blanks ws → ends_number rest →
  read_log_value fuel (ws ++ value_chars v ++ rest) = Some (v, rest).
Proof.
  intros Hf Hws Hr. unfold read_log_value. destruct v as [v|h]; cbn [value_chars] in *.
  - rewrite read_printed by done. cbn [mbind option_bind]. destruct v; try done. destruct rest as [|c rest]; [done|].
    destruct Hr as [_ ->]. done.
  - destruct fuel as [|fuel]; [lia|]. unfold milliseconds_chars. rewrite <- app_assoc. cbn [app].
    rewrite read_value_digits by done. cbn [mbind option_bind]. change (Ascii.eqb "." ".") with true. cbn iota.
    rewrite N2Z.id. apply read_fraction_printed. by apply ends_no_digit.
Qed.

Lemma milliseconds_printable h : printable (milliseconds_chars h).
Proof.
  unfold milliseconds_chars. apply Forall_app. split; [eapply Forall_impl; [apply digits_spec|apply digit_printable]|].
  constructor; [done|]. constructor; [apply digit_printable, digit_char_is_digit, N.mod_lt; lia|].
  destruct (_ =? _)%N; repeat constructor. apply digit_printable, digit_char_is_digit, N.mod_lt. lia.
Qed.

Lemma value_printable v : printable (value_chars v).
Proof. destruct v; [by eapply dumps_printable, Nat.lt_succ_diag_r|apply milliseconds_printable]. Qed.

Lemma value_nonempty v : value_chars v ≠ [].
Proof. destruct v as [v|h]; [apply json_nonempty|]. cbn. destruct (digits_head (h / 100)) as (? & ? & E & _). unfold milliseconds_chars. by rewrite E. Qed.

(** *** The line *)
Lemma format_chars_printable fields : printable (bracketed None 0 "{" "}" (print_entry value_chars <$> fields)).
Proof.
  apply bracketed_printable; [done|done|]. apply Forall_fmap, Forall_forall. intros kv _. cbn beta. unfold compose, print_entry.
  apply Forall_app. split; [apply string_printable|]. constructor; [done|]. constructor; [done|]. apply value_printable.
Qed.

Lemma log_loads_format fields :
  log_loads (of_chars (bracketed None 0 "{" "}" (print_entry value_chars <$> fields))) = Some fields.
Proof.
  set (text := bracketed _ _ _ _ _). unfold log_loads. rewrite <- length_to_chars, to_of_chars.
  destruct (bracketed_bounds None 0 "{" "}" (print_entry value_chars) fields (length text)
    (λ x _, entry_nonempty value_chars x) ltac:(unfold text; lia)) as [Hlen Hitem].
  destruct (read_bracketed_items (read_entry (read_log_value (S (length text)))) (print_entry value_chars) "}"
    eq_refl eq_refl eq_refl eq_refl None 0 "{" fields [] (length text)) as (body & Hb & Hread); [|intros x Hx|done|].
  - intros x Hx ws r Hws Hr. apply read_entry_printed; [done|done|]. intros ws' r' Hws' Hr'.
    apply read_log_value_printed; [|done|done]. pose proof (Hitem x Hx) as Hlt. unfold print_entry in Hlt.
    rewrite length_app in Hlt. cbn [length] in Hlt. lia.
  - by eexists _, _.
  - rewrite app_nil_r in Hread. fold text in Hb. rewrite Hb at 1. change (Ascii.eqb "{" "{") with true. cbn iota.
    by rewrite Hread.
Qed.

(** ** The theorem *)

(** A log line: whatever the record holds, it is one line of printable ASCII
    that reads back, as JSON, as an object without duplicate keys: the time, the
    level, the logger and the message, the exception exactly when there is one,
    and every operational field exactly when the record has it, with its value;
    nothing else of the record gets in. *)
Theorem log_line_exact (r : LoggedRecord) :
  let payload := log_payload r in
  printable (to_chars (format r)) ∧ log_loads (format r) = Some payload ∧ NoDup payload.*1 ∧
  obj_get "timestamp" payload = Some (JsonValue (JStr (isoformat (lr_created r)))) ∧
  obj_get "level" payload = Some (JsonValue (JStr (lr_levelname r))) ∧
  obj_get "logger" payload = Some (JsonValue (JStr (lr_name r))) ∧
  obj_get "message" payload = Some (JsonValue (JStr (lr_message r))) ∧
  obj_get "exception" payload = JsonValue ∘ JStr <$> lr_exception r ∧
  (∀ name, name ∈ OPERATIONAL_FIELDS → obj_get name payload = attribute r name) ∧
  (∀ name, name ∈ payload.*1 →
     name ∈ ["timestamp"; "level"; "logger"; "message"; "exception"]%string ++ OPERATIONAL_FIELDS).
Proof.
  intros payload. set (fixed := ["timestamp"; "level"; "logger"; "message"; "exception"]%string).
  set (front := log_fields ([("timestamp", JStr (isoformat (lr_created r))); ("level", JStr (lr_levelname r)); ("logger", JStr (lr_name r));
    ("message", JStr (lr_message r))]%string ++ (match lr_exception r with Some text => [("exception"%string, JStr text)] | None => [] end))).
  assert (payload = front ++ omap (add_operational r) OPERATIONAL_FIELDS) as Hp by done.
  assert (NoDup (fixed ++ OPERATIONAL_FIELDS)) as Hnd by (apply (bool_decide_unpack _); by vm_compute).
  apply NoDup_app in Hnd as (_ & Hdisj & Hops).
  assert (∀ name, name ∈ front.*1 → name ∈ fixed) as Hfront.
  { intros name. unfold front, fixed. destruct (lr_exception r); cbn; rewrite !elem_of_cons; tauto. }
  assert (∀ name, name ∈ (omap (add_operational r) OPERATIONAL_FIELDS).*1 → name ∈ OPERATIONAL_FIELDS) as Hback.
  { intros name. rewrite operational_keys. by intros [_ H]%list_elem_of_filter. }
  assert (∀ name, name ∈ fixed → obj_get name payload = obj_get name front) as Hget.
  { intros name Hname. rewrite Hp, obj_get_app. rewrite (obj_get_absent name); [done|]. intros H. by eapply Hdisj, Hback. }
  split; [unfold format; rewrite to_of_chars; apply format_chars_printable|].
  split; [apply log_loads_format|]. split.
  { rewrite Hp, fmap_app. apply NoDup_app. split; [|split].
    - unfold front. destruct (lr_exception r); apply (bool_decide_unpack _); by vm_compute.
    - intros name H1 H2. by eapply Hdisj; [apply Hfront|apply Hback].
    - rewrite operational_keys. by apply NoDup_filter. }
  split_and!; try (rewrite Hget by (apply (bool_decide_unpack _); by vm_compute); unfold front; by destruct (lr_exception r)).
  - intros name Hname. rewrite Hp, obj_get_app, operational_get by done. destruct (attribute r name) eqn:E; [done|].
    rewrite obj_get_absent; [done|]. intros H. by eapply Hdisj; [apply Hfront|].
  - intros name Hname. rewrite Hp, fmap_app in Hname. apply elem_of_app in Hname as [H|H]; apply elem_of_app; auto.
Qed.

(** A record of the job store, as it is printed. *)
Example log_line_example :
  format (mkLogged 0 "INFO" "app.services.job_store" "Preview job state changed" None
            (log_fields [("event", JStr "job_claimed"); ("attempt", JInt 1); ("other", JInt 2)]%string ++
             [("duration_ms"%string, Milliseconds 1230)]))
  = (replace_char "'"%char quotation
      "{'timestamp': '1970-01-01T00:00:00+00:00', 'level': 'INFO', 'logger': 'app.services.job_store', 'message': 'Preview job state changed', 'event': 'job_claimed', 'attempt': 1, 'duration_ms': 12.3}").
Proof. by vm_compute. Qed.
