(* ===== verification/Effects.v ===== *)
(** * The effects of the job system

    The preview jobs live in a PostgreSQL table that other sessions change
    concurrently; jobs are handed to a queue; any call to either service can
    fail.  An [IO] computation maps a [World] to a result and a [World]: an
    exception keeps the state changes made before it.

    Every database transaction takes the next [DbEvent] of the world: first
    what the other sessions did to the table since this session's previous
    transaction, then the transaction itself, which may fail, either without
    effect or, when the connection is lost during the commit, after it was
    applied.  When the events are used up the table is left alone and nothing
    fails.  Theorems quantify over every list of events.

    An advisory lock is held by a connection; whether the session still has that
    connection when it gives the lock back is an input ([w_unlocks]), like the
    answers of the lock attempts, of the queue and of its scans, which may depend
    on what the queue has accepted by then. *)

From S2P Require Import Prelude Models StrategySpec Uuid Logging.
From Stdlib Require Import ZArith Lia.
From stdpp Require Import base list option strings gmap.
Local Open Scope Z_scope.

(** ** Preview jobs ([backend/app/models/preview_job.py]) *)
Inductive JobStatus : Type := queued | running | completed | failed.

Inductive JobStage : Type :=
  | stage_queued | parsing | validating | compiling | loading_data | backtesting
  | generating_results | stage_completed | stage_failed.

#[global] Instance JobStatus_eq_dec : EqDecision JobStatus.
Proof. solve_decision. Defined.
#[global] Instance JobStage_eq_dec : EqDecision JobStage.
Proof. solve_decision. Defined.

Record PreviewJob : Type := mkJob {
  pj_id : UUID;
  pj_user_id : UUID;
  pj_status : JobStatus;
  pj_stage : JobStage;
  pj_progress : Z;
  pj_strategy_text : string;
  pj_strategy_name : option string;
  pj_error_message : option string;
  pj_preview_result : option json;
  pj_attempt_count : Z;
  pj_created_at : datetime;
  pj_started_at : option datetime;
  pj_completed_at : option datetime;
  pj_expires_at : datetime }.

(** The table, by primary key. *)
Abbreviation JobTable := (gmap Z PreviewJob).

(** The table's CHECK constraints. *)
Definition job_row_ok (j : PreviewJob) : bool :=
  (0 <=? pj_progress j) && (pj_progress j <=? 100) &&
  negb (bool_decide (pj_strategy_text j = EmptyString)) && (0 <=? pj_attempt_count j).

(** What [PreviewQueue.enqueue] is given. *)
Record QueuePayload : Type := mkPayload {
  qp_job_id : UUID;
  qp_user_id : UUID;
  qp_strategy_text : string;
  qp_strategy_name : option string;
  qp_retry_count : option Z }.

(** [logger.info(message, extra=extra)] and the like; [exception] is an error
    with its traceback. *)
Inductive JobLogLevel : Type := log_info | log_warning | log_error | log_exception.
Record JobLog : Type := mkJobLog {
  jl_level : JobLogLevel; jl_message : string; jl_extra : list (string * LogValue) }.

(** [type(error).__name__] *)
Definition class_name (e : exn) : string :=
  match e with
  | ValueError _ => "ValueError" | RuntimeError _ => "RuntimeError" | IndexError => "IndexError"
  | KeyError => "KeyError" | AssertionError => "AssertionError" | ValidationError => "ValidationError"
  | DivisionByZero => "DivisionByZero" | InvalidOperation => "InvalidOperation"
  | StrategyValidationError _ => "StrategyValidationError"
  | StrategyCompilationError _ => "StrategyCompilationError"
  | MarketDataUnavailableError _ => "MarketDataUnavailableError"
  | StrategyParserError _ => "StrategyParserError" | StrategyProviderError _ => "StrategyProviderError"
  | StrategyProviderRefusalError _ => "StrategyProviderRefusalError"
  | StrategyProviderTimeoutError _ => "StrategyProviderTimeoutError"
  | StrategyMalformedOutputError _ => "StrategyMalformedOutputError"
  | TransientPreviewJobError => "TransientPreviewJobError"
  | OperationalError => "OperationalError" | SQLAlchemyTimeoutError => "TimeoutError"
  | DisconnectionError => "DisconnectionError" | HTTPException _ _ => "HTTPException"
  | OtherException name => name
  end.

(** The record of what became of a lock or of a hand-over. *)
Definition outcome_record (level : JobLogLevel) (message event component : string) (job_id : UUID)
    (outcome queue : string) : JobLog :=
  mkJobLog level message
    (log_fields
       [("event", JStr event); ("component", JStr component); ("job_id", JStr (uuid_str job_id));
        ("queue", JStr queue); ("outcome", JStr outcome)]%string).

(** ** Worlds *)

(** A failed call: the exception, and whether it took effect all the same. *)
Definition fault : Type := option (exn * bool).

Record DbEvent : Type := mkEvent { ev_others : JobTable → JobTable; ev_fault : fault }.

Record World : Type := mkWorld {
  w_jobs : JobTable;
  w_events : list DbEvent;
  (* successive readings of the clock *)
  w_clock : nat → datetime;
  w_reads : nat;
  (* payloads the queue accepted, and faults of the next calls *)
  w_queue : list QueuePayload;
  w_queue_faults : list fault;
  (* answers of the next scans of the queue's active jobs, each given what the
     queue has accepted by then *)
  w_active : list (list QueuePayload → result (gset Z));
  (* answers of the next attempts on an advisory lock, with the monotonic time
     read after each *)
  w_polls : list (bool * Z);
  (* advisory locks held by the connections this session has used *)
  w_locks : list (Z * Z);
  (* the dialect of the bound engine *)
  w_dialect : string;
  (* the records the process has logged *)
  w_log : list JobLog;
  (* [get_settings().preview_queue_name] *)
  w_queue_name : string;
  (* whether the session's connection is the one that holds the lock, at its
     next attempts to give the lock back *)
  w_unlocks : list bool;
  (* [round((monotonic() - started) * 1000, 2)] of a pass, in hundredths *)
  w_elapsed : N }.

(** ** Computations *)
Definition IO (A : Type) : Type := World → result A * World.

Definition io_ret {A} (a : A) : IO A := λ w, (Ok a, w).
Definition io_raise {A} (e : exn) : IO A := λ w, (Err e, w).
Definition io_lift {A} (r : result A) : IO A := λ w, (r, w).

Definition io_bind {A B} (m : IO A) (f : A → IO B) : IO B := λ w,
  match m w with
  | (Ok a, w1) => f a w1
  | (Err e, w1) => (Err e, w1)
  end.

(** [try: m except ... as e: h e]; a handler re-raises what it does not name. *)
Definition io_try {A} (m : IO A) (h : exn → IO A) : IO A := λ w,
  match m w with
  | (Ok a, w1) => (Ok a, w1)
  | (Err e, w1) => h e w1
  end.

(** [try: m finally: f] *)
Definition io_finally {A} (m : IO A) (f : IO unit) : IO A := λ w,
  let '(r, w1) := m w in
  match f w1 with
  | (Ok _, w2) => (r, w2)
  | (Err e, w2) => (Err e, w2)
  end.

(** The outcome of [m] as a value. *)
Definition io_attempt {A} (m : IO A) : IO (result A) := λ w, (Ok (m w).1, (m w).2).

Declare Scope io_scope.
Delimit Scope io_scope with io.
Notation "x <~ m ; k" := (io_bind m (λ x, k))
  (at level 20, m at level 100, k at level 200, only parsing) : io_scope.
Notation "' p <~ m ; k" := (io_bind m (λ x, match x with p => k end))
  (at level 20, p pattern, m at level 100, k at level 200, only parsing) : io_scope.
Notation "m ;; k" := (io_bind m (λ _, k)) (at level 100, k at level 200, right associativity) : io_scope.

(** ** Primitive effects *)
Definition set_jobs (t : JobTable) (w : World) : World :=
  mkWorld t (w_events w) (w_clock w) (w_reads w) (w_queue w) (w_queue_faults w) (w_active w)
    (w_polls w) (w_locks w) (w_dialect w) (w_log w) (w_queue_name w) (w_unlocks w) (w_elapsed w).

Definition set_events (evs : list DbEvent) (w : World) : World :=
  mkWorld (w_jobs w) evs (w_clock w) (w_reads w) (w_queue w) (w_queue_faults w) (w_active w)
    (w_polls w) (w_locks w) (w_dialect w) (w_log w) (w_queue_name w) (w_unlocks w) (w_elapsed w).

Definition next_event (w : World) : DbEvent := default (mkEvent id None) (head (w_events w)).
Definition pop_event (w : World) : World := set_events (tail (w_events w)) w.

(** One transaction: [f] reads and changes the table. *)
Definition db {A} (f : JobTable → result A * JobTable) : IO A := λ w,
  let ev := next_event w in
  let t := ev_others ev (w_jobs w) in
  let '(r, t') := f t in
  match ev_fault ev with
  | None => (r, set_jobs t' (pop_event w))
  | Some (e, applied) => (Err e, set_jobs (if applied : bool then t' else t) (pop_event w))
  end.

(** [datetime.now(UTC)] *)
Definition tick (w : World) : World :=
  mkWorld (w_jobs w) (w_events w) (w_clock w) (S (w_reads w)) (w_queue w) (w_queue_faults w)
    (w_active w) (w_polls w) (w_locks w) (w_dialect w) (w_log w) (w_queue_name w) (w_unlocks w) (w_elapsed w).

Definition datetime_now : IO datetime := λ w, (Ok (w_clock w (w_reads w)), tick w).

(** A log call. *)
Definition set_log (l : list JobLog) (w : World) : World :=
  mkWorld (w_jobs w) (w_events w) (w_clock w) (w_reads w) (w_queue w) (w_queue_faults w)
    (w_active w) (w_polls w) (w_locks w) (w_dialect w) l (w_queue_name w) (w_unlocks w) (w_elapsed w).
Definition log_to (r : JobLog) (w : World) : World := set_log (w_log w ++ [r]) w.
Definition emit (r : JobLog) : IO unit := λ w, (Ok (), log_to r w).
(** One that names the configured queue. *)
Definition emit_queue (r : string → JobLog) : IO unit := λ w, emit (r (w_queue_name w)) w.

(** [PreviewQueue.enqueue] *)
Definition queue_enqueue (p : QueuePayload) : IO unit := λ w,
  let accept (q : list QueuePayload) :=
    mkWorld (w_jobs w) (w_events w) (w_clock w) (w_reads w) q (tail (w_queue_faults w))
      (w_active w) (w_polls w) (w_locks w) (w_dialect w) (w_log w) (w_queue_name w) (w_unlocks w) (w_elapsed w) in
  match default None (head (w_queue_faults w)) with
  | None => (Ok (), accept (w_queue w ++ [p]))
  | Some (e, applied) => (Err e, accept (if applied : bool then w_queue w ++ [p] else w_queue w))
  end.

(** One that reports the time since the start of the pass. *)
Definition emit_elapsed (r : N → JobLog) : IO unit := λ w, emit (r (w_elapsed w)) w.

(** [PreviewQueue.active_preview_job_ids]; with no answer left nothing is active. *)
Definition queue_active_ids : IO (gset Z) := λ w,
  (default (λ _, Ok ∅) (head (w_active w)) (w_queue w),
   mkWorld (w_jobs w) (w_events w) (w_clock w) (w_reads w) (w_queue w) (w_queue_faults w)
     (tail (w_active w)) (w_polls w) (w_locks w) (w_dialect w) (w_log w) (w_queue_name w) (w_unlocks w) (w_elapsed w)).

Definition set_locks (locks : list (Z * Z)) (polls : list (bool * Z)) (w : World) : World :=
  mkWorld (w_jobs w) (w_events w) (w_clock w) (w_reads w) (w_queue w) (w_queue_faults w)
    (w_active w) polls locks (w_dialect w) (w_log w) (w_queue_name w) (w_unlocks w) (w_elapsed w).

(** [pg_try_advisory_lock]: another session may hold the lock.  With no answer
    left the lock is free.  The call itself is a database interaction. *)
Definition pg_try_advisory_lock (keys : Z * Z) : IO (bool * option Z) :=
  io_bind (db (λ t, (Ok (), t))) (λ _ w,
  match w_polls w with
  | [] => (Ok (true, None), set_locks (keys :: w_locks w) [] w)
  | (true, t) :: rest => (Ok (true, Some t), set_locks (keys :: w_locks w) rest w)
  | (false, t) :: rest => (Ok (false, Some t), set_locks (w_locks w) rest w)
  end).

(** [session.get_bind().dialect.name == "postgresql"] *)
Definition on_postgresql : IO bool := λ w, (Ok (String.eqb (w_dialect w) "postgresql"), w).

Fixpoint remove_first (k : Z * Z) (l : list (Z * Z)) : list (Z * Z) :=
  match l with [] => [] | x :: l => if decide (x = k) then l else x :: remove_first k l end.

Lemma remove_first_head k l : remove_first k (k :: l) = l.
Proof. cbn [remove_first]. by rewrite decide_True. Qed.

(** Whether the next release reaches the connection that holds the lock.  A
    commit or rollback gives the session's connection back to the pool, and the
    next statement takes one again: in a process with one thread the same, since
    the pool hands out the last one given back, else perhaps another. *)
Definition reaches (w : World) : bool := default true (head (w_unlocks w)).

Definition set_unlocks (unlocks : list bool) (w : World) : World :=
  mkWorld (w_jobs w) (w_events w) (w_clock w) (w_reads w) (w_queue w) (w_queue_faults w)
    (w_active w) (w_polls w) (w_locks w) (w_dialect w) (w_log w) (w_queue_name w) unlocks (w_elapsed w).

(** [pg_advisory_unlock]; the call itself is a database interaction.  On a
    connection that does not hold the lock it returns false, which nobody
    looks at. *)
Definition unlock (keys : Z * Z) (w : World) : World :=
  set_unlocks (tail (w_unlocks w))
    (set_locks (if reaches w then remove_first keys (w_locks w) else w_locks w) (w_polls w) w).

Definition pg_advisory_unlock (keys : Z * Z) : IO unit :=
  io_bind (db (λ t, (Ok (), t))) (λ _ w, (Ok (), unlock keys w)).

(** [session.rollback()]: it ends the transaction on the server. *)
Definition rollback : IO unit := db (λ t, (Ok (), t)).

(** [session.invalidate()]: the session's connection is closed, which frees the
    locks it holds. *)
Definition invalidated (w : World) : World :=
  set_unlocks (tail (w_unlocks w)) (set_locks (if reaches w then [] else w_locks w) (w_polls w) w).

Definition invalidate : IO unit := λ w, (Ok (), invalidated w).

(** When a release fails to reach the lock. *)
Lemma reaches_spec w : reaches w = false → false ∈ w_unlocks w.
Proof. unfold reaches. destruct (w_unlocks w) as [|b l]; [done|]. simpl. intros ->. by left. Qed.

(** ** Weakest preconditions *)
Definition wp {A} (m : IO A) (Q : result A → World → Prop) (w : World) : Prop :=
  Q (m w).1 (m w).2.

Section wp.
Context {A : Type}.
Implicit Types (m : IO A) (Q : result A → World → Prop).

Lemma wp_mono m Q Q' w : wp m Q w → (∀ r w', Q r w' → Q' r w') → wp m Q' w.
Proof. unfold wp. auto. Qed.

Lemma wp_ret (a : A) Q w : Q (Ok a) w → wp (io_ret a) Q w.
Proof. done. Qed.

Lemma wp_raise e Q w : Q (Err e) w → wp (io_raise e) Q w.
Proof. done. Qed.

Lemma wp_lift r Q w : Q r w → wp (io_lift r) Q w.
Proof. done. Qed.

Lemma wp_bind {B} (m : IO B) (f : B → IO A) Q w :
  wp m (λ r w1, match r with Ok b => wp (f b) Q w1 | Err e => Q (Err e) w1 end) w →
  wp (io_bind m f) Q w.
Proof. unfold wp, io_bind. destruct (m w) as [[b|e] w1]; done. Qed.

Lemma wp_bind_inv {B} (m : IO B) (f : B → IO A) Q w :
  wp (io_bind m f) Q w →
  wp m (λ r w1, match r with Ok b => wp (f b) Q w1 | Err e => Q (Err e) w1 end) w.
Proof. unfold wp, io_bind. destruct (m w) as [[b|e] w1]; done. Qed.

Lemma wp_try m h Q w :
  wp m (λ r w1, match r with Ok a => Q (Ok a) w1 | Err e => wp (h e) Q w1 end) w →
  wp (io_try m h) Q w.
Proof. unfold wp, io_try. destruct (m w) as [[b|e] w1]; done. Qed.

Lemma wp_finally m f Q w :
  wp m (λ r w1, wp f (λ r2 w2, match r2 with Ok _ => Q r w2 | Err e => Q (Err e) w2 end) w1) w →
  wp (io_finally m f) Q w.
Proof. unfold wp, io_finally. destruct (m w) as [r w1]. simpl. by destruct (f w1) as [[]?]. Qed.

Lemma wp_attempt (m : IO A) (Q : result (result A) → World → Prop) w :
  wp m (λ r w1, Q (Ok r) w1) w → wp (io_attempt m) Q w.
Proof. done. Qed.

(** A log call changes nothing but the log. *)
Lemma wp_emit (r : JobLog) (k : unit → IO A) Q w : wp (k ()) Q (log_to r w) → wp (io_bind (emit r) k) Q w.
Proof. done. Qed.

Lemma wp_emit_queue (r : string → JobLog) (k : unit → IO A) Q w :
  wp (k ()) Q (log_to (r (w_queue_name w)) w) → wp (io_bind (emit_queue r) k) Q w.
Proof. done. Qed.

Lemma wp_emit_elapsed (r : N → JobLog) (k : unit → IO A) Q w :
  wp (k ()) Q (log_to (r (w_elapsed w)) w) → wp (io_bind (emit_elapsed r) k) Q w.
Proof. done. Qed.

Lemma wp_now (f : datetime → IO A) Q w :
  (∀ now, wp (f now) Q (tick w)) → wp (io_bind datetime_now f) Q w.
Proof. intros H. apply H. Qed.
End wp.

(** ** Assumptions on the other sessions *)

(** The driver raises database errors only. *)
Definition db_error (e : exn) : Prop :=
  match e with
  | OperationalError | SQLAlchemyTimeoutError | DisconnectionError | OtherException _ => True
  | _ => False
  end.

(** A call that fails although its transaction was applied lost its connection
    while the commit was under way. *)
Definition connection_lost (e : exn) : Prop := e = OperationalError ∨ e = DisconnectionError.

Definition fault_ok (f : fault) : Prop :=
  ∀ e applied, f = Some (e, applied) → db_error e ∧ (applied = true → connection_lost e).

Definition respects (R : JobTable → JobTable → Prop) (w : World) : Prop :=
  Forall (λ ev, (∀ t, R t (ev_others ev t)) ∧ fault_ok (ev_fault ev)) (w_events w).

(** No database call fails. *)
Definition fault_free (w : World) : Prop := Forall (λ ev, ev_fault ev = None) (w_events w).

Section rely.
Context (R : JobTable → JobTable → Prop) `{!Reflexive R}.

Lemma respects_pop w : respects R w → respects R (pop_event w).
Proof. unfold respects, pop_event. simpl. destruct (w_events w); [done|]. by intros [_ H]%Forall_cons_iff. Qed.

Lemma respects_next w : respects R w →
  R (w_jobs w) (ev_others (next_event w) (w_jobs w)) ∧ fault_ok (ev_fault (next_event w)).
Proof.
  unfold respects, next_event. destruct (w_events w) as [|ev evs]; simpl.
  - intros _. split; [by simpl|done].
  - by intros [[H1 H2] _]%Forall_cons_iff.
Qed.

(** A transaction either runs on the table the others left, or fails with a
    database error, with or without its effect. *)
Lemma wp_db {A} (f : JobTable → result A * JobTable) (Q : result A → World → Prop) w :
  respects R w →
  (∀ t w1, R (w_jobs w) t → w1 = pop_event w →
     Q (f t).1 (set_jobs (f t).2 w1) ∧
     (∀ e, db_error e → Q (Err e) (set_jobs t w1)) ∧
     (∀ e, connection_lost e → Q (Err e) (set_jobs (f t).2 w1))) →
  wp (db f) Q w.
Proof.
  intros Hr H. destruct (respects_next w Hr) as [HR He]. unfold wp, db.
  destruct (H _ _ HR eq_refl) as (H1 & H2 & H3). destruct (f _) as [r t'].
  destruct (ev_fault (next_event w)) as [[e b]|]; simpl in *; [|done].
  destruct (He e b eq_refl) as [He1 He2]. destruct b; auto.
Qed.

Lemma connection_lost_db e : connection_lost e → db_error e.
Proof. by intros [-> | ->]. Qed.

(** With no faults, only what the others did remains open. *)
Lemma wp_db_ok {A} (f : JobTable → result A * JobTable) (Q : result A → World → Prop) w :
  respects R w → fault_free w →
  (∀ t w1, R (w_jobs w) t → w1 = pop_event w → Q (f t).1 (set_jobs (f t).2 w1)) →
  wp (db f) Q w.
Proof.
  intros Hr Hf H. destruct (respects_next w Hr) as [HR _]. unfold wp, db.
  specialize (H _ _ HR eq_refl). destruct (f _) as [r t'].
  assert (ev_fault (next_event w) = None) as ->; [|done].
  unfold fault_free, next_event in *. destruct (w_events w); [done|]. by apply Forall_cons_iff in Hf as [].
Qed.

Lemma fault_free_pop w : fault_free w → fault_free (pop_event w).
Proof. unfold fault_free, pop_event. simpl. destruct (w_events w); [done|]. by intros [_ H]%Forall_cons_iff. Qed.
End rely.

(** ** What a computation on the table leaves alone *)
Definition same_resources (w w' : World) : Prop :=
  w_locks w' = w_locks w ∧ w_polls w' = w_polls w ∧ w_dialect w' = w_dialect w ∧
  w_queue w' = w_queue w ∧ w_queue_faults w' = w_queue_faults w ∧ w_active w' = w_active w ∧
  w_clock w' = w_clock w ∧ w_unlocks w' = w_unlocks w.

#[global] Instance same_resources_preorder : PreOrder same_resources.
Proof. unfold same_resources. split; [done|]. intros w1 w2 w3 H1 H2. destruct_and!. split_and!; congruence. Qed.

Definition frames {A} (m : IO A) : Prop := ∀ w, same_resources w (m w).2.

Lemma frames_db {A} (f : JobTable → result A * JobTable) : frames (db f).
Proof. intros w. unfold db. destruct (f _). by destruct (ev_fault _) as [[? []]|]. Qed.

Lemma frames_ret {A} (a : A) : frames (io_ret a).
Proof. done. Qed.

Lemma frames_raise {A} e : frames (io_raise (A := A) e).
Proof. done. Qed.

Lemma frames_now : frames datetime_now.
Proof. done. Qed.

Lemma frames_bind {A B} (m : IO A) (f : A → IO B) :
  frames m → (∀ a, frames (f a)) → frames (io_bind m f).
Proof.
  intros Hm Hf w. specialize (Hm w). unfold io_bind. destruct (m w) as [[a|e] w1]; [|done].
  simpl in Hm. etransitivity; [exact Hm|apply Hf].
Qed.

Lemma frames_try {A} (m : IO A) h : frames m → (∀ e, frames (h e)) → frames (io_try m h).
Proof.
  intros Hm Hf w. specialize (Hm w). unfold io_try. destruct (m w) as [[a|e] w1]; [done|].
  simpl in Hm. etransitivity; [exact Hm|apply Hf].
Qed.

Lemma frames_emit r : frames (emit r).
Proof. done. Qed.

Lemma frames_emit_queue r : frames (emit_queue r).
Proof. done. Qed.

Lemma frames_emit_elapsed r : frames (emit_elapsed r).
Proof. done. Qed.
#[export] Hint Resolve frames_emit frames_emit_queue frames_emit_elapsed : frame.
#[export] Hint Resolve frames_db frames_ret frames_raise frames_now frames_bind frames_try : frame.

(** Follow the syntax of a computation. *)
Ltac frame_tac :=
  repeat (intros; match goal with
  | |- frames (io_bind _ _) => apply frames_bind
  | |- frames (io_try _ _) => apply frames_try
  | |- frames (match ?x with _ => _ end) => destruct x
  | |- frames _ => solve [auto with frame]
  end).

(** *** Computations whose only exceptions are the database's *)
Definition faults_ok (w : World) : Prop := Forall (λ ev, fault_ok (ev_fault ev)) (w_events w).

Definition db_errors {A} (m : IO A) : Prop := ∀ w,
  faults_ok w → faults_ok (m w).2 ∧ ∀ e, (m w).1 = Err e → db_error e.

Lemma respects_faults R w : respects R w → faults_ok w.
Proof. intros H. eapply Forall_impl; [exact H|]. by intros ev []. Qed.

Lemma db_errors_db {A} (f : JobTable → result A * JobTable) :
  (∀ t e, (f t).1 = Err e → db_error e) → db_errors (db f).
Proof.
  intros Hf w Hw. unfold db. specialize (Hf (ev_others (next_event w) (w_jobs w))). destruct (f _) as [r t'].
  assert (fault_ok (ev_fault (next_event w)) ∧ faults_ok (pop_event w)) as [H1 H2].
  { unfold faults_ok, next_event, pop_event in *. simpl. destruct (w_events w); [by split|].
    by apply Forall_cons_iff in Hw as []. }
  destruct (ev_fault (next_event w)) as [[e b]|]; (split; [exact H2|]); [|exact Hf].
  intros e' [= <-]. by destruct (H1 e b eq_refl).
Qed.

Lemma db_errors_bind {A B} (m : IO A) (f : A → IO B) :
  db_errors m → (∀ a, db_errors (f a)) → db_errors (io_bind m f).
Proof.
  intros Hm Hf w Hw. destruct (Hm w Hw) as [H1 H2]. unfold io_bind. destruct (m w) as [[a|e] w1]; [by apply Hf|].
  split; [exact H1|]. intros e' [= <-]. by apply H2.
Qed.

Lemma db_errors_ret {A} (a : A) : db_errors (io_ret a).
Proof. by intros w Hw. Qed.

Lemma db_errors_emit r : db_errors (emit r).
Proof. by intros w Hw. Qed.

Lemma db_errors_now : db_errors datetime_now.
Proof. by intros w Hw. Qed.

(** A world for examples: nobody interferes and nothing fails. *)
Definition quiet_world (jobs : JobTable) (polls : list (bool * Z)) : World :=
  mkWorld jobs [] (λ n, Z.of_nat n) 0 [] [] [] polls [] "postgresql" [] "preview" [] 0.

Lemma quiet_respects R jobs polls : respects R (quiet_world jobs polls).
Proof. constructor. Qed.

Lemma quiet_fault_free jobs polls : fault_free (quiet_world jobs polls).
Proof. constructor. Qed.
