(* ===== verification/Rely.v ===== *)
(** * Rely and guarantee

    The proof rules that every analysis of the handlers shares.  A triple has an
    invariant of the world, which includes what the other sessions do, and a
    relation between tables that the computation guarantees; it also says what
    a normal result and an exception satisfy. *)

From S2P Require Import Prelude Models Effects.
From stdpp Require Import base option strings gmap relations.
Local Open Scope io_scope.

Abbreviation anything := (λ _ : exn, True).

Section rely.
Context {inv : World → Prop} {rel : JobTable → JobTable → Prop} `{!PreOrder rel}.

Definition triple {A} (m : IO A) (Q : A → Prop) (E : exn → Prop) : Prop := ∀ w,
  inv w → wp m (λ r w', rel (w_jobs w) (w_jobs w') ∧ inv w' ∧ outcome r Q E) w.

(** A computation that leaves the table alone. *)
Lemma triple_same {A} (m : IO A) (Q : A → Prop) E :
  (∀ w, inv w → w_jobs (m w).2 = w_jobs w ∧ inv (m w).2 ∧ outcome (m w).1 Q E) → triple m Q E.
Proof. intros Hm w Hw. destruct (Hm w Hw) as (H & ? & ?). unfold wp. by rewrite H. Qed.

Lemma triple_lift {A} (r : result A) Q E : outcome r Q E → triple (io_lift r) Q E.
Proof. intros H. by apply triple_same. Qed.

Lemma triple_ret {A} (a : A) (Q : A → Prop) E : Q a → triple (io_ret a) Q E.
Proof. intros H. by apply triple_same. Qed.

Lemma triple_raise {A} e (Q : A → Prop) (E : exn → Prop) : E e → triple (io_raise e) Q E.
Proof. intros H. by apply triple_same. Qed.

Lemma triple_mono {A} (m : IO A) (Q Q' : A → Prop) (E E' : exn → Prop) :
  triple m Q E → (∀ a, Q a → Q' a) → (∀ e, E e → E' e) → triple m Q' E'.
Proof.
  intros Hm HQ HE w Hw. eapply wp_mono; [by apply Hm|]. intros r w' (? & ? & H). split_and!; [done..|].
  by eapply outcome_weaken.
Qed.

Lemma triple_bind {A B} (m : IO A) (f : A → IO B) P Q E :
  triple m P E → (∀ a, P a → triple (f a) Q E) → triple (io_bind m f) Q E.
Proof.
  intros Hm Hf w Hw. apply wp_bind. eapply wp_mono; [by apply Hm|]. intros [a|e] w1 (H1 & Hw1 & Ha); [|done].
  eapply wp_mono; [by apply (Hf a)|]. intros r w2 (H2 & ? & ?). split_and!; [by etransitivity|done..].
Qed.

Lemma triple_try {A} (m : IO A) h Q F E :
  triple m Q F → (∀ e, F e → triple (h e) Q E) → triple (io_try m h) Q E.
Proof.
  intros Hm Hh w Hw. apply wp_try. eapply wp_mono; [by apply Hm|]. intros [a|e] w1 (H1 & Hw1 & Ha); [done|].
  eapply wp_mono; [by apply (Hh e)|]. intros r w2 (H2 & ? & ?). split_and!; [by etransitivity|done..].
Qed.

Lemma triple_finally {A} (m : IO A) f Q E R :
  triple m Q E → triple f R E → triple (io_finally m f) Q E.
Proof.
  intros Hm Hf w Hw. apply wp_finally. eapply wp_mono; [by apply Hm|]. intros r w1 (H1 & Hw1 & Ha).
  eapply wp_mono; [by apply Hf|]. intros [u|e] w2 (H2 & ? & ?); (split_and!; [by etransitivity|done..]).
Qed.

Lemma triple_attempt {A} (m : IO A) (Q : A → Prop) (F E : exn → Prop) :
  triple m Q F → triple (io_attempt m) (λ r, outcome r Q F) E.
Proof. intros Hm w Hw. apply wp_attempt. eapply wp_mono; [by apply Hm|]. intros r w1 (? & ? & ?). done. Qed.
End rely.
Arguments triple inv rel {A} m Q E.
