(* ===== verification/Database.v ===== *)
(** * One database session as state passing

    A session works on a table (or any data [T]) and may fail at every call.
    Used by the market-data import and the strategy routes; the preview jobs,
    which other sessions change concurrently, use [Effects] instead. *)

From S2P Require Import Prelude Effects.
From Stdlib Require Import ZArith Lia.
From stdpp Require Import base list option strings.

(** [isinstance(e, SQLAlchemyError)], [isinstance(e, IntegrityError)] *)
Definition sqlalchemy_names : list string :=
  ["IntegrityError"; "DataError"; "ProgrammingError"; "InternalError"; "InterfaceError"; "DatabaseError";
   "StaleDataError"; "InvalidRequestError"; "PendingRollbackError"]%string.

Definition sqlalchemy_error (e : exn) : bool :=
  match e with
  | OperationalError | SQLAlchemyTimeoutError | DisconnectionError => true
  | OtherException name => bool_decide (name ∈ sqlalchemy_names)
  | _ => false
  end.

Definition integrity_error : exn := OtherException "IntegrityError".

(** The data, and the faults of the next calls. *)
Record Store (T : Type) : Type := mkStore { st_table : T; st_faults : list fault }.
Arguments mkStore {T} _ _.
Arguments st_table {T} _.
Arguments st_faults {T} _.

Definition DB (T A : Type) : Type := Store T → result A * Store T.

Section operations.
Context {T : Type}.

Definition db_ret {A} (a : A) : DB T A := λ s, (Ok a, s).
Definition db_raise {A} (e : exn) : DB T A := λ s, (Err e, s).
Definition db_lift {A} (r : result A) : DB T A := λ s, (r, s).
Definition db_bind {A B} (m : DB T A) (f : A → DB T B) : DB T B := λ s,
  match m s with (Ok a, s1) => f a s1 | (Err e, s1) => (Err e, s1) end.

(** [try: m except ... as e: h e]; [h] re-raises what the code does not name. *)
Definition db_try {A} (m : DB T A) (h : exn → DB T A) : DB T A := λ s,
  match m s with (Ok a, s1) => (Ok a, s1) | (Err e, s1) => h e s1 end.

Definition next_fault (s : Store T) : fault := default None (head (st_faults s)).
Definition with_table (t : T) (s : Store T) : Store T := mkStore t (tail (st_faults s)).

(** A statement inside a transaction: it runs, or fails without effect. *)
Definition statement {A} (f : T → result A * T) : DB T A := λ s,
  match next_fault s with
  | None => let '(r, t) := f (st_table s) in (r, with_table t s)
  | Some (e, _) => (Err e, with_table (st_table s) s)
  end.

Definition query {A} (f : T → A) : DB T A := statement (λ t, (Ok (f t), t)).

(** [with transaction: body]: an exception rolls back; the commit itself may
    fail, with its effect when only the acknowledgement was lost. *)
Definition transaction {A} (body : DB T A) : DB T A := λ s,
  match body s with
  | (Err e, s1) => (Err e, mkStore (st_table s) (st_faults s1))
  | (Ok a, s1) =>
      match next_fault s1 with
      | None => (Ok a, with_table (st_table s1) s1)
      | Some (e, applied) => (Err e, with_table (if applied : bool then st_table s1 else st_table s) s1)
      end
  end.

(** [session.rollback()] *)
Definition session_rollback : DB T unit := query (λ _, ()).

(** [session.commit()] of pending changes [f]: the flush and the commit. *)
Definition commit_changes {A} (f : T → result A * T) : DB T A := transaction (statement f).

(** ** Lemmas *)
Lemma statement_cases {A} (f : T → result A * T) s :
  (∃ e, (statement f s).1 = Err e ∧ (∃ b, next_fault s = Some (e, b)) ∧ st_table (statement f s).2 = st_table s) ∨
  ((statement f s).1 = (f (st_table s)).1 ∧ st_table (statement f s).2 = (f (st_table s)).2).
Proof.
  unfold statement. destruct (next_fault s) as [[e b]|]; [left; exists e; split; [done|split; [by exists b|done]]|].
  right. by destruct (f _).
Qed.

Lemma query_cases {A} (f : T → A) s :
  st_table (query f s).2 = st_table s ∧ ((query f s).1 = Ok (f (st_table s)) ∨ ∃ e, (query f s).1 = Err e).
Proof. unfold query, statement. destruct (next_fault s) as [[e b]|]; simpl; eauto. Qed.

Lemma transaction_cases {A} (body : DB T A) s :
  match transaction body s with
  | (Ok a, s') => ∃ s1, body s = (Ok a, s1) ∧ st_table s' = st_table s1
  | (Err e, s') => st_table s' = st_table s ∨ ∃ a s1, body s = (Ok a, s1) ∧ st_table s' = st_table s1
  end.
Proof.
  unfold transaction. destruct (body s) as [[a|e] s1]; [|by left].
  destruct (next_fault s1) as [[e applied]|]; [|by exists s1]. destruct applied; simpl; [right; eauto|by left].
Qed.

(** A commit applies the changes and returns their result, or raises and
    leaves the data as it was or, when the acknowledgement was lost, changed. *)
Lemma commit_cases {A} (f : T → result A * T) s :
  match commit_changes f s with
  | (Ok a, s') => f (st_table s) = (Ok a, st_table s')
  | (Err _, s') => st_table s' = st_table s ∨ ∃ a, f (st_table s) = (Ok a, st_table s')
  end.
Proof.
  unfold commit_changes, transaction, statement. destruct (next_fault s) as [[e b]|]; [by left|].
  destruct (f (st_table s)) as [[a|e] t] eqn:E; [|by left]. destruct (next_fault _) as [[e []]|]; simpl; eauto.
Qed.

Lemma statement_runs {A} (f : T → result A * T) s :
  st_faults s = [] → statement f s = ((f (st_table s)).1, mkStore (f (st_table s)).2 []).
Proof. intros Hf. unfold statement, next_fault, with_table. rewrite Hf. simpl. by destruct (f _). Qed.

Lemma query_runs {A} (f : T → A) s : st_faults s = [] → query f s = (Ok (f (st_table s)), mkStore (st_table s) []).
Proof. intros Hs. unfold query. by rewrite statement_runs. Qed.

Lemma commit_runs {A} (f : T → result A * T) s a t :
  st_faults s = [] → f (st_table s) = (Ok a, t) → commit_changes f s = (Ok a, mkStore t []).
Proof. intros Hs Hf. unfold commit_changes, transaction. rewrite statement_runs by done. by rewrite Hf. Qed.
End operations.

Notation "x <- m ;; k" := (db_bind m (λ x, k)) (at level 100, m at next level, right associativity).
