(* ===== verification/Session.v ===== *)
(** * Database sessions ([backend/app/db/session.py])

    The URL of the database as the parts SQLAlchemy's [make_url] returns, the
    options of the engine, and the session of a request. *)

From S2P Require Import Prelude Text Models Effects Database Config.
From Stdlib Require Import ZArith QArith Lia.
From stdpp Require Import base list option strings gmap.
Local Open Scope Z_scope.

(** [sqlalchemy.engine.URL] *)
Record DatabaseUrl : Type := mkDatabaseUrl {
  drivername : string;
  host : option string;
  port : option Z;
  query_options : gmap string string }.

Definition LOCAL_DATABASE_HOSTS : list string := ["localhost"; "127.0.0.1"; "::1"; "host.docker.internal"]%string.

Definition set_drivername (name : string) (u : DatabaseUrl) : DatabaseUrl :=
  mkDatabaseUrl name (host u) (port u) (query_options u).

(** [url.update_query_dict({key: value})]: an option already there is replaced. *)
Definition update_query (key value : string) (u : DatabaseUrl) : DatabaseUrl :=
  mkDatabaseUrl (drivername u) (host u) (port u) (<[key := value]> (query_options u)).

Definition database_host (u : DatabaseUrl) : string := str_lower (or_empty (host u)).

Definition normalize_database_url (url : DatabaseUrl) : DatabaseUrl :=
  let url := if String.eqb (drivername url) "postgresql" then set_drivername "postgresql+psycopg" url else url in
  let is_local_supabase := bool_decide (port url = Some 54322) in
  if negb (bool_decide (database_host url ∈ LOCAL_DATABASE_HOSTS)) && negb is_local_supabase
  then update_query "sslmode" "require" url else url.

(** The arguments of [create_engine]. *)
Record EngineOptions : Type := mkEngineOptions {
  eo_url : DatabaseUrl;
  eo_connect_timeout : Z;
  eo_pool_pre_ping : bool;
  eo_pool_size : Z;
  eo_max_overflow : Z;
  eo_pool_timeout : Z;
  eo_pool_recycle : Z;
  eo_pool_use_lifo : bool }.

Definition create_database_engine (url : DatabaseUrl)
    (connect_timeout pool_size max_overflow pool_timeout pool_recycle : Z) : EngineOptions :=
  mkEngineOptions (normalize_database_url url) connect_timeout true pool_size max_overflow pool_timeout pool_recycle true.

(** The process-wide engine; [url] is the parsed [settings.database_url]. *)
Definition engine_of (s : Settings) (url : DatabaseUrl) : EngineOptions :=
  create_database_engine url (database_connect_timeout_seconds s) (database_pool_size s) (database_max_overflow s)
    (database_pool_timeout_seconds s) (database_pool_recycle_seconds s).

(** The session of a request around its handler. *)
Definition get_db_session {T A} (handler : DB T A) : DB T A :=
  db_try handler (λ e, _ <- session_rollback ;; db_raise e).

(** ** Lemmas *)
Definition local_target (u : DatabaseUrl) : Prop :=
  database_host u ∈ LOCAL_DATABASE_HOSTS ∨ port u = Some 54322.

Lemma normalize_host u : host (normalize_database_url u) = host u ∧ port (normalize_database_url u) = port u.
Proof. unfold normalize_database_url. destruct (String.eqb _ _), (negb _ && negb _); done. Qed.

Lemma normalize_query u :
  (local_target u → query_options (normalize_database_url u) = query_options u) ∧
  (¬ local_target u → query_options (normalize_database_url u) = <["sslmode"%string := "require"%string]> (query_options u)).
Proof.
  unfold normalize_database_url, local_target.
  set (v := if String.eqb (drivername u) "postgresql" then set_drivername "postgresql+psycopg" u else u).
  assert (query_options v = query_options u ∧ host v = host u ∧ port v = port u) as (Eq & Eh & Ep)
    by (unfold v; destruct (String.eqb _ _); done).
  unfold database_host. rewrite Eh, Ep.
  destruct (bool_decide_reflect (str_lower (or_empty (host u)) ∈ LOCAL_DATABASE_HOSTS)),
    (bool_decide_reflect (port u = Some 54322)); cbn [negb andb]; (split; [intros H|intros H]); try tauto; try done.
  cbn [update_query query_options]. by rewrite Eq.
Qed.

(** ** The theorems *)

(** C32: The database connection: TLS is required, whatever the URL asks for, unless
    the host is one of the local ones or the port is the local Supabase port,
    and then the options are those of the URL; the host, the port and every
    other option are kept; in production, settings that load never lead to a
    connection without TLS; and a process opens at most a hundred connections. *)
Theorem database_connection (s : Settings) (u : DatabaseUrl) :
  load_settings s = Ok s → host u = url_hostname (database_url s) → port u = url_port (database_url s) →
  let e := engine_of s u in
  host (eo_url e) = host u ∧ port (eo_url e) = port u ∧
  (∀ key, key ≠ "sslmode"%string → query_options (eo_url e) !! key = query_options u !! key) ∧
  (¬ local_target u → query_options (eo_url e) !! "sslmode"%string = Some "require"%string) ∧
  (local_target u → query_options (eo_url e) !! "sslmode"%string = query_options u !! "sslmode"%string) ∧
  (environment s = PRODUCTION → query_options (eo_url e) !! "sslmode"%string = Some "require"%string) ∧
  0 < eo_pool_size e + eo_max_overflow e <= 100.
Proof.
  intros Hload Hhost Hport e. destruct (normalize_host u) as [Eh Ep]. destruct (normalize_query u) as [Hlocal Hremote].
  change (eo_url e) with (normalize_database_url u).
  assert (¬ local_target u → query_options (normalize_database_url u) !! "sslmode"%string = Some "require"%string) as Htls.
  { intros H. rewrite Hremote by done. apply lookup_insert_eq. }
  pose proof (proj1 (proj1 (settings_load_iff s)) Hload) as (Hf & _ & Hprod).
  split_and!; [done|done| |done| | | |].
  - intros key Hk. destruct (decide (local_target u)) as [H|H]; [by rewrite Hlocal|].
    rewrite Hremote by done. by apply lookup_insert_ne.
  - intros H. by rewrite Hlocal.
  - intros Hp. apply Htls. destruct (Hprod Hp) as (H1 & H2 & _). unfold local_target, database_host.
    rewrite Hhost, Hport. by intros [|].
  - unfold settings_fields_ok, gt0_le, ge0_le in Hf. repeat (apply andb_true_iff in Hf as [Hf ?]). propify_bool. simpl. lia.
  - unfold settings_fields_ok, gt0_le, ge0_le in Hf. repeat (apply andb_true_iff in Hf as [Hf ?]). propify_bool. simpl. lia.
Qed.

Definition sample_url : DatabaseUrl :=
  mkDatabaseUrl "postgresql" (Some "db.abc.supabase.co") (Some 5432) {["sslmode" := "disable"; "application_name" := "api"]}%string.

Lemma database_connection_witness :
  let e := engine_of sample_settings sample_url in
  drivername (eo_url e) = "postgresql+psycopg"%string ∧ query_options (eo_url e) !! "application_name"%string = Some "api"%string ∧
  query_options (eo_url e) !! "sslmode"%string = Some "require"%string.
Proof.
  split; [reflexivity|]. split; [reflexivity|].
  apply (database_connection sample_settings sample_url sample_settings_load eq_refl eq_refl). reflexivity.
Defined.

(** The port alone marks a target as local: outside production a remote host
    on port 54322 is connected without requiring TLS. *)
Lemma remote_without_tls :
  let u := mkDatabaseUrl "postgresql" (Some "db.example.org") (Some 54322) ∅ in
  database_host u ∉ LOCAL_DATABASE_HOSTS ∧ query_options (normalize_database_url u) !! "sslmode"%string = None.
Proof. split; [vm_compute; intros H; repeat (apply elem_of_cons in H as [H|H]; [discriminate H|]); by apply not_elem_of_nil in H|reflexivity]. Qed.

(** A stricter mode in the URL of a remote target is replaced as well. *)
Lemma verification_replaced :
  let u := mkDatabaseUrl "postgresql" (Some "db.example.org") (Some 5432) {["sslmode" := "verify-full"]}%string in
  query_options (normalize_database_url u) !! "sslmode"%string = Some "require"%string.
Proof. reflexivity. Qed.
