(* ===== verification/Operations.v ===== *)
(** * Processes ([backend/app/core/operations.py], [backend/app/api/routes/health.py],
    [backend/app/main.py], [backend/app/workers/run_preview_worker.py])

    What the processes do around their work: dependency checks, startup,
    shutdown.  A computation is run against the answers of the services it
    calls, and leaves the trace of its calls and its log records in order;
    durations are not part of a record. *)

From S2P Require Import Prelude Text Config Auth.
From Stdlib Require Import ZArith Lia.
From stdpp Require Import base list option strings.
Local Open Scope Z_scope.

(** ** Traces *)

(** The calls that reach a service or start the work. *)
Inductive Call : Type :=
  | GetRedisConnection | GetPreviewQueue
  | SelectOne | Ping
  | DisconnectPool | DisposeEngine
  | OpenHttpClient | ServeRequests | CloseHttpClient
  | ReconcileJobs | BuildWorker | Work (with_scheduler : bool).
#[global] Instance Call_eq_dec : EqDecision Call.
Proof. solve_decision. Defined.

Inductive Level : Type := INFO | WARNING | ERROR.

(** [logger.info(message, extra={...})] and the like. *)
Record LogRecord : Type := mkLog {
  lg_level : Level;
  lg_message : string;
  lg_event : string;
  lg_component : string;
  lg_dependency : option string;
  lg_outcome : string }.

#[global] Instance Level_eq_dec : EqDecision Level.
Proof. solve_decision. Defined.
#[global] Instance LogRecord_eq_dec : EqDecision LogRecord.
Proof. solve_decision. Defined.

Inductive Step : Type := Called (c : Call) | Logged (r : LogRecord).

(** The answers of the services, and a computation that consults them. *)
Definition Services : Type := Call → result unit.
Definition Proc (A : Type) : Type := Services → result A * list Step.

Definition p_ret {A} (a : A) : Proc A := λ _, (Ok a, []).
Definition p_raise {A} (e : exn) : Proc A := λ _, (Err e, []).
Definition p_bind {A B} (m : Proc A) (f : A → Proc B) : Proc B := λ s,
  match m s with
  | (Ok a, t) => let '(r, t') := f a s in (r, t ++ t')
  | (Err e, t) => (Err e, t)
  end.
(** [try: m except Exception as e: h e] *)
Definition p_try {A} (m : Proc A) (h : exn → Proc A) : Proc A := λ s,
  match m s with
  | (Ok a, t) => (Ok a, t)
  | (Err e, t) => let '(r, t') := h e s in (r, t ++ t')
  end.
(** [try: m finally: f] *)
Definition p_finally {A} (m : Proc A) (f : Proc unit) : Proc A := λ s,
  let '(r, t) := m s in
  match f s with (Ok _, t') => (r, t ++ t') | (Err e, t') => (Err e, t ++ t') end.

Definition call (c : Call) : Proc unit := λ s, (s c, [Called c]).
Definition log (r : LogRecord) : Proc unit := λ _, (Ok (), [Logged r]).

Notation "x <-- m ; k" := (p_bind m (λ x, k)) (at level 20, m at level 100, k at level 200, only parsing).

(** ** [core/operations.py] *)
Definition backend_log (level : Level) (message event dependency outcome : string) : Proc unit :=
  log (mkLog level message event "backend" (Some dependency) outcome).

Definition check_database : Proc unit :=
  _ <-- p_try (call SelectOne)
          (λ e, _ <-- backend_log ERROR "PostgreSQL dependency check failed" "dependency_check" "postgresql" "failed";
                p_raise e);
  backend_log INFO "PostgreSQL dependency check succeeded" "dependency_check" "postgresql" "ready".

(** [connection or get_redis_connection()] *)
Definition redis_or_shared (given : bool) : Proc unit := if given then p_ret () else call GetRedisConnection.

Definition check_redis (given : bool) : Proc unit :=
  _ <-- redis_or_shared given;
  _ <-- p_try (call Ping)
          (λ e, _ <-- backend_log ERROR "Redis dependency check failed" "dependency_check" "redis" "failed"; p_raise e);
  backend_log INFO "Redis dependency check succeeded" "dependency_check" "redis" "ready".

Definition validate_dependencies (given : bool) : Proc unit := _ <-- check_database; check_redis given.

Definition dispose_resources (given : bool) : Proc unit :=
  _ <-- redis_or_shared given;
  _ <-- p_try (_ <-- call DisconnectPool;
               backend_log INFO "Redis pool disconnected" "resource_disposal" "redis" "success")
          (λ _, backend_log ERROR "Redis pool disconnect failed" "resource_disposal" "redis" "failed");
  p_try (_ <-- call DisposeEngine;
         backend_log INFO "PostgreSQL engine disposed" "resource_disposal" "postgresql" "success")
    (λ _, backend_log ERROR "PostgreSQL engine disposal failed" "resource_disposal" "postgresql" "failed").

(** ** [api/routes/health.py] *)
Definition health : string := "ok".

Definition not_ready : exn := HTTPException 503 "Service dependencies are unavailable.".

(** The loop: the dependencies whose check raised. *)
Fixpoint dependency_failures (checks : list (string * Proc unit)) : Proc (list string) :=
  match checks with
  | [] => p_ret []
  | (dependency, check) :: checks =>
      failed <-- p_try (_ <-- check; p_ret []) (λ _, p_ret [dependency]);
      rest <-- dependency_failures checks;
      p_ret (failed ++ rest)
  end.

Definition ready : Proc string :=
  failures <-- dependency_failures [("postgresql"%string, check_database); ("redis"%string, check_redis false)];
  match failures with
  | [] => p_ret "ready"%string
  | _ => _ <-- log (mkLog WARNING "API readiness check failed" "readiness" "api" (Some (str_join "," failures)) "not_ready");
         p_raise not_ready
  end.

(** ** [main.py] *)
Definition api_log (level : Level) (message event outcome : string) : Proc unit :=
  log (mkLog level message event "api" None outcome).

(** [async with httpx.AsyncClient(...) as http_client: body] *)
Definition with_http_client (body : Proc unit) : Proc unit :=
  _ <-- call OpenHttpClient; p_finally body (call CloseHttpClient).

(** [lifespan]: the application serves requests at the [yield]. *)
Definition lifespan (settings : Settings) : Proc unit :=
  _ <-- api_log INFO "API startup validation started" "startup" "started";
  p_finally
    (p_try
       (_ <-- (if bool_decide (environment settings = TEST) then p_ret () else validate_dependencies false);
        with_http_client (_ <-- api_log INFO "API startup validation completed" "startup" "ready"; call ServeRequests))
       (λ e, _ <-- api_log ERROR "API startup failed" "startup" "failed"; p_raise e))
    (_ <-- dispose_resources false; api_log INFO "API shutdown completed" "shutdown" "success").

(** What [create_lifespan] stores for the routes. *)
Definition auth_client (supabase_url_text api_key : string) : SupabaseAuthClient := make_client supabase_url_text api_key.

(** The CORS middleware. *)
Definition cors_methods : list string := ["GET"; "POST"; "PUT"; "PATCH"; "DELETE"; "OPTIONS"]%string.
Definition cors_headers : list string := ["Authorization"; "Content-Type"]%string.
Definition allow_origins (origins : list string) : list string := rstrip_slash <$> origins.

(** ** [workers/run_preview_worker.py] *)
Definition worker_log (level : Level) (message event outcome : string) : Proc unit :=
  log (mkLog level message event "worker" None outcome).

(** [run]: the exit status.  [settings] have been loaded. *)
Definition run : Proc Z :=
  _ <-- call GetRedisConnection;
  _ <-- call GetPreviewQueue;
  _ <-- worker_log INFO "Preview worker startup validation started" "startup" "started";
  p_finally
    (p_try
       (_ <-- validate_dependencies true;
        _ <-- call ReconcileJobs;
        _ <-- worker_log INFO "Preview worker reconciliation completed" "startup_reconciliation" "success";
        _ <-- call BuildWorker;
        _ <-- worker_log INFO "Preview worker listening" "worker_listening" "ready";
        _ <-- call (Work true);
        p_ret 0)
       (λ _, _ <-- worker_log ERROR "Preview worker startup or execution failed" "worker_failure" "failed"; p_ret 1))
    (_ <-- dispose_resources true; worker_log INFO "Preview worker shutdown completed" "shutdown" "success").

(** ** What a process does *)
Definition step_call (s : Step) : option Call := match s with Called c => Some c | Logged _ => None end.
Definition calls (t : list Step) : list Call := omap step_call t.

(** The calls of a plan, up to and including the first that fails. *)
Fixpoint attempted (services : Services) (plan : list Call) : list Call :=
  match plan with
  | [] => []
  | c :: plan => c :: if is_ok (services c) then attempted services plan else []
  end.

(** Every call of the plan succeeds. *)
Definition succeeds (services : Services) (plan : list Call) : bool := forallb (λ c, is_ok (services c)) plan.

Definition first_failure (services : Services) (plan : list Call) : option exn :=
  head (omap (λ c, match services c with Err e => Some e | Ok _ => None end) plan).

Definition worker_plan : list Call := [SelectOne; Ping; ReconcileJobs; BuildWorker; Work true].
Definition startup_checks (settings : Settings) : list Call :=
  if bool_decide (environment settings = TEST) then [] else [SelectOne; GetRedisConnection; Ping].
Definition readiness_checks : list Call := [SelectOne; GetRedisConnection; Ping].

Definition worker_failed : LogRecord :=
  mkLog ERROR "Preview worker startup or execution failed" "worker_failure" "worker" None "failed".

Definition step_record (s : Step) : option LogRecord := match s with Logged r => Some r | Called _ => None end.
Definition records (t : list Step) : list LogRecord := omap step_record t.

Definition logged (r : LogRecord) (t : list Step) : bool := existsb (λ x, bool_decide (x = r)) (records t).

Lemma logged_spec r t : logged r t = true ↔ Logged r ∈ t.
Proof.
  unfold logged. rewrite existsb_exists. split.
  - intros (x & Hx & ->%bool_decide_eq_true_1). apply list_elem_of_In, list_elem_of_omap in Hx as ([c|x] & Hx & E); [done|].
    by injection E as ->.
  - intros H. exists r. split; [|by apply bool_decide_eq_true_2]. apply list_elem_of_In, list_elem_of_omap. by exists (Logged r).
Qed.

(** ** Automation: a process is evaluated answer by answer. *)
Ltac answers :=
  repeat (cbn;
    match goal with
    | |- context [match ?s ?c with Ok _ => _ | Err _ => _ end] =>
        match type of s with Services => destruct (s c) as [[]|?] eqn:? end
    end); cbn;
  repeat match goal with H : ?s ?c = _ |- context [?s ?c] => rewrite H end; cbn.

Ltac unfold_process :=
  unfold run, lifespan, ready, dependency_failures, with_http_client, validate_dependencies, check_database, check_redis,
    dispose_resources, redis_or_shared, backend_log, worker_log, api_log, log, call, p_ret, p_raise, p_bind, p_try, p_finally,
    succeeds, attempted, worker_plan, startup_checks, readiness_checks.

(** ** The theorems *)

(** C33: The worker process: it attempts its dependency checks, the reconciliation
    and its work in this order and stops at the first failure, so that it
    consumes jobs only after both services answered and the durable state was
    reconciled; then, whatever happened, it closes the Redis pool and the
    database engine, last and once; it exits with 0 exactly when everything
    succeeded and with 1, after logging the failure, otherwise. *)
Theorem worker_process_exact (services : Services) :
  services GetRedisConnection = Ok () → services GetPreviewQueue = Ok () →
  let '(r, t) := run services in
  calls t = [GetRedisConnection; GetPreviewQueue] ++ attempted services worker_plan ++ [DisconnectPool; DisposeEngine] ∧
  r = Ok (if succeeds services worker_plan then 0 else 1) ∧
  (Logged worker_failed ∈ t ↔ succeeds services worker_plan = false).
Proof.
  intros Hr Hq. unfold_process. rewrite Hr, Hq.
  answers; (split; [reflexivity|]; split; [reflexivity|]; rewrite <- logged_spec; by vm_compute).
Qed.

Lemma worker_process_exact_witness :
  let services (c : Call) := if decide (c = Ping) then Err (OtherException "TimeoutError") else Ok () in
  calls (run services).2 = [GetRedisConnection; GetPreviewQueue; SelectOne; Ping; DisconnectPool; DisposeEngine] ∧
  let '(r, t) := run services in
  calls t = [GetRedisConnection; GetPreviewQueue] ++ attempted services worker_plan ++ [DisconnectPool; DisposeEngine] ∧
  r = Ok (if succeeds services worker_plan then 0 else 1) ∧
  (Logged worker_failed ∈ t ↔ succeeds services worker_plan = false).
Proof. intros services. split; [reflexivity|]. exact (worker_process_exact services eq_refl eq_refl). Defined.

Definition api_failed : LogRecord := mkLog ERROR "API startup failed" "startup" "api" None "failed".

(** The API process: it serves requests only when, outside tests, the database
    and Redis answered its checks; whatever fails, it closes its HTTP client
    once opened and then releases the Redis pool and the database engine, in
    this order, unless the Redis client itself cannot be had; the process ends
    without an error exactly when everything succeeded, and every failure
    before the shutdown is logged. *)
Theorem api_process_exact (settings : Settings) (services : Services) :
  let '(r, t) := lifespan settings services in
  let checked := succeeds services (startup_checks settings) in
  calls t =
    attempted services (startup_checks settings) ++
    (if checked then OpenHttpClient :: if is_ok (services OpenHttpClient) then [ServeRequests; CloseHttpClient] else []
     else []) ++
    GetRedisConnection :: (if is_ok (services GetRedisConnection) then [DisconnectPool; DisposeEngine] else []) ∧
  is_ok r = (checked && succeeds services [OpenHttpClient; ServeRequests; CloseHttpClient; GetRedisConnection]) ∧
  (Logged api_failed ∈ t ↔
     (checked && succeeds services [OpenHttpClient; ServeRequests; CloseHttpClient]) = false).
Proof.
  unfold_process. destruct (bool_decide (environment settings = TEST)), (services ServeRequests) as [[]|?] eqn:?;
    answers; (split; [reflexivity|]; split; [reflexivity|]; rewrite <- logged_spec; by vm_compute).
Qed.

(** The record of a failed readiness check. *)
Definition not_ready_record (failures : list string) : LogRecord :=
  mkLog WARNING "API readiness check failed" "readiness" "api" (Some (str_join "," failures)) "not_ready".

(** Readiness: the endpoint always checks both dependencies, answers ready
    exactly when both answered, and otherwise answers 503 after logging exactly
    the dependencies that failed. *)
Theorem readiness_exact (services : Services) :
  let database := succeeds services [SelectOne] in
  let redis := succeeds services [GetRedisConnection; Ping] in
  let failures := (if database then [] else ["postgresql"%string]) ++ (if redis then [] else ["redis"%string]) in
  let '(r, t) := ready services in
  calls t = SelectOne :: attempted services [GetRedisConnection; Ping] ∧
  r = (if database && redis then Ok "ready"%string else Err not_ready) ∧
  (∀ l, Logged (not_ready_record l) ∈ t → str_join "," l = str_join "," failures) ∧
  (database && redis = false → Logged (not_ready_record failures) ∈ t).
Proof.
  unfold_process.
  answers; (split; [reflexivity|]; split; [reflexivity|]; split;
    [intros l H; rewrite <- logged_spec in H; unfold logged, not_ready_record in H; cbn in H;
       repeat (apply orb_true_iff in H as [H|H];
               [apply bool_decide_eq_true_1 in H; first [discriminate H|by injection H]|]); discriminate H|
     try discriminate; intros _; rewrite <- logged_spec; by vm_compute]).
Qed.
