(* ===== verification/MarketImport.v ===== *)
(** * Importing market data ([backend/app/scripts/import_market_csv.py])

    Parsing and validating a CSV of daily bars, and the batched upsert into the
    table of [MarketData].  A database statement may fail; the transaction
    undoes what its statements did, unless the connection is lost while a
    commit that was applied is being acknowledged.  [store_numeric] is what
    PostgreSQL stores in a Numeric(18, 8) column; [now] is the server's clock,
    for the defaults of a new row and the trigger that renews [updated_at]. *)

From S2P Require Import Prelude Decimal Text Models MarketData Samples StrategySemantics Serialization Csv Effects Database.
From Stdlib Require Import ZArith QArith Lia Ascii.
From stdpp Require Import base list option strings sorting.
Local Open Scope Z_scope.

(** ** Rows *)

(** In the order of [sorted]. *)
Definition REQUIRED_COLUMNS : list string :=
  ["adjusted_close"; "close"; "date"; "high"; "low"; "open"; "volume"]%string.

Definition DEFAULT_BATCH_SIZE : Z := 500.
Definition MAX_REPORTED_SKIPPED_ROWS : Z := 20.

(** The script's [MarketDataRow]. *)
Record CsvRow : Type := mkCsvRow {
  cr_timestamp : datetime;
  cr_open_price : decimal;
  cr_high_price : decimal;
  cr_low_price : decimal;
  cr_close_price : decimal;
  cr_volume : Z;
  cr_adjusted_close : option decimal }.

(** The columns an INSERT gives values for. *)
Record DatabaseValues : Type := mkValues {
  dv_symbol : string;
  dv_interval : string;
  dv_row : CsvRow }.

Definition as_database_values (symbol interval : string) (r : CsvRow) : DatabaseValues := mkValues symbol interval r.

Definition values_key (v : DatabaseValues) : string * string * datetime :=
  (dv_symbol v, dv_interval v, cr_timestamp (dv_row v)).

Record SkippedRow : Type := mkSkipped { row_number : nat; reason : string }.

Record ImportSummary : Type := mkImport {
  total_csv_rows : nat;
  inserted_rows : nat;
  updated_rows : nat;
  skipped_rows : list SkippedRow;
  earliest_stored_timestamp : option datetime;
  latest_stored_timestamp : option datetime;
  total_symbol_rows : nat }.

Definition skipped_count (s : ImportSummary) : nat := length (skipped_rows s).

(** *** Fields *)

(** [value is None or not value.strip()] *)
Definition blank (value : option string) : bool :=
  match value with None => true | Some v => String.eqb (strip v) EmptyString end.

Definition parse_decimal (value : option string) (field_name : string) : result decimal :=
  match value with
  | None => Err (ValueError (field_name +:+ " is required"))
  | Some v =>
      if String.eqb (strip v) EmptyString then Err (ValueError (field_name +:+ " is required"))
      else match decimal_of_string (strip v) with
           | Ok (Finite d) => Ok d
           | Ok _ => Err (ValueError (field_name +:+ " must be finite"))
           | Err _ => Err (ValueError (field_name +:+ " must be a decimal number"))
           end
  end.

Definition parse_positive_decimal (value : option string) (field_name : string) : result decimal :=
  d ← parse_decimal value field_name;
  _ ← raise_if (dle d dzero) (ValueError (field_name +:+ " must be positive"));
  Ok d.

Definition parse_optional_positive_decimal (value : option string) (field_name : string) : result (option decimal) :=
  if blank value then Ok None else d ← parse_positive_decimal value field_name; Ok (Some d).

Definition parse_nonnegative_integer (value : option string) (field_name : string) : result Z :=
  match value with
  | None => Err (ValueError (field_name +:+ " is required"))
  | Some v =>
      if String.eqb (strip v) EmptyString then Err (ValueError (field_name +:+ " is required"))
      else match int_of_string (strip v) with
           | Ok n => if n <? 0 then Err (ValueError (field_name +:+ " must be nonnegative")) else Ok n
           | Err _ => Err (ValueError (field_name +:+ " must be an integer"))
           end
  end.

Definition parse_date (value : option string) : result Z :=
  match value with
  | None | Some EmptyString => Err (ValueError "date is required")
  | Some v => match date_fromisoformat (strip v) with
              | Some day => Ok day
              | None => Err (ValueError "date must use ISO format YYYY-MM-DD")
              end
  end.

(** Midnight UTC. *)
Definition midnight (day_number : Z) : datetime := day_number * 86400000000.

Definition parse_market_row (raw_row : list (string * option string)) : result CsvRow :=
  day_number ← parse_date (dict_get "date" raw_row);
  open_price ← parse_positive_decimal (dict_get "open" raw_row) "open";
  high_price ← parse_positive_decimal (dict_get "high" raw_row) "high";
  low_price ← parse_positive_decimal (dict_get "low" raw_row) "low";
  close_price ← parse_positive_decimal (dict_get "close" raw_row) "close";
  adjusted_close ← parse_optional_positive_decimal (dict_get "adjusted_close" raw_row) "adjusted_close";
  volume ← parse_nonnegative_integer (dict_get "volume" raw_row) "volume";
  _ ← raise_if (dlt high_price open_price || dlt high_price low_price || dlt high_price close_price)
        (ValueError "high must be greater than or equal to open, low, and close");
  _ ← raise_if (dgt low_price open_price || dgt low_price high_price || dgt low_price close_price)
        (ValueError "low must be less than or equal to open, high, and close");
  Ok (mkCsvRow (midnight day_number) open_price high_price low_price close_price volume adjusted_close).

(** *** Files *)

(** The rows and skipped rows so far; the timestamps seen are those of the rows. *)
Record Parsed : Type := mkParsedRows { pr_rows : list CsvRow; pr_skipped : list SkippedRow; pr_total : nat }.

Definition seen (p : Parsed) (t : datetime) : bool := bool_decide (t ∈ cr_timestamp <$> pr_rows p).

(** One iteration of the loop over the reader. *)
Definition parse_row_step (headers : list string) (p : Parsed) (item : nat * result (list string)) : result Parsed :=
  fields ← item.2;
  let parsed :=
    row ← parse_market_row (row_dict headers fields);
    _ ← raise_if (seen p (cr_timestamp row)) (ValueError "duplicate timestamp in CSV");
    Ok row in
  match parsed with
  | Ok row => Ok (mkParsedRows (pr_rows p ++ [row]) (pr_skipped p) (S (pr_total p)))
  | Err (ValueError message) =>
      Ok (mkParsedRows (pr_rows p) (pr_skipped p ++ [mkSkipped item.1 message]) (S (pr_total p)))
  | Err e => Err e
  end.

Definition missing_columns (headers : list string) : list string :=
  filter (λ c, c ∉ headers) REQUIRED_COLUMNS.

Definition parse_market_csv (text : string) : result (list CsvRow * ImportSummary) :=
  let '(headers, reader) := dict_reader text in
  headers ← headers;
  match missing_columns headers with
  | _ :: _ => Err (ValueError ("CSV is missing required columns: " +:+ str_join ", " (missing_columns headers) +:+ "."))
  | [] =>
      p ← foldM (parse_row_step headers) (mkParsedRows [] [] 0) (enumerate_from 2 reader);
      Ok (pr_rows p, mkImport (pr_total p) 0 0 (pr_skipped p) None None 0)
  end.

(** [rows[start : start + batch_size] for start in range(0, len(rows), batch_size)] *)
Fixpoint batches (fuel batch_size : nat) (rows : list CsvRow) : list (list CsvRow) :=
  match fuel, rows with
  | O, _ | _, [] => []
  | S fuel, _ => take batch_size rows :: batches fuel batch_size (drop batch_size rows)
  end.

(** A batch takes at least one row, so the number of rows is fuel enough. *)
Definition batched (rows : list CsvRow) (batch_size : Z) : list (list CsvRow) :=
  batches (length rows) (Z.to_nat batch_size) rows.

(** ** The database *)

(** [now] is PostgreSQL's now(), the start of the import's transaction. *)
Section import.
Context (store_numeric : decimal → option decimal) (now : datetime).

Definition data_error : exn := OtherException "DataError".
Definition cardinality_error : exn := OtherException "ProgrammingError".

(** The row to insert, as the column types hold it, with the server's defaults. *)
Definition stored_row (v : DatabaseValues) : option MarketDataRow :=
  let r := dv_row v in
  o ← store_numeric (cr_open_price r);
  h ← store_numeric (cr_high_price r);
  l ← store_numeric (cr_low_price r);
  c ← store_numeric (cr_close_price r);
  a ← match cr_adjusted_close r with Some a => Some <$> store_numeric a | None => Some None end;
  Some (mkRow (dv_symbol v) (dv_interval v) (cr_timestamp r) o h l c a (cr_volume r) now now).

(** [set_={...}] of the row in conflict: the prices and the volume of the
    excluded row; the table's trigger renews [updated_at]. *)
Definition update_conflict (excluded x : MarketDataRow) : MarketDataRow :=
  mkRow (md_symbol x) (md_interval x) (md_timestamp x) (md_open_price excluded) (md_high_price excluded)
    (md_low_price excluded) (md_close_price excluded) (md_adjusted_close excluded) (md_volume excluded)
    (md_created_at x) now.

(** [ON CONFLICT (symbol, interval, timestamp) DO UPDATE] *)
Definition replace_row (table : list MarketDataRow) (r : MarketDataRow) : list MarketDataRow :=
  if bool_decide (row_key r ∈ row_key <$> table)
  then (λ x, if decide (row_key x = row_key r) then update_conflict r x else x) <$> table
  else table ++ [r].

Definition upsert_row (table : list MarketDataRow) (v : DatabaseValues) : result (list MarketDataRow) :=
  match stored_row v with
  | None => Err data_error
  | Some r => if negb (row_typed r) then Err data_error
              else if negb (row_okb r) then Err integrity_error
              else Ok (replace_row table r)
  end.

(** The statement refuses to touch a row twice, and is atomic. *)
Definition upsert (rows : list DatabaseValues) (table : list MarketDataRow) : result unit * list MarketDataRow :=
  if negb (bool_decide (NoDup (values_key <$> rows))) then (Err cardinality_error, table)
  else match foldM upsert_row table rows with
       | Ok table' => (Ok (), table')
       | Err e => (Err e, table)
       end.

Section symbol.
Context (symbol interval : string).

(** [MarketData.symbol == symbol, MarketData.interval == interval] *)
Definition of_series (r : MarketDataRow) : bool :=
  bool_decide (md_symbol r = symbol ∧ md_interval r = interval).

Definition series (table : list MarketDataRow) : list MarketDataRow := filter (λ r, of_series r = true) table.

Definition existing_timestamp_query (timestamps : list datetime) (table : list MarketDataRow) : list datetime :=
  filter (λ t, t ∈ timestamps) (md_timestamp <$> series table).

Definition execute_upsert (rows : list CsvRow) : DB (list MarketDataRow) unit :=
  statement (upsert (as_database_values symbol interval <$> rows)).

Definition count_batch (summary : ImportSummary) (batch existing : nat) : ImportSummary :=
  mkImport (total_csv_rows summary) (inserted_rows summary + (batch - existing))
    (updated_rows summary + existing) (skipped_rows summary) (earliest_stored_timestamp summary)
    (latest_stored_timestamp summary) (total_symbol_rows summary).

Fixpoint import_batches (summary : ImportSummary) (bs : list (list CsvRow)) : DB (list MarketDataRow) ImportSummary :=
  match bs with
  | [] => db_ret summary
  | batch :: bs =>
      existing_timestamps <- query (existing_timestamp_query (cr_timestamp <$> batch)) ;;
      _ <- execute_upsert batch ;;
      import_batches (count_batch summary (length batch) (length (remove_dups existing_timestamps))) bs
  end.

(** [func.min], [func.max] *)
Definition fold_timestamps (f : Z → Z → Z) (table : list MarketDataRow) : option datetime :=
  foldr (λ t acc, Some (match acc with Some m => f t m | None => t end)) None (md_timestamp <$> series table).

Definition with_totals (summary : ImportSummary) (earliest latest : option datetime) (total : nat) : ImportSummary :=
  mkImport (total_csv_rows summary) (inserted_rows summary) (updated_rows summary) (skipped_rows summary)
    earliest latest total.

Definition symbol_ok : bool :=
  negb (String.eqb symbol EmptyString) && String.eqb symbol (str_upper symbol) &&
  (String.length symbol <=? 20)%nat.

(** [file] is the content of the file at [path], if it is a file; the session is
    the script's own. *)
Definition import_market_csv (path : string) (file : option string) (batch_size : Z) : DB (list MarketDataRow) ImportSummary :=
  match file with
  | None => db_lift (Err (ValueError ("CSV file does not exist: " +:+ path)))
  | Some text =>
      if negb symbol_ok
      then db_lift (Err (ValueError "symbol must be an uppercase value between 1 and 20 characters"))
      else if negb (String.eqb interval "1d") then db_lift (Err (ValueError "interval must be 1d"))
      else if batch_size <=? 0 then db_lift (Err (ValueError "batch_size must be positive"))
      else
        parsed <- db_lift (parse_market_csv text) ;;
        summary <- transaction (import_batches parsed.2 (batched parsed.1 batch_size)) ;;
        earliest <- query (fold_timestamps Z.min) ;;
        latest <- query (fold_timestamps Z.max) ;;
        total <- query (λ table, length (series table)) ;;
        db_ret (with_totals summary earliest latest total)
  end.
End symbol.
End import.

(** ** The report *)
Definition format_timestamp (value : option datetime) : string :=
  match value with Some t => isoformat t | None => "none" end.

Definition str_nat (n : nat) : string := str_int (Z.of_nat n).

Definition newline_text : string := of_chars [ascii_of_N 10].

Definition format_summary (s : ImportSummary) : string :=
  str_join newline_text
    ["Total CSV rows: " +:+ str_nat (total_csv_rows s);
     "Inserted rows: " +:+ str_nat (inserted_rows s);
     "Updated rows: " +:+ str_nat (updated_rows s);
     "Skipped rows: " +:+ str_nat (skipped_count s);
     "Earliest stored timestamp: " +:+ format_timestamp (earliest_stored_timestamp s);
     "Latest stored timestamp: " +:+ format_timestamp (latest_stored_timestamp s);
     "Total symbol rows: " +:+ str_nat (total_symbol_rows s)]%string.

(** The lines [main] prints on the two streams, and its exit status.  Exceptions
    outside OSError, SQLAlchemyError and ValueError escape. *)
Definition import_main_handles (e : exn) : bool :=
  match e with ValueError _ => true | OtherException "OSError" => true | e => sqlalchemy_error e end.

Record Output : Type := mkOutput { stdout : list string; stderr : list string; status : Z }.

Definition import_main (describe : exn → string) (r : result ImportSummary) : result Output :=
  match r with
  | Err e => if import_main_handles e then Ok (mkOutput [] ["Import failed: " +:+ describe e] 1) else Err e
  | Ok summary =>
      let shown := take (Z.to_nat MAX_REPORTED_SKIPPED_ROWS) (skipped_rows summary) in
      let line (r : SkippedRow) := "Skipped CSV row " +:+ str_nat (row_number r) +:+ ": " +:+ reason r in
      let remaining := Z.of_nat (skipped_count summary) - MAX_REPORTED_SKIPPED_ROWS in
      Ok (mkOutput [format_summary summary]
            ((line <$> shown) ++
             if 0 <? remaining then ["... " +:+ str_int remaining +:+ " additional malformed rows skipped."] else [])
            0)
  end.

(** ** Lemmas: parsing *)
Definition is_value_error (e : exn) : Prop := ∃ message, e = ValueError message.

(** What a parsed row guarantees. *)
Record csv_row_ok (r : CsvRow) : Prop := mkCsvOk {
  ro_open : (0 < dval (cr_open_price r))%Q;
  ro_high : (0 < dval (cr_high_price r))%Q;
  ro_low : (0 < dval (cr_low_price r))%Q;
  ro_close : (0 < dval (cr_close_price r))%Q;
  ro_adjusted : match cr_adjusted_close r with Some a => (0 < dval a)%Q | None => True end;
  ro_low_open : (dval (cr_low_price r) <= dval (cr_open_price r))%Q;
  ro_open_high : (dval (cr_open_price r) <= dval (cr_high_price r))%Q;
  ro_low_close : (dval (cr_low_price r) <= dval (cr_close_price r))%Q;
  ro_close_high : (dval (cr_close_price r) <= dval (cr_high_price r))%Q;
  ro_volume : 0 <= cr_volume r;
  ro_midnight : cr_timestamp r mod 86400000000 = 0 }.

Ltac value_error := by eexists.

Lemma parse_decimal_outcome v f : outcome (parse_decimal v f) (λ _, True) is_value_error.
Proof.
  unfold parse_decimal. destruct v as [v|]; [|value_error]. destruct (String.eqb _ _); [value_error|].
  destruct (decimal_of_string _) as [[| |]|]; simpl; done || value_error.
Qed.

Lemma parse_positive_decimal_outcome v f :
  outcome (parse_positive_decimal v f) (λ d, (0 < dval d)%Q) is_value_error.
Proof.
  unfold parse_positive_decimal. eapply outcome_bind; [apply parse_decimal_outcome|]. intros d _.
  destruct (dle d dzero) eqn:E; simpl; [value_error|]. apply dle_val_false in E. by rewrite dval_dzero in E.
Qed.

Lemma parse_optional_outcome v f :
  outcome (parse_optional_positive_decimal v f)
    (λ a, match a with Some a => (0 < dval a)%Q | None => True end) is_value_error.
Proof.
  unfold parse_optional_positive_decimal. destruct (blank v); [done|].
  eapply outcome_bind; [apply parse_positive_decimal_outcome|]. done.
Qed.

Lemma parse_nonnegative_integer_outcome v f :
  outcome (parse_nonnegative_integer v f) (λ n, 0 <= n) is_value_error.
Proof.
  unfold parse_nonnegative_integer. destruct v as [v|]; [|value_error]. destruct (String.eqb _ _); [value_error|].
  destruct (int_of_string _) as [n|]; [|value_error]. destruct (Z.ltb_spec n 0); [value_error|done].
Qed.

Lemma parse_date_outcome v : outcome (parse_date v) (λ _, True) is_value_error.
Proof.
  unfold parse_date. destruct v as [[|c v]|]; [value_error| |value_error].
  destruct (date_fromisoformat _); simpl; done || value_error.
Qed.

Lemma raise_if_outcome c e : outcome (raise_if c e) (λ _, c = false) (λ e', e' = e).
Proof. by destruct c. Qed.

Lemma parse_market_row_outcome raw : outcome (parse_market_row raw) csv_row_ok is_value_error.
Proof.
  unfold parse_market_row.
  eapply outcome_bind; [apply parse_date_outcome|]. intros day_number _.
  eapply outcome_bind; [apply parse_positive_decimal_outcome|]. intros open Ho.
  eapply outcome_bind; [apply parse_positive_decimal_outcome|]. intros high Hhi.
  eapply outcome_bind; [apply parse_positive_decimal_outcome|]. intros low Hlo.
  eapply outcome_bind; [apply parse_positive_decimal_outcome|]. intros close Hc.
  eapply outcome_bind; [apply parse_optional_outcome|]. intros adjusted Ha.
  eapply outcome_bind; [apply parse_nonnegative_integer_outcome|]. intros volume Hv.
  eapply outcome_bind; [eapply outcome_weaken; [apply raise_if_outcome|intros u Hu; exact Hu|intros ? ->; value_error]|].
  intros u1 Hh. apply orb_false_iff in Hh as [[H1 H2]%orb_false_iff H3].
  eapply outcome_bind; [eapply outcome_weaken; [apply raise_if_outcome|intros u Hu; exact Hu|intros ? ->; value_error]|].
  intros u2 Hl. apply orb_false_iff in Hl as [[H4 _]%orb_false_iff H5].
  unfold dgt in H4, H5. apply dlt_val_false in H1, H3, H4, H5.
  constructor; simpl; try done. unfold midnight. apply Z.mod_mul. lia.
Qed.

(** *** What a row says, independently of the order of the parser's calls

    A field, a row or a place in the file has a value or a reason. *)
Abbreviation verdict A := (A + string)%type.

Definition number_says (field : string) (v : option string) (x : verdict decimal) : Prop :=
  match v with
  | None => x = inr (field +:+ " is required")
  | Some v =>
      if decide (strip v = EmptyString) then x = inr (field +:+ " is required")
      else match decimal_of_string (strip v) with
           | Ok (Finite d) => (0 < dval d)%Q ∧ x = inl d ∨ (dval d <= 0)%Q ∧ x = inr (field +:+ " must be positive")
           | Ok _ => x = inr (field +:+ " must be finite")
           | Err _ => x = inr (field +:+ " must be a decimal number")
           end
  end.

Definition adjusted_says (v : option string) (x : verdict (option decimal)) : Prop :=
  if blank v then x = inl None
  else ∃ y, number_says "adjusted_close" v y ∧ x = match y with inl d => inl (Some d) | inr m => inr m end.

Definition volume_says (v : option string) (x : verdict Z) : Prop :=
  match v with
  | None => x = inr "volume is required"%string
  | Some v =>
      if decide (strip v = EmptyString) then x = inr "volume is required"%string
      else match int_of_string (strip v) with
           | Ok n => 0 <= n ∧ x = inl n ∨ n < 0 ∧ x = inr "volume must be nonnegative"%string
           | Err _ => x = inr "volume must be an integer"%string
           end
  end.

Definition date_says (v : option string) (x : verdict Z) : Prop :=
  match v with
  | None | Some EmptyString => x = inr "date is required"%string
  | Some v => match date_fromisoformat (strip v) with
              | Some day => x = inl day
              | None => x = inr "date must use ISO format YYYY-MM-DD"%string
              end
  end.

(** A row whose fields all have a value: the range of the day comes last. *)
Definition range_says (r : CsvRow) (x : verdict CsvRow) : Prop :=
  let o := dval (cr_open_price r) in let h := dval (cr_high_price r) in
  let l := dval (cr_low_price r) in let c := dval (cr_close_price r) in
  ((l <= o <= h ∧ l <= c <= h)%Q ∧ x = inl r) ∨
  ((h < o ∨ h < l ∨ h < c)%Q ∧ x = inr "high must be greater than or equal to open, low, and close"%string) ∨
  ((o <= h ∧ l <= h ∧ c <= h)%Q ∧ (o < l ∨ h < l ∨ c < l)%Q ∧
   x = inr "low must be less than or equal to open, high, and close"%string).

(** The first field without a value, in this order, gives the reason. *)
Definition row_says (raw : list (string * option string)) (x : verdict CsvRow) : Prop :=
  ∃ day open high low close adjusted vol,
    date_says (dict_get "date" raw) day ∧ number_says "open" (dict_get "open" raw) open ∧
    number_says "high" (dict_get "high" raw) high ∧ number_says "low" (dict_get "low" raw) low ∧
    number_says "close" (dict_get "close" raw) close ∧ adjusted_says (dict_get "adjusted_close" raw) adjusted ∧
    volume_says (dict_get "volume" raw) vol ∧
    match day, open, high, low, close, adjusted, vol with
    | inl day, inl o, inl h, inl l, inl c, inl a, inl v => range_says (mkCsvRow (midnight day) o h l c v a) x
    | inr m, _, _, _, _, _, _ | inl _, inr m, _, _, _, _, _ | inl _, inl _, inr m, _, _, _, _
    | inl _, inl _, inl _, inr m, _, _, _ | inl _, inl _, inl _, inl _, inr m, _, _
    | inl _, inl _, inl _, inl _, inl _, inr m, _ | inl _, inl _, inl _, inl _, inl _, inl _, inr m => x = inr m
    end.

(** The value or the reason of a call. *)
Definition says {A} (r : result A) : verdict A :=
  match r with Ok a => inl a | Err (ValueError m) => inr m | Err _ => inr EmptyString end.

Lemma parse_positive_says field v : number_says field v (says (parse_positive_decimal v field)).
Proof.
  unfold parse_positive_decimal, parse_decimal, number_says. destruct v as [v|]; [|done].
  destruct (String.eqb_spec (strip v) EmptyString) as [E|E]; [by rewrite decide_True|rewrite decide_False by done].
  destruct (decimal_of_string _) as [[d| |]|]; [|done..]. cbn [mbind result_bind].
  destruct (dle d dzero) eqn:Ed; cbn.
  - right. split; [|done]. apply dle_val in Ed. by rewrite dval_dzero in Ed.
  - left. split; [|done]. apply dle_val_false in Ed. by rewrite dval_dzero in Ed.
Qed.

Lemma parse_optional_says v : adjusted_says v (says (parse_optional_positive_decimal v "adjusted_close")).
Proof.
  unfold parse_optional_positive_decimal, adjusted_says. destruct (blank v); [done|].
  exists (says (parse_positive_decimal v "adjusted_close")). split; [apply parse_positive_says|].
  destruct (parse_positive_decimal v "adjusted_close") as [d|[]]; done.
Qed.

Lemma parse_integer_says v : volume_says v (says (parse_nonnegative_integer v "volume")).
Proof.
  unfold parse_nonnegative_integer, volume_says. destruct v as [v|]; [|done].
  destruct (String.eqb_spec (strip v) EmptyString) as [E|E]; [by rewrite decide_True|rewrite decide_False by done].
  destruct (int_of_string _) as [n|]; [|done]. destruct (Z.ltb_spec n 0); [right|left]; by split.
Qed.

Lemma parse_date_says v : date_says v (says (parse_date v)).
Proof. unfold parse_date, date_says. destruct v as [[|c v]|]; [done| |done]. by destruct (date_fromisoformat _). Qed.

Lemma parse_market_row_says raw : row_says raw (says (parse_market_row raw)).
Proof.
  exists (says (parse_date (dict_get "date" raw))), (says (parse_positive_decimal (dict_get "open" raw) "open")),
    (says (parse_positive_decimal (dict_get "high" raw) "high")), (says (parse_positive_decimal (dict_get "low" raw) "low")),
    (says (parse_positive_decimal (dict_get "close" raw) "close")),
    (says (parse_optional_positive_decimal (dict_get "adjusted_close" raw) "adjusted_close")),
    (says (parse_nonnegative_integer (dict_get "volume" raw) "volume")).
  split_and!; [apply parse_date_says|apply parse_positive_says..|apply parse_optional_says|apply parse_integer_says|].
  unfold parse_market_row.
  destruct (parse_date _) as [day|[]]; cbn [says mbind result_bind]; try done.
  do 4 (destruct (parse_positive_decimal _ _) as [?|[]]; cbn [says mbind result_bind]; try done).
  destruct (parse_optional_positive_decimal _ _) as [?|[]]; cbn [says mbind result_bind]; try done.
  destruct (parse_nonnegative_integer _ _) as [?|[]]; cbn [says mbind result_bind]; try done.
  unfold range_says. cbn [cr_open_price cr_high_price cr_low_price cr_close_price]. unfold dgt.
  destruct (dlt a0 a || dlt a0 a1 || dlt a0 a2) eqn:H1; cbn [raise_if mbind result_bind says].
  { right. left. split; [|done]. rewrite !orb_true_iff, !dlt_val in H1. tauto. }
  apply orb_false_iff in H1 as [[H1 H2]%orb_false_iff H3]. apply dlt_val_false in H1, H2, H3.
  destruct (dlt a a1 || dlt a0 a1 || dlt a2 a1) eqn:H4; cbn [raise_if mbind result_bind says].
  { right. right. split; [done|]. split; [|done]. rewrite !orb_true_iff, !dlt_val in H4. tauto. }
  apply orb_false_iff in H4 as [[H4 _]%orb_false_iff H6]. apply dlt_val_false in H4, H6. left. done.
Qed.

(** *** What a file says: the first row of a day counts. *)
Definition days_before (vs : list (verdict CsvRow)) : list datetime :=
  omap (λ v, match v with inl r => Some (cr_timestamp r) | inr _ => None end) vs.

Definition first_of_day (vs : list (verdict CsvRow)) (i : nat) (v : verdict CsvRow) : verdict CsvRow :=
  match v with
  | inl r => if decide (cr_timestamp r ∈ days_before (take i vs)) then inr "duplicate timestamp in CSV"%string else inl r
  | inr m => inr m
  end.

Definition deduplicated (vs : list (verdict CsvRow)) : list (verdict CsvRow) := imap (first_of_day vs) vs.

(** The rows that count, and the line number and reason of each other one. *)
Definition kept_rows (vs : list (verdict CsvRow)) : list CsvRow :=
  omap (λ v, match v with inl r => Some r | inr _ => None end) (deduplicated vs).
Definition skipped_of (vs : list (verdict CsvRow)) : list SkippedRow :=
  omap id (imap (λ i v, match v with inl _ => None | inr m => Some (mkSkipped (i + 2) m) end) (deduplicated vs)).

Lemma deduplicated_snoc vs v : deduplicated (vs ++ [v]) = deduplicated vs ++ [first_of_day vs (length vs) v].
Proof.
  unfold deduplicated. rewrite imap_app. simpl. rewrite Nat.add_0_r. f_equal.
  - apply imap_ext. intros i x Hi. unfold first_of_day. apply lookup_lt_Some in Hi. by rewrite take_app_le by lia.
  - unfold first_of_day. by rewrite take_app_length, take_ge by done.
Qed.

Lemma deduplicated_length vs : length (deduplicated vs) = length vs.
Proof. apply length_imap. Qed.

Lemma kept_rows_snoc vs v :
  kept_rows (vs ++ [v]) = kept_rows vs ++ match first_of_day vs (length vs) v with inl r => [r] | inr _ => [] end.
Proof. unfold kept_rows. rewrite deduplicated_snoc, omap_app. f_equal. by destruct (first_of_day _ _ _). Qed.

Lemma skipped_of_snoc vs v :
  skipped_of (vs ++ [v]) =
  skipped_of vs ++ match first_of_day vs (length vs) v with inl _ => [] | inr m => [mkSkipped (length vs + 2) m] end.
Proof.
  unfold skipped_of. rewrite deduplicated_snoc, imap_app, omap_app, deduplicated_length. f_equal. simpl.
  rewrite Nat.add_0_r. by destruct (first_of_day _ _ _).
Qed.

Lemma days_before_snoc vs v :
  days_before (vs ++ [v]) = days_before vs ++ match v with inl r => [cr_timestamp r] | inr _ => [] end.
Proof. unfold days_before. rewrite omap_app. by destruct v. Qed.

Section parsing.
Context (headers : list string).

Definition row_of (fields : list string) : result CsvRow := parse_market_row (row_dict headers fields).

(** What was kept and skipped of [data] is what its rows say. *)
Record parsed_as (data : list (list string)) (p : Parsed) (vs : list (verdict CsvRow)) : Prop := mkParsedAs {
  pa_total : pr_total p = length data;
  pa_says : Forall2 (λ fields v, row_says (row_dict headers fields) v) data vs;
  pa_rows : pr_rows p = kept_rows vs;
  pa_skipped : pr_skipped p = skipped_of vs;
  pa_count : (length (pr_rows p) + length (pr_skipped p) = length data)%nat;
  pa_seen : ∀ t, t ∈ cr_timestamp <$> pr_rows p ↔ t ∈ days_before vs;
  pa_distinct : NoDup (cr_timestamp <$> pr_rows p);
  pa_ok : Forall csv_row_ok (pr_rows p) }.

Lemma parse_row_step_parsed data p vs x :
  parsed_as data p vs →
  ∃ p', parse_row_step headers p ((length data + 2)%nat, Ok x) = Ok p' ∧ parsed_as (data ++ [x]) p' (vs ++ [says (row_of x)]).
Proof.
  intros []. unfold parse_row_step. cbn [snd fst mbind result_bind].
  pose proof (parse_market_row_outcome (row_dict headers x)) as Hout. fold (row_of x) in Hout |- *.
  assert (Forall2 (λ fields v, row_says (row_dict headers fields) v) (data ++ [x]) (vs ++ [says (row_of x)])) as Hsays.
  { apply Forall2_app; [done|]. constructor; [apply parse_market_row_says|constructor]. }
  pose proof (Forall2_length _ _ _ pa_says0) as Hlen.
  assert (∀ m, (∀ v, v = says (row_of x) → first_of_day vs (length vs) v = inr m) →
    (∀ r, row_of x = Ok r → cr_timestamp r ∈ days_before vs) →
    parsed_as (data ++ [x]) (mkParsedRows (pr_rows p) (pr_skipped p ++ [mkSkipped (length data + 2) m]) (S (pr_total p)))
      (vs ++ [says (row_of x)])) as Hskip.
  { intros m Hv Hdup. constructor; cbn [pr_rows pr_skipped pr_total]; try done.
    - rewrite length_app, pa_total0. simpl. lia.
    - by rewrite kept_rows_snoc, (Hv _ eq_refl), app_nil_r.
    - by rewrite skipped_of_snoc, (Hv _ eq_refl), pa_skipped0, Hlen.
    - rewrite !length_app. simpl. lia.
    - intros t. rewrite days_before_snoc, elem_of_app, pa_seen0. split; [by left|]. intros [?|Ht]; [done|].
      destruct (row_of x) as [r|[]]; simpl in Ht; try by apply not_elem_of_nil in Ht.
      apply list_elem_of_singleton in Ht as ->. by apply Hdup. }
  destruct (row_of x) as [r|e] eqn:Er; cbn [mbind result_bind].
  - unfold seen. case_bool_decide as Hin; cbn [raise_if mbind result_bind]; rewrite pa_seen0 in Hin.
    + eexists. split; [done|]. apply Hskip; [|by intros r' [= <-]]. intros v ->. cbn [says first_of_day].
      by rewrite take_ge, decide_True by done.
    + eexists. split; [done|]. assert (first_of_day vs (length vs) (says (Ok r)) = inl r) as Hv.
      { cbn [says first_of_day]. by rewrite take_ge, decide_False by done. }
      constructor; cbn [pr_rows pr_skipped pr_total]; try done.
      * rewrite length_app, pa_total0. simpl. lia.
      * by rewrite kept_rows_snoc, Hv, pa_rows0.
      * by rewrite skipped_of_snoc, Hv, app_nil_r.
      * rewrite !length_app. simpl. lia.
      * intros t. by rewrite fmap_app, days_before_snoc, !elem_of_app, pa_seen0.
      * rewrite fmap_app. apply NoDup_app. split_and!; [done| |apply NoDup_singleton]. simpl.
        intros t Ht ->%list_elem_of_singleton. by apply pa_seen0 in Ht.
      * apply Forall_app. split; [done|]. by apply Forall_singleton.
  - destruct Hout as [m ->]. eexists. split; [done|]. apply Hskip; [|by intros]. by intros v ->.
Qed.

Lemma parse_rows_parsed data :
  ∃ p vs, foldM (parse_row_step headers) (mkParsedRows [] [] 0) (enumerate_from 2 (Ok <$> data)) = Ok p ∧ parsed_as data p vs.
Proof.
  induction data as [|x data IH] using rev_ind.
  - eexists _, []. split; [done|]. constructor; simpl; try done; constructor.
  - destruct IH as (p & vs & Hp & Hpa). destruct (parse_row_step_parsed data p vs x Hpa) as (p' & Hs & Hpa').
    exists p', (vs ++ [says (row_of x)]). split; [|done]. rewrite fmap_app, enumerate_from_app, foldM_app, Hp, length_fmap. cbn [mbind result_bind].
    cbn [fmap list_fmap enumerate_from foldM]. rewrite (Nat.add_comm 2 (length data)), Hs. done.
Qed.
End parsing.

(** ** Lemmas: the upsert *)
Section upsert.
Context (store_numeric : decimal → option decimal) (now : datetime) (symbol interval : string).
Abbreviation stored := (stored_row store_numeric now).
Abbreviation store := (upsert_row store_numeric now).
Abbreviation values := (as_database_values symbol interval).

Lemma update_conflict_key r x : row_key (update_conflict now r x) = row_key x.
Proof. done. Qed.

(** What became of a row in conflict with [y] in [t]: its prices and its volume
    are those of [y]; without one, [y] itself. *)
Definition settled (t : list MarketDataRow) (y x : MarketDataRow) : Prop :=
  (∃ x0, x0 ∈ t ∧ row_key x0 = row_key y ∧ x = update_conflict now y x0) ∨ (row_key y ∉ row_key <$> t ∧ x = y).

Lemma settled_key t y x : settled t y x → row_key x = row_key y.
Proof. by intros [(x0 & _ & H & ->)|[_ ->]]. Qed.

Lemma elem_replace_row t r x : x ∈ replace_row now t r ↔ (x ∈ t ∧ row_key x ≠ row_key r) ∨ settled t r x.
Proof.
  unfold replace_row, settled. case_bool_decide as Hin.
  - rewrite list_elem_of_fmap. split.
    + intros (y & -> & Hy). destruct (decide (row_key y = row_key r)); [right; left; by exists y|by left].
    + intros [[Hx Hk]|[(y & Hy & Hk & ->)|[? _]]]; [| |done].
      * exists x. split; [|done]. by rewrite decide_False.
      * exists y. split; [|done]. by rewrite decide_True.
  - rewrite elem_of_app, list_elem_of_singleton. split.
    + intros [Hx| ->]; [left; split; [done|]|by right; right]. intros Hk. apply Hin. rewrite <- Hk. by apply list_elem_of_fmap_2.
    + intros [[? _]|[(y & Hy & Hk & _)|[_ ->]]]; [by left| |by right]. exfalso. apply Hin. rewrite <- Hk. by apply list_elem_of_fmap_2.
Qed.

Lemma replace_row_keys t r :
  row_key <$> replace_row now t r =
  if bool_decide (row_key r ∈ row_key <$> t) then row_key <$> t else (row_key <$> t) ++ [row_key r].
Proof.
  unfold replace_row. case_bool_decide; [|by rewrite fmap_app].
  rewrite <- list_fmap_compose. apply list_fmap_ext. intros i x _. simpl. by destruct (decide _).
Qed.

Lemma replace_row_length t r :
  length (replace_row now t r) = if bool_decide (row_key r ∈ row_key <$> t) then length t else S (length t).
Proof.
  rewrite <- (length_fmap row_key), replace_row_keys. case_bool_decide; [by rewrite length_fmap|].
  rewrite length_app, length_fmap. simpl. lia.
Qed.

Lemma settled_ok t y x :
  settled t y x → row_okb y = true → row_typed y = true → row_okb x = true ∧ row_typed x = true.
Proof.
  intros [(x0 & _ & [= Hs Hi _] & ->)|[_ ->]] Ho Ht; [|done]. unfold row_okb, row_typed in *. cbn in *. by rewrite Hs, Hi.
Qed.

Lemma replace_row_ok t r :
  table_ok t → row_okb r = true → row_typed r = true → table_ok (replace_row now t r).
Proof.
  intros [Ht Hnd] Hr Hty. split.
  - apply Forall_forall. intros x [[Hx _]|Hx]%elem_replace_row; [|by eapply settled_ok]. rewrite Forall_forall in Ht. by apply Ht.
  - rewrite replace_row_keys. case_bool_decide as Hin; [done|]. apply NoDup_app. split_and!; [done| |apply NoDup_singleton].
    by intros k Hk ->%list_elem_of_singleton.
Qed.

Definition key_of (r : CsvRow) : string * string * datetime := (symbol, interval, cr_timestamp r).

(** The table holds a bar of the series at this row's timestamp. *)
Definition present (t : list MarketDataRow) (r : CsvRow) : Prop := key_of r ∈ row_key <$> t.
#[global] Instance present_dec t r : Decision (present t r).
Proof. unfold present. apply _. Defined.

Lemma stored_key v r' : stored v = Some r' → row_key r' = values_key v.
Proof.
  unfold stored_row. intros H. repeat (apply bind_Some in H as (? & _ & H)). by injection H as <-.
Qed.

Lemma upsert_row_Ok t v t' :
  store t v = Ok t' →
  ∃ r', stored v = Some r' ∧ row_okb r' = true ∧ row_typed r' = true ∧ t' = replace_row now t r'.
Proof.
  unfold upsert_row. destruct (stored v) as [r'|] eqn:E; [|done].
  destruct (row_typed r') eqn:?; [|done]. destruct (row_okb r') eqn:?; [|done]. intros [= <-]. by exists r'.
Qed.

Lemma upsert_row_Err t v e : store t v = Err e → e = data_error ∨ e = integrity_error.
Proof.
  unfold upsert_row. destruct (stored v) as [r'|]; [|intros [= <-]; auto].
  destruct (row_typed r'), (row_okb r'); simpl; intros [= <-]; auto.
Qed.

(** [t'] is [t] with the rows imported: exactly these rows, in place of those
    with the same key, whose creation date they keep, and nothing else changed. *)
Record imported (t : list MarketDataRow) (rows : list CsvRow) (t' : list MarketDataRow) : Prop := mkImported {
  im_rows : ∀ x, x ∈ t' ↔
    (x ∈ t ∧ row_key x ∉ key_of <$> rows) ∨ ∃ r y, r ∈ rows ∧ stored (values r) = Some y ∧ settled t y x;
  im_keys : ∀ k, k ∈ row_key <$> t' ↔ k ∈ row_key <$> t ∨ k ∈ key_of <$> rows;
  im_ok : table_ok t → table_ok t';
  im_stored : ∀ r, r ∈ rows → ∃ y, stored (values r) = Some y ∧ row_okb y = true ∧ row_typed y = true;
  im_length : length t' = (length t + length (filter (λ r, ¬ present t r) rows))%nat }.

Lemma imported_nil t : imported t [] t.
Proof.
  constructor.
  - intros x. simpl. split; [intros H; left; split; [done|by intros ?%not_elem_of_nil]|].
    intros [[? _]|(r & y & Hr & _)]; [done|]. by apply not_elem_of_nil in Hr.
  - intros k. simpl. split; [by left|]. intros [?|H]; [done|]. by apply not_elem_of_nil in H.
  - done.
  - intros r Hr. by apply not_elem_of_nil in Hr.
  - simpl. lia.
Qed.

(** Rows at other timestamps do not change what a row finds. *)
Lemma settled_later t rows t' y x :
  imported t rows t' → row_key y ∉ key_of <$> rows → settled t' y x ↔ settled t y x.
Proof.
  intros [] Hnew. unfold settled. rewrite im_keys0.
  assert (∀ x0, row_key x0 = row_key y → x0 ∈ t' ↔ x0 ∈ t) as Hin.
  2:{ split; (intros [(x0 & H0 & Hk & ->)|[Hn ->]]; [left; exists x0; split; [by apply Hin|done]|right; split; [tauto|done]]). }
  intros x0 Hk. rewrite im_rows0, Hk. split; [|by left]. intros [[? _]|(r & z & Hr & Hz & Hs)]; [done|]. exfalso. apply Hnew.
  rewrite <- Hk, (settled_key _ _ _ Hs), (stored_key _ _ Hz). by apply (list_elem_of_fmap_2 key_of).
Qed.

Lemma imported_snoc t rows t' r r' :
  imported t rows t' → cr_timestamp r ∉ cr_timestamp <$> rows →
  stored (values r) = Some r' → row_okb r' = true → row_typed r' = true →
  imported t (rows ++ [r]) (replace_row now t' r').
Proof.
  intros Himp Hnew Hs Hok Hty. pose proof (stored_key _ _ Hs) as Hk. change (values_key (values r)) with (key_of r) in Hk.
  assert (key_of r ∉ key_of <$> rows) as Hkey.
  { intros (y & [= Hy] & Hin)%list_elem_of_fmap. apply Hnew. rewrite Hy. by apply list_elem_of_fmap_2. }
  assert (row_key r' ∉ key_of <$> rows) as Hrk by by rewrite Hk.
  pose proof (λ x, settled_later t rows t' r' x Himp Hrk) as Hset. destruct Himp.
  assert (∀ y z x, y ∈ rows → stored (values y) = Some z → settled t z x → row_key x ≠ key_of r) as Hne.
  { intros y z x Hy Hz Hx E. apply Hkey. rewrite <- E, (settled_key _ _ _ Hx), (stored_key _ _ Hz).
    by apply (list_elem_of_fmap_2 key_of). }
  constructor.
  - intros x. rewrite elem_replace_row, Hset, im_rows0, Hk, fmap_app, not_elem_of_app. simpl. rewrite list_elem_of_singleton. split.
    + intros [[[[? ?]|(y & z & Hy & Hz & Hx)] ?]|?]; [by left| |].
      * right. exists y, z. rewrite elem_of_app. auto.
      * right. exists r, r'. rewrite elem_of_app, list_elem_of_singleton. auto.
    + intros [(? & ? & ?)|(y & z & [Hy| ->%list_elem_of_singleton]%elem_of_app & Hz & Hx)].
      * left. split; [by left|done].
      * left. split; [right; by exists y, z|by eapply Hne].
      * right. rewrite Hs in Hz. by injection Hz as <-.
  - intros k. rewrite replace_row_keys, fmap_app, elem_of_app. simpl. rewrite list_elem_of_singleton, Hk.
    case_bool_decide as Hin.
    + rewrite im_keys0. split; [naive_solver|]. intros [?|[?| ->]]; [by left|by right|]. by apply im_keys0.
    + rewrite elem_of_app, list_elem_of_singleton, im_keys0. naive_solver.
  - intros Ht. apply replace_row_ok; auto.
  - intros y [Hy| ->%list_elem_of_singleton]%elem_of_app; eauto.
  - rewrite replace_row_length, Hk, filter_app, length_app, im_length0. cbn [filter list_filter].
    assert (key_of r ∈ row_key <$> t' ↔ present t r) as E.
    { rewrite im_keys0. unfold present. split; [|by left]. by intros [?|H]. }
    rewrite (bool_decide_ext _ _ E). case_bool_decide as Hp.
    + rewrite decide_False by auto. simpl. lia.
    + rewrite decide_True by done. simpl. lia.
Qed.

Lemma fold_upsert_imported t rows t' :
  NoDup (cr_timestamp <$> rows) → foldM store t (values <$> rows) = Ok t' → imported t rows t'.
Proof.
  revert t'; induction rows as [|r rows IH] using rev_ind; intros t' Hnd H.
  - injection H as <-. apply imported_nil.
  - rewrite fmap_app, foldM_app in H. apply bind_Ok_inv in H as (t1 & H1 & H).
    rewrite fmap_app in Hnd. apply NoDup_app in Hnd as (Hnd & Hdis & _).
    cbn [fmap list_fmap foldM] in H. apply bind_Ok_inv in H as (t2 & H2 & [= <-]).
    apply upsert_row_Ok in H2 as (r' & Hs & Hok & Hty & ->). apply imported_snoc; auto.
    intros Hin. apply (Hdis _ Hin). simpl. by apply list_elem_of_singleton.
Qed.

Lemma fold_upsert_Err t rows e :
  foldM store t rows = Err e → e = data_error ∨ e = integrity_error.
Proof.
  revert t; induction rows as [|r rows IH]; intros t H; [done|]. cbn [foldM] in H.
  apply bind_Err_inv in H as [H|(t' & _ & H)]; [by eapply upsert_row_Err|by eapply IH].
Qed.

(** *** Importing rows that are stored already *)

(** The row [x] with its update dated [now]. *)
Definition touch (x : MarketDataRow) : MarketDataRow :=
  mkRow (md_symbol x) (md_interval x) (md_timestamp x) (md_open_price x) (md_high_price x) (md_low_price x)
    (md_close_price x) (md_adjusted_close x) (md_volume x) (md_created_at x) now.

(** The rows of the file, renewed; every other row as it is. *)
Definition touched (rows : list CsvRow) (t : list MarketDataRow) : list MarketDataRow :=
  (λ x, if decide (row_key x ∈ key_of <$> rows) then touch x else x) <$> t.

Lemma touched_nil t : touched [] t = t.
Proof.
  rewrite <- (list_fmap_id t) at 2. apply list_fmap_ext. intros i x _.
  by rewrite decide_False by apply not_elem_of_nil.
Qed.

Lemma touched_keys rows t : row_key <$> touched rows t = row_key <$> t.
Proof. unfold touched. rewrite <- list_fmap_compose. apply list_fmap_ext. intros i x _. simpl. by destruct (decide _). Qed.

(** The table holds the row, whenever it was written. *)
Definition held (t : list MarketDataRow) (r : CsvRow) : Prop :=
  ∃ y x, stored (values r) = Some y ∧ row_okb y = true ∧ row_typed y = true ∧
    x ∈ t ∧ row_key x = row_key y ∧ update_conflict now y x = touch x.

Lemma replace_row_held t rows r :
  NoDup (row_key <$> t) → held t r → store (touched rows t) (values r) = Ok (touched (rows ++ [r]) t).
Proof.
  intros Hnd (y & x & Hy & Hok & Hty & Hx & Hk & Hu). unfold upsert_row. rewrite Hy, Hok, Hty. cbn [negb]. f_equal.
  pose proof (stored_key _ _ Hy) as Hyk. change (values_key (values r)) with (key_of r) in Hyk.
  unfold replace_row. rewrite touched_keys, bool_decide_eq_true_2 by (rewrite <- Hk; by apply list_elem_of_fmap_2).
  unfold touched. rewrite <- list_fmap_compose. apply list_fmap_ext. intros i z Hz. simpl.
  assert (row_key z ∈ key_of <$> rows ++ [r] ↔ row_key z ∈ key_of <$> rows ∨ row_key z = key_of r) as Happ.
  { rewrite fmap_app, elem_of_app. simpl. by rewrite list_elem_of_singleton. }
  destruct (decide (row_key z = key_of r)) as [E|E].
  - assert (z = x) as ->.
    { apply list_elem_of_lookup in Hx as [j Hj]. rewrite NoDup_alt in Hnd.
      assert (i = j) as ->; [|congruence]. apply (Hnd i j (row_key z)); rewrite list_lookup_fmap; [by rewrite Hz|].
      rewrite Hj. simpl. congruence. }
    rewrite (decide_True (P := row_key x ∈ key_of <$> rows ++ [r])) by (apply Happ; by right).
    destruct (decide (row_key x ∈ key_of <$> rows)); by rewrite decide_True by exact Hk.
  - destruct (decide (row_key z ∈ key_of <$> rows)) as [Hin|Hin].
    + rewrite (decide_True (P := row_key z ∈ key_of <$> rows ++ [r])) by (apply Happ; by left).
      rewrite decide_False; [done|]. change (row_key z ≠ row_key y). congruence.
    + rewrite (decide_False (P := row_key z ∈ key_of <$> rows ++ [r])) by tauto. by rewrite decide_False by congruence.
Qed.

Lemma fold_upsert_touched t rows :
  NoDup (row_key <$> t) → (∀ r, r ∈ rows → held t r) → foldM store t (values <$> rows) = Ok (touched rows t).
Proof.
  intros Hnd. induction rows as [|r rows IH] using rev_ind; intros Hr; [by rewrite touched_nil|].
  rewrite fmap_app, foldM_app, IH by (intros; apply Hr, elem_of_app; by left). cbn [mbind result_bind fmap list_fmap foldM].
  rewrite replace_row_held; [done|done|]. apply Hr, elem_of_app. right. by left.
Qed.
End upsert.

(** The column values of a row do not depend on the time it is written. *)
Lemma stored_row_later store_numeric now now' v y :
  stored_row store_numeric now v = Some y → stored_row store_numeric now' v =
    Some (mkRow (md_symbol y) (md_interval y) (md_timestamp y) (md_open_price y) (md_high_price y) (md_low_price y)
            (md_close_price y) (md_adjusted_close y) (md_volume y) now' now').
Proof.
  unfold stored_row. intros H. repeat (apply bind_Some in H as (? & ? & H)). injection H as <-. by repeat (simplify_option_eq; try done).
Qed.

Lemma imported_settled store_numeric now symbol interval t rows t' r :
  imported store_numeric now symbol interval t rows t' → r ∈ rows →
  ∃ y x, stored_row store_numeric now (as_database_values symbol interval r) = Some y ∧ row_okb y = true ∧ row_typed y = true ∧
    settled now t y x ∧ x ∈ t'.
Proof.
  intros [] Hr. destruct (im_stored0 r Hr) as (y & Hy & Hok & Hty).
  assert (∃ x, settled now t y x) as [x Hx].
  { destruct (decide (row_key y ∈ row_key <$> t)) as [Hin|Hin]; [|exists y; by right].
    apply list_elem_of_fmap in Hin as (x0 & Hk & Hx0). exists (update_conflict now y x0). left. by exists x0. }
  exists y, x. split_and!; [done..|]. apply im_rows0. right. by exists r, y.
Qed.

Lemma imported_held store_numeric now now' symbol interval t rows t' r :
  imported store_numeric now symbol interval t rows t' → r ∈ rows → held store_numeric now' symbol interval t' r.
Proof.
  intros Hi Hr. destruct (imported_settled _ _ _ _ _ _ _ _ Hi Hr) as (y & x & Hy & Hok & Hty & Hx & Hin).
  eexists _, x. split; [by eapply stored_row_later|]. split; [exact Hok|]. split; [exact Hty|].
  split; [exact Hin|]. split; [exact (settled_key _ _ _ _ Hx)|].
  destruct Hx as [(x0 & _ & _ & ->)|[_ ->]]; done.
Qed.

(** ** Lemmas: batches *)
Lemma batches_concat fuel n rows :
  (length rows <= fuel)%nat → (0 < n)%nat → concat (batches fuel n rows) = rows.
Proof.
  revert rows; induction fuel as [|fuel IH]; intros [|r rows] Hl Hn; cbn [batches concat length] in *; try done; [lia|].
  rewrite IH; [apply take_drop| |done]. rewrite length_drop. cbn [length]. lia.
Qed.

Lemma batched_concat rows n : 0 < n → concat (batched rows n) = rows.
Proof. intros Hn. apply batches_concat; lia. Qed.

Section database.
Context (store_numeric : decimal → option decimal) (now : datetime) (symbol interval : string).
Abbreviation stored := (stored_row store_numeric now).
Abbreviation store := (upsert_row store_numeric now).
Abbreviation values := (as_database_values symbol interval).

Lemma elem_series t ts :
  ts ∈ md_timestamp <$> series symbol interval t ↔ (symbol, interval, ts) ∈ row_key <$> t.
Proof.
  unfold series, of_series. rewrite !list_elem_of_fmap. split.
  - intros (x & -> & [[Hs Hi]%bool_decide_eq_true Hx]%list_elem_of_filter). exists x. unfold row_key. by rewrite Hs, Hi.
  - intros (x & [= Hs Hi Ht] & Hx). exists x. split; [done|]. apply list_elem_of_filter. split; [|done].
    by apply bool_decide_eq_true.
Qed.

(** A batch finds as many existing timestamps as it has rows already present. *)
Lemma existing_count t batch :
  NoDup (cr_timestamp <$> batch) →
  length (remove_dups (existing_timestamp_query symbol interval (cr_timestamp <$> batch) t)) =
  length (filter (present symbol interval t) batch).
Proof.
  intros Hnd. rewrite <- (length_fmap cr_timestamp (filter _ batch)).
  apply Permutation_length, NoDup_Permutation; [apply NoDup_remove_dups| |].
  - eapply sublist_NoDup; [exact Hnd|]. apply fmap_sublist, sublist_filter.
  - intros ts. unfold existing_timestamp_query. rewrite elem_of_remove_dups, list_elem_of_filter, elem_series. split.
    + intros [(r & -> & Hr)%list_elem_of_fmap H]. apply list_elem_of_fmap_2, list_elem_of_filter. by split.
    + intros (r & -> & [H Hr]%list_elem_of_filter)%list_elem_of_fmap. split; [by apply list_elem_of_fmap_2|exact H].
Qed.

Definition counted (summary : ImportSummary) (inserted updated : nat) (summary' : ImportSummary) : Prop :=
  summary' = mkImport (total_csv_rows summary) (inserted_rows summary + inserted) (updated_rows summary + updated)
    (skipped_rows summary) (earliest_stored_timestamp summary) (latest_stored_timestamp summary) (total_symbol_rows summary).

Lemma filter_split {A} (P : A → Prop) `{!∀ x, Decision (P x)} (l : list A) :
  length l = (length (filter P l) + length (filter (λ x, ¬ P x) l))%nat.
Proof.
  induction l as [|x l IH]; [done|]. rewrite !filter_cons. destruct (decide (P x)).
  - rewrite decide_False by auto. simpl. lia.
  - rewrite decide_True by done. simpl. lia.
Qed.

Lemma upsert_cases rows t :
  (∃ e, upsert store_numeric now rows t = (Err e, t)) ∨
  ∃ t', upsert store_numeric now rows t = (Ok (), t') ∧ foldM store t rows = Ok t'.
Proof.
  unfold upsert. destruct (bool_decide _); [|left; by eexists]. simpl.
  destruct (foldM _ _ _) as [t'|e]; [right; by exists t'|left; by exists e].
Qed.

Lemma present_after t batch t1 r :
  imported store_numeric now symbol interval t batch t1 → cr_timestamp r ∉ cr_timestamp <$> batch →
  present symbol interval t1 r ↔ present symbol interval t r.
Proof.
  intros Hi Hr. unfold present. rewrite (im_keys _ _ _ _ _ _ _ Hi). split; [|by left]. intros [?|H]; [done|].
  exfalso. apply Hr. apply list_elem_of_fmap in H as (y & [= Hy] & Hin). rewrite Hy. by apply list_elem_of_fmap_2.
Qed.

Lemma filter_length_ext {A} (P Q : A → Prop) `{!∀ x, Decision (P x), !∀ x, Decision (Q x)} l :
  (∀ x, x ∈ l → P x ↔ Q x) → length (filter P l) = length (filter Q l).
Proof.
  induction l as [|x l IH]; intros HPQ; [done|]. rewrite !filter_cons.
  destruct (decide (P x)) as [HP|HP], (decide (Q x)) as [HQ|HQ]; simpl; rewrite ?IH; auto using list_elem_of_further;
    exfalso; [apply HQ|apply HP]; apply (HPQ x); auto using list_elem_of_here.
Qed.

Definition inserted_count (t : list MarketDataRow) (rows : list CsvRow) : nat :=
  length (filter (λ r, ¬ present symbol interval t r) rows).
Definition updated_count (t : list MarketDataRow) (rows : list CsvRow) : nat :=
  length (filter (present symbol interval t) rows).

Lemma import_batches_spec bs summary s :
  NoDup (cr_timestamp <$> concat bs) →
  match import_batches store_numeric now symbol interval summary bs s with
  | (Ok summary', s') => foldM store (st_table s) (values <$> concat bs) = Ok (st_table s') ∧
      counted summary (inserted_count (st_table s) (concat bs)) (updated_count (st_table s) (concat bs)) summary'
  | (Err _, _) => True
  end.
Proof.
  revert summary s; induction bs as [|batch bs IH]; intros summary s Hnd.
  - simpl. split; [done|]. unfold counted, inserted_count, updated_count. simpl. rewrite !Nat.add_0_r. by destruct summary.
  - cbn [import_batches concat] in *. rewrite fmap_app in Hnd. apply NoDup_app in Hnd as (Hnd & Hdis & Hnd').
    unfold db_bind at 1, query. set (q := statement _ s).
    destruct (statement_cases (λ t, (Ok (existing_timestamp_query symbol interval (cr_timestamp <$> batch) t), t)) s)
      as [(e & He & _)|[Hq Hqt]]; fold q in He || fold q in Hq, Hqt.
    { destruct q as [r1 s1]. simpl in He. by subst r1. }
    destruct q as [r1 s1]. simpl in Hq, Hqt. subst r1. unfold db_bind at 1, execute_upsert. set (u := statement _ s1).
    destruct (statement_cases (upsert store_numeric now (values <$> batch)) s1) as [(e & He & _)|[Hu Hut]];
      fold u in He || fold u in Hu, Hut.
    { destruct u as [r2 s2]. simpl in He. by subst r2. }
    destruct u as [r2 s2]. simpl in Hu, Hut.
    destruct (upsert_cases (values <$> batch) (st_table s1)) as [(e & E)|(t' & E & Hf)]; rewrite E in Hu, Hut; simpl in Hu, Hut;
      subst r2; [done|]. subst t'. rewrite Hqt in Hf.
    pose proof (fold_upsert_imported _ _ _ _ _ _ _ Hnd Hf) as Hi.
    specialize (IH (count_batch summary (length batch) (length (remove_dups
      (existing_timestamp_query symbol interval (cr_timestamp <$> batch) (st_table s))))) s2 Hnd').
    destruct (import_batches _ _ _ _ _ _) as [[summary'|e] s']; [|done]. destruct IH as [H1 H2]. split.
    + by rewrite fmap_app, foldM_app, Hf.
    + rewrite existing_count in H2 by done.
      assert (∀ r, r ∈ concat bs → present symbol interval (st_table s2) r ↔ present symbol interval (st_table s) r) as Hp.
      { intros r Hr. eapply present_after; [done|]. intros Hin. apply (Hdis _ Hin). by apply list_elem_of_fmap_2. }
      unfold counted, inserted_count, updated_count, count_batch in *. cbn [inserted_rows updated_rows total_csv_rows
        skipped_rows earliest_stored_timestamp latest_stored_timestamp total_symbol_rows] in H2. rewrite H2, !filter_app, !length_app.
      rewrite (filter_length_ext (present symbol interval (st_table s2)) (present symbol interval (st_table s)) _ Hp).
      rewrite (filter_length_ext (λ r, ¬ present symbol interval (st_table s2) r) (λ r, ¬ present symbol interval (st_table s) r))
        by (intros r Hr; by rewrite (Hp r Hr)).
      pose proof (filter_split (present symbol interval (st_table s)) batch). f_equal; lia.
Qed.
End database.

(** What parsing a file gives. *)
Definition parse_result (text : string) (r : result (list CsvRow * ImportSummary)) : Prop :=
  match r with
  | Ok (rows, summary) => ∃ headers data says,
      dict_reader text = (Ok headers, Ok <$> data) ∧ (∀ c, c ∈ REQUIRED_COLUMNS → c ∈ headers) ∧
      Forall2 (λ fields v, row_says (row_dict headers fields) v) data says ∧
      rows = kept_rows says ∧ summary = mkImport (length data) 0 0 (skipped_of says) None None 0 ∧
      (length rows + length (skipped_of says) = length data)%nat ∧
      NoDup (cr_timestamp <$> rows) ∧ Forall csv_row_ok rows
  | Err e => e = csv_error ∨ (is_value_error e ∧ ∃ headers, (dict_reader text).1 = Ok headers ∧
                                ∃ c, c ∈ REQUIRED_COLUMNS ∧ c ∉ headers)
  end.

Lemma parse_market_csv_outcome text : parse_result text (parse_market_csv text).
Proof.
  pose proof (dict_reader_error text) as He. unfold parse_result, parse_market_csv.
  destruct (dict_reader text) as [[headers|e] reader]; simpl in He; [|left; by apply He; left]. cbn [mbind result_bind].
  destruct (missing_columns headers) as [|c cs] eqn:Em.
  2:{ right. split; [by eexists|]. exists headers. split; [done|]. exists c. unfold missing_columns in Em.
      assert (c ∈ filter (λ c, c ∉ headers) REQUIRED_COLUMNS) as Hc by (rewrite Em; by left).
      by apply list_elem_of_filter in Hc as []. }
  destruct (stream_cases reader) as [(data & ->)|(data & e & rest & ->)].
  - destruct (parse_rows_parsed headers data) as (p & vs & -> & []). cbn [mbind result_bind].
    exists headers, data, vs. split; [done|]. split.
    { intros c Hc. destruct (decide (c ∈ headers)); [done|]. exfalso. unfold missing_columns in Em.
      assert (c ∈ filter (λ c, c ∉ headers) REQUIRED_COLUMNS) as H by by apply list_elem_of_filter.
      rewrite Em in H. by apply not_elem_of_nil in H. }
    rewrite <- pa_skipped0. split_and!; try done. by rewrite pa_total0.
  - destruct (parse_rows_parsed headers data) as (p & vs & Hp & _).
    rewrite enumerate_from_app, foldM_app, Hp. cbn. left. apply He. right. apply elem_of_app. right. by left.
Qed.

(** ** The theorems *)

(** C27: Parsing a file is exact.  Each row of the data has a value or a reason,
    which is that of its first field without one, then that of its range; the
    bars are, in file order, the rows with a value that are the first of their
    day; every other row is reported, in file order, with its line number and
    its reason; no row is lost, all bars are well formed and at distinct
    midnights, and the only exceptions are ValueError for missing columns and
    the reader's own error. *)
Theorem parse_market_csv_exact (text : string) : parse_result text (parse_market_csv text).
Proof. apply parse_market_csv_outcome. Qed.

(** The earliest or latest timestamp of the series. *)
Definition extreme (R : Z → Z → Prop) (ts : list datetime) (m : option datetime) : Prop :=
  match m with
  | None => ts = []
  | Some m => m ∈ ts ∧ ∀ t, t ∈ ts → R m t
  end.

Lemma fold_timestamps_extreme symbol interval f R t :
  (∀ a b, (f a b = a ∨ f a b = b) ∧ R (f a b) a ∧ R (f a b) b) → Transitive R →
  extreme R (md_timestamp <$> series symbol interval t) (fold_timestamps symbol interval f t).
Proof.
  intros Hf HR. unfold fold_timestamps. induction (md_timestamp <$> series symbol interval t) as [|a ts IH]; [done|].
  cbn [foldr]. revert IH. generalize (foldr (λ t acc, Some (match acc with Some m => f t m | None => t end)) None ts).
  intros [m|] IH; simpl in IH |- *.
  - destruct IH as [Hm Ht]. destruct (Hf a m) as (Hor & Ha & Hb). split.
    + destruct Hor as [-> | ->]; [by left|by right].
    + intros b [->|Hb']%elem_of_cons; [done|]. etransitivity; [exact Hb|]. by apply Ht.
  - subst ts. split; [by left|]. intros b ->%list_elem_of_singleton.
    destruct (Hf a a) as ([E|E] & Ha & _); by rewrite E in Ha.
Qed.

Section import_theorems.
Context (store_numeric : decimal → option decimal) (now : datetime) (symbol interval : string).

(** What a completed import reports. *)
Record reported (t : list MarketDataRow) (rows : list CsvRow) (parsed : ImportSummary) (t' : list MarketDataRow)
    (summary : ImportSummary) : Prop := mkReported {
  rep_total : total_csv_rows summary = total_csv_rows parsed;
  rep_skipped : skipped_rows summary = skipped_rows parsed;
  rep_inserted : inserted_rows summary = inserted_count symbol interval t rows;
  rep_updated : updated_rows summary = updated_count symbol interval t rows;
  rep_every_row : total_csv_rows summary = (inserted_rows summary + updated_rows summary + skipped_count summary)%nat;
  rep_series : total_symbol_rows summary = length (series symbol interval t');
  rep_earliest : extreme Z.le (md_timestamp <$> series symbol interval t') (earliest_stored_timestamp summary);
  rep_latest : extreme Z.ge (md_timestamp <$> series symbol interval t') (latest_stored_timestamp summary) }.

Lemma parsed_facts text rows parsed :
  parse_market_csv text = Ok (rows, parsed) →
  NoDup (cr_timestamp <$> rows) ∧ Forall csv_row_ok rows ∧ inserted_rows parsed = 0%nat ∧ updated_rows parsed = 0%nat ∧
  total_csv_rows parsed = (length rows + length (skipped_rows parsed))%nat.
Proof.
  intros E. pose proof (parse_market_csv_outcome text) as H. rewrite E in H.
  destruct H as (headers & data & vs & _ & _ & _ & -> & -> & Hlen & ? & ?). by split_and!.
Qed.

(** Everything an import may do to the table: nothing, or all of the file. *)
Definition import_post (file : option string) (t t' : list MarketDataRow) (r : result ImportSummary) : Prop :=
  match r with
  | Ok summary => ∃ text rows parsed, file = Some text ∧ parse_market_csv text = Ok (rows, parsed) ∧
      imported store_numeric now symbol interval t rows t' ∧ reported t rows parsed t' summary
  | Err _ => t' = t ∨ ∃ text rows parsed, file = Some text ∧ parse_market_csv text = Ok (rows, parsed) ∧
      imported store_numeric now symbol interval t rows t'
  end.

Lemma import_fold path file batch_size s :
  match import_market_csv store_numeric now symbol interval path file batch_size s with
  | (Ok summary, s') => ∃ text rows parsed, file = Some text ∧ parse_market_csv text = Ok (rows, parsed) ∧
      foldM (upsert_row store_numeric now) (st_table s) (as_database_values symbol interval <$> rows) = Ok (st_table s') ∧
      reported (st_table s) rows parsed (st_table s') summary
  | (Err _, s') => st_table s' = st_table s ∨ ∃ text rows parsed, file = Some text ∧ parse_market_csv text = Ok (rows, parsed) ∧
      foldM (upsert_row store_numeric now) (st_table s) (as_database_values symbol interval <$> rows) = Ok (st_table s')
  end.
Proof.
  unfold import_market_csv. destruct file as [text|]; [|by left]. destruct (negb _); [by left|].
  destruct (negb _); [by left|]. destruct (Z.leb_spec batch_size 0) as [|Hb]; [by left|].
  unfold db_bind at 1, db_lift. destruct (parse_market_csv text) as [[rows parsed]|e] eqn:Ep; [|by left].
  destruct (parsed_facts _ _ _ Ep) as (Hnd & _ & Hi & Hu & Ht). cbn [fst snd].
  unfold db_bind at 1. pose proof (transaction_cases (import_batches store_numeric now symbol interval parsed (batched rows batch_size)) s) as Htr.
  pose proof (import_batches_spec store_numeric now symbol interval (batched rows batch_size) parsed s) as Hbs.
  rewrite batched_concat in Hbs by done. specialize (Hbs Hnd).
  destruct (transaction _ s) as [[summary|e] s1].
  2:{ destruct Htr as [?|(a & s2 & E & ->)]; [by left|right]. rewrite E in Hbs. destruct Hbs as [Hf _]. eauto 10. }
  destruct Htr as (s2 & E & Hs1). rewrite E in Hbs. destruct Hbs as [Hf Hc]. rewrite <- Hs1 in Hf.
  unfold db_bind at 1. destruct (query_cases (fold_timestamps symbol interval Z.min) s1) as [Q1 [Q1'|[e Q1']]];
    destruct (query _ s1) as [r1 s3]; simpl in Q1, Q1'; subst r1; [|rewrite Q1; right; by eauto 10].
  unfold db_bind at 1. destruct (query_cases (fold_timestamps symbol interval Z.max) s3) as [Q2 [Q2'|[e Q2']]];
    destruct (query _ s3) as [r2 s4]; simpl in Q2, Q2'; subst r2; [|rewrite Q2, Q1; right; by eauto 10].
  unfold db_bind at 1. destruct (query_cases (λ table, length (series symbol interval table)) s4) as [Q3 [Q3'|[e Q3']]];
    destruct (query _ s4) as [r3 s5]; simpl in Q3, Q3'; subst r3; [|rewrite Q3, Q2, Q1; right; by eauto 10].
  simpl. rewrite ?Q3, ?Q2, ?Q1. exists text, rows, parsed. split; [done|]. split; [done|]. split; [done|].
  rewrite Hc. constructor; simpl; try done.
  - by rewrite Hi.
  - by rewrite Hu.
  - unfold skipped_count, inserted_count, updated_count. simpl. rewrite Ht, Hi, Hu.
    pose proof (filter_split (present symbol interval (st_table s)) rows). lia.
  - apply fold_timestamps_extreme; [|intros a b c; lia]. intros a b. split_and!; lia.
  - apply fold_timestamps_extreme; [|intros a b c; lia]. intros a b. split_and!; lia.
Qed.

(** C20: An import is all or nothing: whatever statement or commit fails, the
    table is unchanged or holds every row of the file, each with its key
    exactly once and nothing else touched; the table keeps its constraints; and
    a completed import reports exactly what it inserted, updated and skipped
    and what the series now holds. *)
Theorem import_all_or_nothing (path : string) (file : option string) (batch_size : Z) (s : Store (list MarketDataRow)) :
  let '(r, s') := import_market_csv store_numeric now symbol interval path file batch_size s in
  import_post file (st_table s) (st_table s') r ∧ (table_ok (st_table s) → table_ok (st_table s')).
Proof.
  pose proof (import_fold path file batch_size s) as H. destruct (import_market_csv _ _ _ _ _ _ _ s) as [[summary|e] s'].
  - destruct H as (text & rows & parsed & -> & Hp & Hf & Hr).
    apply fold_upsert_imported in Hf; [|by eapply parsed_facts]. split; [exists text, rows, parsed; auto|apply Hf].
  - destruct H as [->|(text & rows & parsed & -> & Hp & Hf)]; [split; [by left|done]|].
    apply fold_upsert_imported in Hf; [|by eapply parsed_facts]. split; [right; exists text, rows, parsed; auto|apply Hf].
Qed.

(** *** Without faults *)
Lemma import_batches_runs bs summary s t' :
  NoDup (cr_timestamp <$> concat bs) → st_faults s = [] →
  foldM (upsert_row store_numeric now) (st_table s) (as_database_values symbol interval <$> concat bs) = Ok t' →
  ∃ summary', import_batches store_numeric now symbol interval summary bs s = (Ok summary', mkStore t' []).
Proof.
  revert summary s; induction bs as [|batch bs IH]; intros summary s Hnd Hs Hf.
  - injection Hf as <-. exists summary. destruct s; simpl in *. by rewrite Hs.
  - cbn [concat import_batches] in *. rewrite fmap_app in Hnd. apply NoDup_app in Hnd as (Hnd & _ & Hnd').
    rewrite (fmap_app _ batch), foldM_app in Hf. apply bind_Ok_inv in Hf as (t1 & Hf1 & Hf).
    unfold db_bind at 1, query. rewrite statement_runs by done. cbn [fst snd].
    unfold db_bind at 1, execute_upsert. rewrite statement_runs by done. cbn [st_table].
    assert (upsert store_numeric now (as_database_values symbol interval <$> batch) (st_table s) = (Ok (), t1)) as ->.
    { unfold upsert. rewrite bool_decide_eq_true_2, Hf1; [done|].
      rewrite <- list_fmap_compose. apply (NoDup_fmap_1 snd). by rewrite <- list_fmap_compose. }
    by apply (IH _ (mkStore t1 [])).
Qed.

Lemma import_runs path text batch_size s rows parsed t' :
  symbol_ok symbol = true → interval = "1d"%string → 0 < batch_size → st_faults s = [] →
  parse_market_csv text = Ok (rows, parsed) →
  foldM (upsert_row store_numeric now) (st_table s) (as_database_values symbol interval <$> rows) = Ok t' →
  ∃ summary, import_market_csv store_numeric now symbol interval path (Some text) batch_size s = (Ok summary, mkStore t' []).
Proof.
  intros Hsym Hint Hb Hs Hp Hf. unfold import_market_csv. rewrite Hsym, Hint. cbn [negb].
  rewrite String.eqb_refl. cbn [negb]. rewrite <- Hint. destruct (Z.leb_spec batch_size 0); [lia|].
  unfold db_bind at 1, db_lift. rewrite Hp. cbn [fst snd]. unfold db_bind at 1, transaction.
  destruct (import_batches_runs (batched rows batch_size) parsed s t') as [summary ->]; [|done| |].
  - rewrite batched_concat by done. by eapply parsed_facts.
  - by rewrite batched_concat.
  - by eexists.
Qed.

Lemma import_arguments path file batch_size s summary s' :
  import_market_csv store_numeric now symbol interval path file batch_size s = (Ok summary, s') →
  symbol_ok symbol = true ∧ interval = "1d"%string ∧ 0 < batch_size.
Proof.
  unfold import_market_csv. destruct file as [text|]; [|done]. destruct (symbol_ok symbol); [|done]. cbn [negb].
  destruct (String.eqb_spec interval "1d"); [|done]. cbn [negb]. by destruct (Z.leb_spec batch_size 0).
Qed.

(** A bar of a row: its prices are what the columns store. *)
Definition bar_from (r : CsvRow) (b : MarketBar) : Prop :=
  bar_timestamp b = cr_timestamp r ∧ volume b = cr_volume r ∧
  store_numeric (cr_open_price r) = Some (open_price b) ∧ store_numeric (cr_high_price r) = Some (high_price b) ∧
  store_numeric (cr_low_price r) = Some (low_price b) ∧ store_numeric (cr_close_price r) = Some (close_price b).

Definition same_when_storable (d d' : decimal) : Prop := numeric_18_8 d = true → (dval d' == dval d)%Q.

Lemma loaded_perm t : load_market_bars t symbol interval ≡ₚ bar_of_row <$> series symbol interval t.
Proof.
  unfold load_market_bars, series, of_series. rewrite select_rows_perm.
  rewrite (list_filter_iff _ (λ r, bool_decide (md_symbol r = symbol ∧ md_interval r = interval) = true)); [done|].
  intros x. by rewrite bool_decide_eq_true.
Qed.

Lemma loaded_elem t b :
  b ∈ load_market_bars t symbol interval ↔ ∃ x, x ∈ t ∧ md_symbol x = symbol ∧ md_interval x = interval ∧ b = bar_of_row x.
Proof.
  rewrite loaded_perm, list_elem_of_fmap. unfold series, of_series. split.
  - intros (x & -> & [[? ?]%bool_decide_eq_true Hx]%list_elem_of_filter). by exists x.
  - intros (x & Hx & Hs & Hi & ->). exists x. split; [done|]. apply list_elem_of_filter. split; [|done]. by apply bool_decide_eq_true.
Qed.

(** The rows of a file, stored, are the bars of the file. *)
Lemma settled_bar t r y x :
  stored_row store_numeric now (as_database_values symbol interval r) = Some y → settled now t y x →
  md_symbol x = symbol ∧ md_interval x = interval ∧ bar_from r (bar_of_row x).
Proof.
  intros Hy Hx. unfold stored_row in Hy. cbn in Hy.
  apply bind_Some in Hy as (o & Ho & Hy). apply bind_Some in Hy as (hi & Hh & Hy). apply bind_Some in Hy as (l & Hl & Hy).
  apply bind_Some in Hy as (c & Hc & Hy). apply bind_Some in Hy as (a & Ha & [= <-]).
  destruct Hx as [(x0 & _ & [= Hs Hi Ht] & ->)|[_ ->]]; cbn; by split_and!.
Qed.

Lemma imported_bar t rows t' :
  imported store_numeric now symbol interval t rows t' → ∀ r, r ∈ rows →
  ∃ b, bar_from r b ∧ b ∈ load_market_bars t' symbol interval.
Proof.
  intros Hi r Hr. destruct (imported_settled _ _ _ _ _ _ _ _ Hi Hr) as (y & x & Hy & _ & _ & Hx & Hin).
  destruct (settled_bar _ _ _ _ Hy Hx) as (Hs & Hint & Hb). exists (bar_of_row x). split; [done|].
  apply loaded_elem. by exists x.
Qed.

Lemma bar_from_unique r b b' : bar_from r b → bar_from r b' → b = b'.
Proof. intros (? & ? & ? & ? & ? & ?) (? & ? & ? & ? & ? & ?). destruct b, b'; simpl in *. congruence. Qed.

Lemma loaded_after t rows t' :
  imported store_numeric now symbol interval t rows t' → ∀ b,
  b ∈ load_market_bars t' symbol interval ↔
    (∃ r, r ∈ rows ∧ bar_from r b) ∨ (b ∈ load_market_bars t symbol interval ∧ bar_timestamp b ∉ cr_timestamp <$> rows).
Proof.
  intros Hi b. split.
  - intros (x & Hx & Hs & Hint & ->)%loaded_elem. apply (im_rows _ _ _ _ _ _ _ Hi) in Hx as [[Hx Hn]|(r & y & Hr & Hy & Hset)].
    + right. split; [apply loaded_elem; by exists x|]. intros (r & Ht & Hr)%list_elem_of_fmap. apply Hn.
      apply list_elem_of_fmap. exists r. split; [|done]. unfold row_key, key_of. cbn in Ht. congruence.
    + left. exists r. split; [done|]. by eapply settled_bar.
  - intros [(r & Hr & Hb)|[(x & Hx & Hs & Hint & ->)%loaded_elem Hn]].
    + destruct (imported_bar _ _ _ Hi r Hr) as (b' & Hb' & Hin). by rewrite (bar_from_unique r b b').
    + apply loaded_elem. exists x. split; [|done]. apply (im_rows _ _ _ _ _ _ _ Hi). left. split; [done|].
      intros (r & Hk & Hr)%list_elem_of_fmap. apply Hn. apply list_elem_of_fmap. exists r. split; [|done]. by injection Hk.
Qed.

(** C26: From file to backtest: after a completed import, loading the series
    gives exactly the bars of the file, one for every row that counts, at its
    midnight, with its volume and its open, high, low and close as the columns
    store them - unchanged, for prices a Numeric(18, 8) column can hold - and the
    bars that were loaded before at other dates; they are well formed, strictly
    ascending, and as many as was reported. *)
Theorem imported_bars_load (path : string) (file : option string) (batch_size : Z) (s s' : Store (list MarketDataRow)) (summary : ImportSummary) :
  (∀ d, numeric_18_8 d = true → ∃ d', store_numeric d = Some d' ∧ (dval d' == dval d)%Q) →
  table_ok (st_table s) →
  import_market_csv store_numeric now symbol interval path file batch_size s = (Ok summary, s') →
  let bars := load_market_bars (st_table s') symbol interval in
  Forall bar_ok bars ∧ increasing bars ∧ length bars = total_symbol_rows summary ∧
  ∃ text rows parsed, file = Some text ∧ parse_market_csv text = Ok (rows, parsed) ∧
    (∀ b, b ∈ bars ↔
      (∃ r, r ∈ rows ∧ bar_from r b) ∨
      (b ∈ load_market_bars (st_table s) symbol interval ∧ bar_timestamp b ∉ cr_timestamp <$> rows)) ∧
    ∀ r, r ∈ rows → ∃ b, b ∈ bars ∧ bar_from r b ∧
      same_when_storable (cr_open_price r) (open_price b) ∧ same_when_storable (cr_high_price r) (high_price b) ∧
      same_when_storable (cr_low_price r) (low_price b) ∧ same_when_storable (cr_close_price r) (close_price b).
Proof.
  intros Hexact Hok Himp. cbv zeta. pose proof (import_fold path file batch_size s) as H. rewrite Himp in H.
  destruct H as (text & rows & parsed & -> & Hp & Hf & Hr).
  destruct (parsed_facts _ _ _ Hp) as (Hnd & _). pose proof (fold_upsert_imported _ _ _ _ _ _ _ Hnd Hf) as Hi.
  pose proof (im_ok _ _ _ _ _ _ _ Hi Hok) as Hok'.
  destruct (load_market_bars_ok (st_table s') symbol interval Hok') as [Hb Hinc]. split; [done|]. split; [done|].
  split; [by rewrite loaded_perm, length_fmap, (rep_series _ _ _ _ _ Hr)|].
  exists text, rows, parsed. split; [done|]. split; [done|].
  assert (∀ b, b ∈ load_market_bars (st_table s') symbol interval ↔
      (∃ r, r ∈ rows ∧ bar_from r b) ∨
      (b ∈ load_market_bars (st_table s) symbol interval ∧ bar_timestamp b ∉ cr_timestamp <$> rows)) as Hbars by by apply loaded_after.
  split; [exact Hbars|]. intros r Hin. destruct (imported_bar _ _ _ Hi r Hin) as (b & Hb1 & Hb2).
  assert (∀ d d', store_numeric d = Some d' → same_when_storable d d') as Hsame.
  { intros d d' Hd Hn. destruct (Hexact d Hn) as (d2 & Hd2 & Hv). congruence. }
  exists b. split; [apply Hbars; left; by exists r|]. split; [exact Hb1|]. destruct Hb1 as (_ & _ & ? & ? & ? & ?). by split_and!; apply Hsame.
Qed.
End import_theorems.

Section idempotence.
Context (store_numeric : decimal → option decimal) (now : datetime) (symbol interval : string).

(** C39: Importing the same file again, at any later time, inserts nothing and
    changes no row but for [updated_at], which is renewed on exactly the rows of
    the file: no key, price, volume or creation date moves, every row of the
    file is reported as updated, and the series is reported as before. *)
Theorem import_idempotent (later : datetime) (path : string) (file : option string) (batch_size : Z)
    (s s' : Store (list MarketDataRow)) (summary : ImportSummary) :
  table_ok (st_table s) → st_faults s = [] →
  import_market_csv store_numeric now symbol interval path file batch_size s = (Ok summary, s') →
  ∃ text rows parsed again, file = Some text ∧ parse_market_csv text = Ok (rows, parsed) ∧
    import_market_csv store_numeric later symbol interval path file batch_size s' =
      (Ok again, mkStore (touched later symbol interval rows (st_table s')) []) ∧
    inserted_rows again = 0%nat ∧ updated_rows again = (inserted_rows summary + updated_rows summary)%nat ∧
    skipped_rows again = skipped_rows summary ∧ total_symbol_rows again = total_symbol_rows summary.
Proof.
  intros Hok Hs Himp. destruct (import_arguments _ _ _ _ _ _ _ _ _ _ Himp) as (Hsym & Hint & Hb).
  pose proof (import_fold store_numeric now symbol interval path file batch_size s) as H. rewrite Himp in H.
  destruct H as (text & rows & parsed & -> & Hp & Hf & Hr). exists text, rows, parsed.
  destruct (parsed_facts _ _ _ Hp) as (Hnd & _). pose proof (fold_upsert_imported _ _ _ _ _ _ _ Hnd Hf) as Hi.
  assert (st_faults s' = []) as Hs'.
  { destruct (import_runs store_numeric now symbol interval path text batch_size s rows parsed _ Hsym Hint Hb Hs Hp Hf) as [sm E].
    rewrite Himp in E. by injection E as _ ->. }
  assert (foldM (upsert_row store_numeric later) (st_table s') (as_database_values symbol interval <$> rows) =
    Ok (touched later symbol interval rows (st_table s'))) as Hf'.
  { apply fold_upsert_touched; [by apply (im_ok _ _ _ _ _ _ _ Hi)|]. intros r. by eapply imported_held. }
  destruct (import_runs store_numeric later symbol interval path text batch_size s' rows parsed _ Hsym Hint Hb Hs' Hp Hf') as [again E].
  exists again. split; [done|]. split; [done|]. split; [exact E|].
  pose proof (import_fold store_numeric later symbol interval path (Some text) batch_size s') as H. rewrite E in H.
  destruct H as (text' & rows' & parsed' & [= <-] & Hp' & _ & Hr'). rewrite Hp in Hp'. injection Hp' as <- <-. cbn [st_table] in Hr'.
  assert (inserted_count symbol interval (st_table s') rows = 0%nat) as H0.
  { unfold inserted_count. apply length_zero_iff_nil, filter_none. intros r Hin Hn. apply Hn. unfold present.
    apply (im_keys _ _ _ _ _ _ _ Hi). right. by apply list_elem_of_fmap_2. }
  assert (length (series symbol interval (touched later symbol interval rows (st_table s'))) =
          length (series symbol interval (st_table s'))) as Hlen.
  { unfold touched. clear. induction (st_table s') as [|x t IH]; [done|]. cbn [fmap list_fmap]. unfold series in *.
    rewrite !filter_cons. assert (of_series symbol interval (if decide (row_key x ∈ key_of symbol interval <$> rows) then touch later x else x) =
      of_series symbol interval x) as -> by by destruct (decide _). destruct (decide _); simpl; by rewrite IH. }
  destruct Hr, Hr'. split; [congruence|]. split; [|split; [congruence|congruence]].
  rewrite rep_inserted0, rep_updated0, rep_updated1. unfold updated_count, inserted_count in *.
  pose proof (filter_split (present symbol interval (st_table s')) rows) as Ha.
  pose proof (filter_split (present symbol interval (st_table s)) rows) as Hb'. lia.
Qed.

End idempotence.

(** ** Examples *)
Definition sample_csv : string := csv_text
  [["date"; "open"; "high"; "low"; "close"; "volume"; "adjusted_close"];
   ["2024-01-02"; "100.00"; "101.50"; "99.25"; "101"; "1000"; "100.5"];
   ["2024-01-03"; "101"; "100"; "99"; "100"; "1000"; ""];
   ["2024-01-02"; "100"; "101"; "99"; "100"; "1_000"; ""];
   ["2024-01-04"; "102"; "104"; "101.5"; "103.125"; "2000"; ""]]%string.

Definition sample_numeric (d : decimal) : option decimal := if numeric_18_8 d then Some d else None.

Definition sample_store : Store (list MarketDataRow) := mkStore sample_table [].

Definition sample_import : result ImportSummary * Store (list MarketDataRow) :=
  import_market_csv sample_numeric 1000 "SPY" "1d" "bars.csv" (Some sample_csv) 1 sample_store.

Example sample_import_reports :
  (inserted_rows <$> sample_import.1, updated_rows <$> sample_import.1, total_symbol_rows <$> sample_import.1,
   (λ s, skipped_rows s) <$> sample_import.1) =
  (Ok 2%nat, Ok 0%nat, Ok 9%nat,
   Ok [mkSkipped 3 "high must be greater than or equal to open, low, and close"; mkSkipped 4 "duplicate timestamp in CSV"]).
Proof. vm_compute. reflexivity. Qed.

(** The date format is wider than the message says. *)
Example week_dates_accepted :
  parse_date (Some "2024-W01-2"%string) = Ok 19724 ∧ parse_date (Some "20240102"%string) = Ok 19724 ∧
  parse_date (Some "2024-01-02"%string) = Ok 19724.
Proof. vm_compute. by split_and!. Qed.

Lemma import_idempotent_witness :
  ∃ summary s' rows again, sample_import = (Ok summary, s') ∧
    import_market_csv sample_numeric 2000 "SPY" "1d" "bars.csv" (Some sample_csv) 1 s' =
      (Ok again, mkStore (touched 2000 "SPY" "1d" rows (st_table s')) []) ∧
    inserted_rows again = 0%nat ∧ updated_rows again = 2%nat.
Proof.
  destruct sample_import as [[summary|e] s'] eqn:E; [|exfalso; vm_compute in E; discriminate].
  assert ((inserted_rows summary + updated_rows summary)%nat = 2%nat) as H2.
  { vm_compute in E. injection E as <- _. reflexivity. }
  destruct (import_idempotent sample_numeric 1000 "SPY" "1d" 2000 "bars.csv" (Some sample_csv) 1 sample_store s' summary
              sample_table_ok eq_refl E) as (text & rows & parsed & again & _ & _ & Ha & Hi & Hu & _).
  exists summary, s', rows, again. rewrite H2 in Hu.
  split; [reflexivity|]. split; [exact Ha|]. split; [exact Hi|exact Hu].
Defined.

(** The second import renews the dates of the rows of the file, and no other. *)
Example second_import_renews :
  (λ x, (md_created_at x, md_updated_at x)) <$>
    st_table (import_market_csv sample_numeric 2000 "SPY" "1d" "bars.csv" (Some sample_csv) 1 sample_import.2).2 =
  [(0, 0); (0, 0); (0, 0); (0, 0); (0, 0); (0, 0); (0, 0); (1000, 2000); (1000, 2000)].
Proof. vm_compute. reflexivity. Qed.

Lemma imported_bars_load_witness :
  ∃ summary s', sample_import = (Ok summary, s') ∧ increasing (load_market_bars (st_table s') "SPY" "1d") ∧
    length (load_market_bars (st_table s') "SPY" "1d") = 9%nat.
Proof.
  destruct sample_import as [[summary|e] s'] eqn:E; [|exfalso; vm_compute in E; discriminate].
  assert (total_symbol_rows summary = 9%nat) as H9.
  { vm_compute in E. injection E as <- _. reflexivity. }
  destruct (imported_bars_load sample_numeric 1000 "SPY" "1d" "bars.csv" (Some sample_csv) 1 sample_store s' summary)
    as (_ & Hinc & Hlen & _); [|exact sample_table_ok|exact E|].
  - intros d Hd. exists d. unfold sample_numeric. rewrite Hd. split; reflexivity.
  - exists summary, s'. rewrite H9 in Hlen. split; [reflexivity|]. split; [exact Hinc|exact Hlen].
Defined.
