(* ===== verification/StrategyApi.v ===== *)
(** * Saved strategies ([backend/app/models/strategy.py],
    [backend/app/schemas/strategy.py], [backend/app/api/routes/strategies.py])

    The table [public.strategies] by primary key, the request models with their
    validators, and the handlers as computations on the table.  The user of a
    handler is the one [Auth.get_current_user] returned.  The identifier, the
    clock and pydantic's whitespace stripping are supplied from outside. *)

From S2P Require Import Prelude Text Models StrategySpec StrategySemantics StrategyCompiler Serialization Effects Database Auth.
From Stdlib Require Import ZArith Lia Sorted.
From stdpp Require Import base list option strings gmap sorting.
Local Open Scope Z_scope.

(** ** The table *)
Record Strategy : Type := mkStrategy {
  st_id : Z;
  st_user_id : Z;
  st_name : string;
  st_source_text : string;
  st_strategy_json : option json;
  st_created_at : datetime;
  st_updated_at : datetime }.

Abbreviation StrategyTable := (gmap Z Strategy).

(** The CHECK constraints. *)
Definition strategy_row_ok (s : Strategy) : bool :=
  (1 <=? String.length (st_name s))%nat && (String.length (st_name s) <=? 200)%nat &&
  (1 <=? String.length (st_source_text s))%nat.

(** ** Requests *)

(** The fields of a JSON object that a request may set, with [extra="forbid"]. *)
Definition only_fields (allowed : list string) (fields : list (string * json)) : bool :=
  forallb (λ kv, bool_decide (kv.1 ∈ allowed)) fields.

Section requests.
Context (strip_whitespace : string → string).

(** [StringConstraints(strip_whitespace=True, min_length=1, max_length=...)] *)
Definition constrained (max_length : option nat) (s : string) : result string :=
  let s := strip_whitespace s in
  let n := String.length s in
  if (1 <=? n)%nat && match max_length with Some m => (n <=? m)%nat | None => true end
  then Ok s else Err ValidationError.

Definition StrategyName (v : json) : result string :=
  match v with JStr s => constrained (Some 200%nat) s | _ => Err ValidationError end.
Definition StrategySourceText (v : json) : result string :=
  match v with JStr s => constrained None s | _ => Err ValidationError end.

(** [dict[str, JsonValue] | None] *)
Definition StrategyJson (v : json) : result (option json) :=
  match v with JNull => Ok None | JObj fields => Ok (Some (JObj fields)) | _ => Err ValidationError end.

(** A field that may be absent. *)
Definition optional_field {A} (f : json → result A) (v : option json) : result (option A) :=
  match v with None => Ok None | Some v => a ← f v; Ok (Some a) end.

Definition required_field {A} (f : json → result A) (v : option json) : result A :=
  match v with None => Err ValidationError | Some v => f v end.

Record StrategyCreate : Type := mkCreate {
  sc_name : string; sc_source_text : string; sc_strategy_json : option json }.

Definition validate_create (fields : list (string * json)) : result StrategyCreate :=
  _ ← raise_if (negb (only_fields ["name"; "source_text"; "strategy_json"]%string fields)) ValidationError;
  name ← required_field StrategyName (obj_get "name" fields);
  source_text ← required_field StrategySourceText (obj_get "source_text" fields);
  strategy_json ← optional_field StrategyJson (obj_get "strategy_json" fields);
  Ok (mkCreate name source_text (default None strategy_json)).

(** A PATCH: for each field, unset, or set to a value, which may be null. *)
Record StrategyUpdate : Type := mkUpdate {
  su_name : option (option string);
  su_source_text : option (option string);
  su_strategy_json : option (option json) }.

Definition nullable {A} (f : json → result A) (v : json) : result (option A) :=
  match v with JNull => Ok None | v => a ← f v; Ok (Some a) end.

(** [reject_null_for_required_columns] *)
Definition reject_null_for_required_columns (u : StrategyUpdate) : result StrategyUpdate :=
  match su_name u, su_source_text u with
  | Some None, _ => Err (ValueError "name cannot be null")
  | _, Some None => Err (ValueError "source_text cannot be null")
  | _, _ => Ok u
  end.

Definition validate_update (fields : list (string * json)) : result StrategyUpdate :=
  _ ← raise_if (negb (only_fields ["name"; "source_text"; "strategy_json"]%string fields)) ValidationError;
  name ← optional_field (nullable StrategyName) (obj_get "name" fields);
  source_text ← optional_field (nullable StrategySourceText) (obj_get "source_text" fields);
  strategy_json ← optional_field StrategyJson (obj_get "strategy_json" fields);
  match reject_null_for_required_columns (mkUpdate name source_text strategy_json) with
  | Ok u => Ok u
  | Err _ => Err ValidationError
  end.
End requests.

(** [ConfirmedStrategySaveRequest], its parts already validated. *)
Record ConfirmedStrategySaveRequest : Type := mkConfirmed {
  cs_name : string;
  cs_source_text : string;
  cs_specification : StrategySpecification;
  cs_defaults_applied : list AppliedDefault;
  cs_assumptions : list StrategyAssumption;
  cs_requires_confirmation : bool;
  cs_confirmed : bool }.

Definition validate_confirmation_metadata (r : ConfirmedStrategySaveRequest) : result ConfirmedStrategySaveRequest :=
  if negb (cs_confirmed r)
  then Err (ValueError "Explicit confirmation is required before saving a strategy.")
  else if negb (Bool.eqb (cs_requires_confirmation r) (match cs_assumptions r with [] => false | _ => true end))
  then Err (ValueError "Confirmation metadata does not match the strategy assumptions.")
  else if existsb (λ a, negb (a_requires_confirmation a)) (cs_assumptions r)
  then Err (ValueError "All recorded assumptions must require confirmation.")
  else Ok r.

(** ** Handlers *)
Definition SDB : Type → Type := DB StrategyTable.

Definition database_error : exn := HTTPException 500 "Unable to complete the strategy database operation.".
Definition conflict_error : exn := HTTPException 409 "Strategy violates a database constraint.".
Definition not_found_error : exn := HTTPException 404 "Strategy not found.".

(** [except SQLAlchemyError: session.rollback(); raise database_error()] *)
Definition hide_database_error {A} (e : exn) : SDB A :=
  if sqlalchemy_error e then _ <- session_rollback ;; db_raise database_error else db_raise e.

(** ... after [except IntegrityError: session.rollback(); raise 409] *)
Definition conflict_or_hide {A} (e : exn) : SDB A :=
  if decide (e = integrity_error) then _ <- session_rollback ;; db_raise conflict_error
  else hide_database_error e.

Definition owned (user_id : Z) (strategy_id : Z) (t : StrategyTable) : option Strategy :=
  match t !! strategy_id with
  | Some s => if decide (st_user_id s = user_id) then Some s else None
  | None => None
  end.

Definition get_owned_strategy (strategy_id user_id : Z) : SDB Strategy :=
  strategy <- db_try (query (owned user_id strategy_id)) hide_database_error ;;
  match strategy with Some s => db_ret s | None => db_raise not_found_error end.

(** [session.refresh(strategy)] *)
Definition refresh_strategy (strategy_id : Z) : SDB Strategy :=
  statement (λ t, (match t !! strategy_id with
                   | Some s => Ok s
                   | None => Err (OtherException "InvalidRequestError")
                   end, t)).

(** [commit_and_refresh]: the flush [f], the commit and the reload. *)
Definition commit_and_refresh (f : StrategyTable → result unit * StrategyTable) (strategy_id : Z) : SDB Strategy :=
  db_try (_ <- commit_changes f ;; refresh_strategy strategy_id) conflict_or_hide.

(** The INSERT of a new object. *)
Definition insert_strategy (s : Strategy) (t : StrategyTable) : result unit * StrategyTable :=
  if strategy_row_ok s && bool_decide (t !! st_id s = None) then (Ok (), <[st_id s := s]> t)
  else (Err integrity_error, t).

Definition save_strategy (s : Strategy) : SDB Strategy := commit_and_refresh (insert_strategy s) (st_id s).

Definition create_strategy (new_id : Z) (now : datetime) (user_id : Z) (payload : StrategyCreate) : SDB Strategy :=
  save_strategy (mkStrategy new_id user_id (sc_name payload) (sc_source_text payload) (sc_strategy_json payload) now now).

(** The document stored for a confirmed strategy. *)
Definition confirmed_json (p : ConfirmedStrategySaveRequest) (text : string) : json :=
  JObj [("specification"%string, dump_specification (cs_specification p));
        ("defaults_applied"%string, JList (dump_default <$> cs_defaults_applied p));
        ("assumptions"%string, JList (dump_assumption <$> cs_assumptions p));
        ("requires_confirmation"%string, JBool (cs_requires_confirmation p));
        ("confirmed"%string, JBool true);
        ("parser_version"%string, JStr (version (cs_specification p)));
        ("interpretation"%string, JStr text)].

Definition save_confirmed_strategy (new_id : Z) (now : datetime) (user_id : Z)
    (p : ConfirmedStrategySaveRequest) : SDB Strategy :=
  match (_ ← validate_strategy_semantics (cs_specification p); compile_strategy (cs_specification p)) with
  | Err (StrategyValidationError message | StrategyCompilationError message) => db_raise (HTTPException 422 message)
  | Err e => db_raise e
  | Ok _ =>
      let parsed := mkParsed (cs_specification p) (cs_assumptions p) (cs_defaults_applied p)
                      (cs_requires_confirmation p) (cs_source_text p) in
      save_strategy (mkStrategy new_id user_id (cs_name p) (cs_source_text p)
                       (Some (confirmed_json p (interpret_strategy parsed))) now now)
  end.

(** [order_by(created_at.desc(), id.desc())] *)
Definition newer (s1 s2 : Strategy) : Prop :=
  st_created_at s2 < st_created_at s1 ∨ (st_created_at s1 = st_created_at s2 ∧ st_id s2 <= st_id s1).
#[global] Instance newer_dec : RelDecision newer.
Proof. intros s1 s2. unfold newer. apply _. Defined.
#[global] Instance newer_total : Total newer.
Proof. intros s1 s2. unfold newer. lia. Qed.
#[global] Instance newer_trans : Transitive newer.
Proof. intros s1 s2 s3. unfold newer. lia. Qed.

(** [where(Strategy.user_id == user_id)] *)
Definition mine (user_id : Z) (t : StrategyTable) : StrategyTable := filter (λ kv, st_user_id kv.2 = user_id) t.

Definition owned_strategies (user_id : Z) (t : StrategyTable) : list Strategy :=
  merge_sort newer (map_to_list (mine user_id t)).*2.

Definition list_strategies (user_id : Z) : SDB (list Strategy) :=
  db_try (query (owned_strategies user_id)) hide_database_error.

Definition get_strategy (strategy_id user_id : Z) : SDB Strategy := get_owned_strategy strategy_id user_id.

(** [setattr] for every field of [payload.model_dump(exclude_unset=True)]; the
    columns [name] and [source_text] are never set to null. *)
Definition apply_update (u : StrategyUpdate) (s : Strategy) : Strategy :=
  mkStrategy (st_id s) (st_user_id s)
    (match su_name u with Some (Some name) => name | _ => st_name s end)
    (match su_source_text u with Some (Some text) => text | _ => st_source_text s end)
    (match su_strategy_json u with Some j => j | None => st_strategy_json s end)
    (st_created_at s) (st_updated_at s).

Definition touch (now : datetime) (s : Strategy) : Strategy :=
  mkStrategy (st_id s) (st_user_id s) (st_name s) (st_source_text s) (st_strategy_json s) (st_created_at s) now.

(** [==] on JSON values: dictionaries ignore order, and True is 1. *)
Definition json_number (v : json) : option Z :=
  match v with JBool b => Some (Z.b2z b) | JInt z => Some z | _ => None end.

Fixpoint json_eq (a b : json) {struct a} : bool :=
  match a, b with
  | JNull, JNull => true
  | JStr s, JStr t => String.eqb s t
  | (JBool _ | JInt _), (JBool _ | JInt _) => bool_decide (json_number a = json_number b)
  | JList l, JList m =>
      (fix list_eq (l m : list json) : bool :=
         match l, m with
         | [], [] => true
         | x :: l, y :: m => json_eq x y && list_eq l m
         | _, _ => false
         end) l m
  | JObj l, JObj m =>
      (length l =? length m)%nat &&
      (fix fields_eq (l : list (string * json)) : bool :=
         match l with
         | [] => true
         | (k, x) :: l => match obj_get k m with Some y => json_eq x y | None => false end && fields_eq l
         end) l
  | _, _ => false
  end.

Definition json_column_eq (a b : option json) : bool :=
  match a, b with None, None => true | Some a, Some b => json_eq a b | _, _ => false end.

(** Some attribute that was set has a net change. *)
Definition modified (u : StrategyUpdate) (s : Strategy) : bool :=
  let s' := apply_update u s in
  negb (String.eqb (st_name s') (st_name s)) || negb (String.eqb (st_source_text s') (st_source_text s)) ||
  match su_strategy_json u with Some j => negb (json_column_eq j (st_strategy_json s)) | None => false end.

(** The flush of the loaded object [s]: no UPDATE without a net change;
    otherwise the row's trigger also renews [updated_at]. *)
Definition flush_update (now : datetime) (s : Strategy) (u : StrategyUpdate) (t : StrategyTable)
    : result unit * StrategyTable :=
  if negb (modified u s) then (Ok (), t)
  else match t !! st_id s with
       | None => (Err (OtherException "StaleDataError"), t)
       | Some row =>
           let s' := touch now (apply_update u row) in
           if strategy_row_ok s' then (Ok (), <[st_id s := s']> t) else (Err integrity_error, t)
       end.

Definition update_strategy (now : datetime) (strategy_id user_id : Z) (payload : StrategyUpdate) : SDB Strategy :=
  strategy <- get_owned_strategy strategy_id user_id ;;
  commit_and_refresh (flush_update now strategy payload) (st_id strategy).

Definition delete_strategy (strategy_id user_id : Z) : SDB unit :=
  strategy <- get_owned_strategy strategy_id user_id ;;
  db_try (commit_changes (λ t, (Ok (), delete (st_id strategy) t))) conflict_or_hide.

(** A request, with what the database and the clock supply. *)
Inductive StrategyRequest : Type :=
  | Create (new_id : Z) (now : datetime) (payload : StrategyCreate)
  | Confirm (new_id : Z) (now : datetime) (payload : ConfirmedStrategySaveRequest)
  | ListOwn
  | Get (strategy_id : Z)
  | Update (now : datetime) (strategy_id : Z) (payload : StrategyUpdate)
  | Delete (strategy_id : Z).

Definition respond {A} (f : A → list Strategy) (m : SDB A) : SDB (list Strategy) := a <- m ;; db_ret (f a).

(** The strategies in the response of a request by [user_id]. *)
Definition handle (user_id : Z) (r : StrategyRequest) : SDB (list Strategy) :=
  match r with
  | Create new_id now payload => respond (λ s, [s]) (create_strategy new_id now user_id payload)
  | Confirm new_id now payload => respond (λ s, [s]) (save_confirmed_strategy new_id now user_id payload)
  | ListOwn => list_strategies user_id
  | Get strategy_id => respond (λ s, [s]) (get_strategy strategy_id user_id)
  | Update now strategy_id payload => respond (λ s, [s]) (update_strategy now strategy_id user_id payload)
  | Delete strategy_id => respond (λ _, []) (delete_strategy strategy_id user_id)
  end.

(** ** Lemmas: ownership *)
Definition others (user_id : Z) (t : StrategyTable) : StrategyTable := filter (λ kv, st_user_id kv.2 ≠ user_id) t.

(** Every row is stored under its own key. *)
Definition keyed (t : StrategyTable) : Prop := ∀ id s, t !! id = Some s → st_id s = id.

Section isolation.
Context (u : Z).

Lemma mine_lookup t id s : mine u t !! id = Some s ↔ t !! id = Some s ∧ st_user_id s = u.
Proof. unfold mine. by rewrite map_lookup_filter_Some. Qed.

Lemma owned_mine t id : owned u id t = mine u t !! id.
Proof.
  unfold owned. destruct (mine u t !! id) as [s|] eqn:E.
  - apply mine_lookup in E as [-> Hs]. by rewrite decide_True.
  - destruct (t !! id) as [s|] eqn:Et; [|done]. destruct (decide _); [|done].
    assert (mine u t !! id = Some s) by by apply mine_lookup. congruence.
Qed.

Lemma mine_mine t : mine u (mine u t) = mine u t.
Proof. apply map_eq. intros i. apply option_eq. intros s. rewrite !mine_lookup. tauto. Qed.

Lemma mine_insert t id s : st_user_id s = u → mine u (<[id := s]> t) = <[id := s]> (mine u t).
Proof. intros Hs. unfold mine. by apply map_filter_insert_True. Qed.

Lemma mine_delete t id : mine u (delete id t) = delete id (mine u t).
Proof. apply map_filter_delete. Qed.

(** A row the user owns or nobody has yet. *)
Definition free_or_mine (id : Z) (t : StrategyTable) : Prop := ∀ s, t !! id = Some s → st_user_id s = u.

Lemma others_insert t id s : st_user_id s = u → free_or_mine id t → others u (<[id := s]> t) = others u t.
Proof.
  intros Hs Hf. apply map_eq. intros i. apply option_eq. intros x. unfold others. rewrite !map_lookup_filter_Some. simpl.
  destruct (decide (i = id)) as [->|Hne]; [|by rewrite lookup_insert_ne].
  rewrite lookup_insert_eq. split; [intros [[= <-] ?]; done|]. intros [Hx ?]. by apply Hf in Hx.
Qed.

Lemma others_delete t id : free_or_mine id t → others u (delete id t) = others u t.
Proof.
  intros Hf. apply map_eq. intros i. apply option_eq. intros x. unfold others. rewrite !map_lookup_filter_Some. simpl.
  rewrite lookup_delete_Some. split; [tauto|]. intros [Hx Hn]. split; [split; [|done]|done]. intros <-. by apply Hf in Hx.
Qed.

Lemma free_mine_lookup t id : free_or_mine id t → mine u t !! id = t !! id.
Proof.
  intros Hf. apply option_eq. intros s. rewrite mine_lookup. split; [tauto|]. intros Hs. split; [done|]. by apply Hf.
Qed.

(** [m] run on the whole table does what it does on the user's rows alone. *)
Definition isolated {A} (P : StrategyTable → Prop) (m : SDB A) (Q : result A → StrategyTable → Prop) : Prop :=
  ∀ t f, P t →
    (m (mkStore t f)).1 = (m (mkStore (mine u t) f)).1 ∧
    st_faults (m (mkStore t f)).2 = st_faults (m (mkStore (mine u t) f)).2 ∧
    mine u (st_table (m (mkStore t f)).2) = st_table (m (mkStore (mine u t) f)).2 ∧
    others u (st_table (m (mkStore t f)).2) = others u t ∧
    Q (m (mkStore t f)).1 (st_table (m (mkStore t f)).2).

Lemma isolated_weaken {A} P P' (m : SDB A) (Q Q' : result A → StrategyTable → Prop) :
  isolated P m Q → (∀ t, P' t → P t) → (∀ r t, Q r t → Q' r t) → isolated P' m Q'.
Proof. intros H HP HQ t f Ht. destruct (H t f (HP t Ht)) as (? & ? & ? & ? & ?). auto 10. Qed.

Lemma isolated_bind {A B} P (m : SDB A) Q (k : A → SDB B) Q' :
  isolated P m (λ r t, match r with Ok a => Q a t | Err e => Q' (Err e) t end) →
  (∀ a, isolated (Q a) (k a) Q') → isolated P (db_bind m k) Q'.
Proof.
  intros Hm Hk t f Ht. destruct (Hm t f Ht) as (H1 & H2 & H3 & H4 & H5). unfold db_bind.
  destruct (m (mkStore t f)) as [r [t1 f1]], (m (mkStore (mine u t) f)) as [r0 [t0 f0]]; simpl in *. subst r0 f0 t0.
  destruct r as [a|e]; simpl; [|done]. destruct (Hk a t1 f1 H5) as (K1 & K2 & K3 & K4 & K5).
  split_and!; try done. by rewrite K4.
Qed.

Lemma isolated_try {A} P (m : SDB A) QE (h : exn → SDB A) Q :
  isolated P m (λ r t, match r with Ok a => Q (Ok a) t | Err e => QE e t end) →
  (∀ e, isolated (QE e) (h e) Q) → isolated P (db_try m h) Q.
Proof.
  intros Hm Hk t f Ht. destruct (Hm t f Ht) as (H1 & H2 & H3 & H4 & H5). unfold db_try.
  destruct (m (mkStore t f)) as [r [t1 f1]], (m (mkStore (mine u t) f)) as [r0 [t0 f0]]; simpl in *. subst r0 f0 t0.
  destruct r as [a|e]; simpl; [done|]. destruct (Hk e t1 f1 H5) as (K1 & K2 & K3 & K4 & K5).
  split_and!; try done. by rewrite K4.
Qed.

Lemma isolated_ret {A} P (r : result A) (Q : result A → StrategyTable → Prop) :
  (∀ t, P t → Q r t) → isolated P (db_lift r) Q.
Proof. intros H t f Ht. simpl. split_and!; auto. Qed.

(** A change of the table that touches the user's rows only. *)
Definition local_change {A} (P : StrategyTable → Prop) (f : StrategyTable → result A * StrategyTable)
    (Q : result A → StrategyTable → Prop) : Prop :=
  ∀ t, P t → (f t).1 = (f (mine u t)).1 ∧ mine u (f t).2 = (f (mine u t)).2 ∧ others u (f t).2 = others u t ∧ Q (f t).1 (f t).2.

Lemma isolated_statement {A} P (f : StrategyTable → result A * StrategyTable) (Q : result A → StrategyTable → Prop) :
  local_change P f Q → (∀ e t, P t → Q (Err e) t) → isolated P (statement f) Q.
Proof.
  intros Hf HE t fs Ht. destruct (Hf t Ht) as (H1 & H2 & H3 & H4). unfold statement, next_fault, with_table. simpl.
  destruct (default None (head fs)) as [[e b]|]; simpl; [auto 10|].
  destruct (f t) as [r t1], (f (mine u t)) as [r0 t0]; simpl in *. auto.
Qed.

Lemma isolated_transaction {A} P (m : SDB A) (Q : result A → StrategyTable → Prop) :
  isolated P m Q → (∀ a e t, Q (Ok a) t → Q (Err e) t) → (∀ e t, P t → Q (Err e) t) → isolated P (transaction m) Q.
Proof.
  intros Hm HQ HE t f Ht. destruct (Hm t f Ht) as (H1 & H2 & H3 & H4 & H5). unfold transaction.
  destruct (m (mkStore t f)) as [r [t1 f1]], (m (mkStore (mine u t) f)) as [r0 [t0 f0]]; simpl in *. subst r0 f0 t0.
  destruct r as [a|e]; simpl; [|auto 10]. unfold next_fault, with_table; simpl.
  destruct (default None (head f1)) as [[e []]|]; simpl; auto 10. split_and!; eauto.
Qed.

Lemma isolated_commit {A} P (f : StrategyTable → result A * StrategyTable) (Q : result A → StrategyTable → Prop) :
  local_change P f Q → (∀ e t, P t → Q (Err e) t) → (∀ a e t, Q (Ok a) t → Q (Err e) t) → isolated P (commit_changes f) Q.
Proof. intros. apply isolated_transaction; [by apply isolated_statement|done|done]. Qed.

Lemma isolated_query {A} P (f : StrategyTable → A) (Q : result A → StrategyTable → Prop) :
  (∀ t, P t → f t = f (mine u t)) → (∀ t, P t → Q (Ok (f t)) t) → (∀ e t, P t → Q (Err e) t) → isolated P (query f) Q.
Proof.
  intros Hf HQ HE. apply isolated_statement; [|done]. intros t Ht. simpl. rewrite (Hf t Ht). split_and!; try done.
  rewrite <- (Hf t Ht). by apply HQ.
Qed.

(** Before the request: rows under their keys, and a new identifier unused. *)
Definition fresh (new_id : Z) (t : StrategyTable) : Prop := keyed t ∧ t !! new_id = None.

Lemma keyed_mine t : keyed t → keyed (mine u t).
Proof. intros Hk id s [Hs _]%mine_lookup. by apply Hk. Qed.

Lemma keyed_insert t s : keyed t → keyed (<[st_id s := s]> t).
Proof.
  intros Hk i x. destruct (decide (i = st_id s)) as [->|Hne]; [rewrite lookup_insert_eq; by intros [= <-]|].
  rewrite lookup_insert_ne by done. apply Hk.
Qed.

Lemma keyed_delete t id : keyed t → keyed (delete id t).
Proof. intros Hk i x [_ Hx]%lookup_delete_Some. by apply Hk. Qed.

(** After the request: rows still under their keys. *)
Definition still_keyed {A} (r : result A) (t : StrategyTable) : Prop := keyed t.

(** ... and the strategy in the response is the user's. *)
Definition answered (r : result Strategy) (t : StrategyTable) : Prop :=
  keyed t ∧ ∀ s, r = Ok s → st_user_id s = u.

Definition refused {A} (r : result A) (t : StrategyTable) : Prop := keyed t ∧ is_ok r = false.

Lemma isolated_rollback : isolated keyed session_rollback (@still_keyed unit).
Proof. by apply isolated_query. Qed.

Lemma isolated_hide {A} e : isolated keyed (hide_database_error e) (@refused A).
Proof.
  unfold hide_database_error. destruct (sqlalchemy_error e); [|by apply isolated_ret].
  eapply isolated_bind; [eapply isolated_weaken; [apply isolated_rollback|done|]|].
  - intros [?|e'] t H; [exact H|by split].
  - intros a. by apply isolated_ret.
Qed.

Lemma isolated_conflict {A} e : isolated keyed (conflict_or_hide e) (@refused A).
Proof.
  unfold conflict_or_hide. destruct (decide _); [|apply isolated_hide].
  eapply isolated_bind; [eapply isolated_weaken; [apply isolated_rollback|done|]|].
  - intros [?|e'] t H; [exact H|by split].
  - intros a. by apply isolated_ret.
Qed.

(** The row a handler works on: the user's, or nobody's. *)
Definition own (id : Z) (t : StrategyTable) : Prop := keyed t ∧ free_or_mine id t.

Lemma isolated_refresh id : isolated (own id) (refresh_strategy id) answered.
Proof.
  apply isolated_statement; [|intros e t [Hk _]; by split]. intros t [Hk Hf]. simpl.
  rewrite (free_mine_lookup t id Hf). split; [done|]. split; [done|]. split; [done|]. split; [done|].
  intros s. destruct (t !! id) as [s'|] eqn:E; [|done]. intros [= <-]. by apply Hf.
Qed.

Lemma isolated_commit_refresh P (f : StrategyTable → result unit * StrategyTable) id :
  local_change P f (λ r t, own id t) → (∀ t, P t → own id t) → isolated P (commit_and_refresh f id) answered.
Proof.
  intros Hf HP. unfold commit_and_refresh. apply (isolated_try P _ (λ _, keyed));
    [|intros e; eapply isolated_weaken; [apply isolated_conflict|done|intros [? | e'] t [Ht ?]; [done|by split]]].
  apply (isolated_bind P _ (λ _, own id)).
  - eapply isolated_weaken; [apply (isolated_commit P f (λ r t, own id t)); [exact Hf|auto|auto]|done|].
    intros [[]|e] t H; [exact H|]. apply H.
  - intros []. eapply isolated_weaken; [apply isolated_refresh|done|intros [s|e] t H; [exact H|apply H]].
Qed.

Lemma isolated_save s : st_user_id s = u → isolated (fresh (st_id s)) (save_strategy s) answered.
Proof.
  intros Hs. apply isolated_commit_refresh; [|intros t [Hk Hn]; split; [done|]; intros x Hx; congruence].
  intros t [Hk Hn]. unfold insert_strategy.
  assert (mine u t !! st_id s = None) as Hn' by (rewrite free_mine_lookup; [done|]; intros x Hx; congruence).
  rewrite Hn, Hn', !bool_decide_eq_true_2 by done. destruct (strategy_row_ok s); simpl.
  - assert (free_or_mine (st_id s) t) as Hf by (intros x Hx; congruence). split; [done|].
    split; [by apply mine_insert|]. split; [by apply others_insert|]. split; [by apply keyed_insert|].
    intros x. rewrite lookup_insert_eq. by intros [= <-].
  - split; [done|]. split; [done|]. split; [done|]. split; [done|]. intros x Hx. congruence.
Qed.

Lemma owned_spec t id s : owned u id t = Some s ↔ t !! id = Some s ∧ st_user_id s = u.
Proof. rewrite owned_mine. apply mine_lookup. Qed.

Lemma isolated_get_owned id :
  isolated keyed (get_owned_strategy id u)
    (λ r t, match r with Ok s => own (st_id s) t ∧ owned u (st_id s) t = Some s | Err _ => keyed t end).
Proof.
  unfold get_owned_strategy. eapply isolated_bind.
  - eapply (isolated_try keyed _ (λ _, keyed)).
    + eapply isolated_weaken; [apply (isolated_query keyed (owned u id) (λ r t, keyed t ∧
        match r with Ok (Some s) => owned u (st_id s) t = Some s | _ => True end))|done|].
      * intros t _. rewrite !owned_mine, mine_mine. done.
      * intros t Hk. split; [done|]. destruct (owned u id t) as [s|] eqn:E; [|done].
        apply owned_spec in E as Hs. destruct Hs as [Hs _]. rewrite (Hk _ _ Hs). exact E.
      * done.
      * intros [o|e] t H; [|apply H]. exact H.
    + intros e. eapply isolated_weaken; [apply isolated_hide|done|]. intros [o|e'] t [Ht ?]; [done|exact Ht].
  - intros [s|]; apply isolated_ret; simpl; [|tauto]. intros t [Hk Ho]. split; [|done]. split; [done|].
    intros x Hx. apply owned_spec in Ho as [Ho <-]. congruence.
Qed.

Lemma touch_apply_owner now p s : st_user_id (touch now (apply_update p s)) = st_user_id s.
Proof. done. Qed.

Lemma local_flush now s p :
  local_change (λ t, own (st_id s) t) (flush_update now s p) (λ _ t, own (st_id s) t).
Proof.
  intros t Hown. pose proof Hown as [Hk Hf]. unfold flush_update. destruct (negb (modified p s)); [by split_and!|].
  rewrite (free_mine_lookup t (st_id s) Hf). destruct (t !! st_id s) as [row|] eqn:Er; [|by split_and!].
  destruct (strategy_row_ok _); [|by split_and!]. cbn [fst snd].
  assert (st_user_id (touch now (apply_update p row)) = u) as Ho by (rewrite touch_apply_owner; by apply Hf).
  split; [done|]. split; [by apply mine_insert|]. split; [by apply others_insert|]. split.
  - assert (st_id s = st_id (touch now (apply_update p row))) as E by (symmetry; by apply (Hk _ _ Er)).
    rewrite E at 1. by apply keyed_insert.
  - intros x. rewrite lookup_insert_eq. by intros [= <-].
Qed.

Lemma isolated_update now id p : isolated keyed (update_strategy now id u p) answered.
Proof.
  unfold update_strategy. apply (isolated_bind keyed _ (λ s t, own (st_id s) t ∧ owned u (st_id s) t = Some s)).
  - eapply isolated_weaken; [apply isolated_get_owned|done|]. by intros [s|e] t H.
  - intros s. eapply isolated_weaken; [apply (isolated_commit_refresh (own (st_id s)))|by intros t [H _]|by intros r t].
    + apply local_flush.
    + done.
Qed.

Lemma isolated_delete id : isolated keyed (delete_strategy id u) still_keyed.
Proof.
  unfold delete_strategy. apply (isolated_bind keyed _ (λ s t, own (st_id s) t ∧ owned u (st_id s) t = Some s)).
  - eapply isolated_weaken; [apply isolated_get_owned|done|]. by intros [s|e] t H.
  - intros s. apply (isolated_try _ _ (λ _, keyed)).
    + eapply isolated_weaken; [apply (isolated_commit (own (st_id s)) _ (λ _, keyed))|by intros t [H _]|by intros [] t].
      * intros t [Hk Hf]. cbn [fst snd]. split; [done|]. split; [apply mine_delete|]. split; [by apply others_delete|].
        by apply keyed_delete.
      * by intros e t [Hk _].
      * done.
    + intros e. eapply isolated_weaken; [apply isolated_conflict|done|by intros r t [Ht _]].
Qed.

Definition own_response (r : result (list Strategy)) (t : StrategyTable) : Prop :=
  keyed t ∧ ∀ l, r = Ok l → Forall (λ s, st_user_id s = u) l.

Lemma isolated_respond P (m : SDB Strategy) :
  isolated P m answered → isolated P (respond (λ s, [s]) m) own_response.
Proof.
  intros H. apply (isolated_bind P m (λ s t, keyed t ∧ st_user_id s = u)).
  - eapply isolated_weaken; [exact H|done|]. intros [s|e] t [Hk Hs]; split; auto. done.
  - intros s. apply isolated_ret. intros t [Hk Hs]. split; [done|]. intros l [= <-]. by apply Forall_singleton.
Qed.

(** What a request assumes of the table. *)
Definition request_ok (r : StrategyRequest) (t : StrategyTable) : Prop :=
  keyed t ∧ match r with Create new_id _ _ | Confirm new_id _ _ => t !! new_id = None | _ => True end.

Lemma isolated_handle r : isolated (request_ok r) (handle u r) own_response.
Proof.
  assert (∀ s : Strategy, st_user_id s = u → isolated (fresh (st_id s)) (respond (λ s, [s]) (save_strategy s)) own_response) as Hsave
    by (intros s Hs; by apply isolated_respond, isolated_save).
  destruct r as [i now p|i now p| |i|now i p|i]; cbn [handle].
  - eapply isolated_weaken; [by apply (Hsave (mkStrategy i u _ _ _ now now))|done|done].
  - unfold save_confirmed_strategy. destruct (_ ≫= _) as [cs|e] eqn:E.
    + eapply isolated_weaken; [by apply (Hsave (mkStrategy i u _ _ _ now now))|done|done].
    + apply isolated_respond. destruct e; apply isolated_ret; by intros t [Hk _].
  - eapply isolated_weaken with (P := keyed); [|by intros t [Hk _]|done]. unfold list_strategies. apply (isolated_try keyed _ (λ _, keyed)).
    + eapply isolated_weaken; [apply (isolated_query keyed _ own_response)|done|intros [l|e] t H; [exact H|apply H]].
      * intros t _. unfold owned_strategies. by rewrite mine_mine.
      * intros t Hk. split; [done|]. intros l [= <-]. unfold owned_strategies. rewrite merge_sort_Permutation.
        apply Forall_forall. intros s ([i s'] & -> & Hin%elem_of_map_to_list)%list_elem_of_fmap. by apply mine_lookup in Hin as [].
      * by intros e t Hk.
    + intros e. eapply isolated_weaken; [apply isolated_hide|done|intros [? | e'] t [Ht ?]; [done|by split]].
  - eapply isolated_weaken with (P := keyed); [|by intros t [Hk _]|done]. apply isolated_respond.
    eapply isolated_weaken; [apply isolated_get_owned|done|]. intros [s|e] t H; [|by split].
    split; [apply H|]. intros s' [= <-]. destruct H as [_ Ho]. by apply owned_spec in Ho as [].
  - eapply isolated_weaken with (P := keyed); [|by intros t [Hk _]|done]. apply isolated_respond, isolated_update.
  - eapply isolated_weaken with (P := keyed); [|by intros t [Hk _]|done].
    apply (isolated_bind keyed _ (λ _, keyed)); [eapply isolated_weaken; [apply isolated_delete|done|by intros [] t]|].
    intros []. apply isolated_ret. intros t Hk. split; [done|]. by intros l [= <-].
Qed.
End isolation.

(** ** The theorems *)

(** C18: Users are isolated: a request by a user gives the response and leaves
    the rows it would if the table held that user's rows only, whatever fails;
    it never changes another user's row, and every strategy in its response
    belongs to the user. *)
Theorem users_isolated (user_id : Z) (r : StrategyRequest) (t : StrategyTable) (faults : list fault) :
  request_ok r t →
  let whole := handle user_id r (mkStore t faults) in
  let alone := handle user_id r (mkStore (mine user_id t) faults) in
  whole.1 = alone.1 ∧ mine user_id (st_table whole.2) = st_table alone.2 ∧
  others user_id (st_table whole.2) = others user_id t ∧
  (∀ l, whole.1 = Ok l → Forall (λ s, st_user_id s = user_id) l).
Proof.
  intros Hok. destruct (isolated_handle user_id r t faults Hok) as (H1 & _ & H2 & H3 & _ & H4).
  split; [exact H1|]. split; [exact H2|]. split; [exact H3|exact H4].
Qed.

(** *** Without faults *)
Lemma get_owned_runs id u t :
  get_owned_strategy id u (mkStore t []) =
  (match owned u id t with Some s => Ok s | None => Err not_found_error end, mkStore t []).
Proof. unfold get_owned_strategy, db_bind, db_try. rewrite query_runs by done. simpl. by destruct (owned u id t). Qed.

Lemma commit_refresh_runs (f : StrategyTable → result unit * StrategyTable) id t t' s :
  f t = (Ok (), t') → t' !! id = Some s → commit_and_refresh f id (mkStore t []) = (Ok s, mkStore t' []).
Proof.
  intros Hf Hs. unfold commit_and_refresh, db_try, db_bind. rewrite (commit_runs f _ () t') by done.
  unfold refresh_strategy. rewrite statement_runs by done. simpl. by rewrite Hs.
Qed.

Lemma commit_refresh_conflict (f : StrategyTable → result unit * StrategyTable) id t :
  f t = (Err integrity_error, t) → commit_and_refresh f id (mkStore t []) = (Err conflict_error, mkStore t []).
Proof.
  intros Hf. unfold commit_and_refresh, db_try, db_bind, commit_changes, transaction. rewrite statement_runs by done.
  simpl. rewrite Hf. reflexivity.
Qed.

(** The outcome of saving a new row. *)
Definition saved (s : Strategy) (t : StrategyTable) : result (list Strategy) * StrategyTable :=
  if strategy_row_ok s then (Ok [s], <[st_id s := s]> t) else (Err conflict_error, t).

Lemma save_runs s t :
  t !! st_id s = None → respond (λ s, [s]) (save_strategy s) (mkStore t []) = ((saved s t).1, mkStore (saved s t).2 []).
Proof.
  intros Hn. unfold respond, db_bind, save_strategy, saved. destruct (strategy_row_ok s) eqn:Hs.
  - rewrite (commit_refresh_runs (insert_strategy s) (st_id s) t (<[st_id s := s]> t) s); [done| |by rewrite lookup_insert_eq].
    unfold insert_strategy. rewrite Hs, Hn, bool_decide_eq_true_2 by done. reflexivity.
  - rewrite commit_refresh_conflict; [done|]. unfold insert_strategy. by rewrite Hs.
Qed.

(** *** What a request should do, in terms of rows and their fields only *)

(** The user's row under an identifier. *)
Definition belongs (user_id id : Z) (t : StrategyTable) (s : Strategy) : Prop := t !! id = Some s ∧ st_user_id s = user_id.
Definition not_theirs (user_id id : Z) (t : StrategyTable) : Prop := ∀ s, ¬ belongs user_id id t s.

(** A name of 1 to 200 characters, and a text. *)
Definition acceptable (s : Strategy) : Prop :=
  (1 <= String.length (st_name s) <= 200)%nat ∧ (1 <= String.length (st_source_text s))%nat.

(** A new row is stored and shown, or violates a constraint. *)
Definition stored_or_refused (s : Strategy) (t : StrategyTable) (response : result (list Strategy)) (t' : StrategyTable) : Prop :=
  (acceptable s ∧ response = Ok [s] ∧ t' = <[st_id s := s]> t) ∨
  (¬ acceptable s ∧ response = Err (HTTPException 409 "Strategy violates a database constraint.") ∧ t' = t).

(** The document of a confirmed strategy, field by field. *)
Definition confirmed_document (p : ConfirmedStrategySaveRequest) (document : json) : Prop :=
  ∃ fields, document = JObj fields ∧
    fields.*1 = ["specification"; "defaults_applied"; "assumptions"; "requires_confirmation"; "confirmed";
                 "parser_version"; "interpretation"]%string ∧
    obj_get "specification" fields = Some (dump_specification (cs_specification p)) ∧
    obj_get "defaults_applied" fields = Some (JList (dump_default <$> cs_defaults_applied p)) ∧
    obj_get "assumptions" fields = Some (JList (dump_assumption <$> cs_assumptions p)) ∧
    obj_get "requires_confirmation" fields = Some (JBool (cs_requires_confirmation p)) ∧
    obj_get "confirmed" fields = Some (JBool true) ∧
    obj_get "parser_version" fields = Some (JStr (version (cs_specification p))) ∧
    obj_get "interpretation" fields = Some (JStr (interpret_strategy
      (mkParsed (cs_specification p) (cs_assumptions p) (cs_defaults_applied p) (cs_requires_confirmation p) (cs_source_text p)))).

(** Every field that a PATCH sets has its value, every other its old one. *)
Definition patch_of (u : StrategyUpdate) (s s' : Strategy) : Prop :=
  st_id s' = st_id s ∧ st_user_id s' = st_user_id s ∧ st_created_at s' = st_created_at s ∧
  (∀ name, su_name u = Some (Some name) → st_name s' = name) ∧
  (su_name u = None → st_name s' = st_name s) ∧
  (∀ text, su_source_text u = Some (Some text) → st_source_text s' = text) ∧
  (su_source_text u = None → st_source_text s' = st_source_text s) ∧
  (∀ j, su_strategy_json u = Some j → st_strategy_json s' = j) ∧
  (su_strategy_json u = None → st_strategy_json s' = st_strategy_json s).

(** A PATCH that sets every field to what it is. *)
Definition changes_nothing (u : StrategyUpdate) (s : Strategy) : Prop :=
  (∀ name, su_name u = Some (Some name) → name = st_name s) ∧
  (∀ text, su_source_text u = Some (Some text) → text = st_source_text s) ∧
  (∀ j, su_strategy_json u = Some j → json_column_eq j (st_strategy_json s) = true).

Definition patched_or_refused (now : datetime) (id : Z) (u : StrategyUpdate) (s : Strategy) (t : StrategyTable)
    (response : result (list Strategy)) (t' : StrategyTable) : Prop :=
  (changes_nothing u s ∧ response = Ok [s] ∧ t' = t) ∨
  (¬ changes_nothing u s ∧ ∃ s', patch_of u s s' ∧ st_updated_at s' = now ∧
     ((acceptable s' ∧ response = Ok [s'] ∧ t' = <[id := s']> t) ∨
      (¬ acceptable s' ∧ response = Err (HTTPException 409 "Strategy violates a database constraint.") ∧ t' = t))).

(** Newest first, and by descending identifier at one time. *)
Definition listed_before (s1 s2 : Strategy) : Prop :=
  st_created_at s2 < st_created_at s1 ∨ (st_created_at s1 = st_created_at s2 ∧ st_id s2 < st_id s1).

(** What a request does when nothing fails. *)
Definition expected_response (user_id : Z) (r : StrategyRequest) (t : StrategyTable)
    (response : result (list Strategy)) (t' : StrategyTable) : Prop :=
  let missing := response = Err (HTTPException 404 "Strategy not found.") ∧ t' = t in
  match r with
  | Create new_id now p =>
      stored_or_refused (mkStrategy new_id user_id (sc_name p) (sc_source_text p) (sc_strategy_json p) now now) t response t'
  | Confirm new_id now p =>
      (spec_supported (cs_specification p) ∧ ∃ document, confirmed_document p document ∧
         stored_or_refused (mkStrategy new_id user_id (cs_name p) (cs_source_text p) (Some document) now now) t response t') ∨
      (¬ spec_supported (cs_specification p) ∧ t' = t ∧ ∃ message, response = Err (HTTPException 422 message))
  | ListOwn =>
      t' = t ∧ ∃ l, response = Ok l ∧ StronglySorted listed_before l ∧ ∀ s, s ∈ l ↔ ∃ id, belongs user_id id t s
  | Get id =>
      t' = t ∧ ((∃ s, belongs user_id id t s ∧ response = Ok [s]) ∨ (not_theirs user_id id t ∧ missing))
  | Update now id p =>
      (∃ s, belongs user_id id t s ∧ patched_or_refused now id p s t response t') ∨ (not_theirs user_id id t ∧ missing)
  | Delete id =>
      (∃ s, belongs user_id id t s ∧ response = Ok [] ∧ t' = delete id t) ∨ (not_theirs user_id id t ∧ missing)
  end.

Lemma owned_None u t id : owned u id t = None ↔ not_theirs u id t.
Proof.
  unfold not_theirs, belongs. split.
  - intros E s Hs. apply owned_spec in Hs. congruence.
  - intros H. destruct (owned u id t) as [s|] eqn:E; [|done]. apply owned_spec in E. by apply H in E.
Qed.

Lemma strategy_row_ok_spec s : strategy_row_ok s = true ↔ acceptable s.
Proof. unfold strategy_row_ok, acceptable. rewrite !andb_true_iff, !Nat.leb_le. tauto. Qed.

Lemma strategy_row_refused s : strategy_row_ok s = false ↔ ¬ acceptable s.
Proof. rewrite <- strategy_row_ok_spec. by destruct (strategy_row_ok s). Qed.

Lemma saved_stored s t : stored_or_refused s t (saved s t).1 (saved s t).2.
Proof.
  unfold saved. destruct (strategy_row_ok s) eqn:E; [left|right]; (split; [|done]);
    [by apply strategy_row_ok_spec|by apply strategy_row_refused].
Qed.

(** A validated PATCH: no required column is set to null. *)
Definition no_null (u : StrategyUpdate) : Prop := su_name u ≠ Some None ∧ su_source_text u ≠ Some None.

Lemma apply_update_patch now u s : patch_of u s (touch now (apply_update u s)).
Proof.
  unfold patch_of. cbn. split_and!; try done; first [by intros ? ->|by intros ->].
Qed.

Lemma modified_spec u s : modified u s = false ↔ changes_nothing u s.
Proof.
  unfold modified, changes_nothing, apply_update. cbn. rewrite !orb_false_iff, !negb_false_iff, !String.eqb_eq. split.
  - intros [[H1 H2] H3]. split; [by intros n E; rewrite E in H1|]. split; [by intros n E; rewrite E in H2|].
    intros j E. rewrite E in H3. by apply negb_false_iff.
  - intros (H1 & H2 & H3). split_and!.
    + destruct (su_name u) as [[n|]|]; [by apply H1|done..].
    + destruct (su_source_text u) as [[n|]|]; [by apply H2|done..].
    + destruct (su_strategy_json u) as [j|]; [by apply negb_false_iff, H3|done].
Qed.

(** *** The list, and the flush of a PATCH *)
Lemma StronglySorted_weaken {A} (R R' : A → A → Prop) l :
  StronglySorted R l → (∀ x y, x ∈ l → y ∈ l → x ≠ y → R x y → R' x y) → NoDup l → StronglySorted R' l.
Proof.
  induction 1 as [|x l Hl IH Hx]; intros HR Hnd; [constructor|]. apply NoDup_cons in Hnd as [Hn Hnd]. constructor.
  - apply IH; [|done]. intros y z Hy Hz. apply HR; by right.
  - rewrite Forall_forall in Hx |- *. intros y Hy. apply HR; [by left|by right| |by apply Hx]. by intros ->.
Qed.

Lemma owned_strategies_listed u t :
  keyed t → StronglySorted listed_before (owned_strategies u t) ∧ ∀ s, s ∈ owned_strategies u t ↔ ∃ id, belongs u id t s.
Proof.
  intros Hk. assert (∀ s, s ∈ owned_strategies u t ↔ ∃ id, belongs u id t s) as Hin.
  { intros s. unfold owned_strategies. rewrite merge_sort_Permutation, list_elem_of_fmap. unfold belongs. split.
    - intros ([id s'] & -> & Hs%elem_of_map_to_list). exists id. by apply mine_lookup.
    - intros [id Hs]. exists (id, s). split; [done|]. by apply elem_of_map_to_list, mine_lookup. }
  split; [|exact Hin]. apply (StronglySorted_weaken newer).
  - apply StronglySorted_merge_sort; apply _.
  - intros x y Hx Hy Hne [?|[? ?]]; [by left|right]. split; [done|]. assert (st_id x ≠ st_id y); [|lia].
    intros E. apply Hin in Hx as [i [Hi _]], Hy as [j [Hj _]]. rewrite (Hk _ _ Hi), (Hk _ _ Hj) in E. subst j. congruence.
  - unfold owned_strategies. rewrite merge_sort_Permutation. apply (NoDup_fmap_1 st_id).
    assert (st_id <$> (map_to_list (mine u t)).*2 = (map_to_list (mine u t)).*1) as ->; [|apply NoDup_fst_map_to_list].
    assert (∀ id s, (id, s) ∈ map_to_list (mine u t) → st_id s = id) as Hkey.
    { intros id s Hs%elem_of_map_to_list. apply mine_lookup in Hs as [Hs _]. by apply Hk. }
    induction (map_to_list (mine u t)) as [|[id s] l IH]; [done|]. simpl. rewrite (Hkey id s) by (by left). f_equal.
    apply IH. intros id' s' H. apply Hkey. by right.
Qed.

Lemma update_runs now i p s t u :
  keyed t → belongs u i t s →
  ∃ response t', respond (λ s, [s]) (update_strategy now i u p) (mkStore t []) = (response, mkStore t' []) ∧
    patched_or_refused now i p s t response t'.
Proof.
  intros Hk Hb. pose proof Hb as [Hs _]. pose proof (Hk _ _ Hs) as Hi. apply owned_spec in Hb.
  unfold respond, update_strategy, db_bind, patched_or_refused. rewrite get_owned_runs, Hb.
  destruct (modified p s) eqn:Em.
  - assert (¬ changes_nothing p s) as Hc by (intros Hc%modified_spec; congruence).
    destruct (strategy_row_ok (touch now (apply_update p s))) eqn:Er.
    + rewrite (commit_refresh_runs _ _ t (<[i := touch now (apply_update p s)]> t) (touch now (apply_update p s))).
      * do 2 eexists. split; [done|]. right. split; [done|]. eexists. split; [apply apply_update_patch|]. split; [done|]. left.
        by apply strategy_row_ok_spec in Er.
      * unfold flush_update. rewrite Em, Hi, Hs, Er. reflexivity.
      * by rewrite Hi, lookup_insert_eq.
    + rewrite commit_refresh_conflict.
      * do 2 eexists. split; [done|]. right. split; [done|]. eexists. split; [apply apply_update_patch|]. split; [done|]. right.
        by apply strategy_row_refused in Er.
      * unfold flush_update. rewrite Em, Hi, Hs, Er. reflexivity.
  - rewrite (commit_refresh_runs _ _ t t s); [|by unfold flush_update; rewrite Em|by rewrite Hi].
    do 2 eexists. split; [done|]. left. split; [|done]. by apply modified_spec.
Qed.

Lemma compile_validated s : compile_strategy s = Ok (mkCompiled s) ↔ spec_supported s.
Proof. rewrite compile_strategy_Ok. tauto. Qed.

(** C28: Without faults a request does exactly this: a strategy is created with
    its payload, or refused by the table's constraints (409); a confirmed one is
    saved, as submitted, marked as confirmed and with its interpretation, exactly
    when its specification is supported, and refused with 422 otherwise; the list
    is the user's rows, each once, newest first; a PATCH gives the fields it sets
    their values, leaves every other as it is and renews [updated_at], unless it
    changes nothing; a DELETE removes the row; what the user does not own is 404. *)
Theorem strategy_requests_exact (user_id : Z) (r : StrategyRequest) (t : StrategyTable) :
  request_ok r t →
  let '(response, s') := handle user_id r (mkStore t []) in
  st_faults s' = [] ∧ expected_response user_id r t response (st_table s').
Proof.
  intros [Hk Hok]. destruct r as [i now p|i now p| |i|now i p|i]; cbn [handle expected_response].
  - unfold create_strategy. rewrite save_runs by done. split; [done|apply saved_stored].
  - unfold save_confirmed_strategy. destruct (validate_strategy_semantics (cs_specification p)) as [[]|e] eqn:Ev; cbn [mbind result_bind].
    + apply validate_strategy_semantics_iff in Ev. pose proof Ev as Ec. apply compile_validated in Ec. rewrite Ec.
      rewrite save_runs by done. split; [done|]. left. split; [done|]. eexists. split; [|apply saved_stored].
      unfold confirmed_json. eexists. split; [reflexivity|]. by split_and!.
    + pose proof (validate_strategy_semantics_error _ _ Ev) as He. destruct e; try done.
      split; [done|]. right. split; [|split; [done|by eexists]]. intros Hs. apply validate_strategy_semantics_iff in Hs. congruence.
  - unfold list_strategies, db_try. rewrite query_runs by done. simpl. split; [done|]. split; [done|]. eexists. split; [done|].
    by apply owned_strategies_listed.
  - unfold respond, get_strategy, db_bind. rewrite get_owned_runs. destruct (owned user_id i t) as [s|] eqn:Eo.
    + apply owned_spec in Eo. split; [done|]. split; [done|]. left. by exists s.
    + apply owned_None in Eo. split; [done|]. split; [done|]. by right.
  - destruct (owned user_id i t) as [s|] eqn:Eo.
    + apply owned_spec in Eo. destruct (update_runs now i p s t user_id Hk Eo) as (response & t' & -> & Hp).
      split; [done|]. left. by exists s.
    + unfold respond, update_strategy, db_bind. rewrite get_owned_runs, Eo. apply owned_None in Eo. split; [done|]. by right.
  - unfold respond, delete_strategy, db_bind. rewrite get_owned_runs. destruct (owned user_id i t) as [s|] eqn:Eo.
    2:{ apply owned_None in Eo. split; [done|]. by right. }
    apply owned_spec in Eo as [Hs Hu]. pose proof (Hk _ _ Hs) as Hi. unfold db_try.
    rewrite (commit_runs _ _ () (delete i t)); [|done|by rewrite Hi]. split; [done|]. left. by exists s.
Qed.

(** *** Examples *)
Definition sample_strategy (id owner : Z) : Strategy := mkStrategy id owner "name" "text" None 0 0.
Definition sample_strategies : StrategyTable := <[1 := sample_strategy 1 7]> (<[2 := sample_strategy 2 8]> ∅).

Lemma sample_strategies_keyed : keyed sample_strategies.
Proof.
  intros id s. unfold sample_strategies. destruct (decide (id = 1)) as [->|H1]; [rewrite lookup_insert_eq; by intros [= <-]|].
  rewrite lookup_insert_ne by done. destruct (decide (id = 2)) as [->|H2]; [rewrite lookup_insert_eq; by intros [= <-]|].
  rewrite lookup_insert_ne by done. by rewrite lookup_empty.
Qed.

Definition rename : StrategyUpdate := mkUpdate (Some (Some "renamed"%string)) None None.

Lemma users_isolated_witness :
  let whole := handle 7 (Update 5 2 rename) (mkStore sample_strategies []) in
  whole.1 = Err not_found_error ∧ others 7 (st_table whole.2) = others 7 sample_strategies.
Proof.
  cbv zeta.
  destruct (users_isolated 7 (Update 5 2 rename) sample_strategies []) as (_ & _ & Ho & _).
  - split; [exact sample_strategies_keyed|exact I].
  - split; [vm_compute; reflexivity|exact Ho].
Defined.

Lemma strategy_requests_exact_witness :
  let whole := handle 7 (Update 5 1 rename) (mkStore sample_strategies []) in
  whole.1 = Ok [mkStrategy 1 7 "renamed" "text" None 0 5] ∧
  expected_response 7 (Update 5 1 rename) sample_strategies whole.1 (st_table whole.2).
Proof.
  cbv zeta. pose proof (strategy_requests_exact 7 (Update 5 1 rename) sample_strategies) as H.
  split; [vm_compute; reflexivity|].
  destruct (handle 7 (Update 5 1 rename) (mkStore sample_strategies [])) as [r s'].
  apply H. split; [exact sample_strategies_keyed|exact I].
Defined.

(** *** Validated payloads *)
Lemma constrained_outcome strip m s :
  outcome (constrained strip m s)
    (λ r, (1 <=? String.length r)%nat = true ∧ match m with Some m => (String.length r <=? m)%nat = true | None => True end)
    (λ e, e = ValidationError).
Proof.
  unfold constrained. destruct (1 <=? _)%nat eqn:E1; [|done]. destruct m as [m|]; simpl; [|done].
  by destruct (_ <=? m)%nat eqn:E2.
Qed.

Lemma StrategyName_outcome strip v :
  outcome (StrategyName strip v)
    (λ r, (1 <=? String.length r)%nat = true ∧ (String.length r <=? 200)%nat = true) (λ e, e = ValidationError).
Proof. destruct v; try done. apply (constrained_outcome strip (Some 200%nat)). Qed.

Lemma StrategySourceText_outcome strip v :
  outcome (StrategySourceText strip v) (λ r, (1 <=? String.length r)%nat = true) (λ e, e = ValidationError).
Proof. destruct v; try done. eapply outcome_weaken; [apply (constrained_outcome strip None)|by intros r []|done]. Qed.

Lemma StrategyJson_outcome v : outcome (StrategyJson v) (λ _, True) (λ e, e = ValidationError).
Proof. by destruct v. Qed.

Lemma optional_outcome {A} (f : json → result A) (P : A → Prop) v :
  (∀ v, outcome (f v) P (λ e, e = ValidationError)) →
  outcome (optional_field f v) (λ o, match o with Some a => P a | None => True end) (λ e, e = ValidationError).
Proof. intros Hf. destruct v as [v|]; [|done]. simpl. eapply outcome_bind; [apply Hf|done]. Qed.

Lemma required_outcome {A} (f : json → result A) (P : A → Prop) v :
  (∀ v, outcome (f v) P (λ e, e = ValidationError)) → outcome (required_field f v) P (λ e, e = ValidationError).
Proof. intros Hf. destruct v as [v|]; [apply Hf|done]. Qed.

Lemma nullable_outcome {A} (f : json → result A) (P : A → Prop) v :
  (∀ v, outcome (f v) P (λ e, e = ValidationError)) →
  outcome (nullable f v) (λ o, match o with Some a => P a | None => True end) (λ e, e = ValidationError).
Proof. intros Hf. destruct v; simpl; try done; (eapply outcome_bind; [apply Hf|done]). Qed.

(** C38: A validated payload always fits the table: what a POST creates satisfies
    the CHECK constraints, and a PATCH keeps them for every row that satisfies
    them and never sets a required column to null; every other payload is
    refused with ValidationError. *)
Theorem validated_payloads_fit (strip : string → string) (fields : list (string * json)) :
  outcome (validate_create strip fields)
    (λ p, ∀ id user_id now,
       strategy_row_ok (mkStrategy id user_id (sc_name p) (sc_source_text p) (sc_strategy_json p) now now) = true)
    (λ e, e = ValidationError) ∧
  outcome (validate_update strip fields)
    (λ u, su_name u ≠ Some None ∧ su_source_text u ≠ Some None ∧
          ∀ s, strategy_row_ok s = true → strategy_row_ok (apply_update u s) = true)
    (λ e, e = ValidationError).
Proof.
  split.
  - unfold validate_create. destruct (only_fields _ _); [|done]. cbn [negb raise_if mbind result_bind].
    eapply outcome_bind; [apply required_outcome, StrategyName_outcome|]. intros name [Hn1 Hn2].
    eapply outcome_bind; [apply required_outcome, StrategySourceText_outcome|]. intros text Ht.
    eapply outcome_bind; [apply optional_outcome, StrategyJson_outcome|]. intros j _ id user_id now.
    unfold strategy_row_ok. cbn [st_name st_source_text sc_name sc_source_text]. by rewrite Hn1, Hn2, Ht.
  - unfold validate_update. destruct (only_fields _ _); [|done]. cbn [negb raise_if mbind result_bind].
    eapply outcome_bind; [apply optional_outcome; intros v; apply nullable_outcome, StrategyName_outcome|]. intros name Hn.
    eapply outcome_bind; [apply optional_outcome; intros v; apply nullable_outcome, StrategySourceText_outcome|]. intros text Ht.
    eapply outcome_bind; [apply optional_outcome, StrategyJson_outcome|]. intros j _.
    unfold reject_null_for_required_columns. cbn [su_name su_source_text].
    destruct name as [[name|]|]; [|done|]; (destruct text as [[text|]|]; [|done|]); cbn [outcome];
      (split; [done|]; split; [done|]); intros s Hs; unfold strategy_row_ok, apply_update in *;
      cbn [st_name st_source_text su_name su_source_text] in *;
      apply andb_true_iff in Hs as [[H1 H2]%andb_true_iff H3]; rewrite !andb_true_iff; tauto.
Qed.
