(* ===== verification/Responses.v ===== *)
(** * Validating what was dumped
    ([backend/app/schemas/strategy_spec.py], [backend/app/schemas/strategy.py])

    [model_validate] of the specification and of the preview response models.
    How pydantic reads a single value (a string, a number, a decimal, an
    instant) is the interface [Pydantic]; how the models are put together from
    fields, with their literals, discriminators and [extra="forbid"], is
    defined here.  Documents dumped by the application validate again, to the
    values they were dumped from. *)

From S2P Require Import Prelude Decimal Text Models MarketData Samples StrategySpec StrategySemantics StrategyCompiler Serialization Engine EngineInvariant EngineSafety EngineCausality Csv Timestamps Preview Parser Effects Database Auth StrategyApi.
From Stdlib Require Import ZArith Lia Ascii.
From stdpp Require Import base list option strings gmap.
Local Open Scope Z_scope.

(** ** Primitive values *)

(** pydantic's readers of single values, in lax mode where the field is lax;
    [None] is a validation error. *)
Class Pydantic : Type := mkPydantic {
  as_str : json → option string;
  as_int : json → option Z;
  as_strict_int : json → option Z;
  as_bool : json → option bool;
  as_decimal : json → option decimal;
  as_datetime : json → option datetime;
  (* str | int | Decimal | bool | dict[str, object] | list[object] *)
  as_object : json → option json }.

(** What it documents of values of the exact type, of [str(Decimal)] and of
    ISO 8601 text. *)
Class PydanticLaws (P : Pydantic) : Prop := mkPydanticLaws {
  as_str_exact s : as_str (JStr s) = Some s;
  as_int_exact z : as_int (JInt z) = Some z;
  as_strict_int_exact z : as_strict_int (JInt z) = Some z;
  as_bool_exact b : as_bool (JBool b) = Some b;
  as_decimal_str d : as_decimal (JStr (decimal_str d)) = Some d;
  as_datetime_isoformat t : datetime_ok t → as_datetime (JStr (isoformat t)) = Some t;
  as_object_exact v : v ≠ JNull → as_object v = Some v }.

(** A strict reader: exactly the text that is printed. *)
#[local] Instance exact_pydantic : Pydantic := {|
  as_str v := match v with JStr s => Some s | _ => None end;
  as_int v := match v with JInt z => Some z | _ => None end;
  as_strict_int v := match v with JInt z => Some z | _ => None end;
  as_bool v := match v with JBool b => Some b | _ => None end;
  as_decimal v := match v with
                  | JStr s => match decimal_of_string s with Ok (Finite d) => Some d | _ => None end
                  | _ => None
                  end;
  as_datetime v := match v with JStr s => parse_isoformat s | _ => None end;
  as_object v := match v with JNull => None | _ => Some v end |}.

#[local] Instance exact_pydantic_laws : PydanticLaws exact_pydantic.
Proof.
  constructor; try done.
  - intros d. cbn [as_decimal exact_pydantic]. by rewrite decimal_of_string_str.
  - intros t Ht. cbn [as_datetime exact_pydantic]. by apply isoformat_round_trip.
  - by intros [].
Qed.

(** ** Combinators *)
Definition of_option {A} (v : option A) : result A := match v with Some a => Ok a | None => Err ValidationError end.

(** A model with [extra="forbid"] and these fields. *)
Definition model {A} (names : list string) (build : list (string * json) → result A) (v : json) : result A :=
  match v with
  | JObj fields => _ ← raise_if (negb (only_fields names fields)) ValidationError; build fields
  | _ => Err ValidationError
  end.

Definition field {A} (name : string) (read : json → result A) (fields : list (string * json)) : result A :=
  required_field read (obj_get name fields).

(** A field of type [T | None] that must be present. *)
Definition nullable_field {A} (name : string) (read : json → result A) (fields : list (string * json)) : result (option A) :=
  field name (nullable read) fields.

(** A field with a default. *)
Definition field_or {A} (name : string) (default_value : A) (read : json → result A) (fields : list (string * json)) : result A :=
  match obj_get name fields with None => Ok default_value | Some v => read v end.

Definition list_of {A} (read : json → result A) (v : json) : result (list A) :=
  match v with JList l => mapM_result read l | _ => Err ValidationError end.

(** An enumeration, or the [Literal] of several strings, by its values. *)
Definition one_of {A} (value : A → string) (all : list A) (v : json) : result A :=
  match v with
  | JStr s => of_option (snd <$> list_find (λ a, value a = s) all)
  | _ => Err ValidationError
  end.

Section models.
Context {P : Pydantic}.

Definition read_str (v : json) : result string := of_option (as_str v).
Definition read_int (v : json) : result Z := of_option (as_int v).
Definition read_strict_int (v : json) : result Z := of_option (as_strict_int v).
Definition read_bool (v : json) : result bool := of_option (as_bool v).
Definition read_decimal (v : json) : result decimal := of_option (as_decimal v).
Definition read_datetime (v : json) : result datetime := of_option (as_datetime v).
Definition read_object (v : json) : result json := of_option (as_object v).

(** [Literal[lit]] *)
Definition literal (lit : string) (v : json) : result string :=
  match v with JStr s => if String.eqb s lit then Ok s else Err ValidationError | _ => Err ValidationError end.
Definition literal_int (lit : Z) (v : json) : result Z :=
  match v with JInt z => if z =? lit then Ok z else Err ValidationError | _ => Err ValidationError end.
Definition literal_true (v : json) : result bool :=
  match v with JBool true => Ok true | _ => Err ValidationError end.

(** ** [schemas/strategy_spec.py] *)
Definition validate_indicator : json → result Operand :=
  model ["type"; "name"; "source"; "period"]%string (λ fields,
    name ← field "name" (one_of IndicatorName_value all_indicators) fields;
    source ← field "source" (literal "close") fields;
    period ← field "period" read_strict_int fields;
    Ok (IndicatorOperand name source period)).

Definition validate_price : json → result Operand :=
  model ["type"; "source"]%string (λ fields,
    source ← field "source" (literal "close") fields; Ok (PriceOperand source)).

Definition validate_constant : json → result Operand :=
  model ["type"; "value"]%string (λ fields,
    value ← field "value" read_decimal fields; Ok (ConstantOperand value)).

(** The union discriminated by [type]. *)
Definition validate_operand_json (v : json) : result Operand :=
  match v with
  | JObj fields =>
      match obj_get "type" fields with
      | Some (JStr t) =>
          if String.eqb t "indicator" then validate_indicator v
          else if String.eqb t "price" then validate_price v
          else if String.eqb t "constant" then validate_constant v
          else Err ValidationError
      | _ => Err ValidationError
      end
  | _ => Err ValidationError
  end.

Definition validate_condition_json : json → result Condition :=
  model ["left"; "operator"; "right"]%string (λ fields,
    left ← field "left" validate_operand_json fields;
    operator ← field "operator" (one_of Operator_value all_operators) fields;
    right ← field "right" validate_operand_json fields;
    Ok (mkCondition left operator right)).

Definition validate_execution : json → result ExecutionSettings :=
  model ["direction"; "position_size_percent"; "signal_execution"]%string (λ fields,
    direction ← field "direction" (literal "long") fields;
    position_size_percent ← field "position_size_percent" (literal_int 100) fields;
    signal_execution ← field "signal_execution" (literal "next_bar_open") fields;
    Ok (mkExecutionSettings direction position_size_percent signal_execution)).

(** [Decimal | None], finite, with its bounds *)
Definition read_risk_percent : json → result (option pydecimal) :=
  nullable (λ v, d ← read_decimal v;
                 if risk_field_ok (Some (Finite d)) then Ok (Finite d) else Err ValidationError).

Definition validate_specification : json → result StrategySpecification :=
  model ["version"; "symbol"; "interval"; "entry"; "exit"; "execution"; "stop_loss_percent"; "take_profit_percent"]%string
    (λ fields,
       version ← field_or "version" "1.0"%string (literal "1.0") fields;
       symbol ← field "symbol" (literal "SPY") fields;
       interval ← field "interval" (literal "1d") fields;
       entry ← field "entry" validate_condition_json fields;
       exit ← field "exit" validate_condition_json fields;
       execution ← field "execution" validate_execution fields;
       stop_loss_percent ← field_or "stop_loss_percent" None read_risk_percent fields;
       take_profit_percent ← field_or "take_profit_percent" None read_risk_percent fields;
       Ok (mkSpecification version symbol interval entry exit execution stop_loss_percent take_profit_percent)).

Definition all_confidences : list AssumptionConfidence := [HIGH; MEDIUM; LOW].

Definition validate_assumption : json → result StrategyAssumption :=
  model ["field"; "inferred_value"; "reason"; "confidence"; "requires_confirmation"]%string (λ fields,
    name ← field "field" read_str fields;
    inferred_value ← field "inferred_value" read_object fields;
    reason ← field "reason" read_str fields;
    confidence ← field "confidence" (one_of confidence_value all_confidences) fields;
    requires_confirmation ← field_or "requires_confirmation" true literal_true fields;
    Ok (mkAssumption name inferred_value reason confidence requires_confirmation)).

Definition validate_default : json → result AppliedDefault :=
  model ["field"; "value"; "reason"]%string (λ fields,
    name ← field "field" read_str fields;
    value ← field "value" read_object fields;
    reason ← field "reason" read_str fields;
    Ok (mkDefault name value reason)).
End models.

(** ** [schemas/strategy.py] *)
Record ParsedStrategyReview : Type := mkReview {
  rv_specification : StrategySpecification;
  rv_defaults_applied : list AppliedDefault;
  rv_assumptions : list StrategyAssumption;
  rv_requires_confirmation : bool;
  rv_original_text : string;
  rv_interpretation : string }.

Definition from_parsed_result (r : ParsedStrategyResult) (text : string) : ParsedStrategyReview :=
  mkReview (specification r) (defaults_applied r) (assumptions r) (requires_confirmation r) (original_text r) text.

Record EquityComparisonPoint : Type := mkComparison {
  ec_timestamp : datetime; ec_strategy_value : decimal; ec_buy_and_hold_value : decimal }.

Record PriceSeriesPoint : Type := mkPrice { ps_timestamp : datetime; ps_close_price : decimal }.

Definition all_exit_reasons : list ExitReason := [STRATEGY_EXIT; STOP_LOSS; TAKE_PROFIT; FINAL_LIQUIDATION].

(** [BacktestTradeResponse] has the fields of [CompletedTrade]. *)
Record BacktestPreviewResponse : Type := mkBacktest {
  bp_symbol : string;
  bp_interval : string;
  bp_start_date : datetime;
  bp_end_date : datetime;
  bp_bar_count : Z;
  bp_starting_cash : decimal;
  bp_ending_value : decimal;
  bp_total_return_percent : decimal;
  bp_cagr_percent : option decimal;
  bp_max_drawdown_percent : decimal;
  bp_trade_count : Z;
  bp_win_rate_percent : decimal;
  bp_buy_and_hold_return_percent : decimal;
  bp_equity_curve : list EquityComparisonPoint;
  bp_price_series : list PriceSeriesPoint;
  bp_trades : list CompletedTrade }.

Record StrategyPreviewResponse : Type := mkPreviewResponse {
  pr_parsed_strategy : ParsedStrategyReview; pr_backtest : BacktestPreviewResponse }.

Section responses.
Context {P : Pydantic}.

Definition validate_review : json → result ParsedStrategyReview :=
  model ["specification"; "defaults_applied"; "assumptions"; "requires_confirmation"; "original_text"; "interpretation"]%string
    (λ fields,
       specification ← field "specification" validate_specification fields;
       defaults_applied ← field "defaults_applied" (list_of validate_default) fields;
       assumptions ← field "assumptions" (list_of validate_assumption) fields;
       requires_confirmation ← field "requires_confirmation" read_bool fields;
       original_text ← field "original_text" read_str fields;
       interpretation ← field "interpretation" read_str fields;
       Ok (mkReview specification defaults_applied assumptions requires_confirmation original_text interpretation)).

Definition validate_comparison : json → result EquityComparisonPoint :=
  model ["timestamp"; "strategy_value"; "buy_and_hold_value"]%string (λ fields,
    timestamp ← field "timestamp" read_datetime fields;
    strategy_value ← field "strategy_value" read_decimal fields;
    buy_and_hold_value ← field "buy_and_hold_value" read_decimal fields;
    Ok (mkComparison timestamp strategy_value buy_and_hold_value)).

Definition validate_price_point : json → result PriceSeriesPoint :=
  model ["timestamp"; "close_price"]%string (λ fields,
    timestamp ← field "timestamp" read_datetime fields;
    close_price ← field "close_price" read_decimal fields;
    Ok (mkPrice timestamp close_price)).

Definition validate_trade : json → result CompletedTrade :=
  model ["signal_timestamp"; "entry_timestamp"; "entry_price"; "quantity"; "exit_signal_timestamp"; "exit_timestamp";
         "exit_price"; "profit_loss"; "return_percentage"; "exit_reason"]%string
    (λ fields,
       signal_timestamp ← field "signal_timestamp" read_datetime fields;
       entry_timestamp ← field "entry_timestamp" read_datetime fields;
       entry_price ← field "entry_price" read_decimal fields;
       quantity ← field "quantity" read_int fields;
       exit_signal_timestamp ← nullable_field "exit_signal_timestamp" read_datetime fields;
       exit_timestamp ← field "exit_timestamp" read_datetime fields;
       exit_price ← field "exit_price" read_decimal fields;
       profit_loss ← field "profit_loss" read_decimal fields;
       return_percentage ← field "return_percentage" read_decimal fields;
       exit_reason ← field "exit_reason" (one_of ExitReason_value all_exit_reasons) fields;
       Ok (mkTrade signal_timestamp entry_timestamp entry_price quantity exit_signal_timestamp exit_timestamp exit_price
             profit_loss return_percentage exit_reason)).

Definition validate_backtest : json → result BacktestPreviewResponse :=
  model ["symbol"; "interval"; "start_date"; "end_date"; "bar_count"; "starting_cash"; "ending_value"; "total_return_percent";
         "cagr_percent"; "max_drawdown_percent"; "trade_count"; "win_rate_percent"; "buy_and_hold_return_percent";
         "equity_curve"; "price_series"; "trades"]%string
    (λ fields,
       symbol ← field "symbol" read_str fields;
       interval ← field "interval" read_str fields;
       start_date ← field "start_date" read_datetime fields;
       end_date ← field "end_date" read_datetime fields;
       bar_count ← field "bar_count" read_int fields;
       starting_cash ← field "starting_cash" read_decimal fields;
       ending_value ← field "ending_value" read_decimal fields;
       total_return_percent ← field "total_return_percent" read_decimal fields;
       cagr_percent ← nullable_field "cagr_percent" read_decimal fields;
       max_drawdown_percent ← field "max_drawdown_percent" read_decimal fields;
       trade_count ← field "trade_count" read_int fields;
       win_rate_percent ← field "win_rate_percent" read_decimal fields;
       buy_and_hold_return_percent ← field "buy_and_hold_return_percent" read_decimal fields;
       equity_curve ← field "equity_curve" (list_of validate_comparison) fields;
       price_series ← field "price_series" (list_of validate_price_point) fields;
       trades ← field "trades" (list_of validate_trade) fields;
       Ok (mkBacktest symbol interval start_date end_date bar_count starting_cash ending_value total_return_percent
             cagr_percent max_drawdown_percent trade_count win_rate_percent buy_and_hold_return_percent
             equity_curve price_series trades)).

(** [StrategyPreviewResponse.model_validate] *)
Definition validate_preview : json → result StrategyPreviewResponse :=
  model ["parsed_strategy"; "backtest"]%string (λ fields,
    parsed_strategy ← field "parsed_strategy" validate_review fields;
    backtest ← field "backtest" validate_backtest fields;
    Ok (mkPreviewResponse parsed_strategy backtest)).

(** [ConfirmedStrategySaveRequest.model_validate] *)
Definition validate_confirmed (strip_whitespace : string → string) : json → result ConfirmedStrategySaveRequest :=
  model ["name"; "source_text"; "specification"; "defaults_applied"; "assumptions"; "requires_confirmation"; "confirmed"]%string
    (λ fields,
       name ← field "name" (StrategyName strip_whitespace) fields;
       source_text ← field "source_text" (StrategySourceText strip_whitespace) fields;
       specification ← field "specification" validate_specification fields;
       defaults_applied ← field "defaults_applied" (list_of validate_default) fields;
       assumptions ← field "assumptions" (list_of validate_assumption) fields;
       requires_confirmation ← field "requires_confirmation" read_bool fields;
       confirmed ← field "confirmed" read_bool fields;
       match validate_confirmation_metadata
               (mkConfirmed name source_text specification defaults_applied assumptions requires_confirmation confirmed) with
       | Ok request => Ok request
       | Err _ => Err ValidationError
       end).
End responses.

(** ** Lemmas: reading fields *)
Lemma model_reads {A} names (build : list (string * json) → result A) fields :
  forallb (λ k, bool_decide (k ∈ names)) fields.*1 = true → model names build (JObj fields) = build fields.
Proof.
  intros H. unfold model. replace (only_fields names fields) with true; [done|].
  rewrite <- H. unfold only_fields. clear H. induction fields as [|kv fields IH]; [done|].
  cbn [forallb fmap list_fmap]. by rewrite <- IH.
Qed.

(** Opens a model on a document with known keys, and looks its fields up. *)
Ltac open_model := rewrite model_reads by reflexivity;
  unfold nullable_field, field, field_or, required_field, obj_get;
  cbn [foldl String.eqb Ascii.eqb Bool.eqb fst snd].

Lemma mapM_result_dump {A} (read : json → result A) (dump : A → json) (ok : A → Prop) l :
  (∀ a, ok a → read (dump a) = Ok a) → Forall ok l → mapM_result read (dump <$> l) = Ok l.
Proof. intros H Hl. induction Hl as [|a l Ha Hl IH]; [done|]. rewrite fmap_cons. cbn [mapM_result]. by rewrite H, IH by done. Qed.

Section dumped.
Context {P : Pydantic} {L : PydanticLaws P}.

Lemma read_str_dump s : read_str (JStr s) = Ok s.
Proof. unfold read_str. by rewrite as_str_exact. Qed.
Lemma read_int_dump z : read_int (JInt z) = Ok z.
Proof. unfold read_int. by rewrite as_int_exact. Qed.
Lemma read_strict_int_dump z : read_strict_int (JInt z) = Ok z.
Proof. unfold read_strict_int. by rewrite as_strict_int_exact. Qed.
Lemma read_bool_dump b : read_bool (JBool b) = Ok b.
Proof. unfold read_bool. by rewrite as_bool_exact. Qed.
Lemma read_decimal_dump d : read_decimal (JStr (decimal_str d)) = Ok d.
Proof. unfold read_decimal. by rewrite as_decimal_str. Qed.
Lemma read_datetime_dump t : datetime_ok t → read_datetime (JStr (isoformat t)) = Ok t.
Proof. intros. unfold read_datetime. by rewrite as_datetime_isoformat. Qed.
Lemma read_object_dump v : v ≠ JNull → read_object v = Ok v.
Proof. intros. unfold read_object. by rewrite as_object_exact. Qed.

Lemma one_of_indicator n : one_of IndicatorName_value all_indicators (JStr (IndicatorName_value n)) = Ok n.
Proof. by destruct n. Qed.
Lemma one_of_operator o : one_of Operator_value all_operators (JStr (Operator_value o)) = Ok o.
Proof. by destruct o. Qed.
Lemma one_of_confidence c : one_of confidence_value all_confidences (JStr (confidence_value c)) = Ok c.
Proof. by destruct c. Qed.

(** Reads the fields of an opened model one by one. *)
Ltac read_fields :=
  repeat (first [rewrite read_str_dump | rewrite read_int_dump | rewrite read_strict_int_dump | rewrite read_bool_dump
                |rewrite read_decimal_dump | rewrite read_datetime_dump by done | rewrite read_object_dump by done
                |rewrite one_of_indicator | rewrite one_of_operator | rewrite one_of_confidence];
          cbn [mbind result_bind]).

Lemma validate_operand_dump o : operand_schema_ok o = true → validate_operand_json (dump_operand o) = Ok o.
Proof.
  destruct o as [name source period|source|value]; cbn [operand_schema_ok]; intros H;
    try apply bool_decide_eq_true_1 in H as ->; unfold validate_operand_json, obj_get;
    cbn [dump_operand foldl String.eqb Ascii.eqb Bool.eqb fst snd].
  - unfold validate_indicator. open_model. by read_fields.
  - unfold validate_price. by open_model.
  - unfold validate_constant. open_model. by read_fields.
Qed.

Lemma validate_condition_dump c : condition_schema_ok c = true → validate_condition_json (dump_condition c) = Ok c.
Proof.
  unfold condition_schema_ok. rewrite andb_true_iff. intros [Hl Hr]. unfold validate_condition_json, dump_condition.
  open_model. rewrite !validate_operand_dump by done. read_fields. by destruct c.
Qed.

Lemma validate_execution_dump e : execution_schema_ok e = true → validate_execution (dump_execution e) = Ok e.
Proof.
  unfold execution_schema_ok. rewrite !andb_true_iff. intros [[Hd%bool_decide_eq_true_1 Hp%Z.eqb_eq] Hs%bool_decide_eq_true_1].
  destruct e as [d p s]. cbn in Hd, Hp, Hs. subst. unfold validate_execution, dump_execution. by open_model.
Qed.

Lemma read_risk_percent_dump v :
  risk_field_ok v = true → read_risk_percent (dump_option (λ d, JStr (pydecimal_str d)) v) = Ok v.
Proof.
  destruct v as [[d| |]|]; try done. intros H. unfold read_risk_percent. cbn [dump_option nullable pydecimal_str].
  rewrite read_decimal_dump. cbn [mbind result_bind]. by rewrite H.
Qed.

Lemma validate_specification_dump s : spec_schema_ok s = true → validate_specification (dump_specification s) = Ok s.
Proof.
  unfold spec_schema_ok. rewrite !andb_true_iff, !bool_decide_eq_true.
  intros [[[[[[[Hv Hs] Hi] He] Hx] Hexec] Hsl] Htp]. destruct s as [v sy iv en ex exe sl tp]. cbn in Hv, Hs, Hi, He, Hx, Hexec, Hsl, Htp. subst.
  unfold validate_specification, dump_specification. cbn [version symbol interval entry exit execution stop_loss_percent take_profit_percent].
  open_model. rewrite !validate_condition_dump, validate_execution_dump, !read_risk_percent_dump by done. done.
Qed.

(** What pydantic enforces on assumptions and defaults. *)
Definition assumption_ok (a : StrategyAssumption) : Prop := inferred_value a ≠ JNull ∧ a_requires_confirmation a = true.
Definition default_ok (d : AppliedDefault) : Prop := df_value d ≠ JNull.

Lemma validate_assumption_dump a : assumption_ok a → validate_assumption (dump_assumption a) = Ok a.
Proof.
  destruct a as [f v r c q]. intros [Hv Hq]. cbn in Hv, Hq. subst. unfold validate_assumption, dump_assumption.
  cbn [a_field inferred_value a_reason confidence a_requires_confirmation]. open_model. by read_fields.
Qed.

Lemma validate_default_dump d : default_ok d → validate_default (dump_default d) = Ok d.
Proof.
  destruct d as [f v r]. intros Hv. cbn in Hv. unfold validate_default, dump_default. cbn [df_field df_value df_reason].
  open_model. by read_fields.
Qed.

(** *** The preview *)
Definition comparison_of (pb : EquityPoint * EquityPoint) : EquityComparisonPoint :=
  mkComparison (pt_timestamp pb.1) (equity pb.1) (equity pb.2).

Lemma validate_comparison_dump pb :
  datetime_ok (pt_timestamp pb.1) → validate_comparison (dump_comparison pb) = Ok (comparison_of pb).
Proof. intros H. unfold validate_comparison, dump_comparison. open_model. by read_fields. Qed.

Lemma validate_price_dump b :
  datetime_ok (bar_timestamp b) → validate_price_point (dump_price b) = Ok (mkPrice (bar_timestamp b) (close_price b)).
Proof. intros H. unfold validate_price_point, dump_price. open_model. by read_fields. Qed.

Definition trade_times_ok (t : CompletedTrade) : Prop :=
  datetime_ok (signal_timestamp t) ∧ datetime_ok (entry_timestamp t) ∧ datetime_ok (exit_timestamp t) ∧
  match exit_signal_timestamp t with Some ts => datetime_ok ts | None => True end.

Lemma one_of_exit_reason r : one_of ExitReason_value all_exit_reasons (JStr (ExitReason_value r)) = Ok r.
Proof. by destruct r. Qed.

Lemma nullable_dump {A} (read : json → result A) (dump : A → json) (v : option A) :
  (∀ a, dump a ≠ JNull) → match v with Some a => read (dump a) = Ok a | None => True end →
  nullable read (dump_option dump v) = Ok v.
Proof.
  destruct v as [a|]; [|done]. intros Hd H. cbn [dump_option]. specialize (Hd a). unfold nullable.
  destruct (dump a); try done; by rewrite H.
Qed.

Lemma validate_trade_dump t : trade_times_ok t → validate_trade (dump_trade t) = Ok t.
Proof.
  intros (Hs & He & Hx & Hxs). destruct t as [sg en pr q xs x xp pl rp rs]. cbn in Hs, He, Hx, Hxs.
  unfold validate_trade, dump_trade.
  cbn [signal_timestamp entry_timestamp entry_price quantity exit_signal_timestamp exit_timestamp exit_price
       profit_loss return_percentage exit_reason]. open_model.
  rewrite nullable_dump by (done || (destruct xs; [by apply read_datetime_dump|done])).
  rewrite one_of_exit_reason. by read_fields.
Qed.

Lemma list_of_dump {A B} (read : json → result B) (dump : A → json) (f : A → B) l :
  Forall (λ a, read (dump a) = Ok (f a)) l → list_of read (JList (dump <$> l)) = Ok (f <$> l).
Proof.
  intros H. cbn [list_of]. induction H as [|a l Ha Hl IH]; [done|].
  rewrite fmap_cons. cbn [mapM_result]. by rewrite Ha, IH.
Qed.

(** What pydantic enforces on a [ParsedStrategyResult]. *)
Definition parsed_ok (r : ParsedStrategyResult) : Prop :=
  spec_schema_ok (specification r) = true ∧ Forall default_ok (defaults_applied r) ∧
  Forall assumption_ok (assumptions r).

Lemma list_of_defaults l : Forall default_ok l → list_of validate_default (JList (dump_default <$> l)) = Ok l.
Proof.
  intros H. rewrite (list_of_dump validate_default dump_default id), list_fmap_id; [done|].
  eapply Forall_impl; [exact H|]. intros d. apply validate_default_dump.
Qed.

Lemma list_of_assumptions l : Forall assumption_ok l → list_of validate_assumption (JList (dump_assumption <$> l)) = Ok l.
Proof.
  intros H. rewrite (list_of_dump validate_assumption dump_assumption id), list_fmap_id; [done|].
  eapply Forall_impl; [exact H|]. intros a. apply validate_assumption_dump.
Qed.

Lemma validate_review_dump r text :
  parsed_ok r → validate_review (dump_parsed_strategy r text) = Ok (from_parsed_result r text).
Proof.
  intros (Hs & Hd & Ha). unfold validate_review, dump_parsed_strategy. open_model.
  rewrite validate_specification_dump by done. cbn [mbind result_bind].
  rewrite list_of_defaults, list_of_assumptions by done. by read_fields.
Qed.

(** The response that shows a preview. *)
Definition preview_response (r : ParsedStrategyResult) (p : StrategyPreview) : StrategyPreviewResponse :=
  let m := metrics p in
  let ex := preview_execution p in
  mkPreviewResponse (from_parsed_result r (interpretation p))
    (mkBacktest (symbol (specification r)) (interval (specification r)) (start_timestamp p) (end_timestamp p)
       (bar_count p) STARTING_CASH (final_portfolio_value ex) (total_return_percentage m) (cagr_percentage m)
       (maximum_drawdown_percentage m) (Z.of_nat (length (completed_trades ex))) (win_rate_percentage m)
       (buy_and_hold_return_percentage m)
       (comparison_of <$> zip (drop (Z.to_nat (comparison_start_index p)) (equity_curve ex)) (buy_and_hold_equity_curve p))
       ((λ b, mkPrice (bar_timestamp b) (close_price b)) <$> preview_bars p) (completed_trades ex)).

(** Every instant of the preview is a [datetime]. *)
Definition preview_times_ok (p : StrategyPreview) : Prop :=
  datetime_ok (start_timestamp p) ∧ datetime_ok (end_timestamp p) ∧
  Forall (λ q, datetime_ok (pt_timestamp q)) (equity_curve (preview_execution p)) ∧
  Forall (λ b, datetime_ok (bar_timestamp b)) (preview_bars p) ∧
  Forall trade_times_ok (completed_trades (preview_execution p)).

Lemma optional_decimal_dump v : nullable read_decimal (optional_decimal v) = Ok v.
Proof. destruct v as [d|]; [|done]. cbn [optional_decimal nullable]. by rewrite read_decimal_dump. Qed.

Lemma zip_strict_zip {A B} (l1 : list A) (l2 : list B) l : zip_strict l1 l2 = Ok l → l = zip l1 l2.
Proof.
  revert l2 l. induction l1 as [|a l1 IH]; intros [|b l2] l H; try done; cbn [zip_strict] in H; [by injection H as <-|].
  apply bind_Ok_inv in H as (rest & Hr & [= <-]). by rewrite (IH _ _ Hr).
Qed.

Lemma zip_Forall_l {A B} (Q : A → Prop) (l1 : list A) (l2 : list B) : Forall Q l1 → Forall (λ pb, Q pb.1) (zip l1 l2).
Proof. intros H. revert l2. induction H as [|a l1 Ha Hl IH]; intros [|b l2]; constructor; auto. Qed.

Lemma validate_serialized r p document :
  parsed_ok r → preview_times_ok p → serialize_preview r p = Ok document →
  validate_preview document = Ok (preview_response r p).
Proof.
  intros Hr (Hstart & Hend & Hcurve & Hbars & Htrades) H. unfold serialize_preview in H.
  apply bind_Ok_inv in H as (points & Hp%zip_strict_zip & [= <-]).
  unfold validate_preview. open_model. rewrite validate_review_dump by done. cbn [mbind result_bind].
  unfold validate_backtest. open_model. rewrite optional_decimal_dump.
  rewrite (list_of_dump validate_comparison dump_comparison comparison_of).
  2:{ rewrite Hp. eapply Forall_impl; [apply zip_Forall_l, Forall_drop; exact Hcurve|]. intros pb. apply validate_comparison_dump. }
  rewrite (list_of_dump validate_price_point dump_price (λ b, mkPrice (bar_timestamp b) (close_price b)))
    by (eapply Forall_impl; [exact Hbars|]; intros b; apply validate_price_dump).
  rewrite (list_of_dump validate_trade dump_trade id)
    by (eapply Forall_impl; [exact Htrades|]; intros t; apply validate_trade_dump).
  read_fields. unfold preview_response. by rewrite list_fmap_id, Hp.
Qed.
End dumped.

(** ** Previews of stored data *)
Definition rows_dated (table : list MarketDataRow) : Prop := Forall (λ r, datetime_ok (md_timestamp r)) table.

Lemma loaded_dated table symbol interval :
  rows_dated table → Forall (λ b, datetime_ok (bar_timestamp b)) (load_market_bars table symbol interval).
Proof.
  intros Ht. unfold load_market_bars. apply Forall_fmap. rewrite (select_rows_perm table symbol interval).
  apply Forall_forall. intros x [_ Hx]%list_elem_of_filter. unfold rows_dated in Ht.
  rewrite Forall_forall in Ht. by apply Ht.
Qed.

(** The trades of a run happen at instants of its bars. *)
Lemma trade_dated bars signals sl tp n t :
  Forall (λ b, datetime_ok (bar_timestamp b)) bars → trade_ok bars signals sl tp n t → trade_times_ok t.
Proof.
  intros Hb (i & j & _ & (be & bs & Hbe & _ & Hbs & _ & Hen & Hsg & _) & (bx & s & p & Hbx & Hex & _ & Hx) & _).
  unfold trade_times_ok. rewrite Hen, Hsg, Hex. rewrite Forall_lookup in Hb. split; [|split; [|split]]; try (by eapply Hb).
  destruct (exit_reason t).
  - destruct Hx as (_ & _ & _ & bp & Hbp & -> & _). by eapply Hb.
  - by destruct Hx as (_ & -> & _).
  - by destruct Hx as (_ & -> & _).
  - by destruct Hx as (_ & _ & -> & _).
Qed.

Lemma preview_dated power table r p :
  table_ok table → rows_dated table → create_preview power table r = Ok p → preview_times_ok p.
Proof.
  intros Ht Hd Hp. pose proof (create_preview_cases power table r Ht) as Hc. cbv zeta in Hc. rewrite Hp in Hc.
  destruct Hc as [_ [_ Hl [Hs He] [_ Hn] Hrun _ _ _]].
  destruct (load_market_bars_ok table (symbol (specification r)) (interval (specification r)) Ht) as [Hb Hi].
  pose proof (loaded_dated table (symbol (specification r)) (interval (specification r)) Hd) as Hbd. rewrite <- Hl in *.
  unfold run_compiled in Hrun. apply bind_Ok_inv in Hrun as (signals & _ & Hrun).
  apply engine_Ok_inv in Hrun as [_ Hcurve _ Htrades _]; [|done|done|apply starting_cash_fits].
  destruct (head (preview_bars p)) as [b0|] eqn:Eh; [|done]. destruct (last (preview_bars p)) as [bl|] eqn:El; [|done].
  injection Hs as Hs. injection He as He. unfold preview_times_ok. rewrite Hs, He. pose proof Hbd as Hbd'. rewrite Forall_forall in Hbd'. split_and!.
  - apply Hbd'. rewrite head_lookup in Eh. by eapply list_elem_of_lookup_2.
  - apply Hbd'. rewrite last_lookup in El. by eapply list_elem_of_lookup_2.
  - change (Forall (datetime_ok ∘ pt_timestamp) (equity_curve (preview_execution p))).
    apply Forall_fmap. rewrite Hcurve. by apply Forall_fmap.
  - done.
  - eapply Forall_impl; [exact Htrades|]. intros t. by apply trade_dated.
Qed.

(** ** Parsed strategies satisfy their schema *)
Lemma supported_schema s : version s = "1.0"%string → spec_supported s → spec_schema_ok s = true.
Proof.
  intros Hv (Hs & Hi & He & Hen & Hex & Hsl & Htp). unfold spec_schema_ok. rewrite Hv, Hs, Hi, He.
  rewrite !condition_supported_schema, (proj2 (risk_field_ok_spec _) Hsl), (proj2 (risk_field_ok_spec _) Htp) by done. done.
Qed.

Definition noted (l : list (string * json)) : Prop := Forall (λ kv, kv.2 ≠ JNull) l.

Lemma noted_omitted {A} field (v : option A) value : value ≠ JNull → noted (omitted field v value).
Proof. intros H. destruct v; repeat constructor. exact H. Qed.

Lemma noted_app l1 l2 : noted l1 → noted l2 → noted (l1 ++ l2).
Proof. intros. by apply Forall_app. Qed.

Lemma noted_defaults o name : noted (operand_defaults o name).
Proof. unfold operand_defaults. destruct (od_type o); [by apply noted_omitted..|constructor]. Qed.

Lemma noted_assumptions o name : noted (operand_assumptions o name).
Proof. unfold operand_assumptions. destruct (od_type o); [by apply noted_omitted|constructor..]. Qed.

Lemma presents_parsed_ok draft text e x c c' rc r : presents draft text e x c c' rc r → parsed_ok r.
Proof.
  intros (Hspec & Hsup & Hd & Ha & Hq & _). split; [|split].
  - apply supported_schema; [by rewrite Hspec|done].
  - assert (noted (expected_defaults draft e x)) as H.
    { repeat apply noted_app; try (by apply noted_omitted); apply noted_defaults. }
    rewrite <- Hd in H. exact (proj1 (List.Forall_map default_pair (λ kv, kv.2 ≠ JNull) _) H).
  - assert (noted (expected_assumptions draft e x)) as H.
    { repeat apply noted_app; try apply noted_assumptions.
      unfold rule_assumptions. destruct (d_entry draft), (d_exit draft); by repeat constructor. }
    rewrite <- Ha in H. apply (List.Forall_map assumption_pair (λ kv, kv.2 ≠ JNull)) in H.
    rewrite Forall_forall in H, Hq |- *.
    intros a Hin. split; [by apply H|by apply Hq].
Qed.

Lemma normalized_parsed_ok draft text r :
  draft_schema_ok draft = true → normalize_strategy_draft draft text = Ok r → parsed_ok r.
Proof.
  intros Hd Hr. pose proof (normalize_outcome draft text Hd) as H. rewrite Hr in H.
  destruct H as (e & x & c & c' & rc & _ & H). by eapply presents_parsed_ok.
Qed.

(** ** The round trip *)

(** C15: Round trip of previews: what [serialize_preview] stores for a preview of
    stored data always validates as a [StrategyPreviewResponse] again, and the
    response holds exactly the preview's strategy, defaults, assumptions,
    instants, decimals and trades. *)
Theorem preview_document_roundtrip `{L : PydanticLaws} power table r p :
  table_ok table → rows_dated table → parsed_ok r → create_preview power table r = Ok p →
  ∃ document, serialize_preview r p = Ok document ∧ validate_preview document = Ok (preview_response r p).
Proof.
  intros Ht Hd Hr Hp. destruct (serialize_preview_total power table r p Ht Hp) as (fields & Hs & _).
  exists (JObj fields). split; [exact Hs|].
  apply (validate_serialized r p (JObj fields) Hr); [by eapply preview_dated|exact Hs].
Qed.

Lemma sample_rows_dated : rows_dated sample_table.
Proof. repeat constructor; vm_compute; intuition discriminate. Qed.

Lemma sample_parsed_ok : parsed_ok sample_parsed.
Proof. repeat constructor. Qed.

Lemma preview_document_roundtrip_witness :
  ∃ p document, create_preview (λ x _, Ok x) sample_table sample_parsed = Ok p ∧
    serialize_preview sample_parsed p = Ok document ∧
    validate_preview (P := exact_pydantic) document = Ok (preview_response sample_parsed p).
Proof.
  destruct (create_preview (λ x _, Ok x) sample_table sample_parsed) as [p|e] eqn:E; [|vm_compute in E; discriminate E].
  destruct (preview_document_roundtrip (L := exact_pydantic_laws) (λ x _, Ok x) sample_table sample_parsed p
    sample_table_ok sample_rows_dated sample_parsed_ok E) as (document & H1 & H2).
  exists p, document. split; [reflexivity|]. split; [exact H1|exact H2].
Defined.

(** The request by which the browser confirms what a preview shows. *)
Definition confirm_document (name source_text : string) (r : ParsedStrategyResult) : json :=
  JObj [("name"%string, JStr name); ("source_text"%string, JStr source_text);
        ("specification"%string, dump_specification (specification r));
        ("defaults_applied"%string, JList (dump_default <$> defaults_applied r));
        ("assumptions"%string, JList (dump_assumption <$> assumptions r));
        ("requires_confirmation"%string, JBool (requires_confirmation r)); ("confirmed"%string, JBool true)].

Lemma normalized_metadata draft text r name source :
  draft_schema_ok draft = true → normalize_strategy_draft draft text = Ok r →
  let request := mkConfirmed name source (specification r) (defaults_applied r) (assumptions r) (requires_confirmation r) true in
  validate_confirmation_metadata request = Ok request ∧ spec_supported (specification r).
Proof.
  intros Hd Hr. pose proof (normalize_outcome draft text Hd) as H. rewrite Hr in H.
  destruct H as (e & x & c & c' & rc & _ & (_ & Hsup & _ & Ha & Hq & Hc & _)). split; [|exact Hsup].
  unfold validate_confirmation_metadata. cbn [cs_confirmed cs_requires_confirmation cs_assumptions negb].
  rewrite <- Ha in Hc. replace (existsb _ (assumptions r)) with false.
  - destruct (assumptions r) as [|a l], (requires_confirmation r); try done; exfalso.
    + by apply Hc.
    + assert (false = true) by (by apply Hc). done.
  - symmetry. apply not_true_iff_false. intros (a & Hin & Hneg)%existsb_exists.
    rewrite Forall_forall in Hq. destruct (Hq a) as [_ E]; [by apply list_elem_of_In|]. by rewrite E in Hneg.
Qed.

(** C31: What was parsed can be confirmed: for every strategy the parser accepts,
    the request that sends its specification, defaults and assumptions back
    with a proper name and text validates to exactly those, is never refused
    with 422, and is saved for its user with its interpretation. *)
Theorem parsed_strategy_confirmable `{L : PydanticLaws} (strip : string → string) (draft : StrategyParseDraft) (text : string)
    (r : ParsedStrategyResult) (name name' source source' : string) (new_id user_id : Z) (now : datetime) (t : StrategyTable) :
  draft_schema_ok draft = true → normalize_strategy_draft draft text = Ok r →
  StrategyName strip (JStr name) = Ok name' → StrategySourceText strip (JStr source) = Ok source' → t !! new_id = None →
  let request := mkConfirmed name' source' (specification r) (defaults_applied r) (assumptions r) (requires_confirmation r) true in
  let interpreted := mkParsed (specification r) (assumptions r) (defaults_applied r) (requires_confirmation r) source' in
  let s := mkStrategy new_id user_id name' source' (Some (confirmed_json request (interpret_strategy interpreted))) now now in
  validate_confirmed strip (confirm_document name source r) = Ok request ∧
  save_confirmed_strategy new_id now user_id request (mkStore t []) = (Ok s, mkStore (<[new_id := s]> t) []).
Proof.
  intros Hd Hr Hname Hsource Hfree request interpreted s.
  destruct (normalized_metadata draft text r name' source' Hd Hr) as [Hmeta Hsup].
  pose proof (normalized_parsed_ok draft text r Hd Hr) as (Hs & Hdef & Has). split.
  - unfold validate_confirmed, confirm_document. open_model. rewrite Hname. cbn [mbind result_bind]. rewrite Hsource.
    cbn [mbind result_bind]. rewrite validate_specification_dump by done. cbn [mbind result_bind].
    rewrite list_of_defaults, list_of_assumptions by done. cbn [mbind result_bind].
    rewrite !read_bool_dump. cbn [mbind result_bind]. by rewrite Hmeta.
  - pose proof (StrategyName_outcome strip (JStr name)) as Hn. pose proof (StrategySourceText_outcome strip (JStr source)) as Ht.
    rewrite Hname in Hn. rewrite Hsource in Ht. cbn [outcome] in Hn, Ht. unfold save_confirmed_strategy.
    change (cs_specification request) with (specification r).
    rewrite (proj2 (validate_strategy_semantics_iff _) Hsup). cbn [mbind result_bind].
    rewrite (proj2 (compile_strategy_Ok _ _) (conj Hsup eq_refl)). cbn [mbind result_bind].
    unfold save_strategy. change (commit_and_refresh (insert_strategy s) new_id (mkStore t []) = (Ok s, mkStore (<[new_id := s]> t) [])).
    rewrite (commit_refresh_runs (insert_strategy s) new_id t (<[new_id := s]> t) s); [done| |by rewrite lookup_insert_eq].
    assert (strategy_row_ok s = true) as Hrow.
    { unfold strategy_row_ok. cbn [st_name st_source_text s]. by rewrite (proj1 Hn), (proj2 Hn), Ht. }
    unfold insert_strategy. rewrite Hrow. change (st_id s) with new_id. by rewrite Hfree, bool_decide_eq_true_2 by done.
Qed.

Lemma parsed_strategy_confirmable_witness :
  let text := "Trade the 20/50 golden cross with a 5% stop loss"%string in
  ∃ r, normalize_strategy_draft empty_draft text = Ok r ∧
    requires_confirmation r = true ∧
    validate_confirmed (P := exact_pydantic) strip (confirm_document "Golden" text r) =
      Ok (mkConfirmed "Golden" text (specification r) (defaults_applied r) (assumptions r) (requires_confirmation r) true).
Proof.
  destruct (normalize_strategy_draft empty_draft "Trade the 20/50 golden cross with a 5% stop loss") as [r|e] eqn:E;
    [|vm_compute in E; discriminate E].
  exists r. split; [exact E|]. split; [vm_compute in E; injection E as <-; reflexivity|].
  apply (parsed_strategy_confirmable (L := exact_pydantic_laws) strip empty_draft
    "Trade the 20/50 golden cross with a 5% stop loss" r "Golden" "Golden"
    "Trade the 20/50 golden cross with a 5% stop loss" "Trade the 20/50 golden cross with a 5% stop loss" 1 7 0 ∅);
    [reflexivity|exact E|reflexivity|reflexivity|reflexivity].
Defined.
