(* ===== verification/PreviewQueue.v ===== *)
(** * The RQ preview queue ([backend/app/queue/preview_queue.py],
    [backend/app/queue/connection.py])

    RQ is a library: its queue, its registries and its job lookup are variables
    of the section, with the documented meaning of their range arguments as
    hypotheses ([Queue.get_job_ids offset length] returns at most [length]
    identifiers, a registry's range [start, end] is inclusive). *)

From S2P Require Import Prelude Models StrategySpec Uuid Config Effects.
From Stdlib Require Import ZArith QArith Lia.
From stdpp Require Import base list option strings gmap sets.
Local Open Scope Z_scope.

Definition FAILURE_CALLBACK : string := "app.workers.preview_worker.handle_preview_job_failure".
Definition FAILURE_CALLBACK_TIMEOUT_SECONDS : Z := 30.
Definition process_preview_job_name : string := "app.workers.preview_worker.process_preview_job".

(** ** Enqueueing *)
Record RqPreviewQueue : Type := mkQueue {
  q_job_timeout : Z;
  q_max_retries : Z;
  q_retry_intervals : list Z;
  q_result_ttl : Z;
  q_failure_ttl : Z }.

(** [Retry(max, interval)] *)
Record Retry : Type := mkRetry { retry_max : Z; retry_interval : list Z }.

(** The arguments of [Queue.enqueue_call]. *)
Record EnqueueCall : Type := mkCall {
  ec_func : string;
  ec_args : string * string * string * option string;
  ec_timeout : Z;
  ec_retry : option Retry;
  ec_result_ttl : Z;
  ec_failure_ttl : Z;
  ec_on_failure : string * Z }.

(** [l[-n:]] for [n > 0] *)
Definition last_items {A} (n : Z) (l : list A) : list A := drop (length l - Z.to_nat n) l.

Definition enqueue (q : RqPreviewQueue) (p : QueuePayload) : EnqueueCall :=
  let retries := match qp_retry_count p with None => q_max_retries q | Some n => n end in
  let retry := if 0 <? retries then Some (mkRetry retries (last_items retries (q_retry_intervals q)))
               else None in
  mkCall process_preview_job_name
    (uuid_str (qp_job_id p), uuid_str (qp_user_id p), qp_strategy_text p, qp_strategy_name p)
    (q_job_timeout q) retry (q_result_ttl q) (q_failure_ttl q)
    (FAILURE_CALLBACK, FAILURE_CALLBACK_TIMEOUT_SECONDS).

(** The options of the shared Redis client. *)
Record RedisOptions : Type := mkRedisOptions {
  ro_backoff_cap : Q;
  ro_backoff_base : Q;
  ro_retries : Z;
  ro_retry_on_error : list string;
  ro_socket_connect_timeout : Q;
  ro_socket_timeout : Q;
  ro_health_check_interval : Z }.

Definition get_redis_connection (s : Settings) : RedisOptions :=
  mkRedisOptions 1 (1 # 10) (redis_connection_retries s) ["ConnectionError"; "TimeoutError"]%string
    (redis_connect_timeout_seconds s) (redis_socket_timeout_seconds s) 30.

(** [get_preview_queue] *)
Definition get_preview_queue (s : Settings) : RqPreviewQueue :=
  mkQueue (preview_job_timeout_seconds s) (preview_job_max_retries s)
    (preview_job_retry_intervals_seconds s) (preview_job_result_ttl_seconds s)
    (preview_job_failure_ttl_seconds s).

(** ** Scanning the active jobs *)

(** An RQ job: its function's name and [str] of its arguments. *)
Record RqJob : Type := mkRqJob { rq_func_name : string; rq_args : list string }.

Definition NoSuchJobError : exn := OtherException "NoSuchJobError".

Definition scan_limit_error : exn :=
  RuntimeError "Preview queue exceeds the bounded reconciliation scan limit.".
Definition registry_limit_error : exn :=
  RuntimeError "Preview registries exceed the reconciliation scan limit.".

(** A job that is skipped represents no preview. *)
Ltac adds_nothing :=
  split; [by left|]; intros [?|(j' & a' & r' & E1 & E2 & E3 & E4)]; [done|congruence].

Section rq.
(** [queue.get_job_ids(offset, length)], [registry.get_job_ids(start, end)] of the
    started, deferred and scheduled registries, and [queue.fetch_job(id)]. *)
Variable queue_get_job_ids : Z → Z → list string.
Variable registries : list (Z → Z → list string).
Variable fetch_job : string → result (option RqJob).

(** The body of the loop over the registries. *)
Definition scan_registry (scan_limit : Z) (rq_job_ids : list string)
    (registry : Z → Z → list string) : result (list string) :=
  let remaining := scan_limit - Z.of_nat (length rq_job_ids) in
  if remaining <? 0 then Err registry_limit_error
  else
    let rq_job_ids := rq_job_ids ++ registry 0 remaining in
    if scan_limit <? Z.of_nat (length rq_job_ids) then Err registry_limit_error else Ok rq_job_ids.

Definition scan_job_ids (scan_limit : Z) : result (list string) :=
  let rq_job_ids := queue_get_job_ids 0 (scan_limit + 1) in
  if scan_limit <? Z.of_nat (length rq_job_ids) then Err scan_limit_error
  else foldM (scan_registry scan_limit) rq_job_ids registries.

(** The body of the loop over the fetched jobs. *)
Definition add_preview_id (preview_ids : gset Z) (rq_job_id : string) : result (gset Z) :=
  match fetch_job rq_job_id with
  | Err e => if decide (e = NoSuchJobError) then Ok preview_ids else Err e
  | Ok None => Ok preview_ids
  | Ok (Some job) =>
      if negb (String.eqb (rq_func_name job) process_preview_job_name) then Ok preview_ids
      else match rq_args job with
           | [] => Ok preview_ids
           | arg :: _ =>
               match uuid_of_string arg with
               | Ok u => Ok ({[ u ]} ∪ preview_ids)
               | Err _ => Ok preview_ids
               end
           end
  end.

(** [set(rq_job_ids)] is iterated once per identifier. *)
Definition active_preview_job_ids (scan_limit : Z) : result (gset Z) :=
  rq_job_ids ← scan_job_ids scan_limit;
  foldM add_preview_id ∅ (remove_dups rq_job_ids).

(** *** The contract *)

(** An RQ job stands for the preview job [u]. *)
Definition represents (rq_job_id : string) (u : UUID) : Prop :=
  ∃ job arg rest, fetch_job rq_job_id = Ok (Some job) ∧ rq_func_name job = process_preview_job_name ∧
    rq_args job = arg :: rest ∧ uuid_of_string arg = Ok u.

(** What the queue and the registries hold. *)
Variable queued_ids : list string.
Variable registered_ids : list (list string).

Hypothesis queue_range : ∀ n, 0 <= n → queue_get_job_ids 0 n = take (Z.to_nat n) queued_ids.
Hypothesis registry_range :
  Forall2 (λ registry ids, ∀ n, 0 <= n → registry 0 n = take (Z.to_nat (n + 1)) ids) registries registered_ids.

Definition total_active : Z := Z.of_nat (length (queued_ids ++ concat registered_ids)).

(** Looking a job up fails only because it is gone. *)
Definition fetch_reliable : Prop :=
  ∀ id e, id ∈ queued_ids ++ concat registered_ids → fetch_job id = Err e → e = NoSuchJobError.

Lemma scan_registry_spec limit acc registry ids :
  (∀ n, 0 <= n → registry 0 n = take (Z.to_nat (n + 1)) ids) → Z.of_nat (length acc) <= limit →
  scan_registry limit acc registry =
    if Z.of_nat (length (acc ++ ids)) <=? limit then Ok (acc ++ ids) else Err registry_limit_error.
Proof.
  intros Hreg Hacc. unfold scan_registry. rewrite (proj2 (Z.ltb_ge _ 0)) by lia. rewrite Hreg by lia.
  rewrite !length_app, length_take. destruct (Z.leb_spec (Z.of_nat (length acc + length ids)%nat) limit).
  - rewrite (proj2 (Z.ltb_ge _ _)) by lia. by rewrite take_ge by lia.
  - by rewrite (proj2 (Z.ltb_lt _ _)) by lia.
Qed.

Lemma scan_registries limit acc :
  Z.of_nat (length acc) <= limit →
  foldM (scan_registry limit) acc registries =
    if Z.of_nat (length (acc ++ concat registered_ids)) <=? limit
    then Ok (acc ++ concat registered_ids) else Err registry_limit_error.
Proof.
  clear queue_range fetch_job. revert acc. pose proof registry_range as Hrange. clear registry_range.
  induction Hrange as [|reg ids regs idss Hreg _ IH]; intros acc Hacc.
  - simpl. rewrite app_nil_r. by rewrite (proj2 (Z.leb_le _ _) Hacc).
  - cbn [foldM concat]. rewrite (scan_registry_spec limit acc reg ids Hreg Hacc).
    destruct (Z.leb_spec (Z.of_nat (length (acc ++ ids))) limit) as [Hl|Hl]; simpl.
    + rewrite IH by done. by rewrite <- app_assoc.
    + rewrite app_assoc, length_app. by rewrite (proj2 (Z.leb_gt _ _)) by lia.
Qed.

Lemma scan_job_ids_spec limit :
  0 <= limit →
  if total_active <=? limit then scan_job_ids limit = Ok (queued_ids ++ concat registered_ids)
  else scan_job_ids limit = Err scan_limit_error ∨ scan_job_ids limit = Err registry_limit_error.
Proof.
  intros Hl. unfold scan_job_ids, total_active. rewrite queue_range by lia. rewrite length_take.
  destruct (Z.ltb_spec limit (Z.of_nat (Nat.min (Z.to_nat (limit + 1)) (length queued_ids)))) as [H|H].
  - rewrite (proj2 (Z.leb_gt _ _)) by (rewrite length_app; lia). by left.
  - rewrite take_ge by lia. pose proof (scan_registries limit queued_ids ltac:(lia)) as Hs.
    rewrite Hs. destruct (_ <=? limit); [done|by right].
Qed.

Lemma add_preview_ids limit_ids acc ids :
  (∀ id e, id ∈ limit_ids → fetch_job id = Err e → e = NoSuchJobError) →
  foldM add_preview_id acc limit_ids = Ok ids →
  ∀ u, u ∈ ids ↔ u ∈ acc ∨ ∃ id, id ∈ limit_ids ∧ represents id u.
Proof.
  revert acc. induction limit_ids as [|id l IH]; intros acc Hf H u; simpl in H.
  - bind_inv. split; [by left|]. intros [?|(id & Hid & _)]; [done|]. by apply not_elem_of_nil in Hid.
  - apply bind_Ok_inv in H as (acc' & Ha & H).
    rewrite (IH acc') by (first [done | intros i e Hi; apply Hf; by right]).
    assert (u ∈ acc' ↔ u ∈ acc ∨ represents id u) as ->.
    2:{ setoid_rewrite elem_of_cons. clear. naive_solver. }
    unfold represents. unfold add_preview_id in Ha. destruct (fetch_job id) as [[job|]|e] eqn:He.
    + destruct (String.eqb_spec (rq_func_name job) process_preview_job_name) as [Hn|Hn]; simpl in Ha.
      * destruct (rq_args job) as [|arg rest] eqn:Har; [bind_inv; adds_nothing|].
        destruct (uuid_of_string arg) as [v|e] eqn:Hv; bind_inv; [|adds_nothing].
        rewrite elem_of_union, elem_of_singleton. split; [intros [->|]; [right; eauto 10|by left]|].
        intros [?|(job' & arg' & rest' & [= <-] & _ & E & Hu)]; [by right|].
        rewrite Har in E. injection E as <- <-. left. congruence.
      * bind_inv. adds_nothing.
    + bind_inv. adds_nothing.
    + rewrite decide_True in Ha by (eapply Hf; [by left|done]). bind_inv. adds_nothing.
Qed.

Lemma add_preview_total acc l :
  (∀ id e, id ∈ l → fetch_job id = Err e → e = NoSuchJobError) → ∃ ids, foldM add_preview_id acc l = Ok ids.
Proof.
  revert acc. induction l as [|id l IH]; intros acc Hf; simpl; [eauto|].
  assert (∃ acc', add_preview_id acc id = Ok acc') as [acc' ->].
  { unfold add_preview_id. destruct (fetch_job id) as [[job|]|e] eqn:He; eauto.
    - destruct (negb _), (rq_args job); eauto. destruct (uuid_of_string _); eauto.
    - rewrite decide_True by (eapply Hf; [by left|done]). eauto. }
  simpl. apply IH. intros i e Hi. apply Hf. by right.
Qed.

(** The scan is complete or refuses: when the queue and its registries hold at
    most [scan_limit] jobs, it returns exactly the identifiers of the preview
    jobs among them; when they hold more, it raises RuntimeError and never
    returns a partial set. *)
Theorem active_scan_complete (limit : Z) :
  0 <= limit → fetch_reliable →
  if total_active <=? limit
  then ∃ ids, active_preview_job_ids limit = Ok ids ∧
         ∀ u, u ∈ ids ↔ ∃ id, id ∈ queued_ids ++ concat registered_ids ∧ represents id u
  else ∃ msg, active_preview_job_ids limit = Err (RuntimeError msg).
Proof.
  intros Hl Hf. pose proof (scan_job_ids_spec limit Hl) as Hs. unfold active_preview_job_ids.
  destruct (total_active <=? limit).
  - rewrite Hs. simpl. set (l := queued_ids ++ concat registered_ids) in *.
    assert (∀ id e, id ∈ remove_dups l → fetch_job id = Err e → e = NoSuchJobError) as Hf'.
    { intros id e Hid. apply Hf. by apply elem_of_remove_dups. }
    destruct (add_preview_total ∅ _ Hf') as [ids Hids]. exists ids. split; [done|]. intros u.
    rewrite (add_preview_ids _ _ _ Hf' Hids). setoid_rewrite elem_of_remove_dups. set_solver.
  - destruct Hs as [->| ->]; simpl; eauto.
Qed.
End rq.

(** Two queued jobs, one of them a preview, and a scheduled preview; the third
    identifier in the registry has expired. *)
Definition sample_fetch (id : string) : result (option RqJob) :=
  if String.eqb id "a" then Ok (Some (mkRqJob process_preview_job_name [uuid_str 7; uuid_str 1]))
  else if String.eqb id "b" then Ok (Some (mkRqJob "app.other" [uuid_str 8]))
  else if String.eqb id "c" then Ok (Some (mkRqJob process_preview_job_name [uuid_str 9]))
  else Err NoSuchJobError.

Lemma active_scan_complete_witness :
  let scheduled start stop := take (Z.to_nat (stop + 1)) ["c"; "d"]%string in
  let queue offset n := take (Z.to_nat n) ["a"; "b"]%string in
  (active_preview_job_ids queue [scheduled] sample_fetch 10 = Ok {[ 7; 9 ]}) ∧
  (∃ ids, active_preview_job_ids queue [scheduled] sample_fetch 10 = Ok ids ∧
     ∀ u, u ∈ ids ↔ ∃ id, id ∈ ["a"; "b"; "c"; "d"]%string ∧ represents sample_fetch id u) ∧
  (∃ msg, active_preview_job_ids queue [scheduled] sample_fetch 3 = Err (RuntimeError msg)).
Proof.
  intros scheduled queue.
  assert (∀ limit, 0 <= limit → fetch_reliable sample_fetch ["a"; "b"]%string [["c"; "d"]%string]) as Hf.
  { intros limit _ id e _ He. unfold sample_fetch in He.
    destruct (String.eqb id "a"), (String.eqb id "b"), (String.eqb id "c"); congruence. }
  assert (Forall2 (λ registry ids, ∀ n, 0 <= n → registry 0 n = take (Z.to_nat (n + 1)) ids)
            [scheduled] [["c"; "d"]%string]) as Hr by (constructor; [done|constructor]).
  split_and!.
  - vm_compute. reflexivity.
  - exact (active_scan_complete queue [scheduled] sample_fetch ["a"; "b"]%string [["c"; "d"]%string]
      (λ n _, eq_refl) Hr 10 ltac:(lia) (Hf 10 ltac:(lia))).
  - exact (active_scan_complete queue [scheduled] sample_fetch ["a"; "b"]%string [["c"; "d"]%string]
      (λ n _, eq_refl) Hr 3 ltac:(lia) (Hf 3 ltac:(lia))).
Defined.

(** ** Retries *)

Lemma last_items_length {A} n (l : list A) :
  0 <= n <= Z.of_nat (length l) → length (last_items n l) = Z.to_nat n.
Proof. intros H. unfold last_items. rewrite length_drop. lia. Qed.

(** The intervals of a call, in the order RQ uses them. *)
Definition call_intervals (c : EnqueueCall) : list Z :=
  match ec_retry c with Some r => retry_interval r | None => [] end.

(** With loaded settings an enqueued job is told to retry exactly as often as
    asked (or as configured), with one nonnegative interval per retry; and a
    job enqueued again with the retries it has left waits the same intervals as
    the remaining retries of the original call. *)
Theorem retry_schedule_resumes (s : Settings) (p : QueuePayload) (attempts : Z) :
  retries_covered s → qp_retry_count p = None →
  0 <= attempts <= preview_job_max_retries s →
  let q := get_preview_queue s in
  let first := enqueue q p in
  let again := enqueue q (mkPayload (qp_job_id p) (qp_user_id p) (qp_strategy_text p) (qp_strategy_name p)
                            (Some (preview_job_max_retries s - attempts))) in
  Z.of_nat (length (call_intervals first)) = preview_job_max_retries s ∧
  Forall (λ i, 0 <= i) (call_intervals first) ∧
  (ec_retry again = None ↔ attempts = preview_job_max_retries s) ∧
  call_intervals again = drop (Z.to_nat attempts) (call_intervals first) ∧
  ec_func again = ec_func first ∧ ec_args again = ec_args first.
Proof.
  intros [Hpos Hcov] Hp Ha. cbn zeta. unfold enqueue, call_intervals. rewrite Hp. cbn [qp_retry_count ec_retry get_preview_queue q_max_retries q_retry_intervals qp_job_id qp_user_id qp_strategy_text qp_strategy_name ec_func ec_args].
  set (m := preview_job_max_retries s) in *. set (l := preview_job_retry_intervals_seconds s) in *.
  destruct (Z.ltb_spec 0 m) as [Hm|Hm]; destruct (Z.ltb_spec 0 (m - attempts)) as [Hr|Hr]; try lia; cbn [retry_interval].
  - split_and!; try done.
    + rewrite last_items_length; lia.
    + by apply Forall_drop.
    + split; [done|lia].
    + unfold last_items. rewrite drop_drop. f_equal. lia.
  - split_and!; try done.
    + rewrite last_items_length; lia.
    + by apply Forall_drop.
    + split; [lia|done].
    + symmetry. apply drop_ge. rewrite last_items_length; lia.
  - split_and!; try done; [simpl; lia|split; [lia|done]|by rewrite drop_nil].
Qed.

Lemma retry_schedule_resumes_witness :
  let q := get_preview_queue sample_settings in
  call_intervals (enqueue q (mkPayload 7 1 "buy SPY" None None)) = [5; 30] ∧
  call_intervals (enqueue q (mkPayload 7 1 "buy SPY" None (Some 1))) = [30] ∧
  call_intervals (enqueue q (mkPayload 7 1 "buy SPY" None (Some 1))) =
    drop 1 (call_intervals (enqueue q (mkPayload 7 1 "buy SPY" None None))).
Proof.
  split_and!; [done..|].
  destruct (retry_schedule_resumes sample_settings (mkPayload 7 1 "buy SPY" None None) 1) as (_ & _ & _ & H & _);
    [by repeat constructor|done|by vm_compute|exact H].
Defined.

(** No call to Redis waits without bound: both timeouts and the retries are
    limited by the settings. *)
Lemma redis_connection_bounded (s : Settings) :
  load_settings s = Ok s →
  let o := get_redis_connection s in
  (0 < ro_socket_connect_timeout o <= 30)%Q ∧ (0 < ro_socket_timeout o <= 60)%Q ∧ 0 <= ro_retries o <= 10.
Proof.
  intros H%settings_load_iff. destruct H as (Hf & _). unfold settings_fields_ok in Hf.
  assert (∀ hi v, gt0_leQ hi v = true → (0 < v <= inject_Z hi)%Q) as HQ.
  { intros hi v [H1%negb_true_iff H2%Qle_bool_iff]%andb_true_iff. split; [|done]. apply Qnot_le_lt. intros H.
    by rewrite (proj2 (Qle_bool_iff v 0) H) in H1. }
  repeat (apply andb_true_iff in Hf as [Hf ?]). intros o.
  split; [by apply (HQ 30)|]. split; [by apply (HQ 60)|]. unfold ge0_le in *. propify_bool. cbn. lia.
Qed.
