(* ===== verification/JobStore.v ===== *)
(** * Durable job state ([backend/app/services/job_store.py])

    Every function as a computation on the world, with its log calls.  An ORM flush updates the
    columns it changed on the row with the object's primary key, and raises
    StaleDataError when that row is gone.

    The specification is a lifecycle: a relation between an old and a new row
    that says which moves exist.  Every operation refines it, terminal rows
    never move under a guarded operation, and the well-formedness of rows
    (stage, progress and timestamps agree with the status) is invariant. *)

From S2P Require Import Prelude Models Text StrategySpec Serialization Uuid Logging Effects.
From Stdlib Require Import ZArith Lia.
From stdpp Require Import base list option strings gmap sorting relations.
Local Open Scope Z_scope.
Local Open Scope io_scope.

(** ** Operations *)

Definition integrity_error : exn := OtherException "IntegrityError".
Definition stale_data_error : exn := OtherException "StaleDataError".

(** [timedelta(hours=n)] in microseconds *)
Definition hours (n : Z) : Z := n * 3600000000.

Definition insert_job (j : PreviewJob) (t : JobTable) : result unit * JobTable :=
  if job_row_ok j && bool_decide (t !! pj_id j = None) then (Ok (), <[pj_id j := j]> t)
  else (Err integrity_error, t).

Definition read_job (id : UUID) (t : JobTable) : result (option PreviewJob) * JobTable :=
  (Ok (t !! id), t).

(** [session.refresh(job)] *)
Definition refresh_job (id : UUID) : IO PreviewJob :=
  db (λ t, (match t !! id with
            | Some j => Ok j
            | None => Err (OtherException "InvalidRequestError")
            end, t)).

Definition new_job (job_id user_id : UUID) (strategy_text : string) (strategy_name : option string)
    (ttl_hours : Z) (now : datetime) : PreviewJob :=
  mkJob job_id user_id queued stage_queued 5 strategy_text strategy_name None None 0
    now None None (now + hours ttl_hours).

Definition status_name (s : JobStatus) : string :=
  match s with queued => "queued" | running => "running" | completed => "completed" | failed => "failed" end.

Definition transition_record (job : PreviewJob) (event : string) (previous_status : json) (new_status : string) : JobLog :=
  mkJobLog log_info "Preview job state changed"
    (log_fields
       [("event", JStr event); ("component", JStr "job_store"); ("job_id", JStr (uuid_str (pj_id job))); ("queue", JStr "preview");
        ("previous_status", previous_status); ("new_status", JStr new_status); ("attempt", JInt (pj_attempt_count job));
        ("outcome", JStr "success")]%string).

Definition log_transition (job : PreviewJob) (event : string) (previous_status : json) (new_status : string) : IO unit :=
  emit (transition_record job event previous_status new_status).

(** [if job is not None: log_transition(job, ...)] *)
Definition log_loaded (job : option PreviewJob) (event previous_status new_status : string) : IO unit :=
  match job with Some j => log_transition j event (JStr previous_status) new_status | None => io_ret () end.

Definition create_job (job_id user_id : UUID) (strategy_text : string)
    (strategy_name : option string) (ttl_hours : Z) : IO PreviewJob :=
  now <~ datetime_now;
  _ <~ db (insert_job (new_job job_id user_id strategy_text strategy_name ttl_hours now));
  job <~ refresh_job job_id;
  _ <~ log_transition job "preview_job_created" JNull "queued";
  io_ret job.

Definition get_job (job_id user_id : UUID) : IO (option PreviewJob) :=
  db (λ t, (Ok (match t !! job_id with
                | Some j => if decide (pj_user_id j = user_id) then Some j else None
                | None => None
                end), t)).

Definition claim_eligible (allow_running_retry : bool) (j : PreviewJob) : bool :=
  bool_decide (pj_status j = queued) || (allow_running_retry && bool_decide (pj_status j = running)).

Definition claimed (started_at : datetime) (j : PreviewJob) : PreviewJob :=
  mkJob (pj_id j) (pj_user_id j) running parsing 20 (pj_strategy_text j) (pj_strategy_name j) None
    (pj_preview_result j) (pj_attempt_count j + 1) (pj_created_at j) (Some started_at) None
    (pj_expires_at j).

(** An UPDATE of one row with a guard; the number of rows it changed. *)
Definition update_where (id : UUID) (guard : PreviewJob → bool) (f : PreviewJob → PreviewJob)
    (t : JobTable) : result Z * JobTable :=
  match t !! id with
  | Some j => if guard j then (Ok 1, <[id := f j]> t) else (Ok 0, t)
  | None => (Ok 0, t)
  end.

Definition report_claim (job_id : UUID) (allow_running_retry : bool) : IO (option PreviewJob) :=
  job <~ db (read_job job_id);
  _ <~ log_loaded job "preview_job_claimed" (if allow_running_retry then "queued_or_running" else "queued") "running";
  io_ret job.

Definition claim_job (job_id : UUID) (allow_running_retry : bool) : IO (option PreviewJob) :=
  started_at <~ datetime_now;
  rowcount <~ db (update_where job_id (claim_eligible allow_running_retry) (claimed started_at));
  if negb (rowcount =? 1) then io_ret None else report_claim job_id allow_running_retry.

(** The flush of an object's changed columns. *)
Definition flush (id : UUID) (f : PreviewJob → PreviewJob) (t : JobTable) : result unit * JobTable :=
  match t !! id with
  | Some j => (Ok (), <[id := f j]> t)
  | None => (Err stale_data_error, t)
  end.

Definition with_progress (stage : JobStage) (progress : Z) (j : PreviewJob) : PreviewJob :=
  mkJob (pj_id j) (pj_user_id j) (pj_status j) stage progress (pj_strategy_text j)
    (pj_strategy_name j) (pj_error_message j) (pj_preview_result j) (pj_attempt_count j)
    (pj_created_at j) (pj_started_at j) (pj_completed_at j) (pj_expires_at j).

Definition update_progress (job : PreviewJob) (stage : JobStage) (progress : Z) : IO unit :=
  db (flush (pj_id job) (with_progress stage progress)).

Definition as_completed (result : json) (now : datetime) (j : PreviewJob) : PreviewJob :=
  mkJob (pj_id j) (pj_user_id j) completed stage_completed 100 (pj_strategy_text j)
    (pj_strategy_name j) (pj_error_message j) (Some result) (pj_attempt_count j) (pj_created_at j)
    (pj_started_at j) (Some now) (pj_expires_at j).

Definition complete_job (job : PreviewJob) (result : json) : IO unit :=
  now <~ datetime_now;
  _ <~ db (flush (pj_id job) (as_completed result now));
  log_transition job "preview_job_completed" (JStr (status_name (pj_status job))) "completed".

Definition as_failed (error : string) (now : datetime) (j : PreviewJob) : PreviewJob :=
  mkJob (pj_id j) (pj_user_id j) failed stage_failed 100 (pj_strategy_text j)
    (pj_strategy_name j) (Some error) (pj_preview_result j) (pj_attempt_count j) (pj_created_at j)
    (pj_started_at j) (Some now) (pj_expires_at j).

Definition fail_job (job : PreviewJob) (error : string) : IO unit :=
  now <~ datetime_now;
  _ <~ db (flush (pj_id job) (as_failed error now));
  log_transition job "preview_job_failed" (JStr (status_name (pj_status job))) "failed".

Definition requeued (j : PreviewJob) : PreviewJob :=
  mkJob (pj_id j) (pj_user_id j) queued stage_queued 5 (pj_strategy_text j) (pj_strategy_name j)
    None (pj_preview_result j) (pj_attempt_count j) (pj_created_at j) None None (pj_expires_at j).

(** [status.in_(("queued", "running"))] *)
Definition nonterminal (j : PreviewJob) : bool :=
  bool_decide (pj_status j = queued) || bool_decide (pj_status j = running).

Definition default_final_error : string := "Unable to complete the strategy preview.".

Definition report_transition (job_id : UUID) (will_retry : bool) (rowcount : Z) : IO bool :=
  let changed := rowcount =? 1 in
  if changed then
    job <~ db (read_job job_id);
    _ <~ log_loaded job "preview_job_operational_transition" "running_or_queued" (if will_retry then "queued" else "failed");
    io_ret true
  else io_ret false.

Definition transition_job_after_operational_failure (job_id : UUID) (will_retry : bool)
    (final_error : string) : IO bool :=
  values <~ (if will_retry then io_ret requeued
             else now <~ datetime_now; io_ret (as_failed final_error now));
  rowcount <~ db (update_where job_id nonterminal values);
  report_transition job_id will_retry rowcount.

(** [order_by(created_at.asc(), id.asc())] *)
Definition older (j1 j2 : PreviewJob) : Prop :=
  pj_created_at j1 < pj_created_at j2 ∨ (pj_created_at j1 = pj_created_at j2 ∧ pj_id j1 <= pj_id j2).
#[global] Instance older_dec : RelDecision older.
Proof. intros j1 j2. unfold older. apply _. Defined.

Definition reconciliation_candidates (limit : nat) (t : JobTable) : list PreviewJob :=
  take limit (merge_sort older (filter (λ j, nonterminal j = true) (map_to_list t).*2)).

Definition list_reconciliation_candidates (limit : nat) : IO (list PreviewJob) :=
  db (λ t, (Ok (reconciliation_candidates limit t), t)).

Definition delete_expired (now : datetime) (t : JobTable) : result Z * JobTable :=
  (Ok (Z.of_nat (size (filter (λ kv, pj_expires_at kv.2 < now) t))),
   filter (λ kv, ¬ pj_expires_at kv.2 < now) t).

Definition delete_expired_jobs (now : option datetime) : IO Z :=
  now <~ (match now with Some now => io_ret now | None => datetime_now end);
  db (delete_expired now).

(** *** Advisory locks *)
Definition try_acquire_preview_job_lock (job_id : UUID) : IO (bool * option Z) :=
  postgresql <~ on_postgresql;
  if negb postgresql then io_ret (true, None) else pg_try_advisory_lock (advisory_lock_keys job_id).

Definition release_preview_job_lock (job_id : UUID) : IO unit :=
  postgresql <~ on_postgresql;
  if negb postgresql then io_ret () else pg_advisory_unlock (advisory_lock_keys job_id).

(** The polling loop; [fuel] bounds the polls.  Each failed poll is rolled back,
    and then reads the monotonic clock once against the deadline. *)
Fixpoint acquire_loop (fuel : nat) (job_id : UUID) (deadline : Z) : IO (option bool) :=
  match fuel with
  | O => io_ret None
  | S fuel =>
      '(acquired, now) <~ try_acquire_preview_job_lock job_id;
      if acquired : bool then io_ret (Some true)
      else
        _ <~ rollback;
        match now with
        | Some now => if deadline <=? now then io_ret (Some false)
                      else acquire_loop fuel job_id deadline
        | None => io_ret (Some false)
        end
  end.

(** A poll more than there are answers: the lock is free after the last one.
    Every wait of the code is covered by a long enough list, since it ends at
    the first poll that succeeds or is past the deadline. *)
Definition acquire_fuel (w : World) : nat := S (length (w_polls w)).

(** [acquire_preview_job_lock] from monotonic time 0; [RuntimeError "fuel"]
    stands for running out of fuel, which never happens. *)
Definition acquire_preview_job_lock (job_id : UUID) (timeout : Z) : IO bool := λ w,
  match acquire_loop (acquire_fuel w) job_id timeout w with
  | (Ok (Some b), w1) => (Ok b, w1)
  | (Ok None, w1) => (Err (RuntimeError "fuel"), w1)
  | (Err e, w1) => (Err e, w1)
  end.

(** ** The lifecycle *)
Definition terminal (j : PreviewJob) : Prop := pj_status j = completed ∨ pj_status j = failed.

(** The progress reported in each stage of a running job. *)
Definition stage_progress (s : JobStage) : option Z :=
  match s with
  | parsing => Some 20 | validating => Some 35 | compiling => Some 50 | loading_data => Some 70
  | backtesting => Some 85 | generating_results => Some 95 | _ => None
  end.

(** What a job keeps for life. *)
Definition identity (j : PreviewJob) : UUID * UUID * string * option string * datetime * datetime :=
  (pj_id j, pj_user_id j, pj_strategy_text j, pj_strategy_name j, pj_created_at j, pj_expires_at j).

(** A move of a row, in its fields: who the job is never changes, only a queued
    or running job moves, and every field of the new row is accounted for. *)
Inductive lifecycle (j j' : PreviewJob) : Prop :=
  | lc_start :
      identity j' = identity j → pj_status j = queued ∨ pj_status j = running →
      pj_status j' = running → pj_stage j' = parsing → pj_progress j' = 20 → pj_error_message j' = None →
      pj_preview_result j' = pj_preview_result j → pj_attempt_count j' = pj_attempt_count j + 1 →
      is_Some (pj_started_at j') → pj_completed_at j' = None → lifecycle j j'
  | lc_advance :
      identity j' = identity j → pj_status j = running →
      pj_status j' = running → stage_progress (pj_stage j') = Some (pj_progress j') →
      pj_error_message j' = pj_error_message j → pj_preview_result j' = pj_preview_result j →
      pj_attempt_count j' = pj_attempt_count j → pj_started_at j' = pj_started_at j →
      pj_completed_at j' = pj_completed_at j → lifecycle j j'
  | lc_finish :
      identity j' = identity j → pj_status j = running →
      pj_status j' = completed → pj_stage j' = stage_completed → pj_progress j' = 100 →
      pj_error_message j' = pj_error_message j → is_Some (pj_preview_result j') →
      pj_attempt_count j' = pj_attempt_count j → pj_started_at j' = pj_started_at j →
      is_Some (pj_completed_at j') → lifecycle j j'
  | lc_give_up :
      identity j' = identity j → pj_status j = queued ∨ pj_status j = running →
      pj_status j' = failed → pj_stage j' = stage_failed → pj_progress j' = 100 →
      is_Some (pj_error_message j') → pj_preview_result j' = pj_preview_result j →
      pj_attempt_count j' = pj_attempt_count j → pj_started_at j' = pj_started_at j →
      is_Some (pj_completed_at j') → lifecycle j j'
  | lc_return :
      identity j' = identity j → pj_status j = queued ∨ pj_status j = running →
      pj_status j' = queued → pj_stage j' = stage_queued → pj_progress j' = 5 → pj_error_message j' = None →
      pj_preview_result j' = pj_preview_result j → pj_attempt_count j' = pj_attempt_count j →
      pj_started_at j' = None → pj_completed_at j' = None → lifecycle j j'.

(** Status, stage, progress and timestamps agree. *)
Definition job_wf (j : PreviewJob) : Prop :=
  0 <= pj_attempt_count j ∧
  match pj_status j with
  | queued => pj_stage j = stage_queued ∧ pj_progress j = 5 ∧ pj_started_at j = None ∧
              pj_completed_at j = None ∧ pj_error_message j = None
  | running => stage_progress (pj_stage j) = Some (pj_progress j) ∧ is_Some (pj_started_at j) ∧
               pj_completed_at j = None ∧ pj_error_message j = None ∧ 1 <= pj_attempt_count j
  | completed => pj_stage j = stage_completed ∧ pj_progress j = 100 ∧
                 is_Some (pj_completed_at j) ∧ is_Some (pj_preview_result j) ∧ pj_error_message j = None
  | failed => pj_stage j = stage_failed ∧ pj_progress j = 100 ∧
              is_Some (pj_completed_at j) ∧ is_Some (pj_error_message j)
  end.

(** ** Lemmas on the lifecycle *)
Lemma nonterminal_spec j : nonterminal j = true ↔ ¬ terminal j.
Proof.
  unfold nonterminal, terminal. rewrite orb_true_iff, !bool_decide_eq_true.
  destruct (pj_status j); intuition congruence.
Qed.

Lemma nonterminal_status j : nonterminal j = true → pj_status j = queued ∨ pj_status j = running.
Proof. unfold nonterminal. by rewrite orb_true_iff, !bool_decide_eq_true. Qed.

(** The writes of the store are moves. *)
Lemma claim_lifecycle allow now j : claim_eligible allow j = true → lifecycle j (claimed now j).
Proof.
  unfold claim_eligible. rewrite orb_true_iff, andb_true_iff, !bool_decide_eq_true. intros H.
  apply lc_start; simpl; try done; tauto.
Qed.

Lemma progress_lifecycle j stage progress :
  pj_status j = running → stage_progress stage = Some progress → lifecycle j (with_progress stage progress j).
Proof. intros. by apply lc_advance. Qed.

Lemma complete_lifecycle j result now : pj_status j = running → lifecycle j (as_completed result now j).
Proof. intros. apply lc_finish; simpl; try done; by eexists. Qed.

Lemma fail_lifecycle j error now : nonterminal j = true → lifecycle j (as_failed error now j).
Proof. intros H%nonterminal_status. apply lc_give_up; simpl; try done; by eexists. Qed.

Lemma requeue_lifecycle j : nonterminal j = true → lifecycle j (requeued j).
Proof. intros H%nonterminal_status. by apply lc_return. Qed.

(** What the moves have in common. *)
Lemma lifecycle_from j j' : lifecycle j j' → ¬ terminal j.
Proof. unfold terminal. intros []; intuition congruence. Qed.

Lemma lifecycle_identity j j' : lifecycle j j' → identity j' = identity j.
Proof. by intros []. Qed.

Lemma lifecycle_attempts j j' :
  lifecycle j j' → pj_attempt_count j <= pj_attempt_count j' <= pj_attempt_count j + 1.
Proof. intros []; lia. Qed.

Lemma lifecycle_wf j j' : job_wf j → lifecycle j j' → job_wf j'.
Proof.
  intros [Ha Hj] Hl. unfold job_wf.
  destruct Hl as [? ? Hs|? H Hs ? He Hr Hc Hst Hco|? H Hs ? ? He ? Hc ? ?|? ? Hs|? ? Hs]; rewrite Hs; rewrite ?H in Hj;
    (split; [lia|]).
  - match goal with E : pj_stage j' = _, E' : pj_progress j' = _ |- _ => rewrite E, E' end. by split_and!; [| | | |lia].
  - rewrite He, Hc, Hst, Hco. naive_solver.
  - rewrite He. naive_solver.
  - done.
  - done.
Qed.

Lemma lifecycle_rtc_wf j j' : job_wf j → rtc lifecycle j j' → job_wf j'.
Proof. intros Hj. induction 1; eauto using lifecycle_wf. Qed.

Lemma lifecycle_rtc_identity j j' : rtc lifecycle j j' → identity j' = identity j.
Proof. induction 1 as [|? ? ? H]; [done|]. apply lifecycle_identity in H. congruence. Qed.

Lemma lifecycle_rtc_terminal j j' : terminal j → rtc lifecycle j j' → j' = j.
Proof. intros Ht H. destruct H as [|j j1 j2 H _]; [done|]. by apply lifecycle_from in H. Qed.

Lemma lifecycle_rtc_attempts j j' : rtc lifecycle j j' → pj_attempt_count j <= pj_attempt_count j'.
Proof. induction 1 as [|? ? ? H]; [lia|]. apply lifecycle_attempts in H. lia. Qed.

Lemma claimed_running now j : pj_status (claimed now j) = running.
Proof. done. Qed.

(** ** The guarantee of the store

    [table_moves]: every row comes from a row of the same key by lifecycle
    moves, or from a newly created job; rows may disappear. *)
Definition initial_job (j : PreviewJob) : Prop :=
  pj_status j = queued ∧ pj_attempt_count j = 0 ∧ pj_preview_result j = None ∧ job_wf j.

Definition from_row (id : UUID) (r : option PreviewJob) (j' : PreviewJob) : Prop :=
  (∃ j, r = Some j ∧ rtc lifecycle j j') ∨
  (∃ j0, initial_job j0 ∧ pj_id j0 = id ∧ rtc lifecycle j0 j').

Definition table_moves (t t' : JobTable) : Prop := ∀ id j', t' !! id = Some j' → from_row id (t !! id) j'.

(** Every row is well formed and stored under its own key. *)
Definition table_wf (t : JobTable) : Prop := ∀ id j, t !! id = Some j → job_wf j ∧ pj_id j = id.

#[global] Instance table_moves_preorder : PreOrder table_moves.
Proof.
  split.
  - intros t id j Hj. left. by exists j.
  - intros t1 t2 t3 H12 H23 id j3 H3. destruct (H23 id j3 H3) as [(j2 & H2 & Hl)|?]; [|by right].
    destruct (H12 id j2 H2) as [(j1 & H1 & Hl')|(j0 & H0 & Hi & Hl')].
    + left. exists j1. split; [done|]. by etransitivity.
    + right. exists j0. split; [done|]. split; [done|]. by etransitivity.
Qed.

Lemma table_moves_wf t t' : table_wf t → table_moves t t' → table_wf t'.
Proof.
  intros Hwf Hm id j' Hj. destruct (Hm id j' Hj) as [(j & H & Hl)|(j0 & (_ & _ & _ & H) & <- & Hl)].
  - destruct (Hwf id j H) as [Hj1 <-]. split; [by eapply lifecycle_rtc_wf|].
    by injection (lifecycle_rtc_identity _ _ Hl).
  - split; [by eapply lifecycle_rtc_wf|]. by injection (lifecycle_rtc_identity _ _ Hl).
Qed.

Lemma table_moves_insert t id j j' :
  t !! id = Some j → lifecycle j j' → table_moves t (<[id := j']> t).
Proof.
  intros Hj Hl k x Hx. left. destruct (decide (k = id)) as [->|Hne].
  - rewrite lookup_insert_eq in Hx. injection Hx as <-. exists j. split; [done|]. by apply rtc_once.
  - rewrite lookup_insert_ne in Hx by done. by exists x.
Qed.

Lemma update_where_moves id guard f t :
  (∀ j, guard j = true → lifecycle j (f j)) → table_moves t (update_where id guard f t).2.
Proof.
  intros Hf. unfold update_where. destruct (t !! id) as [j|] eqn:Hj; [|done].
  destruct (guard j) eqn:Hg; [|done]. simpl. by apply table_moves_insert with j; [|apply Hf].
Qed.

Lemma flush_moves id f t :
  (∀ j, t !! id = Some j → lifecycle j (f j)) → table_moves t (flush id f t).2.
Proof.
  intros Hf. unfold flush. destruct (t !! id) as [j|] eqn:Hj; [|done].
  simpl. apply table_moves_insert with j; [done|]. by apply Hf.
Qed.

Lemma insert_job_moves j t : initial_job j → table_moves t (insert_job j t).2.
Proof.
  intros Hj. unfold insert_job. destruct (_ && _); [|done]. simpl. intros k x Hx.
  destruct (decide (k = pj_id j)) as [->|Hne].
  - rewrite lookup_insert_eq in Hx. injection Hx as <-. right. by exists j.
  - rewrite lookup_insert_ne in Hx by done. left. by exists x.
Qed.

Lemma delete_expired_moves now t : table_moves t (delete_expired now t).2.
Proof.
  intros k x Hx. simpl in Hx. apply map_lookup_filter_Some in Hx as [Hx _]. left. by exists x.
Qed.

(** A computation under the guarantee: it moves the table along the lifecycle. *)
Definition guarantees {A} (m : IO A) : Prop := ∀ w,
  respects table_moves w →
  wp m (λ _ w', table_moves (w_jobs w) (w_jobs w') ∧ respects table_moves w') w.

Lemma guarantees_db {A} (f : JobTable → result A * JobTable) :
  (∀ t, table_moves t (f t).2) → guarantees (db f).
Proof.
  intros Hf w Hr. apply (wp_db table_moves); [done|]. intros t w1 Ht ->.
  pose proof (respects_pop _ w Hr) as Hp.
  split; [|split]; intros; (split; [|exact Hp]); simpl; try done; by transitivity t.
Qed.

Lemma guarantees_bind {A B} (m : IO A) (f : A → IO B) :
  guarantees m → (∀ a, guarantees (f a)) → guarantees (io_bind m f).
Proof.
  intros Hm Hf w Hr. apply wp_bind. eapply wp_mono; [by apply Hm|]. intros [a|e] w1 [H1 Hr1]; [|done].
  eapply wp_mono; [by apply Hf|]. intros r w2 [H2 Hr2]. split; [by etransitivity|done].
Qed.

Lemma guarantees_now : guarantees datetime_now.
Proof. intros w Hr. split; [simpl; reflexivity|exact Hr]. Qed.

Lemma guarantees_ret {A} (a : A) : guarantees (io_ret a).
Proof. intros w Hr. split; [simpl; reflexivity|exact Hr]. Qed.

#[export] Hint Resolve guarantees_db guarantees_bind guarantees_now guarantees_ret
  update_where_moves insert_job_moves delete_expired_moves : atp.

Lemma table_moves_refl t : table_moves t t.
Proof. reflexivity. Qed.
#[export] Hint Resolve table_moves_refl claim_lifecycle fail_lifecycle requeue_lifecycle : atp.

(** A transaction that only reads. *)
Ltac read_only := apply guarantees_db; intros; reflexivity.

(** A log call changes the log only. *)
Lemma log_loaded_local job event previous new w : ∃ l, log_loaded job event previous new w = (Ok (), set_log l w).
Proof. destruct job; [by eexists|]. exists (w_log w). by destruct w. Qed.

Lemma wp_log_loaded {A} job event previous new (k : unit → IO A) (Q : result A → World → Prop) w :
  (∀ l, wp (k ()) Q (set_log l w)) → wp (io_bind (log_loaded job event previous new) k) Q w.
Proof.
  intros H. destruct (log_loaded_local job event previous new w) as [l Hl]. unfold wp, io_bind in *. rewrite Hl. apply H.
Qed.

Lemma set_log_id w : set_log (w_log w) w = w.
Proof. by destruct w. Qed.

(** What follows a successful update: the row is read, and logged. *)
Lemma wp_report_claim id allow Q w :
  wp (db (read_job id)) (λ r w1, ∀ l, Q r (set_log l w1)) w → wp (report_claim id allow) Q w.
Proof.
  intros H. unfold report_claim. apply wp_bind. eapply wp_mono; [exact H|]. intros [job|e] w1 HQ.
  - apply wp_log_loaded. intros l. apply wp_ret. apply HQ.
  - rewrite <- (set_log_id w1). apply HQ.
Qed.

Lemma wp_report_transition id will_retry Q w :
  wp (db (read_job id)) (λ r w1, ∀ l, Q (match r with Ok _ => Ok true | Err e => Err e end) (set_log l w1)) w →
  wp (report_transition id will_retry 1) Q w.
Proof.
  intros H. unfold report_transition. change (1 =? 1) with true. cbv zeta iota. apply wp_bind.
  eapply wp_mono; [exact H|]. intros [job|e] w1 HQ.
  - apply wp_log_loaded. intros l. apply wp_ret. apply HQ.
  - rewrite <- (set_log_id w1). apply HQ.
Qed.

Lemma guarantees_log_loaded job event previous new : guarantees (log_loaded job event previous new).
Proof.
  intros w Hr. destruct (log_loaded_local job event previous new w) as [l Hl]. unfold wp. rewrite Hl.
  split; [cbn; reflexivity|exact Hr].
Qed.

Lemma guarantees_log job event previous new : guarantees (log_transition job event previous new).
Proof. intros w Hr. split; [cbn; reflexivity|exact Hr]. Qed.

Lemma log_loaded_frames job event previous new : frames (log_loaded job event previous new).
Proof. by destruct job. Qed.
Lemma log_frames job event previous new : frames (log_transition job event previous new).
Proof. done. Qed.
#[export] Hint Resolve log_loaded_frames log_frames : frame.

Lemma log_loaded_db_errors job event previous new : db_errors (log_loaded job event previous new).
Proof. destruct job; [by apply db_errors_emit|by apply db_errors_ret]. Qed.

(** The two values the transition writes. *)
Lemma transition_guarantees job_id will_retry error :
  guarantees (transition_job_after_operational_failure job_id will_retry error).
Proof.
  assert (∀ f, (∀ j, nonterminal j = true → lifecycle j (f j)) →
    guarantees (io_bind (db (update_where job_id nonterminal f)) (report_transition job_id will_retry))) as H.
  { intros f Hf. apply guarantees_bind; [auto with atp|]. intros n. unfold report_transition. cbv zeta.
    destruct (n =? 1); [|apply guarantees_ret].
    apply guarantees_bind; [read_only|]. intros job.
    apply guarantees_bind; [apply guarantees_log_loaded|intros; apply guarantees_ret]. }
  destruct will_retry.
  - exact (H requeued requeue_lifecycle).
  - exact (guarantees_bind datetime_now _ guarantees_now (λ now, H (as_failed error now) (λ j, fail_lifecycle j error now))).
Qed.

Lemma transition_frames job_id will_retry error :
  frames (transition_job_after_operational_failure job_id will_retry error).
Proof. unfold transition_job_after_operational_failure, report_transition. cbv zeta. frame_tac. Qed.

Lemma transition_db_errors job_id will_retry error :
  db_errors (transition_job_after_operational_failure job_id will_retry error).
Proof.
  assert (∀ f, db_errors (db (update_where job_id nonterminal f))) as Hu.
  { intros f. apply db_errors_db. intros t e. unfold update_where.
    destruct (t !! job_id); [destruct (nonterminal _)|]; done. }
  apply db_errors_bind.
  - destruct will_retry; [apply db_errors_ret|apply db_errors_bind; [apply db_errors_now|intros; apply db_errors_ret]].
  - intros f. apply db_errors_bind; [apply Hu|]. intros n. unfold report_transition. cbv zeta.
    destruct (n =? 1); [|apply db_errors_ret]. apply db_errors_bind; [by apply db_errors_db|]. intros job.
    apply db_errors_bind; [apply log_loaded_db_errors|intros; apply db_errors_ret].
Qed.

(** ** Claiming *)

(** The other sessions leave one row alone (its advisory lock is held). *)
Definition keeps (id : UUID) (t t' : JobTable) : Prop := t' !! id = t !! id.
#[global] Instance keeps_preorder id : PreOrder (keeps id).
Proof. unfold keeps. split; [done|]. intros t1 t2 t3 H1 H2. congruence. Qed.

(** The other sessions never put one job back in the queue. *)
Definition no_requeue (id : UUID) (t t' : JobTable) : Prop :=
  ∀ j', t' !! id = Some j' → pj_status j' = queued → ∃ j, t !! id = Some j ∧ pj_status j = queued.
#[global] Instance no_requeue_preorder id : PreOrder (no_requeue id).
Proof.
  unfold no_requeue. split; [intros t j Hj Hq; by exists j|].
  intros t1 t2 t3 H1 H2 j3 Hj3 Hq3. destruct (H2 _ Hj3 Hq3) as (j2 & Hj2 & Hq2). eauto.
Qed.

(** A claim in another session is such a change. *)
Lemma claim_no_requeue id now t :
  no_requeue id t (update_where id (claim_eligible false) (claimed now) t).2.
Proof.
  unfold update_where. destruct (t !! id) as [j|] eqn:Hj; [|reflexivity].
  destruct (claim_eligible false j); [|reflexivity]. simpl. intros j' Hj' Hq.
  rewrite lookup_insert_eq in Hj'. by injection Hj' as <-.
Qed.

(** A claim that returns a job leaves a row that is not queued. *)
Lemma claim_leaves_running id allow w :
  respects (no_requeue id) w →
  wp (claim_job id allow)
    (λ r w', respects (no_requeue id) w' ∧
       ∀ j, r = Ok (Some j) →
         (allow = false → ∃ j0, w_jobs w !! id = Some j0 ∧ pj_status j0 = queued) ∧
         ∀ j', w_jobs w' !! id = Some j' → pj_status j' ≠ queued) w.
Proof.
  intros Hr. unfold claim_job. apply wp_now. intros now. apply wp_bind.
  apply (wp_db (no_requeue id)); [exact Hr|]. intros t w1 Ht ->.
  assert (respects (no_requeue id) (pop_event (tick w))) as Hr1 by (by apply respects_pop).
  split; [|split; intros e _; (split; [exact Hr1|done])].
  unfold update_where. destruct (t !! id) as [j|] eqn:Hj; [|by split].
  destruct (claim_eligible allow j) eqn:He; [|by split]. cbn [fst snd negb Z.eqb].
  change (negb (1 =? 1)) with false. cbn iota.
  assert (allow = false → ∃ j0, w_jobs w !! id = Some j0 ∧ pj_status j0 = queued) as Hq.
  { intros ->. apply (Ht j Hj). unfold claim_eligible in He. simpl in He. rewrite orb_false_r in He.
    by apply bool_decide_eq_true in He. }
  apply wp_report_claim, (wp_db (no_requeue id)); [exact Hr1|]. intros t2 w2 Ht2 ->.
  assert (respects (no_requeue id) (pop_event (set_jobs (<[id := claimed now j]> t) (pop_event (tick w))))) as Hr2
    by (by apply respects_pop).
  split; [|split; intros e _ l; (split; [exact Hr2|done])]. intros l.
  split; [exact Hr2|]. intros j2 Hj2. split; [done|]. simpl. intros j' Hj' Hbad.
  destruct (Ht2 j' Hj' Hbad) as (j3 & Hj3 & Hbad3). simpl in Hj3. rewrite lookup_insert_eq in Hj3.
  by injection Hj3 as <-.
Qed.

(** *** Exact effects, for the session that holds the job *)
Section exact.
Context (id : UUID).

Lemma claim_job_exact allow w :
  respects (keeps id) w → fault_free w →
  wp (claim_job id allow) (λ r w',
    respects (keeps id) w' ∧ fault_free w' ∧ w_reads w' = S (w_reads w) ∧ w_clock w' = w_clock w ∧
    match w_jobs w !! id with
    | Some j =>
        if claim_eligible allow j
        then r = Ok (Some (claimed (w_clock w (w_reads w)) j)) ∧
             w_jobs w' !! id = Some (claimed (w_clock w (w_reads w)) j)
        else r = Ok None ∧ w_jobs w' !! id = Some j
    | None => r = Ok None ∧ w_jobs w' !! id = None
    end) w.
Proof.
  intros Hr Hf. unfold claim_job. apply wp_bind. cbn [wp datetime_now fst snd].
  unfold wp at 1. cbn [datetime_now fst snd]. apply wp_bind.
  apply (wp_db_ok (keeps id)); [exact Hr|exact Hf|]. intros t w1 Ht ->. unfold keeps in Ht. simpl in Ht.
  pose proof (respects_pop (keeps id) _ Hr) as Hr1. pose proof (fault_free_pop _ Hf) as Hf1.
  unfold update_where. rewrite Ht. destruct (w_jobs w !! id) as [j|] eqn:Hj; simpl; [|by split_and!].
  destruct (claim_eligible allow j) eqn:He; simpl; [|by split_and!].
  apply wp_report_claim, (wp_db_ok (keeps id)); [exact Hr1|exact Hf1|]. intros t2 w2 Ht2 -> l. unfold keeps in Ht2. simpl in *.
  rewrite lookup_insert_eq in Ht2. rewrite Ht2.
  split_and!; try done; [by apply respects_pop|by apply (fault_free_pop (set_jobs t (pop_event w)))].
Qed.

Lemma transition_exact will_retry error w :
  respects (keeps id) w → fault_free w →
  wp (transition_job_after_operational_failure id will_retry error) (λ r w',
    match w_jobs w !! id with
    | Some j =>
        if nonterminal j
        then r = Ok true ∧ w_jobs w' !! id =
               Some (if will_retry then requeued j else as_failed error (w_clock w (w_reads w)) j)
        else r = Ok false ∧ w_jobs w' !! id = Some j
    | None => r = Ok false ∧ w_jobs w' !! id = None
    end) w.
Proof.
  assert (∀ f w, respects (keeps id) w → fault_free w →
    wp (io_bind (db (update_where id nonterminal f)) (report_transition id will_retry))
      (λ r w', match w_jobs w !! id with
       | Some j => if nonterminal j then r = Ok true ∧ w_jobs w' !! id = Some (f j)
                   else r = Ok false ∧ w_jobs w' !! id = Some j
       | None => r = Ok false ∧ w_jobs w' !! id = None
       end) w) as H.
  { clear w. intros f w Hr Hf. apply wp_bind.
    apply (wp_db_ok (keeps id)); [exact Hr|exact Hf|]. intros t w1 Ht ->. unfold keeps in Ht.
    pose proof (respects_pop (keeps id) _ Hr) as Hr1. pose proof (fault_free_pop _ Hf) as Hf1.
    unfold update_where. rewrite Ht. destruct (w_jobs w !! id) as [j|] eqn:Hj; simpl; [|by split].
    destruct (nonterminal j) eqn:He; simpl; [|by split].
    apply wp_report_transition, (wp_db_ok (keeps id)); [exact Hr1|exact Hf1|]. intros t2 w2 Ht2 -> l.
    unfold keeps in Ht2. simpl in *. rewrite lookup_insert_eq in Ht2. by split. }
  intros Hr Hf. destruct will_retry.
  - exact (H requeued w Hr Hf).
  - exact (H (as_failed error (w_clock w (w_reads w))) (tick w) Hr Hf).
Qed.
End exact.

(** ** Locks *)

(** The first [n] polls found the lock taken, before the deadline. *)
Definition busy (deadline : Z) (n : nat) (polls : list (bool * Z)) : Prop :=
  Forall (λ p, p.1 = false ∧ p.2 < deadline) (take n polls).

(** What a bounded wait may end in. *)
Definition lock_outcome (id : UUID) (deadline : Z) (w : World) (r : result bool) (w' : World) : Prop :=
  match r with
  | Ok true =>
      w_locks w' = advisory_lock_keys id :: w_locks w ∧
      ∃ n, busy deadline n (w_polls w) ∧ ∀ p, w_polls w !! n = Some p → p.1 = true
  | Ok false =>
      w_locks w' = w_locks w ∧
      ∃ n t, busy deadline n (w_polls w) ∧ w_polls w !! n = Some (false, t) ∧ deadline <= t
  | Err e => w_locks w' = w_locks w ∧ db_error e
  end.

(** What waiting for a lock leaves alone. *)
Definition same_elsewhere (w w' : World) : Prop :=
  w_dialect w' = w_dialect w ∧ w_queue w' = w_queue w ∧ w_queue_faults w' = w_queue_faults w ∧
  w_active w' = w_active w ∧ w_clock w' = w_clock w ∧ w_reads w' = w_reads w ∧ (fault_free w → fault_free w') ∧
  w_unlocks w' = w_unlocks w.

Lemma same_elsewhere_trans w1 w2 w3 : same_elsewhere w1 w2 → same_elsewhere w2 w3 → same_elsewhere w1 w3.
Proof.
  intros (? & ? & ? & ? & ? & ? & ? & ?) (? & ? & ? & ? & ? & ? & ? & ?). split_and!; try congruence. auto.
Qed.

Section locks.
Context (R : JobTable → JobTable → Prop) `{!PreOrder R}.

(** One poll. *)
Lemma try_acquire_outcome id w :
  respects R w → w_dialect w = "postgresql" →
  wp (try_acquire_preview_job_lock id) (λ r w',
    R (w_jobs w) (w_jobs w') ∧ respects R w' ∧ same_elsewhere w w' ∧
    match r with
    | Ok (true, _) => w_locks w' = advisory_lock_keys id :: w_locks w ∧ ∀ p, head (w_polls w) = Some p → p.1 = true
    | Ok (false, now) => w_locks w' = w_locks w ∧ ∃ t, now = Some t ∧ w_polls w = (false, t) :: w_polls w'
    | Err e => w_locks w' = w_locks w ∧ db_error e
    end) w.
Proof.
  intros Hr Hd. unfold try_acquire_preview_job_lock. apply wp_bind. unfold wp at 1, on_postgresql.
  cbn [fst snd]. replace (String.eqb (w_dialect w) "postgresql") with true by (by rewrite Hd). cbn [negb].
  unfold pg_try_advisory_lock. apply wp_bind. apply (wp_db R); [exact Hr|]. intros t w1 Ht ->.
  pose proof (respects_pop R w Hr) as Hp.
  assert (∀ locks polls, same_elsewhere w (set_locks locks polls (set_jobs t (pop_event w)))) as Hse.
  { intros locks polls. split_and!; [done..|apply fault_free_pop|done]. }
  assert (same_elsewhere w (set_jobs t (pop_event w))) as Hse0 by apply (Hse (w_locks w) (w_polls w)).
  split; [|split; intros e He; split_and!; try done; by apply connection_lost_db].
  unfold wp. cbn [fst snd set_jobs pop_event set_events w_polls].
  destruct (w_polls w) as [|[[] tm] rest] eqn:Hpl; cbn [fst snd].
  - split; [exact Ht|]. split; [exact Hp|]. split; [apply Hse|]. by split.
  - split; [exact Ht|]. split; [exact Hp|]. split; [apply Hse|]. split; [done|]. by intros p [= <-].
  - split; [exact Ht|]. split; [exact Hp|]. split; [apply Hse|]. split; [done|]. by exists tm.
Qed.

Lemma rollback_outcome w :
  respects R w →
  wp rollback (λ r w', R (w_jobs w) (w_jobs w') ∧ respects R w' ∧ same_elsewhere w w' ∧
    w_locks w' = w_locks w ∧ w_polls w' = w_polls w ∧ w_dialect w' = w_dialect w ∧ ∀ e, r = Err e → db_error e) w.
Proof.
  intros Hr. apply (wp_db R); [exact Hr|]. intros t w1 Ht ->. pose proof (respects_pop R w Hr) as Hp.
  assert (same_elsewhere w (set_jobs t (pop_event w))) as Hse by (split_and!; [done..|apply fault_free_pop|done]).
  split; [|split; intros e He]; split_and!; try done; intros e' [= <-]; [done|by apply connection_lost_db].
Qed.

Lemma acquire_loop_outcome fuel id deadline w :
  respects R w → w_dialect w = "postgresql" → (length (w_polls w) < fuel)%nat →
  wp (acquire_loop fuel id deadline) (λ r w',
    R (w_jobs w) (w_jobs w') ∧ respects R w' ∧ same_elsewhere w w' ∧
    match r with
    | Ok (Some b) => lock_outcome id deadline w (Ok b) w'
    | Ok None => False
    | Err e => lock_outcome id deadline w (Err e) w'
    end) w.
Proof.
  revert w. induction fuel as [|fuel IH]; intros w Hr Hd Hf; [lia|]. cbn [acquire_loop].
  apply wp_bind. eapply wp_mono; [by apply try_acquire_outcome|].
  intros [[[] now]|e] w1 (Ht1 & Hr1 & Hs1 & Hcase); [| |by destruct Hcase].
  { destruct Hcase as [Hl Hp]. apply wp_ret. do 3 (split; [done|]). split; [exact Hl|]. exists 0%nat. split; [constructor|].
    intros p Hp0. apply Hp. by rewrite <- Hp0; destruct (w_polls w). }
  destruct Hcase as (Hl & tm & -> & Hpl). apply wp_bind. eapply wp_mono; [by apply rollback_outcome|].
  intros r w2 (Ht2 & Hr2 & Hs2 & Hl2 & Hpl2 & Hd2 & He).
  assert (R (w_jobs w) (w_jobs w2)) as Ht by (by transitivity (w_jobs w1)).
  pose proof (same_elsewhere_trans _ _ _ Hs1 Hs2) as Hs. rewrite Hl in Hl2. rewrite <- Hpl2 in Hpl.
  destruct r as [[]|e]; [|do 3 (split; [done|]); split; [exact Hl2|by apply He]].
  destruct (deadline <=? tm) eqn:Hdl.
  { apply wp_ret. do 3 (split; [done|]). split; [exact Hl2|]. exists 0%nat, tm. rewrite Hpl. split_and!; [constructor|done|by apply Z.leb_le]. }
  apply Z.leb_gt in Hdl. rewrite Hpl in Hf. simpl in Hf.
  eapply wp_mono; [apply IH; [done|rewrite Hd2; destruct Hs1; congruence|lia]|].
  assert (∀ n, busy deadline n (w_polls w2) → busy deadline (S n) (w_polls w)) as Hb.
  { intros n Hn. rewrite Hpl. unfold busy in *. simpl. by constructor. }
  intros r w' (H1 & H2 & H3 & H4). split; [by transitivity (w_jobs w2)|]. split; [done|].
  split; [exact (same_elsewhere_trans _ _ _ Hs H3)|]. destruct r as [[[]|]|e]; simpl in *; [| |done|by rewrite <- Hl2].
  - destruct H4 as (Hl4 & n & Hn & Hex). rewrite Hl2 in Hl4. split; [done|]. exists (S n). split; [by apply Hb|]. by rewrite Hpl.
  - destruct H4 as (Hl4 & n & tm' & Hn & Hex). rewrite Hl2 in Hl4. split; [done|]. exists (S n), tm'. split; [by apply Hb|]. by rewrite Hpl.
Qed.

Lemma acquire_outcome id timeout w :
  respects R w → w_dialect w = "postgresql" →
  wp (acquire_preview_job_lock id timeout) (λ r w',
    R (w_jobs w) (w_jobs w') ∧ respects R w' ∧ same_elsewhere w w' ∧ lock_outcome id timeout w r w') w.
Proof.
  intros Hr Hd. pose proof (acquire_loop_outcome (acquire_fuel w) id timeout w Hr Hd) as H.
  unfold wp, acquire_preview_job_lock in *. destruct (acquire_loop _ _ _ _) as [[[b|]|e] w1]; simpl in *.
  - apply H. unfold acquire_fuel. lia.
  - exfalso. apply H. unfold acquire_fuel. lia.
  - apply H. unfold acquire_fuel. lia.
Qed.
End locks.

(** ** The theorems on rows, claims and locks *)

Definition sample_job : PreviewJob :=
  mkJob 7 1 queued stage_queued 5 "buy SPY" None None None 0 1000 None None 2000.

(** Along any sequence of lifecycle moves a job keeps its identifier, owner,
    text, name and dates, stays well formed (stage, progress, timestamps and
    messages agree with the status), never loses an attempt, and does not move
    at all once it is completed or failed. *)
Theorem lifecycle_sound (j j' : PreviewJob) :
  job_wf j → rtc lifecycle j j' →
  job_wf j' ∧ identity j' = identity j ∧ pj_attempt_count j <= pj_attempt_count j' ∧
  (terminal j → j' = j).
Proof.
  intros Hj Hl. split_and!; eauto using lifecycle_rtc_wf, lifecycle_rtc_identity,
    lifecycle_rtc_attempts, lifecycle_rtc_terminal.
Qed.

Lemma lifecycle_sound_witness :
  let j' := as_failed "late" 9 (requeued (claimed 5 sample_job)) in
  job_wf j' ∧ identity j' = identity sample_job ∧
  pj_attempt_count sample_job <= pj_attempt_count j' ∧ (terminal sample_job → j' = sample_job).
Proof.
  apply (lifecycle_sound sample_job).
  - by split_and!.
  - eapply rtc_l; [by apply (claim_lifecycle false 5)|]. eapply rtc_l; [by apply requeue_lifecycle|].
    apply rtc_once. by apply fail_lifecycle.
Defined.

(** C16: Once a job is claimed, by a first attempt or a retry, no further first
    attempt (a claim with allow_running_retry false) claims it too, whatever
    other sessions do and whatever fails in between, as long as nobody puts the
    job back in the queue.  A retry may claim a running job again. *)
Theorem claim_exclusive (id : UUID) (allow : bool) (w : World) :
  respects (no_requeue id) w →
  wp (r1 <~ io_attempt (claim_job id allow); r2 <~ io_attempt (claim_job id false); io_ret (r1, r2))
    (λ r _, ¬ ∃ j1 j2, r = Ok (Ok (Some j1), Ok (Some j2))) w.
Proof.
  intros Hr. apply wp_bind, wp_attempt. eapply wp_mono; [by apply claim_leaves_running|].
  intros r1 w1 [Hr1 H1]. apply wp_bind, wp_attempt. eapply wp_mono; [by apply claim_leaves_running|].
  intros r2 w2 [_ H2] (j1 & j2 & [= -> ->]).
  destruct (H2 j2 eq_refl) as [Hq _]. destruct (Hq eq_refl) as (j0 & Hj0 & Hq0). by apply (H1 j1 eq_refl) in Hj0.
Qed.

(** The retry of a running job does claim it again. *)
Example retry_reclaims :
  ((r1 <~ claim_job 7 false; r2 <~ claim_job 7 true; io_ret (bool_decide (is_Some r1), bool_decide (is_Some r2)))
     (quiet_world {[ 7 := sample_job ]} [])).1 = Ok (true, true).
Proof. vm_compute. reflexivity. Qed.

(** Another session claims the job between the two. *)
Lemma claim_exclusive_witness :
  let others t := (update_where 7 (claim_eligible false) (claimed 3) t).2 in
  let w := set_events [mkEvent id None; mkEvent others None] (quiet_world {[ 7 := sample_job ]} []) in
  wp (r1 <~ io_attempt (claim_job 7 false); r2 <~ io_attempt (claim_job 7 false); io_ret (r1, r2))
    (λ r _, ¬ ∃ j1 j2, r = Ok (Ok (Some j1), Ok (Some j2))) w.
Proof.
  apply claim_exclusive. constructor; [|constructor; [|constructor]]; (split; [|done]); simpl; intros t.
  - reflexivity.
  - apply (claim_no_requeue 7 3 t).
Defined.

(** For the session that holds a job, claiming it and moving it after an
    operational failure have exactly their documented effect: an eligible job
    starts a new attempt, a nonterminal job returns to the queue or fails, and
    in every other case the row is unchanged and the call says so. *)
Theorem claim_and_transition_exact (id : UUID) (allow will_retry : bool) (error : string) (w : World) :
  respects (keeps id) w → fault_free w →
  wp (claim_job id allow) (λ r w',
    let now := w_clock w (w_reads w) in
    match w_jobs w !! id with
    | Some j => if claim_eligible allow j
                then r = Ok (Some (claimed now j)) ∧ w_jobs w' !! id = Some (claimed now j)
                else r = Ok None ∧ w_jobs w' !! id = Some j
    | None => r = Ok None ∧ w_jobs w' !! id = None
    end) w ∧
  wp (transition_job_after_operational_failure id will_retry error) (λ r w',
    match w_jobs w !! id with
    | Some j => if nonterminal j
                then r = Ok true ∧ w_jobs w' !! id =
                     Some (if will_retry then requeued j else as_failed error (w_clock w (w_reads w)) j)
                else r = Ok false ∧ w_jobs w' !! id = Some j
    | None => r = Ok false ∧ w_jobs w' !! id = None
    end) w.
Proof.
  intros Hr Hf. split; [|by apply transition_exact].
  eapply wp_mono; [by apply claim_job_exact|]. intros r w' (_ & _ & _ & _ & H). exact H.
Qed.

Lemma claim_and_transition_exact_witness :
  let w := quiet_world {[ 7 := sample_job ]} [] in
  (claim_job 7 false w).1 = Ok (Some (claimed 0 sample_job)) ∧
  (transition_job_after_operational_failure 7 true default_final_error w).1 = Ok true.
Proof.
  destruct (claim_and_transition_exact 7 false true default_final_error (quiet_world {[ 7 := sample_job ]} [])
    (quiet_respects _ _ _) (quiet_fault_free _ _)) as [[H _] [H' _]]. by split.
Defined.

(** C36: Waiting for a preview lock always ends: it holds the lock after finitely
    many busy polls, or gives up without it at the first busy poll past the
    deadline, or reports a database error without it; the lock is held exactly
    when the call returns true. *)
Theorem acquire_lock_bounded (R : JobTable → JobTable → Prop) `{!PreOrder R} (id : UUID)
    (timeout : Z) (w : World) :
  respects R w → w_dialect w = "postgresql" →
  wp (acquire_preview_job_lock id timeout) (λ r w',
    R (w_jobs w) (w_jobs w') ∧ lock_outcome id timeout w r w') w.
Proof.
  intros Hr Hd. eapply wp_mono; [by apply (acquire_outcome R)|]. intros r w' (H & _ & _ & H'). by split.
Qed.

(** Two busy polls, the second one late. *)
Lemma acquire_lock_bounded_witness :
  let w := quiet_world ∅ [(false, 3); (false, 11); (true, 12)] in
  acquire_preview_job_lock 7 10 w = (Ok false, set_locks [] [(true, 12)] (set_jobs ∅ w)) ∧
  wp (acquire_preview_job_lock 7 10) (λ r w',
    eq (w_jobs w) (w_jobs w') ∧ lock_outcome 7 10 w r w') w.
Proof. split; [by vm_compute|]. apply (acquire_lock_bounded eq); [apply quiet_respects|done]. Defined.
