(* ===== verification/JobRules.v ===== *)
(** * Rules for a session that holds a job's lock

    The session that holds the advisory lock of a job relies on the others to
    leave that row alone and to move every other row along the lifecycle
    ([holds]).  Each operation of the store then has one rule that covers both
    its effect when nothing fails and what a failed call can have done.  The
    last theorem puts them together with the guarded operations: the whole store
    follows the lifecycle. *)

From S2P Require Import Prelude Models StrategySpec Uuid Effects JobStore.
From Stdlib Require Import ZArith Lia.
From stdpp Require Import base list option strings gmap relations.
Local Open Scope Z_scope.
Local Open Scope io_scope.

Definition holds (id : UUID) (t t' : JobTable) : Prop := keeps id t t' ∧ table_moves t t'.
#[global] Instance holds_preorder id : PreOrder (holds id).
Proof.
  unfold holds. split; [intros t; split; reflexivity|].
  intros t1 t2 t3 [] []. split; by etransitivity.
Qed.

(** What every computation of the holder guarantees. *)
Record steps (id : UUID) (w w' : World) : Prop := mkSteps {
  steps_moves : table_moves (w_jobs w) (w_jobs w');
  steps_respects : respects (holds id) w';
  steps_dialect : w_dialect w' = w_dialect w;
  steps_clock : w_clock w' = w_clock w;
  steps_fault_free : fault_free w → fault_free w' }.

(** The end of a computation on the row [id] that returns [r0] and leaves [o0]
    when it does not fail; [late] are the failures that can come after its
    effect: a lost connection for one transaction, any for several. *)
Definition any_failure (e : exn) : Prop := True.

Definition row_post {A} (id : UUID) (late : exn → Prop) (w : World) (r0 : result A) (o0 : option PreviewJob)
    (r : result A) (w' : World) : Prop :=
  steps id w w' ∧ same_resources w w' ∧ w_reads w' = w_reads w ∧
  (r = r0 ∧ w_jobs w' !! id = o0 ∨
   ¬ fault_free w ∧ ∃ e, r = Err e ∧ db_error e ∧ (w_jobs w' !! id = w_jobs w !! id ∨ late e ∧ w_jobs w' !! id = o0)).

Section rules.
Context (id : UUID).

Lemma steps_trans w1 w2 w3 : steps id w1 w2 → steps id w2 w3 → steps id w1 w3.
Proof.
  intros [] []. constructor; [by etransitivity|done|congruence|congruence|by auto].
Qed.

(** A log call changes nothing that is said of a world. *)
Lemma steps_log w w1 r : steps id w w1 → steps id w (log_to r w1).
Proof. intros []. by constructor. Qed.

Lemma steps_logged w w1 r : steps id (log_to r w) w1 → steps id w w1.
Proof. intros []. by constructor. Qed.

Lemma steps_refl w : respects (holds id) w → steps id w w.
Proof. by constructor. Qed.

Lemma steps_tick w : respects (holds id) w → steps id w (tick w).
Proof. by constructor. Qed.

Lemma wp_row {A} (f : JobTable → result A * JobTable) w r0 o0 :
  respects (holds id) w →
  (∀ t, t !! id = w_jobs w !! id → (f t).1 = r0 ∧ (f t).2 !! id = o0 ∧ table_moves t (f t).2) →
  wp (db f) (row_post id connection_lost w r0 o0) w.
Proof.
  intros Hr Hf. pose proof (frames_db f w) as Hfr. unfold wp, row_post.
  destruct (respects_next (holds id) w Hr) as [[Hk Hm] He].
  pose proof (respects_pop (holds id) w Hr) as Hp. pose proof (fault_free_pop w) as Hff.
  unfold db in *. destruct (Hf _ Hk) as (Hf1 & Hf2 & Hf3). unfold keeps in Hk.
  assert (fault_free w → ev_fault (next_event w) = None) as Hn.
  { unfold fault_free, next_event. destruct (w_events w); [done|]. by intros [? _]%Forall_cons_iff. }
  destruct (f _) as [r t'] eqn:Hft. cbn [fst snd] in *.
  destruct (ev_fault (next_event w)) as [[e b]|] eqn:Hev; cbn [fst snd] in *.
  - destruct (He e b eq_refl) as [He1 He2]. split_and!.
    + constructor; [destruct b; simpl; [by etransitivity|done]|exact Hp|apply Hfr|apply Hfr|exact Hff].
    + exact Hfr.
    + done.
    + right. split; [intros Hw; by specialize (Hn Hw)|]. exists e. split_and!; [done|done|].
      destruct b; simpl; [right; by auto|left; by rewrite Hk].
  - split_and!.
    + constructor; [simpl; by etransitivity|exact Hp|apply Hfr|apply Hfr|exact Hff].
    + exact Hfr.
    + done.
    + by left.
Qed.

(** A log call after a computation changes nothing that is said of it. *)
Lemma row_post_log {A} late w (r0 r : result A) o0 w' l : row_post id late w r0 o0 r w' → row_post id late w r0 o0 r (set_log l w').
Proof. intros ([] & H2 & H3 & H4). split_and!; [by constructor|exact H2|exact H3|exact H4]. Qed.

Lemma wp_row_logged {A B} (m : IO A) (k : A → IO B) late w a b o0 :
  wp m (row_post id late w (Ok a) o0) w → (∀ w1, ∃ l, k a w1 = (Ok b, set_log l w1)) →
  wp (io_bind m k) (row_post id late w (Ok b) o0) w.
Proof.
  intros Hm Hk. apply wp_bind. eapply wp_mono; [exact Hm|]. intros r w1 (H1 & H2 & H3 & Hcase).
  destruct Hcase as [[-> Ho]|(Hn & e & -> & He & Hrow)].
  - destruct (Hk w1) as [l Hl]. unfold wp. rewrite Hl. apply row_post_log. split_and!; [done..|by left].
  - split_and!; [done..|]. right. split; [done|]. by exists e.
Qed.

(** What follows a successful update. *)
Lemma wp_row_report_claim allow w o0 :
  respects (holds id) w → w_jobs w !! id = o0 → wp (report_claim id allow) (row_post id connection_lost w (Ok o0) o0) w.
Proof.
  intros Hr <-. eapply (wp_row_logged _ _ _ _ (w_jobs w !! id)).
  - apply wp_row; [done|]. intros t Ht. unfold read_job. rewrite Ht. split_and!; [done|done|reflexivity].
  - intros w1. destruct (log_loaded_local (w_jobs w !! id) "preview_job_claimed"
      (if allow then "queued_or_running" else "queued") "running" w1) as [l Hl]. exists l. unfold io_bind. by rewrite Hl.
Qed.

Lemma wp_row_report_transition will_retry w o0 :
  respects (holds id) w → w_jobs w !! id = o0 →
  wp (report_transition id will_retry 1) (row_post id connection_lost w (Ok true) o0) w.
Proof.
  intros Hr <-. unfold report_transition. change (1 =? 1) with true. cbv zeta iota. eapply (wp_row_logged _ _ _ _ (w_jobs w !! id)).
  - apply wp_row; [done|]. intros t Ht. unfold read_job. rewrite Ht. split_and!; [done|done|reflexivity].
  - intros w1. destruct (log_loaded_local (w_jobs w !! id) "preview_job_operational_transition" "running_or_queued"
      (if will_retry then "queued" else "failed") w1) as [l Hl]. exists l. unfold io_bind. by rewrite Hl.
Qed.

(** A transaction that does not change the table. *)
Lemma wp_row_read {A} (f : JobTable → result A) w r0 :
  respects (holds id) w → (∀ t, t !! id = w_jobs w !! id → f t = r0) →
  wp (db (λ t, (f t, t))) (row_post id connection_lost w r0 (w_jobs w !! id)) w.
Proof. intros Hr Hf. apply wp_row; [done|]. intros t Ht. simpl. split_and!; [by apply Hf|done|reflexivity]. Qed.

Lemma wp_rollback w : respects (holds id) w → wp rollback (row_post id connection_lost w (Ok ()) (w_jobs w !! id)) w.
Proof. intros Hr. by apply (wp_row_read (λ _, Ok ())). Qed.

Lemma wp_flush f w j :
  respects (holds id) w → w_jobs w !! id = Some j → lifecycle j (f j) →
  wp (db (flush id f)) (row_post id connection_lost w (Ok ()) (Some (f j))) w.
Proof.
  intros Hr Hj Hl. apply wp_row; [done|]. intros t Ht. rewrite Hj in Ht. unfold flush. rewrite Ht. simpl.
  split_and!; [done|by rewrite lookup_insert_eq|]. by apply table_moves_insert with j.
Qed.

Lemma wp_update_where guard f w :
  respects (holds id) w → (∀ j, guard j = true → lifecycle j (f j)) →
  wp (db (update_where id guard f))
    (match w_jobs w !! id with
     | Some j => if guard j then row_post id connection_lost w (Ok 1) (Some (f j)) else row_post id connection_lost w (Ok 0) (Some j)
     | None => row_post id connection_lost w (Ok 0) None
     end) w.
Proof.
  intros Hr Hl. destruct (w_jobs w !! id) as [j|] eqn:Hj.
  - destruct (guard j) eqn:Hg; (apply wp_row; [done|]); intros t Ht; rewrite Hj in Ht; unfold update_where;
      rewrite Ht, Hg; simpl.
    + split_and!; [done|by rewrite lookup_insert_eq|]. apply table_moves_insert with j; [done|by apply Hl].
    + split_and!; [done|done|reflexivity].
  - apply wp_row; [done|]. intros t Ht. rewrite Hj in Ht. unfold update_where. rewrite Ht. simpl.
    split_and!; [done|done|reflexivity].
Qed.

(** *** The operations *)
Lemma wp_update_progress job stage progress w j :
  respects (holds id) w → pj_id job = id → w_jobs w !! id = Some j → pj_status j = running →
  stage_progress stage = Some progress →
  wp (update_progress job stage progress) (row_post id connection_lost w (Ok ()) (Some (with_progress stage progress j))) w.
Proof.
  intros Hr Hid Hj Hs Hp. unfold update_progress. rewrite Hid. apply (wp_flush (with_progress stage progress) w j); [done..|].
  by apply progress_lifecycle.
Qed.

(** The same after one reading of the clock. *)
Definition timed_post {A} (late : exn → Prop) (w : World) (r0 : datetime → result A) (o0 : datetime → option PreviewJob)
    (r : result A) (w' : World) : Prop :=
  steps id w w' ∧ same_resources w w' ∧ w_reads w' = S (w_reads w) ∧
  let o := o0 (w_clock w (w_reads w)) in
  (r = r0 (w_clock w (w_reads w)) ∧ w_jobs w' !! id = o ∨
   ¬ fault_free w ∧ ∃ e, r = Err e ∧ db_error e ∧ (w_jobs w' !! id = w_jobs w !! id ∨ late e ∧ w_jobs w' !! id = o)).

Lemma wp_now_row {A} (f : datetime → IO A) late w r0 o0 :
  (let now := w_clock w (w_reads w) in wp (f now) (row_post id late (tick w) (r0 now) (o0 now)) (tick w)) →
  wp (io_bind datetime_now f) (timed_post late w r0 o0) w.
Proof.
  cbn zeta. intros H. unfold wp, timed_post in *. unfold io_bind, datetime_now in *.
  destruct H as ([] & H2 & H3 & H4). split_and!; [by constructor|exact H2|exact H3|exact H4].
Qed.

Lemma wp_complete_job job doc w j :
  respects (holds id) w → pj_id job = id → w_jobs w !! id = Some j → pj_status j = running →
  wp (complete_job job doc) (timed_post connection_lost w (λ _, Ok ()) (λ now, Some (as_completed doc now j))) w.
Proof.
  intros Hr Hid Hj Hs. unfold complete_job. rewrite Hid. apply (wp_now_row _ _ _ (λ _, Ok ()) (λ now, Some (as_completed doc now j))). cbn zeta.
  eapply wp_row_logged; [apply (wp_flush (as_completed doc _) (tick w) j); [done..|]; by apply complete_lifecycle|by eexists].
Qed.

Lemma wp_fail_job job error w j :
  respects (holds id) w → pj_id job = id → w_jobs w !! id = Some j → nonterminal j = true →
  wp (fail_job job error) (timed_post connection_lost w (λ _, Ok ()) (λ now, Some (as_failed error now j))) w.
Proof.
  intros Hr Hid Hj Hs. unfold fail_job. rewrite Hid. apply (wp_now_row _ _ _ (λ _, Ok ()) (λ now, Some (as_failed error now j))). cbn zeta.
  eapply wp_row_logged; [apply (wp_flush (as_failed error _) (tick w) j); [done..|]; by apply fail_lifecycle|by eexists].
Qed.

(** What a claim returns and leaves. *)
Definition claim_result (allow : bool) (row : option PreviewJob) (now : datetime) : result (option PreviewJob) :=
  match row with
  | Some j => if claim_eligible allow j then Ok (Some (claimed now j)) else Ok None
  | None => Ok None
  end.

Definition claim_row (allow : bool) (row : option PreviewJob) (now : datetime) : option PreviewJob :=
  match row with
  | Some j => if claim_eligible allow j then Some (claimed now j) else Some j
  | None => None
  end.

(** A second transaction that only reads the row. *)
Lemma wp_row_then {A B} (f : JobTable → result A * JobTable) (k : A → IO B) late late' a o0 (b : result B) w :
  wp (db f) (row_post id late w (Ok a) o0) w →
  (∀ w1, respects (holds id) w1 → w_jobs w1 !! id = o0 → wp (k a) (row_post id late' w1 b o0) w1) →
  wp (io_bind (db f) k) (row_post id any_failure w b o0) w.
Proof.
  intros H Hk. apply wp_bind. eapply wp_mono; [exact H|].
  intros r w1 (Hs & Hf & Hr & Hcase). destruct Hcase as [[-> Ho]|(Hn & e & -> & He & Hrow)].
  - eapply wp_mono; [apply (Hk w1); [by apply Hs|done]|]. intros r w2 (Hs2 & Hf2 & Hr2 & Hcase).
    split_and!; [by eapply steps_trans|by etransitivity|congruence|].
    destruct Hcase as [?|(Hn & e & ? & ? & Hrow)]; [by left|right].
    split; [intros Hff; by apply Hn, Hs|]. exists e. split_and!; [done|done|]. right. split; [done|].
    destruct Hrow as [?|[? ?]]; congruence.
  - split_and!; [done|done|done|]. right. split; [done|]. exists e. split_and!; [done|done|].
    destruct Hrow as [?|[? ?]]; [by left|by right].
Qed.

Lemma wp_row_err {A B} (f : JobTable → result A * JobTable) (k : A → IO B) late e o0 w :
  wp (db f) (row_post id late w (Err e) o0) w → wp (io_bind (db f) k) (row_post id any_failure w (Err e) o0) w.
Proof.
  intros H. apply wp_bind. eapply wp_mono; [exact H|].
  intros r w1 (Hs & Hf & Hr & [[-> Ho]|(Hn & e' & -> & He & Hrow)]).
  - split_and!; [done|done|done|by left].
  - split_and!; [done|done|done|]. right. split; [done|]. exists e'. split_and!; [done|done|].
    destruct Hrow as [?|[? ?]]; [by left|by right].
Qed.

Lemma wp_done {A} (r : result A) late w o :
  respects (holds id) w → w_jobs w !! id = o → wp (io_lift r) (row_post id late w r o) w.
Proof. intros Hr Ho. split_and!; [by apply steps_refl|reflexivity|done|by left]. Qed.

Lemma wp_claim allow w :
  respects (holds id) w →
  wp (claim_job id allow) (timed_post any_failure w (claim_result allow (w_jobs w !! id)) (claim_row allow (w_jobs w !! id))) w.
Proof.
  intros Hr. unfold claim_job. apply wp_now_row. cbn zeta. set (now := w_clock w (w_reads w)).
  assert (respects (holds id) (tick w)) as Hr1 by exact Hr.
  pose proof (wp_update_where (claim_eligible allow) (claimed now) (tick w) Hr1
    (claim_lifecycle allow now)) as Hu.
  change (w_jobs (tick w)) with (w_jobs w) in Hu.
  unfold claim_result, claim_row. destruct (w_jobs w !! id) as [j|].
  - destruct (claim_eligible allow j).
    + eapply wp_row_then; [exact Hu|]. intros w1 Hr2 Ho. change (negb (1 =? 1)) with false. cbn iota.
      by apply wp_row_report_claim.
    + eapply wp_row_then; [exact Hu|]. intros w1 Hr2 Ho. by apply (wp_done (Ok None) any_failure).
  - eapply wp_row_then; [exact Hu|]. intros w1 Hr2 Ho. by apply (wp_done (Ok None) any_failure).
Qed.

(** What a creation returns and leaves. *)
Definition create_result (row : option PreviewJob) (j : PreviewJob) : result PreviewJob :=
  if job_row_ok j && bool_decide (row = None) then Ok j else Err integrity_error.

Definition create_row (row : option PreviewJob) (j : PreviewJob) : option PreviewJob :=
  if job_row_ok j && bool_decide (row = None) then Some j else row.

Lemma wp_create user_id text name ttl w :
  respects (holds id) w →
  let new now := new_job id user_id text name ttl now in
  wp (create_job id user_id text name ttl)
    (timed_post any_failure w (λ now, create_result (w_jobs w !! id) (new now)) (λ now, create_row (w_jobs w !! id) (new now))) w.
Proof.
  intros Hr new. unfold create_job. apply wp_now_row. cbn zeta. set (now := w_clock w (w_reads w)).
  unfold create_result, create_row. change (w_jobs w) with (w_jobs (tick w)).
  destruct (job_row_ok (new now) && bool_decide (w_jobs (tick w) !! id = None)) eqn:Hok.
  - eapply wp_row_then with (a := ()).
    + apply wp_row; [exact Hr|]. intros t Ht. unfold insert_job. change (pj_id _) with id. rewrite Ht.
      fold (new now). rewrite Hok. simpl. split_and!; [done|by rewrite lookup_insert_eq|].
      assert (initial_job (new now)) as Hi by (by repeat split).
      pose proof (insert_job_moves (new now) t Hi) as Hm. unfold insert_job in Hm.
      change (pj_id (new now)) with id in Hm. by rewrite Ht, Hok in Hm.
    + intros w1 Hr1 Ho. eapply (wp_row_logged _ _ connection_lost _ (new now)); [|by eexists]. unfold refresh_job. rewrite <- Ho.
      apply (wp_row_read (λ t, match t !! id with Some j => Ok j | None => _ end)); [done|].
      intros t Ht. by rewrite Ht, Ho.
  - eapply wp_row_err. apply wp_row; [exact Hr|]. intros t Ht. unfold insert_job. change (pj_id _) with id.
    rewrite Ht. fold (new now). rewrite Hok. split_and!; [done|done|reflexivity].
Qed.

(** What a transition after a failure returns and leaves. *)
Definition transition_result (row : option PreviewJob) : result bool :=
  match row with Some j => Ok (nonterminal j) | None => Ok false end.

Definition transition_row (will_retry : bool) (error : string) (row : option PreviewJob) (now : datetime)
    : option PreviewJob :=
  match row with
  | Some j => Some (if nonterminal j then (if will_retry then requeued j else as_failed error now j) else j)
  | None => None
  end.

(** [row_post] without the count of clock readings. *)
Definition moved {A} (late : exn → Prop) (w : World) (r0 : result A) (o0 : option PreviewJob) (r : result A) (w' : World) : Prop :=
  steps id w w' ∧ same_resources w w' ∧
  (r = r0 ∧ w_jobs w' !! id = o0 ∨
   ¬ fault_free w ∧ ∃ e, r = Err e ∧ db_error e ∧ (w_jobs w' !! id = w_jobs w !! id ∨ late e ∧ w_jobs w' !! id = o0)).

Lemma row_moved {A} late w (r0 : result A) o0 r w' : row_post id late w r0 o0 r w' → moved late w r0 o0 r w'.
Proof. intros (H1 & H2 & _ & H3). by split_and!. Qed.

Lemma timed_moved {A} late w (r0 : datetime → result A) o0 r w' :
  timed_post late w r0 o0 r w' → moved late w (r0 (w_clock w (w_reads w))) (o0 (w_clock w (w_reads w))) r w'.
Proof. intros (H1 & H2 & _ & H3). by split_and!. Qed.

Lemma wp_transition will_retry error w :
  respects (holds id) w →
  wp (transition_job_after_operational_failure id will_retry error)
    (moved any_failure w (transition_result (w_jobs w !! id))
       (transition_row will_retry error (w_jobs w !! id) (w_clock w (w_reads w)))) w.
Proof.
  intros Hr.
  assert (∀ f w, respects (holds id) w → (∀ j, nonterminal j = true → lifecycle j (f j)) →
    wp (io_bind (db (update_where id nonterminal f)) (report_transition id will_retry))
      (row_post id any_failure w (transition_result (w_jobs w !! id))
         (match w_jobs w !! id with Some j => Some (if nonterminal j then f j else j) | None => None end)) w) as H.
  { clear w Hr. intros f w Hr Hl. pose proof (wp_update_where nonterminal f w Hr Hl) as Hu.
    unfold transition_result. destruct (w_jobs w !! id) as [j|].
    - destruct (nonterminal j).
      + eapply wp_row_then; [exact Hu|]. intros w1 Hr1 Ho. by apply wp_row_report_transition.
      + eapply wp_row_then; [exact Hu|]. intros w1 Hr1 Ho. by apply (wp_done (Ok false) any_failure).
    - eapply wp_row_then; [exact Hu|]. intros w1 Hr1 Ho. by apply (wp_done (Ok false) any_failure). }
  destruct will_retry.
  - eapply wp_mono; [exact (H requeued w Hr requeue_lifecycle)|]. intros r w'. apply row_moved.
  - pose proof (H (as_failed error (w_clock w (w_reads w))) (tick w) Hr
      (λ j, fail_lifecycle j error (w_clock w (w_reads w)))) as Ht.
    change (w_jobs (tick w)) with (w_jobs w) in Ht.
    pose proof (wp_now_row (λ now, io_bind (db (update_where id nonterminal (as_failed error now)))
          (report_transition id false)) any_failure w
       (λ _, transition_result (w_jobs w !! id)) (λ now, transition_row false error (w_jobs w !! id) now)) as Hn.
    cbn zeta in Hn. specialize (Hn Ht). eapply wp_mono; [exact Hn|]. intros r w'. apply timed_moved.
Qed.
End rules.

(** ** The theorem *)

(** A computation that the session holding the job's lock starts while the row,
    if it is there, satisfies [ready]. *)
Definition guarantees_holding {A} (id : UUID) (ready : PreviewJob → Prop) (m : IO A) : Prop := ∀ w,
  respects (holds id) w → (∀ j, w_jobs w !! id = Some j → ready j) →
  wp m (λ _ w', table_moves (w_jobs w) (w_jobs w') ∧ respects (holds id) w') w.

(** The flush of an object. *)
Lemma flush_holding id f (ready : PreviewJob → Prop) :
  (∀ j, ready j → lifecycle j (f j)) → guarantees_holding id ready (db (flush id f)).
Proof.
  intros Hf w Hr Hready. apply (wp_db (holds id)); [done|]. intros t w1 [Hkeep Hm] ->.
  assert (table_moves t (flush id f t).2) as Hflush.
  { apply flush_moves. intros j Hj. apply Hf, Hready. by rewrite <- Hkeep. }
  pose proof (respects_pop (holds id) w Hr) as Hp.
  assert (table_moves (w_jobs w) (flush id f t).2) as Hall by (by transitivity t).
  split; [|split; intros e _]; by split.
Qed.

Lemma log_holding {A} id ready (m : IO A) job event previous new :
  guarantees_holding id ready m → guarantees_holding id ready (io_bind m (λ _, log_transition job event previous new)).
Proof.
  intros Hm w Hr Hready. apply wp_bind. eapply wp_mono; [by apply Hm|]. by intros [a|e] w1 [H1 H2].
Qed.

Lemma now_holding {A} id ready (k : datetime → IO A) :
  (∀ now, guarantees_holding id ready (k now)) → guarantees_holding id ready (io_bind datetime_now k).
Proof. intros Hk w Hr Hready. exact (Hk (w_clock w (w_reads w)) (tick w) Hr Hready). Qed.

(** C3: Every operation of the store, under any interleaving with other
    sessions that do the same and any failures, moves each row of the table
    only along the lifecycle: a queued or running job is claimed (one more
    attempt), failed or requeued, a running one advances or completes,
    completed and failed rows never move again, and new rows start queued with
    no attempt.  The three operations that write a loaded object without a
    guard (update_progress, complete_job, fail_job) do so when their session
    holds the job's lock and the row, if it still exists, is running (queued or
    running for fail_job). *)
Theorem store_follows_lifecycle :
  (∀ job_id user_id text name ttl, guarantees (create_job job_id user_id text name ttl)) ∧
  (∀ job_id user_id, guarantees (get_job job_id user_id)) ∧
  (∀ job_id allow, guarantees (claim_job job_id allow)) ∧
  (∀ job_id will_retry error, guarantees (transition_job_after_operational_failure job_id will_retry error)) ∧
  (∀ limit, guarantees (list_reconciliation_candidates limit)) ∧
  (∀ now, guarantees (delete_expired_jobs now)) ∧
  (∀ job stage progress, stage_progress stage = Some progress →
     guarantees_holding (pj_id job) (λ j, pj_status j = running) (update_progress job stage progress)) ∧
  (∀ job result, guarantees_holding (pj_id job) (λ j, pj_status j = running) (complete_job job result)) ∧
  (∀ job error, guarantees_holding (pj_id job) (λ j, pj_status j = queued ∨ pj_status j = running) (fail_job job error)).
Proof.
  split_and!; intros.
  - apply guarantees_bind; [apply guarantees_now|]. intros now.
    apply guarantees_bind; [apply guarantees_db; intros t; apply insert_job_moves; repeat split; simpl; lia|]. intros _.
    apply guarantees_bind; [read_only|]. intros job.
    apply guarantees_bind; [apply guarantees_log|intros; apply guarantees_ret].
  - read_only.
  - apply guarantees_bind; [apply guarantees_now|]. intros now.
    apply guarantees_bind; [by eauto with atp|]. intros n.
    destruct (negb _); [apply guarantees_ret|]. apply guarantees_bind; [read_only|]. intros job.
    apply guarantees_bind; [apply guarantees_log_loaded|intros; apply guarantees_ret].
  - apply transition_guarantees.
  - read_only.
  - apply guarantees_bind; [destruct now; [apply guarantees_ret|apply guarantees_now]|].
    intros t. apply guarantees_db. apply delete_expired_moves.
  - apply flush_holding. intros j Hj. by apply progress_lifecycle.
  - apply now_holding. intros now. apply log_holding, flush_holding. intros j Hj. by apply complete_lifecycle.
  - apply now_holding. intros now. apply log_holding, flush_holding. intros j Hj.
    apply fail_lifecycle. unfold nonterminal. by rewrite orb_true_iff, !bool_decide_eq_true.
Qed.
