(* ===== verification/PreviewJobService.v ===== *)
(** * The preview job workflow ([backend/app/services/preview_job_service.py])

    [submit_preview_job] and [run_preview_job] as computations on the world,
    with their log calls.  The settings they read are arguments.  The parser
    is a function of the text (its provider call may raise any exception), and
    the preview factory a function of the parsed strategy, evaluated inside a
    database transaction because it reads the market data.

    A session whose flush failed refuses every statement until it is rolled
    back; that refusal is one of the faults that a later transaction may have,
    and so is its refusal to load an attribute of an expired instance. *)

From S2P Require Import Prelude Models MarketData Samples StrategySpec Uuid Preview Logging Effects JobStore JobRules.
From Stdlib Require Import ZArith Lia.
From stdpp Require Import base list option strings gmap relations.
Local Open Scope Z_scope.
Local Open Scope io_scope.

(** ** Submission *)
Definition submit_lock_error : exn := RuntimeError "Unable to safely submit the preview job.".
Definition queue_failure_message : string := "Unable to queue the strategy preview.".

(** The [finally] block: a failed release closes the connection instead, and is
    reported as [failed], which is given the queue's name. *)
Definition release_or_invalidate (failed : string → JobLog) (job_id : UUID) : IO unit :=
  io_try (_ <~ rollback; release_preview_job_lock job_id) (λ _, _ <~ invalidate; emit_queue failed).

Definition submission_lock_timeout (job_id : UUID) : string → JobLog :=
  outcome_record log_error "Timed out acquiring the preview submission lock" "preview_submission_lock" "api" job_id "timeout".
Definition enqueue_failed (job_id : UUID) : string → JobLog :=
  outcome_record log_exception "Unable to enqueue preview job" "preview_enqueue" "api" job_id "failed".
Definition submission_release_failed (job_id : UUID) : string → JobLog :=
  outcome_record log_exception "Unable to release preview submission lock" "preview_submission_lock" "api" job_id "release_failed".

Definition submitted_record (job_id : UUID) (queue : string) : JobLog :=
  mkJobLog log_info "Preview job submitted"
    (log_fields
       [("event", JStr "preview_enqueue"); ("component", JStr "api"); ("job_id", JStr (uuid_str job_id)); ("queue", JStr queue);
        ("previous_status", JStr "queued"); ("new_status", JStr "queued"); ("outcome", JStr "success")]%string).

(** [job_id] is the [uuid4()] drawn. *)
Definition submit_preview_job (lock_wait ttl_hours : Z) (job_id user_id : UUID) (strategy_text : string)
    (strategy_name : option string) : IO UUID :=
  acquired <~ acquire_preview_job_lock job_id lock_wait;
  if negb acquired then _ <~ emit_queue (submission_lock_timeout job_id); io_raise submit_lock_error
  else
    io_finally
      (job <~ create_job job_id user_id strategy_text strategy_name ttl_hours;
       _ <~ io_try (queue_enqueue (mkPayload (pj_id job) user_id strategy_text strategy_name None))
              (λ e, _ <~ emit_queue (enqueue_failed (pj_id job)); _ <~ fail_job job queue_failure_message; io_raise e);
       _ <~ emit_queue (submitted_record (pj_id job));
       io_ret (pj_id job))
      (release_or_invalidate (submission_release_failed job_id) job_id).

(** ** Execution *)

(** [TRANSIENT_DATABASE_ERRORS] *)
Definition transient_database_error (e : exn) : bool :=
  match e with OperationalError | SQLAlchemyTimeoutError | DisconnectionError => true | _ => false end.

(** A log call whose message names the job. *)
Definition log_text (level : JobLogLevel) (before : string) (job_id : UUID) (after : string) : IO unit :=
  emit (mkJobLog level (before +:+ uuid_str job_id +:+ after) []).

Definition raise_transient_failure {A} (job_id : UUID) (e : exn) : IO A :=
  _ <~ rollback;
  _ <~ log_text log_exception "Transient preview job failure; RQ may retry job " job_id (": " +:+ class_name e);
  io_raise TransientPreviewJobError.

(** [job.id] of an instance that may have expired: a session whose flush failed
    refuses the load until it is rolled back, and a closed one for good; the
    refusal is one of the faults this read may have. *)
Definition read_job_id (job_id : UUID) : IO UUID := db (λ t, (Ok job_id, t)).

Definition persist_failure (job : PreviewJob) (message : string) : IO unit :=
  io_try (fail_job job message)
    (λ e, if transient_database_error e
          then job_id <~ read_job_id (pj_id job); raise_transient_failure job_id e
          else io_raise e).

Definition parse_failure_message : string := "Unable to parse the strategy.".

(** [assert job is not None] *)
Definition assert_job (job : option PreviewJob) : IO PreviewJob :=
  match job with Some j => io_ret j | None => io_raise AssertionError end.

(** The [except] clauses, in order. *)
Definition handle_failure (job_id : UUID) (job : option PreviewJob) (e : exn) : IO unit :=
  match e with
  | StrategyValidationError message | StrategyCompilationError message | MarketDataUnavailableError message =>
      _ <~ log_text log_info "Preview job " job_id (" rejected: " +:+ class_name e +:+ ": " +:+ message);
      j <~ assert_job job; persist_failure j message
  | StrategyProviderTimeoutError _ => raise_transient_failure job_id e
  | StrategyParserError message | StrategyProviderError message | StrategyProviderRefusalError message
  | StrategyMalformedOutputError message =>
      _ <~ log_text log_info "Preview job " job_id (" parser failure: " +:+ class_name e +:+ ": " +:+ message);
      j <~ assert_job job; persist_failure j parse_failure_message
  | OperationalError | SQLAlchemyTimeoutError | DisconnectionError => raise_transient_failure job_id e
  | _ =>
      _ <~ log_text log_exception "Preview job " job_id (" failed: " +:+ class_name e);
      match job with
      | None =>
          _ <~ rollback;
          _ <~ transition_job_after_operational_failure job_id false default_final_error;
          io_ret ()
      | Some j => persist_failure j default_final_error
      end
  end.

Section execution.
Context (parse : string → result ParsedStrategyResult).
Context (preview_factory : ParsedStrategyResult → result StrategyPreview).

(** The [try] block after the claim. *)
Definition execute_job (job : PreviewJob) : IO unit :=
  parsed <~ io_lift (parse (pj_strategy_text job));
  _ <~ update_progress job validating 35;
  _ <~ update_progress job compiling 50;
  _ <~ update_progress job loading_data 70;
  _ <~ update_progress job backtesting 85;
  preview <~ db (λ t, (preview_factory parsed, t));
  _ <~ update_progress job generating_results 95;
  document <~ io_lift (serialize_preview parsed preview);
  complete_job job document.

Definition run_preview_job (job_id : UUID) (allow_running_retry : bool) : IO bool :=
  claim <~ io_attempt (claim_job job_id allow_running_retry);
  match claim with
  | Err e => _ <~ handle_failure job_id None e; io_ret true
  | Ok None => io_ret false
  | Ok (Some job) => _ <~ io_try (execute_job job) (handle_failure job_id (Some job)); io_ret true
  end.

(** *** What a run should leave *)

(** The outcome of a failure [e] when the row is [j]. *)
Definition rejected (e : exn) (later : datetime) (j : PreviewJob) : result bool * option PreviewJob :=
  match e with
  | StrategyValidationError message | StrategyCompilationError message | MarketDataUnavailableError message =>
      (Ok true, Some (as_failed message later j))
  | StrategyParserError _ | StrategyProviderError _ | StrategyProviderRefusalError _
  | StrategyMalformedOutputError _ => (Ok true, Some (as_failed parse_failure_message later j))
  | StrategyProviderTimeoutError _ | OperationalError | SQLAlchemyTimeoutError | DisconnectionError =>
      (Err TransientPreviewJobError, Some j)
  | _ => (Ok true, Some (as_failed default_final_error later j))
  end.

(** What executing the running job [j] returns and leaves. *)
Definition executed (later : datetime) (j : PreviewJob) : result unit * PreviewJob :=
  match parse (pj_strategy_text j) with
  | Err e => (Err e, j)
  | Ok parsed =>
      match preview_factory parsed with
      | Err e => (Err e, with_progress backtesting 85 j)
      | Ok preview =>
          let j := with_progress generating_results 95 j in
          match serialize_preview parsed preview with
          | Err e => (Err e, j)
          | Ok document => (Ok (), as_completed document later j)
          end
      end
  end.

Definition settled (later : datetime) (x : result unit * PreviewJob) : result bool * option PreviewJob :=
  match x with
  | (Ok _, j) => (Ok true, Some j)
  | (Err e, j) => rejected e later j
  end.

(** The whole run: the claim at [now], the end at [later]. *)
Definition expected_run (allow : bool) (now later : datetime) (row : option PreviewJob)
    : result bool * option PreviewJob :=
  match row with
  | None => (Ok false, None)
  | Some j =>
      if negb (claim_eligible allow j) then (Ok false, Some j)
      else settled later (executed later (claimed now j))
  end.
End execution.

(** ** Lemmas: execution *)
Section executing.
Context (parse : string → result ParsedStrategyResult).
Context (preview_factory : ParsedStrategyResult → result StrategyPreview).
Context (id : UUID) (w0 : World).

(** Nothing failed since [w0], and the row is [j], running. *)
Record at_row (w : World) (j : PreviewJob) : Prop := mkAt {
  at_steps : steps id w0 w;
  at_same : same_resources w0 w;
  at_reads : w_reads w = w_reads w0;
  at_lookup : w_jobs w !! id = Some j;
  at_running : pj_status j = running }.

(** A database call failed since [w0]. *)
Definition interrupted (e : exn) (w : World) : Prop :=
  steps id w0 w ∧ same_resources w0 w ∧ ¬ fault_free w0 ∧ db_error e ∧
  ∃ j, w_jobs w !! id = Some j ∧ (pj_status j = running ∨ connection_lost e).

Lemma at_respects w j : at_row w j → respects (holds id) w.
Proof. intros []. by apply at_steps0. Qed.

(** A transaction on the running row that leaves [j']. *)
Lemma interrupted_row {A} (r0 : result A) late j o0 r w w1 :
  at_row w j → row_post id late w r0 (Some o0) r w1 → (∀ e, late e → connection_lost e ∨ pj_status o0 = running) →
  (r = r0 ∧ steps id w0 w1 ∧ same_resources w0 w1 ∧ w_reads w1 = w_reads w0 ∧ w_jobs w1 !! id = Some o0) ∨
  ∃ e, r = Err e ∧ interrupted e w1.
Proof.
  intros [] (H1 & H2 & H3 & Hcase) Hl.
  assert (steps id w0 w1) by by eapply steps_trans. assert (same_resources w0 w1) by by etransitivity.
  destruct Hcase as [[-> Ho]|(Hn & e & -> & He & Hrow)].
  - left. split_and!; try done. congruence.
  - right. exists e. split; [done|]. split_and!; try done.
    + intros Hf. apply Hn. by apply at_steps0.
    + destruct Hrow as [Hrow|[Hlate Hrow]].
      * exists j. split; [congruence|by left].
      * exists o0. split; [done|]. destruct (Hl e Hlate); auto.
Qed.

Lemma wp_progress {A} job stage progress (k : IO A) Q w j :
  pj_id job = id → stage_progress stage = Some progress → at_row w j →
  (∀ w1, at_row w1 (with_progress stage progress j) → wp k Q w1) →
  (∀ e w1, interrupted e w1 → Q (Err e) w1) →
  wp (_ <~ update_progress job stage progress; k) Q w.
Proof.
  intros Hid Hp Hat Hk Hi. apply wp_bind. pose proof Hat as [].
  eapply wp_mono; [apply (wp_update_progress id job stage progress w j); eauto using at_respects|].
  intros r w1 Hpost. eapply interrupted_row in Hpost as [(-> & ? & ? & ? & ?)|(e & -> & He)]; eauto.
  apply Hk. by constructor.
Qed.

Definition execute_post (j : PreviewJob) (r : result unit) (w : World) : Prop :=
  let later := w_clock w0 (w_reads w0) in
  (steps id w0 w ∧ same_resources w0 w ∧ (is_ok r = false → w_reads w = w_reads w0) ∧
   (r, w_jobs w !! id) = ((executed parse preview_factory later j).1,
                          Some (executed parse preview_factory later j).2)) ∨
  ∃ e, r = Err e ∧ interrupted e w.

Lemma wp_execute job j w :
  pj_id job = id → pj_strategy_text job = pj_strategy_text j → at_row w j →
  wp (execute_job parse preview_factory job) (execute_post j) w.
Proof.
  intros Hid Ht Hat. unfold execute_job, execute_post, executed. rewrite Ht.
  apply wp_bind, wp_lift. destruct (parse (pj_strategy_text j)) as [parsed|e].
  2:{ left. destruct Hat. split_and!; [done..|]. by rewrite at_lookup0. }
  eapply wp_progress; [done|done|exact Hat| |by eauto]. clear w Hat. intros w Hat.
  eapply wp_progress; [done|done|exact Hat| |by eauto]. clear w Hat. intros w Hat.
  eapply wp_progress; [done|done|exact Hat| |by eauto]. clear w Hat. intros w Hat.
  eapply wp_progress; [done|done|exact Hat| |by eauto]. clear w Hat. intros w Hat.
  change (with_progress backtesting 85 _) with (with_progress backtesting 85 j) in Hat.
  apply wp_bind. eapply wp_mono; [apply (wp_row_read id (λ _, preview_factory parsed)); [by eapply at_respects|done]|].
  intros r w1 Hpost. cbn beta in Hpost. rewrite (at_lookup _ _ Hat) in Hpost.
  eapply interrupted_row in Hpost as [(-> & H1 & H2 & H3 & H4)|(e & -> & He)]; [|by eauto..|by auto].
  destruct (preview_factory parsed) as [preview|e].
  2:{ left. split_and!; [done..|]. by rewrite H4. }
  assert (at_row w1 (with_progress backtesting 85 j)) as Hat1 by (constructor; [done..|apply Hat]).
  eapply wp_progress; [done|done|exact Hat1| |by eauto]. clear w w1 Hat Hat1 H1 H2 H3 H4. intros w Hat.
  change (with_progress generating_results 95 _) with (with_progress generating_results 95 j) in Hat.
  apply wp_bind, wp_lift. destruct (serialize_preview parsed preview) as [document|e].
  2:{ left. destruct Hat. split_and!; [done..|]. by rewrite at_lookup0. }
  pose proof Hat as []. eapply wp_mono; [apply (wp_complete_job id job document w); eauto using at_respects|].
  intros r w1 (H1 & H2 & H3 & Hcase). assert (steps id w0 w1) by by eapply steps_trans.
  assert (same_resources w0 w1) by by etransitivity.
  rewrite at_reads0 in Hcase. replace (w_clock w) with (w_clock w0) in Hcase by (symmetry; apply at_same0).
  destruct Hcase as [[-> Ho]|(Hn & e & -> & He & Hrow)].
  - left. split_and!; [done|done|done|]. by rewrite Ho.
  - right. exists e. split; [done|]. split_and!; try done.
    + intros Hf. apply Hn. by apply at_steps0.
    + destruct Hrow as [Hrow|[Hlost Hrow]]; eauto. rewrite at_lookup0 in Hrow. eauto.
Qed.
End executing.

(** ** Lemmas: failures *)

(** What may escape a run: the retry request, or a failure of the database
    while handling a failure. *)
Definition operational (e : exn) : Prop := e = TransientPreviewJobError ∨ db_error e.

(** A run of the handler from the row [row0] that should end as [expected]. *)
Definition handled (id : UUID) (w : World) (expected : result bool * option PreviewJob)
    (r : result bool) (w' : World) : Prop :=
  steps id w w' ∧ same_resources w w' ∧
  match r with
  | Ok b => b = true ∧ ∀ j, w_jobs w' !! id = Some j → terminal j
  | Err e => operational e
  end ∧
  (fault_free w → (r, w_jobs w' !! id) = expected).

(** The handler, then [return True]. *)
Definition then_true (m : IO unit) : IO bool := _ <~ m; io_ret true.

Section failures.
Context (id : UUID).

Lemma wp_raise_transient k e w row :
  respects (holds id) w → w_jobs w !! id = row →
  wp (then_true (raise_transient_failure k e)) (handled id w (Err TransientPreviewJobError, row)) w.
Proof.
  intros Hr Hrow. apply wp_bind, wp_bind. eapply wp_mono; [by apply wp_rollback|].
  intros r w1 (H1 & H2 & H3 & Hcase). destruct Hcase as [[-> Ho]|(Hn & e' & -> & He & Ho)].
  - apply wp_emit, wp_raise. split_and!; [by apply steps_log|done|by left|]. intros _. cbn [log_to set_log w_jobs]. congruence.
  - split_and!; [done|done|by right|]. intros Hf. by apply Hn in Hf.
Qed.

Lemma terminal_failed error now j : terminal (as_failed error now j).
Proof. by right. Qed.

Lemma running_nonterminal j : pj_status j = running → nonterminal j = true.
Proof. intros H. unfold nonterminal. rewrite H. done. Qed.

Lemma wp_persist_failure job error w j :
  respects (holds id) w → pj_id job = id → w_jobs w !! id = Some j → pj_status j = running →
  wp (then_true (persist_failure job error))
    (handled id w (Ok true, Some (as_failed error (w_clock w (w_reads w)) j))) w.
Proof.
  intros Hr Hid Hj Hs. apply wp_bind, wp_try.
  eapply wp_mono; [apply (wp_fail_job id job error w j); eauto using running_nonterminal|].
  intros r w1 (H1 & H2 & H3 & Hcase). destruct Hcase as [[-> Ho]|(Hn & e & -> & He & Ho)].
  - apply wp_ret. split; [done|]. split; [done|]. split; [split; [done|]|].
    + intros j' Hj'. rewrite Ho in Hj'. injection Hj' as <-. apply terminal_failed.
    + intros _. by rewrite Ho.
  - destruct (transient_database_error e).
    + apply wp_bind. eapply wp_mono; [apply (wp_row_read id (λ _, Ok (pj_id job)) w1); [apply H1|done]|].
      intros r w2 (H4 & H5 & _ & Hcase). assert (steps id w w2) by by eapply steps_trans.
      assert (same_resources w w2) by by etransitivity. destruct Hcase as [[-> _]|(_ & e2 & -> & He2 & _)].
      2:{ split_and!; [done|done|by right|]. intros Hf. by apply Hn in Hf. }
      apply wp_bind_inv with (f := λ _, io_ret true).
      eapply wp_mono; [by apply (wp_raise_transient _ _ w2 (w_jobs w2 !! id)); [apply H4|]|].
      intros r w3 (H6 & H7 & H8 & _). split; [by eapply steps_trans|]. split; [by etransitivity|].
      split; [done|]. intros Hf. by apply Hn in Hf.
    + split_and!; [done|done|by right|]. intros Hf. by apply Hn in Hf.
Qed.

Lemma wp_handled_log m r w expected :
  wp (then_true m) (handled id (log_to r w) expected) (log_to r w) →
  wp (then_true (_ <~ emit r; m)) (handled id w expected) w.
Proof.
  intros H. apply (wp_mono (then_true m) (handled id (log_to r w) expected) _ (log_to r w) H).
  intros r' w' (H1 & H2 & H3). split; [by eapply steps_logged|done].
Qed.

(** The handler after the claim succeeded. *)
Lemma wp_handle_job job e w j :
  respects (holds id) w → pj_id job = id → w_jobs w !! id = Some j →
  pj_status j = running ∨ connection_lost e →
  wp (then_true (handle_failure id (Some job) e))
    (handled id w (rejected e (w_clock w (w_reads w)) j)) w.
Proof.
  intros Hr Hid Hj [Hs|[-> | ->]]; [|by apply wp_raise_transient..].
  destruct e; try (by apply wp_raise_transient); by apply wp_handled_log, (wp_persist_failure job _ (log_to _ w) j).
Qed.

(** The handler after the claim failed: the exception came from the database. *)
Lemma wp_handle_claim e w :
  respects (holds id) w → db_error e →
  wp (then_true (handle_failure id None e)) (λ r w', steps id w w' ∧ same_resources w w' ∧
    match r with Ok b => b = true ∧ ∀ j, w_jobs w' !! id = Some j → terminal j | Err e => operational e end) w.
Proof.
  intros Hr He. destruct e; try done;
    try (eapply wp_mono; [by apply wp_raise_transient|]; intros r w' (H1 & H2 & H3 & _); by split_and!).
  apply wp_bind, wp_emit. set (w0 := log_to _ w). apply wp_bind. eapply wp_mono; [by apply (wp_rollback id w0)|].
  intros r w1 (H1%steps_logged & H2 & H3 & Hcase). destruct Hcase as [[-> Ho]|(_ & e & -> & He' & Ho)].
  2:{ split_and!; [done|done|by right]. }
  apply wp_bind. eapply wp_mono; [apply (wp_transition id); by apply H1|].
  intros r w2 (H4 & H5 & Hcase). assert (steps id w w2) by by eapply steps_trans.
  assert (same_resources w w2) by by etransitivity.
  destruct Hcase as [[-> Ho2]|(_ & e & -> & He' & _)]; [|split_and!; [done|done|by right]].
  destruct (w_jobs w1 !! id) as [j|]; apply wp_ret, wp_ret; (split_and!; [done|done|done|]); intros j' Hj';
    rewrite Ho2 in Hj'; [|done]. simpl in Hj'. destruct (nonterminal j) eqn:Hn; injection Hj' as <-.
  - apply terminal_failed.
  - destruct (pj_status j) eqn:Hs; unfold nonterminal, terminal in *; rewrite Hs in *; auto; done.
Qed.
End failures.

(** ** Lemmas: a run *)
Section running.
Context (parse : string → result ParsedStrategyResult).
Context (preview_factory : ParsedStrategyResult → result StrategyPreview).

Definition run_post (id : UUID) (allow : bool) (w : World) (r : result bool) (w' : World) : Prop :=
  let row := w_jobs w !! id in
  steps id w w' ∧ same_resources w w' ∧
  match r with
  | Ok true => ∀ j, w_jobs w' !! id = Some j → terminal j
  | Ok false => w_jobs w' !! id = row ∧ ∀ j, row = Some j → claim_eligible allow j = false
  | Err e => operational e
  end ∧
  (fault_free w →
   (r, w_jobs w' !! id) =
     expected_run parse preview_factory allow (w_clock w (w_reads w)) (w_clock w (S (w_reads w))) row).

(** From the claim at [w0] to the end, the job having been claimed as [j]. *)
Definition claimed_post (id : UUID) (w0 : World) (j : PreviewJob) (r : result bool) (w' : World) : Prop :=
  let later := w_clock w0 (S (w_reads w0)) in
  steps id w0 w' ∧ same_resources w0 w' ∧
  match r with Ok b => b = true ∧ ∀ j, w_jobs w' !! id = Some j → terminal j | Err e => operational e end ∧
  (fault_free w0 → (r, w_jobs w' !! id) = settled later (executed parse preview_factory later j)).

Section after_claim.
Context (id : UUID) (j : PreviewJob) (w0 w : World).
Context (Hid : pj_id j = id) (Hat : at_row id w w j) (Hreads : w_reads w = S (w_reads w0)).
Context (Hs0 : steps id w0 w) (Hf0 : same_resources w0 w).
Let later := w_clock w0 (S (w_reads w0)).

Lemma wp_run_handled e j1 w1 :
  w_jobs w1 !! id = Some j1 → pj_status j1 = running ∨ connection_lost e →
  steps id w w1 → same_resources w w1 →
  (fault_free w → w_reads w1 = w_reads w ∧ (Err e, j1) = executed parse preview_factory later j) →
  wp (then_true (handle_failure id (Some j) e)) (claimed_post id w0 j) w1.
Proof.
  intros Hj1 Hrun Hs1 Hf1 Hex.
  eapply wp_mono; [by apply (wp_handle_job id j e w1 j1); [apply Hs1|..]|].
  intros r w2 (H1 & H2 & H3 & H4). unfold claimed_post. cbn zeta. fold later.
  split; [by eapply steps_trans; [eapply steps_trans|]|].
  split; [by etransitivity; [etransitivity|]|]. split.
  { by destruct r. }
  intros Hff. assert (fault_free w) as Hffw by by apply Hs0. destruct (Hex Hffw) as [Hrd <-].
  rewrite H4 by by apply Hs1. unfold settled.
  by rewrite Hrd, Hreads, (steps_clock _ _ _ Hs1), (steps_clock _ _ _ Hs0).
Qed.

Lemma wp_run_claimed :
  wp (_ <~ io_try (execute_job parse preview_factory j) (handle_failure id (Some j)); io_ret true)
    (claimed_post id w0 j) w.
Proof.
  apply wp_bind, wp_try.
  eapply wp_mono; [by apply (wp_execute _ _ id w j j w)|].
  unfold execute_post. rewrite Hreads, (steps_clock _ _ _ Hs0). fold later.
  intros r w1 [(Hs1 & Hf1 & Hrd & Heq)|(e & -> & Hs1 & Hf1 & Hn & He & j1 & Hj1 & Hrun)].
  - injection Heq as Hr Hrow. destruct r as [[]|e].
    + apply wp_ret. split; [by eapply steps_trans|]. split; [by etransitivity|].
      split; [split; [done|]|].
      * intros j' Hj'. rewrite Hrow in Hj'. injection Hj' as <-. unfold executed in *.
        repeat case_in Hr; try done. by left.
      * intros _. destruct (executed _ _ _ _) as [[]?]; simpl in *; congruence.
    + apply (wp_bind_inv _ (λ _, io_ret true) (claimed_post id w0 j)).
      apply (wp_run_handled e _ w1 Hrow); [|done|done|].
      * left. destruct Hat. unfold executed in *. by repeat case_in Hr.
      * intros _. split; [rewrite Hreads; by apply Hrd|].
        destruct (executed _ _ _ _) as [[]?]; simpl in *; congruence.
  - apply (wp_bind_inv _ (λ _, io_ret true) (claimed_post id w0 j)).
    apply (wp_run_handled e j1 w1); [done..|]. intros Hff. by apply Hn in Hff.
Qed.
End after_claim.

Lemma wp_run id allow w :
  respects (holds id) w → (∀ j, w_jobs w !! id = Some j → pj_id j = id) →
  wp (run_preview_job parse preview_factory id allow) (run_post id allow w) w.
Proof.
  intros Hr Hkey. unfold run_preview_job. apply wp_bind, wp_attempt.
  eapply wp_mono; [by apply (wp_claim id)|]. intros r w1 (Hs & Hf & Hreads & Hcase).
  set (now := w_clock w (w_reads w)) in *.
  destruct Hcase as [[-> Ho]|(Hn & e & -> & He & _)].
  2:{ eapply wp_mono; [apply (wp_handle_claim id e w1); [apply Hs|done]|].
      intros r w2 (H1 & H2 & H3). split; [by eapply steps_trans|]. split; [by etransitivity|]. split.
      - destruct r as [[]|]; [apply H3|by destruct H3|done].
      - intros Hff. by apply Hn in Hff. }
  cbn zeta in Ho. unfold claim_result, claim_row in *. unfold run_post, expected_run.
  destruct (w_jobs w !! id) as [j0|] eqn:Hj0.
  - destruct (claim_eligible allow j0) eqn:Hel.
    + cbn [negb]. assert (at_row id w1 w1 (claimed now j0)) as Hat.
      { constructor; [apply steps_refl, Hs|reflexivity|done|done|done]. }
      eapply wp_mono; [apply (wp_run_claimed id (claimed now j0) w w1); [exact (Hkey j0 eq_refl)|done..]|].
      intros r w2 (H1 & H2 & H3 & H4). split_and!; [done|done| |done].
      destruct r as [[]|]; [apply H3| |done]. by destruct H3.
    + cbn [negb]. apply wp_ret. split; [done|]. split; [done|]. split.
      * split; [congruence|]. by intros j [= <-].
      * intros _. congruence.
  - apply wp_ret. split; [done|]. split; [done|]. split; [by split|]. intros _. congruence.
Qed.
End running.

(** ** Lemmas: submission *)

(** The others honour the lock: once it is acquired they leave the row alone. *)
Definition lock_honoured (id : UUID) (lock_wait : Z) (w : World) : Prop :=
  respects table_moves w ∧
  ∀ w1, acquire_preview_job_lock id lock_wait w = (Ok true, w1) → respects (holds id) w1.

Section submission.
Context (id : UUID).

(** The [finally] block gives the lock back, unless it cannot reach the
    connection that holds it. *)
Definition released (locks : list (Z * Z)) (w w' : World) : Prop :=
  w_locks w' = locks ∨ w_locks w' = [] ∨ false ∈ w_unlocks w ∧ w_locks w' = w_locks w.

Lemma wp_release_or_invalidate failed w locks :
  respects (holds id) w → w_dialect w = "postgresql" → w_locks w = advisory_lock_keys id :: locks →
  wp (release_or_invalidate failed id) (λ r w', r = Ok () ∧ steps id w w' ∧ w_jobs w' !! id = w_jobs w !! id ∧
    w_queue w' = w_queue w ∧ w_queue_faults w' = w_queue_faults w ∧ w_polls w' = w_polls w ∧
    w_unlocks w' = tail (w_unlocks w) ∧ released locks w w') w.
Proof.
  intros Hr Hd Hl. apply wp_try, wp_bind. eapply wp_mono; [by apply wp_rollback|].
  assert (∀ w1, steps id w w1 → same_resources w w1 → w_jobs w1 !! id = w_jobs w !! id →
    wp (_ <~ invalidate; emit_queue failed) (λ r w', r = Ok () ∧ steps id w w' ∧ w_jobs w' !! id = w_jobs w !! id ∧
    w_queue w' = w_queue w ∧ w_queue_faults w' = w_queue_faults w ∧ w_polls w' = w_polls w ∧
    w_unlocks w' = tail (w_unlocks w) ∧ released locks w w') w1) as Hinv.
  { intros w1 [] (Hk & Hp & _ & Hq & Hqf & _ & _ & Hu) Ho. split; [done|]. split; [by constructor|].
    do 4 (split; [done|]). split; [cbn; by rewrite Hu|]. unfold released. cbn.
    destruct (reaches w1) eqn:Hrch; [by right; left|]. right; right. split; [|done]. apply reaches_spec in Hrch. by rewrite <- Hu. }
  intros r w1 (H1 & H2 & H3 & Hcase). destruct Hcase as [[-> Ho]|(_ & e & -> & _ & Ho)].
  2:{ apply Hinv; [done|done|]. by destruct Ho as [|[]]. }
  unfold release_preview_job_lock. apply wp_bind. unfold wp at 1, on_postgresql. cbn [fst snd].
  replace (String.eqb (w_dialect w1) "postgresql") with true by (by rewrite (steps_dialect _ _ _ H1), Hd).
  cbn [negb]. unfold pg_advisory_unlock. apply wp_bind. eapply wp_mono; [apply (wp_rollback id w1), H1|].
  intros r w2 (H4 & H5 & H6 & Hcase). assert (steps id w w2) by by eapply steps_trans.
  assert (same_resources w w2) as Hsame by by etransitivity.
  destruct Hcase as [[-> Ho2]|(_ & e & -> & _ & Ho2)].
  2:{ apply Hinv; [done|done|]. destruct Ho2 as [|[]]; congruence. }
  unfold wp. cbn [fst snd unlock set_unlocks set_locks w_jobs w_queue w_queue_faults w_locks w_polls w_unlocks].
  destruct Hsame as (Hk & Hp & _ & Hq & Hqf & _ & _ & Hu).
  split_and!; [done|by destruct H; constructor|cbn; congruence|done|done|done|cbn; by rewrite Hu|].
  unfold released. cbn. destruct (reaches w2) eqn:Hrch.
  - left. rewrite Hk, Hl. apply remove_first_head.
  - right; right. split; [|done]. apply reaches_spec in Hrch. by rewrite <- Hu.
Qed.

(** What the body leaves, before the lock is released. *)
Definition submitted (user_id : UUID) (text : string) (name : option string) (ttl : Z) (w : World)
    (r : result UUID) (w' : World) : Prop :=
  let new now := new_job id user_id text name ttl now in
  let accepted := w_queue w ++ [mkPayload id user_id text name None] in
  match r with
  | Ok i => i = id ∧ w_queue w' = accepted ∧ ∃ now, w_jobs w' !! id = Some (new now)
  | Err e =>
      (w_queue w' = w_queue w ∧ w_queue_faults w' = w_queue_faults w) ∨
      ∃ now later,
        (w_queue w' = w_queue w ∨ w_queue w' = accepted) ∧
        (w_jobs w' !! id = Some (new now) ∨ w_jobs w' !! id = Some (as_failed queue_failure_message later (new now))) ∧
        (fault_free w → w_jobs w' !! id = Some (as_failed queue_failure_message later (new now)))
  end.

Lemma wp_submit_body user_id text name ttl w :
  respects (holds id) w →
  wp (job <~ create_job id user_id text name ttl;
      _ <~ io_try (queue_enqueue (mkPayload (pj_id job) user_id text name None))
             (λ e, _ <~ emit_queue (enqueue_failed (pj_id job)); _ <~ fail_job job queue_failure_message; io_raise e);
      _ <~ emit_queue (submitted_record (pj_id job));
      io_ret (pj_id job))
    (λ r w', steps id w w' ∧ w_locks w' = w_locks w ∧ w_unlocks w' = w_unlocks w ∧ submitted user_id text name ttl w r w') w.
Proof.
  intros Hr. apply wp_bind. eapply wp_mono; [by apply (wp_create id)|].
  intros r w1 (H1 & (Hl & _ & _ & Hq & Hqf & _ & _ & Hu) & H3 & Hcase). cbn zeta in Hcase.
  set (now := w_clock w (w_reads w)) in *. set (new := new_job id user_id text name ttl now) in *.
  destruct Hcase as [[-> Ho]|(Hn & e & -> & He & Ho)].
  2:{ split_and!; [done..|]. left. by split. }
  unfold create_result, create_row in *. destruct (job_row_ok new && _).
  2:{ split_and!; [done..|]. left. by split. }
  change (pj_id new) with id. apply wp_bind, wp_try. unfold wp at 1, queue_enqueue.
  destruct (default None (head (w_queue_faults w1))) as [[e b]|] eqn:Hfault; cbn [fst snd].
  - apply wp_emit_queue, wp_bind. set (w2 := log_to _ _). assert (steps id w w2) as H2 by (destruct H1; by constructor).
    assert (w_queue w2 = w_queue w ∨ w_queue w2 = w_queue w ++ [mkPayload id user_id text name None]) as Hq2.
    { unfold w2. cbn [log_to set_log w_queue]. destruct b; rewrite Hq; auto. }
    eapply wp_mono; [apply (wp_fail_job id new queue_failure_message w2 new); [apply H2|done|exact Ho|done]|].
    intros r w3 (H5 & (Hl3 & _ & _ & Hq3 & Hqf3 & _ & _ & Hu3) & _ & Hcase). rewrite <- Hq3 in Hq2.
    assert (steps id w w3) by by eapply steps_trans.
    destruct Hcase as [[-> Ho3]|(Hn & e' & -> & He' & Ho3)].
    + apply wp_raise. split_and!; [done|by rewrite Hl3|by rewrite Hu3|]. right. exists now. eexists. split; [done|].
      split; [by right|]. by intros _.
    + split_and!; [done|by rewrite Hl3|by rewrite Hu3|]. right. exists now, (w_clock w2 (w_reads w2)). split; [done|]. split.
      * destruct Ho3 as [Ho3|[_ Ho3]]; [left; by rewrite Ho3|by right].
      * intros Hff. exfalso. by apply Hn, H2.
  - apply wp_emit_queue, wp_ret. split_and!; [destruct H1; by constructor|done|done|].
    split_and!; [done|cbn [log_to set_log w_queue]; by rewrite Hq|by exists now].
Qed.
End submission.

(** A session that began without a lock ends without one, unless the release of
    the lock [id] did not reach the connection that holds it. *)
Definition lock_given_back (id : UUID) (w w' : World) : Prop :=
  w_locks w' = [] ∨ false ∈ w_unlocks w ∧ w_locks w' = [advisory_lock_keys id].

(** The whole submission. *)
Lemma wp_submit (lock_wait ttl : Z) (id user_id : UUID) (text : string)
    (name : option string) (w : World) :
  lock_honoured id lock_wait w → w_dialect w = "postgresql" → w_locks w = [] →
  wp (submit_preview_job lock_wait ttl id user_id text name) (λ r w',
    table_moves (w_jobs w) (w_jobs w') ∧ respects table_moves w' ∧ lock_given_back id w w' ∧ submitted id user_id text name ttl w r w') w.
Proof.
  intros [Hm Hh] Hd Hl. apply wp_bind. pose proof (acquire_outcome table_moves id lock_wait w Hm Hd) as Ha.
  unfold wp in Ha |- *. specialize (Hh (acquire_preview_job_lock id lock_wait w).2).
  destruct (acquire_preview_job_lock id lock_wait w) as [[[]|e] w1]; cbn [fst snd negb] in *;
    destruct Ha as (Hm1 & Hr1 & (Hd1 & Hq1 & Hf1 & _ & _ & _ & Hff & Hu1) & Hlock); simpl in Hlock.
  2:{ destruct Hlock as [Hk _]. rewrite Hl in Hk. split_and!; [done|done|by left|]. left. by split. }
  2:{ destruct Hlock as [Hk _]. rewrite Hl in Hk. split_and!; [done|done|by left|]. left. by split. }
  specialize (Hh eq_refl). destruct Hlock as [Hlk _]. rewrite Hl in Hlk.
  apply wp_finally. eapply wp_mono; [by apply (wp_submit_body id)|]. intros r w2 (Hs2 & Hl2 & Hu2 & Hsub).
  eapply wp_mono; [apply (wp_release_or_invalidate id _ w2 []); [apply Hs2|rewrite (steps_dialect _ _ _ Hs2); congruence|congruence]|].
  intros r2 w3 (-> & Hs3 & Hrow & Hq3 & Hqf3 & _ & _ & Hl3). split_and!.
  - transitivity (w_jobs w1); [done|]. transitivity (w_jobs w2); [apply Hs2|apply Hs3].
  - eapply Forall_impl; [apply (steps_respects _ _ _ Hs3)|]. intros ev [Hh2 ?]. split; [|done]. intros t. apply Hh2.
  - destruct Hl3 as [|[|[Hin Hk]]]; [by left|by left|right]. split; [congruence|]. by rewrite Hk, Hl2.
  - unfold submitted in *. rewrite Hq1, Hf1 in Hsub. rewrite Hrow, Hq3, Hqf3.
    destruct r as [i|e]; [done|]. destruct Hsub as [?|(now & later & ? & ? & ?)]; [by left|right].
    exists now, later. split_and!; [done|done|]. auto.
Qed.

(** ** The theorems *)

(** C24: A submission persists before it enqueues, under any failures: the payload is
    handed over only when the job's row exists; success means a queued row and
    exactly one payload with the job's identifier; a refused hand-over leaves a
    failed row when the database works; every other row moves only along the
    lifecycle; and the lock is given back, unless the release did not reach the
    connection that holds it (the commit of the row gave that connection back
    to the pool, and another thread may have taken it). *)
Theorem submit_persists_first (lock_wait ttl : Z) (id user_id : UUID) (text : string)
    (name : option string) (w : World) :
  lock_honoured id lock_wait w → w_dialect w = "postgresql" → w_locks w = [] →
  wp (submit_preview_job lock_wait ttl id user_id text name) (λ r w',
    table_moves (w_jobs w) (w_jobs w') ∧ lock_given_back id w w' ∧ submitted id user_id text name ttl w r w') w.
Proof.
  intros Hh Hd Hl. eapply wp_mono; [by apply wp_submit|]. intros r w' (H1 & _ & H2 & H3). by split_and!.
Qed.

(** One busy poll, and a queue that accepts the payload but reports a timeout. *)
Definition submit_world : World :=
  mkWorld ∅ [] (λ n, Z.of_nat n) 0 [] [Some (OtherException "TimeoutError", true)] [] [(false, 1)] [] "postgresql" [] "preview" [] 0.

Lemma submit_persists_first_witness :
  let r := submit_preview_job 5 24 7 1 "buy SPY" None submit_world in
  r.1 = Err (OtherException "TimeoutError") ∧
  (table_moves ∅ (w_jobs r.2) ∧ lock_given_back 7 submit_world r.2 ∧ submitted 7 1 "buy SPY" None 24 submit_world r.1 r.2).
Proof.
  split; [by vm_compute|].
  apply (submit_persists_first 5 24 7 1 "buy SPY" None submit_world); [|done|done].
  split; [constructor|]. intros w1 Hw1. vm_compute in Hw1. injection Hw1 as <-. constructor.
Defined.

(** Another thread has taken the connection that holds the lock when the
    submission gives it back: the job is queued, its payload handed over, and
    its lock stays taken, so that no worker can run it. *)
Example leaked_submission_lock :
  let r := submit_preview_job 5 24 7 1 "buy SPY" None
             (set_unlocks [false] (quiet_world ∅ [])) in
  r.1 = Ok 7 ∧ (pj_status <$> w_jobs r.2 !! 7) = Some queued ∧ (qp_job_id <$> w_queue r.2) = [7] ∧
  w_locks r.2 = [advisory_lock_keys 7].
Proof. by vm_compute. Qed.

(** C10: When nothing fails underneath, a run of a job does exactly this: an
    ineligible job is left alone and reported false; otherwise the job is
    claimed, and ends completed with the serialized preview, or failed with the
    message its exception class prescribes, or, for a provider timeout or a
    transient database error, stays running and asks for a retry. *)
Theorem run_preview_job_exact (parse : string → result ParsedStrategyResult)
    (preview_factory : ParsedStrategyResult → result StrategyPreview) (id : UUID) (allow : bool) (w : World) :
  respects (holds id) w → (∀ j, w_jobs w !! id = Some j → pj_id j = id) → fault_free w →
  wp (run_preview_job parse preview_factory id allow) (λ r w',
    (r, w_jobs w' !! id) =
      expected_run parse preview_factory allow (w_clock w (w_reads w)) (w_clock w (S (w_reads w)))
        (w_jobs w !! id)) w.
Proof.
  intros Hr Hkey Hf. eapply wp_mono; [by apply wp_run|]. intros r w' (_ & _ & _ & H). by apply H.
Qed.

Lemma sample_job_keyed j : w_jobs (quiet_world {[ 7 := sample_job ]} []) !! 7 = Some j → pj_id j = 7.
Proof. intros H. vm_compute in H. by injection H as <-. Qed.

Lemma run_preview_job_exact_witness :
  let run parse := run_preview_job parse (create_preview (λ x _, Ok x) sample_table) 7 false
                     (quiet_world {[ 7 := sample_job ]} []) in
  let good := run (λ _, Ok sample_parsed) in
  let bad := run (λ _, Err (StrategyValidationError "no")) in
  good.1 = Ok true ∧ (pj_status <$> w_jobs good.2 !! 7) = Some completed ∧
  (bad.1, w_jobs bad.2 !! 7) = (Ok true, Some (as_failed "no" 1 (claimed 0 sample_job))).
Proof.
  pose proof (λ parse, run_preview_job_exact parse (create_preview (λ x _, Ok x) sample_table) 7 false
    (quiet_world {[ 7 := sample_job ]} []) (quiet_respects _ _ _) sample_job_keyed (quiet_fault_free _ _)) as H.
  split_and!; [by vm_compute|by vm_compute|]. exact (H (λ _, Err (StrategyValidationError "no"))).
Defined.

(** Whatever fails, a run settles its job: true means the row is completed or
    failed, false means it was ineligible and is unchanged, and the only
    exceptions that escape ask for a retry or report the database; every row
    moves only along the lifecycle. *)
Theorem run_preview_job_settles (parse : string → result ParsedStrategyResult)
    (preview_factory : ParsedStrategyResult → result StrategyPreview) (id : UUID) (allow : bool) (w : World) :
  respects (holds id) w → (∀ j, w_jobs w !! id = Some j → pj_id j = id) →
  wp (run_preview_job parse preview_factory id allow) (λ r w',
    table_moves (w_jobs w) (w_jobs w') ∧
    match r with
    | Ok true => ∀ j, w_jobs w' !! id = Some j → terminal j
    | Ok false => w_jobs w' !! id = w_jobs w !! id ∧
                  ∀ j, w_jobs w !! id = Some j → claim_eligible allow j = false
    | Err e => operational e
    end) w.
Proof.
  intros Hr Hkey. eapply wp_mono; [by apply wp_run|]. intros r w' (H1 & _ & H2 & _). split; [apply H1|exact H2].
Qed.

(** The connection is lost while the last commit is under way. *)
Definition lost_world : World :=
  set_events (replicate 8 (mkEvent id None) ++ [mkEvent id (Some (OperationalError, true))])
    (quiet_world {[ 7 := sample_job ]} []).

Lemma run_preview_job_settles_witness :
  let r := run_preview_job (λ _, Ok sample_parsed) (create_preview (λ x _, Ok x) sample_table) 7 false lost_world in
  r.1 = Err TransientPreviewJobError ∧ (pj_status <$> w_jobs r.2 !! 7) = Some completed ∧
  (table_moves (w_jobs lost_world) (w_jobs r.2) ∧
   match r.1 with
   | Ok true => ∀ j, w_jobs r.2 !! 7 = Some j → terminal j
   | Ok false => w_jobs r.2 !! 7 = w_jobs lost_world !! 7 ∧
                 ∀ j, w_jobs lost_world !! 7 = Some j → claim_eligible false j = false
   | Err e => operational e
   end).
Proof.
  assert (respects (holds 7) lost_world) as Hr.
  { unfold lost_world, respects. cbn [set_events w_events]. apply Forall_app. split.
    - apply Forall_replicate. split; [intros t; reflexivity|done].
    - constructor; [|constructor]. split; [intros t; reflexivity|]. intros e b [= <- <-]. split; [done|by left]. }
  split; [by vm_compute|]. split; [by vm_compute|].
  exact (run_preview_job_settles (λ _, Ok sample_parsed) (create_preview (λ x _, Ok x) sample_table) 7 false
    lost_world Hr sample_job_keyed).
Defined.
