(* ===== verification/Reconciliation.v ===== *)
(** * Reconciliation ([backend/app/services/preview_reconciliation.py])

    One bounded pass over the nonterminal jobs, with its log calls.
    Instants are microseconds, so [comparable_time], which drops the time zone
    of a UTC instant, is the identity on them.

    A rollback expires the candidates that are still loaded, so that the next
    one is read again when it is looked at ([pass_expired]); it does nothing
    when the transaction was already committed. *)

From S2P Require Import Prelude Models StrategySpec Auth Uuid Logging Effects JobStore JobRules PreviewJobService.
From Stdlib Require Import ZArith Lia.
From stdpp Require Import base list option strings gmap sets sorting relations.
Local Open Scope Z_scope.
Local Open Scope io_scope.

Definition RECOVERY_FAILURE_MESSAGE : string :=
  "Unable to recover the strategy preview. Run the preview again.".

Record ReconciliationSummary : Type := mkSummary {
  scanned : Z; active : Z; recovered : Z; failed_jobs : Z; locked : Z; not_stale : Z; state_changed : Z }.

Definition add_active (s : ReconciliationSummary) : ReconciliationSummary :=
  mkSummary (scanned s) (active s + 1) (recovered s) (failed_jobs s) (locked s) (not_stale s) (state_changed s).
Definition add_recovered (s : ReconciliationSummary) : ReconciliationSummary :=
  mkSummary (scanned s) (active s) (recovered s + 1) (failed_jobs s) (locked s) (not_stale s) (state_changed s).
Definition add_failed (s : ReconciliationSummary) : ReconciliationSummary :=
  mkSummary (scanned s) (active s) (recovered s) (failed_jobs s + 1) (locked s) (not_stale s) (state_changed s).
Definition add_locked (s : ReconciliationSummary) : ReconciliationSummary :=
  mkSummary (scanned s) (active s) (recovered s) (failed_jobs s) (locked s + 1) (not_stale s) (state_changed s).
Definition add_not_stale (s : ReconciliationSummary) : ReconciliationSummary :=
  mkSummary (scanned s) (active s) (recovered s) (failed_jobs s) (locked s) (not_stale s + 1) (state_changed s).
Definition add_state_changed (s : ReconciliationSummary) : ReconciliationSummary :=
  mkSummary (scanned s) (active s) (recovered s) (failed_jobs s) (locked s) (not_stale s) (state_changed s + 1).

Definition is_stale (now : datetime) (started_at : option datetime) (stale_after_seconds : Z) : bool :=
  match started_at with
  | None => true
  | Some started => stale_after_seconds * 1000000 <=? now - started
  end.

(** What the pass carries from one candidate to the next. *)
Record Pass : Type := mkPass {
  pass_summary : ReconciliationSummary;
  pass_active : gset Z;
  pass_expired : bool }.

Section reconcile.
Context (max_retries stale_after_seconds : Z) (current_time : datetime).

Definition max_attempts : Z := max_retries + 1.
Definition exhausted (job : PreviewJob) : bool := max_attempts <=? pj_attempt_count job.
Definition expired (job : PreviewJob) : bool := pj_expires_at job <=? current_time.
Definition stale (job : PreviewJob) : bool :=
  bool_decide (pj_status job = running) && is_stale current_time (pj_started_at job) stale_after_seconds.

Definition recovery_payload (job : PreviewJob) : QueuePayload :=
  mkPayload (pj_id job) (pj_user_id job) (pj_strategy_text job) (pj_strategy_name job)
    (Some (max_retries - pj_attempt_count job)).

Definition action_record (job : PreviewJob) (action : string) (previous_status new_status : JobStatus) : JobLog :=
  mkJobLog log_info "Preview reconciliation action"
    (log_fields
       [("event", JStr "preview_reconciliation"); ("component", JStr "worker"); ("job_id", JStr (uuid_str (pj_id job)));
        ("queue", JStr "preview"); ("previous_status", JStr (status_name previous_status));
        ("new_status", JStr (status_name new_status)); ("reconciliation_action", JStr action);
        ("attempt", JInt (pj_attempt_count job)); ("max_attempts", JInt max_attempts)]%string).

Definition log_action (job : PreviewJob) (action : string) (previous_status new_status : JobStatus) : IO unit :=
  emit (action_record job action previous_status new_status).

(** An action that leaves the job as it is. *)
Definition log_kept (job : PreviewJob) (action : string) : IO unit := log_action job action (pj_status job) (pj_status job).

(** The [try] block; the boolean says whether a transaction is still open. *)
Definition reconcile_locked (job_id : UUID) (s : ReconciliationSummary) (active_ids : gset Z)
    : IO (ReconciliationSummary * gset Z * bool) :=
  job <~ refresh_job job_id;
  if negb (nonterminal job) then _ <~ log_kept job "terminal_state"; io_ret (add_state_changed s, active_ids, true)
  else
    active_ids <~ queue_active_ids;
    if bool_decide (pj_id job ∈ active_ids) then
      _ <~ log_kept job "active_after_lock"; io_ret (add_active s, active_ids, true)
    else if exhausted job || expired job then
      changed <~ transition_job_after_operational_failure (pj_id job) false RECOVERY_FAILURE_MESSAGE;
      _ <~ log_action job "failed_exhausted" (pj_status job) failed;
      io_ret (if changed : bool then add_failed s else s, active_ids, false)
    else if bool_decide (pj_status job = running) && negb (stale job) then
      _ <~ log_kept job "awaiting_active_state_after_lock"; io_ret (add_not_stale s, active_ids, true)
    else
      let previous_status := pj_status job in
      job <~ (if bool_decide (pj_status job = running) then
                _ <~ transition_job_after_operational_failure (pj_id job) true default_final_error;
                refresh_job (pj_id job)
              else io_ret job);
      _ <~ queue_enqueue (recovery_payload job);
      _ <~ log_action job "re_enqueued" previous_status queued;
      io_ret (add_recovered s, {[ pj_id job ]} ∪ active_ids, true).

Definition reconciliation_release_failed (job_id : UUID) : JobLog :=
  outcome_record log_exception "Unable to release preview reconciliation lock" "preview_reconciliation_lock" "worker"
    job_id "release_failed" "preview".

(** The [finally] block: after a rollback the job's identifier is read again. *)
Definition release_reconciled (job_id : UUID) (open : bool) : IO unit :=
  io_try (_ <~ rollback;
          _ <~ (if open then _ <~ refresh_job job_id; io_ret () else io_ret ());
          release_preview_job_lock job_id)
    (λ e, _ <~ invalidate;
          job_id <~ read_job_id job_id; _ <~ emit (reconciliation_release_failed job_id); io_raise e).

(** The loop body. *)
Definition reconcile_candidate (p : Pass) (candidate : PreviewJob) : IO Pass :=
  let s := pass_summary p in
  job <~ (if pass_expired p then refresh_job (pj_id candidate) else io_ret candidate);
  if bool_decide (pj_id job ∈ pass_active p) then
    _ <~ log_kept job "active"; io_ret (mkPass (add_active s) (pass_active p) (pass_expired p))
  else if bool_decide (pj_status job = running) && negb (stale job) && negb (exhausted job) && negb (expired job)
  then _ <~ log_kept job "awaiting_active_state"; io_ret (mkPass (add_not_stale s) (pass_active p) (pass_expired p))
  else
    '(acquired, _) <~ try_acquire_preview_job_lock (pj_id job);
    if negb acquired then _ <~ log_kept job "lock_held"; io_ret (mkPass (add_locked s) (pass_active p) (pass_expired p))
    else
      r <~ io_attempt (reconcile_locked (pj_id job) s (pass_active p));
      let open := match r with Ok (_, _, open) => open | Err _ => true end in
      _ <~ release_reconciled (pj_id job) open;
      '(s, active_ids, _) <~ io_lift r;
      io_ret (mkPass s active_ids (pass_expired p || open)).

Fixpoint reconcile_loop (p : Pass) (candidates : list PreviewJob) : IO Pass :=
  match candidates with
  | [] => io_ret p
  | job :: candidates => p <~ reconcile_candidate p job; reconcile_loop p candidates
  end.
End reconcile.

(** [elapsed] is the duration of the pass. *)
Definition completed_record (elapsed : N) : JobLog :=
  mkJobLog log_info "Preview reconciliation completed"
    (log_fields [("event", JStr "reconciliation_completed"); ("component", JStr "worker"); ("queue", JStr "preview");
                 ("outcome", JStr "success")]%string ++ [("duration_ms"%string, Milliseconds elapsed)]).

(** The whole pass; [registry_scan_limit] only bounds the queue's scan. *)
Definition reconcile_preview_jobs (max_retries stale_after_seconds : Z) (batch_size : nat)
    (now : option datetime) : IO ReconciliationSummary :=
  current_time <~ (match now with Some now => io_ret now | None => datetime_now end);
  active_ids <~ queue_active_ids;
  candidates <~ list_reconciliation_candidates batch_size;
  let summary := mkSummary (Z.of_nat (length candidates)) 0 0 0 0 0 0 in
  p <~ reconcile_loop max_retries stale_after_seconds current_time (mkPass summary active_ids false) candidates;
  _ <~ emit_elapsed completed_record;
  io_ret (pass_summary p).

(** ** Lemmas: what a computation adds to the queue and the log *)

(** The job and the action of a record of a pass. *)
Definition action_of (r : JobLog) : option (string * string) :=
  match obj_get "job_id" (jl_extra r), obj_get "reconciliation_action" (jl_extra r) with
  | Some (JsonValue (JStr job_id)), Some (JsonValue (JStr action)) => Some (job_id, action)
  | _, _ => None
  end.

Definition actions (log : list JobLog) : list (string * string) := omap action_of log.

Lemma actions_app l1 l2 : actions (l1 ++ l2) = actions l1 ++ actions l2.
Proof. apply omap_app. Qed.

Lemma action_of_record max_retries job action previous new :
  action_of (action_record max_retries job action previous new) = Some (uuid_str (pj_id job), action).
Proof. reflexivity. Qed.

Lemma action_of_transition job event previous new : action_of (transition_record job event previous new) = None.
Proof. reflexivity. Qed.

(** Computations that log no action. *)
Definition silent {A} (m : IO A) : Prop := ∀ w, actions (w_log (m w).2) = actions (w_log w).

Lemma silent_db {A} (f : JobTable → result A * JobTable) : silent (db f).
Proof. intros w. unfold db. destruct (f _). by destruct (ev_fault _) as [[? []]|]. Qed.

Lemma silent_ret {A} (a : A) : silent (io_ret a).
Proof. done. Qed.

Lemma silent_now : silent datetime_now.
Proof. done. Qed.

Lemma silent_bind {A B} (m : IO A) (f : A → IO B) : silent m → (∀ a, silent (f a)) → silent (io_bind m f).
Proof.
  intros Hm Hf w. specialize (Hm w). unfold io_bind. destruct (m w) as [[a|e] w1]; [|done].
  cbn [snd] in Hm. rewrite <- Hm. apply Hf.
Qed.

Lemma silent_emit r : action_of r = None → silent (emit r).
Proof. intros H w. cbn. rewrite actions_app. unfold actions at 2. cbn. by rewrite H, app_nil_r. Qed.

Lemma silent_log_loaded job event previous new : silent (log_loaded job event previous new).
Proof. destruct job; [by apply silent_emit|apply silent_ret]. Qed.

Lemma silent_transition id will_retry error : silent (transition_job_after_operational_failure id will_retry error).
Proof.
  unfold transition_job_after_operational_failure, report_transition. cbv zeta.
  apply silent_bind; [destruct will_retry; [apply silent_ret|apply silent_bind; [apply silent_now|intros; apply silent_ret]]|].
  intros f. apply silent_bind; [apply silent_db|]. intros n. destruct (n =? 1); [|apply silent_ret].
  apply silent_bind; [apply silent_db|]. intros job. apply silent_bind; [apply silent_log_loaded|intros; apply silent_ret].
Qed.

(** The payloads handed over, the actions logged and the number of scans. *)
Record Effect : Type := mkEffect { ef_payloads : list QueuePayload; ef_actions : list (string * string); ef_scans : nat }.

Definition nothing : Effect := mkEffect [] [] 0.
Definition handing (pl : QueuePayload) : Effect := mkEffect [pl] [] 0.
Definition logging (id : UUID) (action : string) : Effect := mkEffect [] [(uuid_str id, action)] 0.
Definition scanning : Effect := mkEffect [] [] 1.
Definition ef_app (e1 e2 : Effect) : Effect :=
  mkEffect (ef_payloads e1 ++ ef_payloads e2) (ef_actions e1 ++ ef_actions e2) (ef_scans e1 + ef_scans e2).

Lemma ef_app_nothing e : ef_app e nothing = e.
Proof. destruct e. unfold ef_app. cbn. by rewrite !app_nil_r, Nat.add_0_r. Qed.

(** From [w] to [w'] rows move along the lifecycle and the rest is [e]. *)
Record tracks (w w' : World) (e : Effect) : Prop := mkTracks {
  tracks_moves : table_moves (w_jobs w) (w_jobs w');
  tracks_respects : respects table_moves w';
  tracks_dialect : w_dialect w' = w_dialect w;
  tracks_queue : w_queue w' = w_queue w ++ ef_payloads e;
  tracks_actions : actions (w_log w') = actions (w_log w) ++ ef_actions e;
  tracks_scans : w_active w' = drop (ef_scans e) (w_active w);
  tracks_unlocks : ∀ b, b ∈ w_unlocks w' → b ∈ w_unlocks w }.

Lemma tracks_refl w : respects table_moves w → tracks w w nothing.
Proof. intros H. constructor; cbn; rewrite ?app_nil_r; done. Qed.

Lemma tracks_trans w1 w2 w3 e1 e2 : tracks w1 w2 e1 → tracks w2 w3 e2 → tracks w1 w3 (ef_app e1 e2).
Proof.
  intros [] []. constructor; cbn; [by etransitivity|done|congruence| | | |by auto].
  - by rewrite tracks_queue1, tracks_queue0, app_assoc.
  - by rewrite tracks_actions1, tracks_actions0, app_assoc.
  - by rewrite tracks_scans1, tracks_scans0, drop_drop.
Qed.

Lemma tracks_after w1 w2 w3 e : tracks w1 w2 nothing → tracks w2 w3 e → tracks w1 w3 e.
Proof. intros H1 H2. destruct e. exact (tracks_trans _ _ _ _ _ H1 H2). Qed.

Lemma tracks_then w1 w2 w3 e : tracks w1 w2 e → tracks w2 w3 nothing → tracks w1 w3 e.
Proof. intros H1 H2. rewrite <- (ef_app_nothing e). by eapply tracks_trans. Qed.

Lemma tracks_log w w1 e r : tracks w w1 e → action_of r = None → tracks w (log_to r w1) e.
Proof.
  intros [] Hr. constructor; try done. cbn. rewrite actions_app. unfold actions at 2. cbn. by rewrite Hr, app_nil_r.
Qed.

Lemma tracks_kept w w1 e r id action :
  tracks w w1 e → action_of r = Some (uuid_str id, action) → tracks w (log_to r w1) (ef_app e (logging id action)).
Proof.
  intros [] Hr. constructor; cbn; rewrite ?app_nil_r, ?Nat.add_0_r; try done.
  rewrite actions_app, tracks_actions0. unfold actions at 2. cbn. by rewrite Hr, <- app_assoc.
Qed.

Lemma tracks_wf w w' e : table_wf (w_jobs w) → tracks w w' e → table_wf (w_jobs w').
Proof. intros Hwf []. by eapply table_moves_wf. Qed.

(** A computation on the table adds nothing and takes no lock. *)
Lemma wp_tracks {A} (m : IO A) w :
  guarantees m → frames m → silent m → respects table_moves w →
  wp m (λ _ w', tracks w w' nothing ∧ w_locks w' = w_locks w) w.
Proof.
  intros Hg Hf Hs Hr. specialize (Hg w Hr). specialize (Hf w). specialize (Hs w). unfold wp in *.
  destruct Hf as (Hl & _ & Hd & Hq & _ & Ha & _ & Hu). destruct Hg.
  split; [constructor; cbn; rewrite ?app_nil_r; try done; by rewrite Hu|done].
Qed.

Lemma wp_tracks_db {A} (f : JobTable → result A) w :
  respects table_moves w → wp (db (λ t, (f t, t))) (λ _ w', tracks w w' nothing ∧ w_locks w' = w_locks w) w.
Proof. intros Hr. apply wp_tracks; [read_only|apply frames_db|apply silent_db|done]. Qed.

Lemma wp_refresh id w :
  respects table_moves w → table_wf (w_jobs w) →
  wp (refresh_job id) (λ r w', tracks w w' nothing ∧ w_locks w' = w_locks w ∧
    ∀ j, r = Ok j → pj_id j = id ∧ job_wf j) w.
Proof.
  intros Hr Hwf. unfold refresh_job.
  apply (wp_db table_moves) with (Q := λ r w', tracks w w' nothing ∧ w_locks w' = w_locks w ∧
    ∀ j, r = Ok j → pj_id j = id ∧ job_wf j); [done|].
  intros t w1 Ht ->. pose proof (respects_pop _ w Hr) as Hp.
  assert (∀ t', table_moves (w_jobs w) t' → tracks w (set_jobs t' (pop_event w)) nothing) as Htr.
  { intros t' Ht'. constructor; cbn; rewrite ?app_nil_r; done. }
  split; [|split; intros e _; (split; [by apply Htr|by split])].
  cbn [fst snd]. split_and!; [by apply Htr|done|]. intros j Hj.
  destruct (t !! id) as [j'|] eqn:Hjt; [|done]. injection Hj as <-.
  destruct (table_moves_wf _ _ Hwf Ht id j' Hjt). by split.
Qed.

(** The answer of scan number [k] from [w], when the queue holds [q]. *)
Definition scan_answer (w : World) (k : nat) (q : list QueuePayload) : result (gset Z) :=
  default (λ _, Ok ∅) (w_active w !! k) q.

Lemma scan_answer_after w w' e k q : tracks w w' e → scan_answer w' k q = scan_answer w (ef_scans e + k) q.
Proof. intros []. unfold scan_answer. by rewrite tracks_scans0, lookup_drop. Qed.

Lemma wp_active w :
  respects table_moves w →
  wp queue_active_ids (λ r w', r = scan_answer w 0 (w_queue w) ∧ tracks w w' scanning ∧ w_locks w' = w_locks w) w.
Proof.
  intros Hr. split_and!; [by cbn; unfold scan_answer; destruct (w_active w)| |done].
  constructor; cbn; rewrite ?app_nil_r; done.
Qed.

Lemma wp_enqueue pl w :
  respects table_moves w →
  wp (queue_enqueue pl) (λ r w', w_locks w' = w_locks w ∧
    (tracks w w' (handing pl) ∨ r ≠ Ok () ∧ tracks w w' nothing)) w.
Proof.
  intros Hr. unfold wp, queue_enqueue. destruct (default None (head (w_queue_faults w))) as [[e []]|]; cbn [fst snd].
  - split; [done|]. left. constructor; cbn; rewrite ?app_nil_r; done.
  - split; [done|]. right. split; [done|]. constructor; cbn; rewrite ?app_nil_r; done.
  - split; [done|]. left. constructor; cbn; rewrite ?app_nil_r; done.
Qed.

Lemma wp_try_lock id w :
  respects table_moves w → w_dialect w = "postgresql" →
  wp (try_acquire_preview_job_lock id) (λ r w', tracks w w' nothing ∧
    w_locks w' = match r with Ok (true, _) => advisory_lock_keys id :: w_locks w | _ => w_locks w end) w.
Proof.
  intros Hr Hd. unfold try_acquire_preview_job_lock. apply wp_bind. unfold wp at 1, on_postgresql. cbn [fst snd].
  replace (String.eqb (w_dialect w) "postgresql") with true by (by rewrite Hd). cbn [negb].
  apply wp_bind. eapply wp_mono; [by apply (wp_tracks_db (λ _, Ok ()))|].
  intros [[]|e] w1 [Ht Hl]; [|done]. unfold wp.
  destruct (w_polls w1) as [|[[] tm] rest]; cbn [fst snd]; (split; [destruct Ht; by constructor|simpl; congruence]).
Qed.

(** Some release did not reach the connection that holds its lock. *)
Definition astray (w : World) : Prop := false ∈ w_unlocks w.

Lemma astray_before w w' e : tracks w w' e → astray w' → astray w.
Proof. intros []. apply tracks_unlocks0. Qed.

Lemma tracks_give_back w w1 locks :
  tracks w w1 nothing → tracks w (set_unlocks (tail (w_unlocks w1)) (set_locks locks (w_polls w1) w1)) nothing.
Proof.
  intros []. constructor; try done. intros b Hb. apply tracks_unlocks0. cbn in Hb.
  destruct (w_unlocks w1); [done|by right].
Qed.

Lemma wp_release_reconciled id open w locks :
  respects table_moves w → table_wf (w_jobs w) → w_dialect w = "postgresql" →
  w_locks w = advisory_lock_keys id :: locks →
  wp (release_reconciled id open) (λ r w', tracks w w' nothing ∧
    (astray w ∨ w_locks w' = match r with Ok _ => locks | Err _ => [] end)) w.
Proof.
  intros Hr Hwf Hd Hl. apply wp_try, wp_bind.
  assert (∀ w1, tracks w w1 nothing → reaches w1 = false → astray w) as Hlost.
  { intros w1 Ht1 Hrch. eapply astray_before; [exact Ht1|]. by apply reaches_spec. }
  assert (∀ e w1, tracks w w1 nothing →
    wp (_ <~ invalidate; job_id <~ read_job_id id; _ <~ emit (reconciliation_release_failed job_id); io_raise e)
    (λ (r : result ()) w', tracks w w' nothing ∧ (astray w ∨ w_locks w' = match r with Ok _ => locks | Err _ => [] end)) w1) as Hinv.
  { intros e w1 Ht1. apply wp_bind. unfold wp at 1, invalidate. cbn [fst snd]. set (w2 := invalidated w1).
    assert (tracks w w2 nothing) as Ht2 by by apply tracks_give_back.
    assert (astray w ∨ w_locks w2 = []) as Hw2.
    { unfold w2, invalidated. cbn. destruct (reaches w1) eqn:Hrch; [by right|left; by apply (Hlost w1)]. }
    apply wp_bind. eapply wp_mono; [apply (wp_tracks_db (λ _, Ok id)), Ht2|].
    intros [i|e2] w3 [Ht3 Hl3]; pose proof (tracks_then _ _ _ _ Ht2 Ht3); rewrite <- Hl3 in Hw2; [|by split].
    apply wp_emit, wp_raise. split; [by apply tracks_log|exact Hw2]. }
  eapply wp_mono; [by apply (wp_tracks_db (λ _, Ok ()))|].
  intros [[]|e] w1 [Ht1 Hl1]; [|by apply Hinv]. apply wp_bind.
  assert (wp (if open then _ <~ refresh_job id; io_ret () else io_ret ())
    (λ _ w2, tracks w1 w2 nothing ∧ w_locks w2 = w_locks w1) w1) as Hre.
  { destruct open; [|split; [apply tracks_refl, Ht1|done]]. apply wp_bind.
    eapply wp_mono; [apply wp_refresh; [apply Ht1|by eapply tracks_wf]|].
    intros [j|e] w2 (Ht2 & Hl2 & _); by split. }
  eapply wp_mono; [exact Hre|]. intros r w2 [Ht2 Hl2]. pose proof (tracks_then _ _ _ _ Ht1 Ht2) as Ht.
  destruct r as [[]|e]; [|by apply Hinv].
  unfold release_preview_job_lock. apply wp_bind. unfold wp at 1, on_postgresql. cbn [fst snd].
  replace (String.eqb (w_dialect w2) "postgresql") with true by (by rewrite (tracks_dialect _ _ _ Ht), Hd).
  cbn [negb]. apply wp_bind. eapply wp_mono; [apply (wp_tracks_db (λ _, Ok ())), Ht|].
  intros [[]|e] w3 [Ht3 Hl3]; pose proof (tracks_then _ _ _ _ Ht Ht3) as Ht4; [|by apply Hinv].
  split; [by apply tracks_give_back|]. cbn.
  destruct (reaches w3) eqn:Hrch; [right; by rewrite Hl3, Hl2, Hl1, Hl, remove_first_head|left; by apply (Hlost w3)].
Qed.

(** ** Lemmas: one candidate, the loop *)

Definition count_actions (names : list string) (acts : list (string * string)) : Z :=
  Z.of_nat (length (filter (λ a, a.2 ∈ names) acts)).

(** The summary counts the actions. *)
Record tallied (acts : list (string * string)) (s s' : ReconciliationSummary) : Prop := mkTallied {
  tl_scanned : scanned s' = scanned s;
  tl_active : active s' = active s + count_actions ["active"; "active_after_lock"]%string acts;
  tl_recovered : recovered s' = recovered s + count_actions ["re_enqueued"]%string acts;
  tl_failed : failed_jobs s <= failed_jobs s' <= failed_jobs s + count_actions ["failed_exhausted"]%string acts;
  tl_locked : locked s' = locked s + count_actions ["lock_held"]%string acts;
  tl_not_stale : not_stale s' =
    not_stale s + count_actions ["awaiting_active_state"; "awaiting_active_state_after_lock"]%string acts;
  tl_changed : state_changed s' = state_changed s + count_actions ["terminal_state"]%string acts }.

Lemma count_actions_app names l1 l2 : count_actions names (l1 ++ l2) = count_actions names l1 + count_actions names l2.
Proof. unfold count_actions. rewrite filter_app, length_app. lia. Qed.

Lemma tallied_refl s : tallied [] s s.
Proof. constructor; rewrite ?(eq_refl : count_actions _ [] = 0); lia. Qed.

Lemma tallied_trans l1 l2 s1 s2 s3 : tallied l1 s1 s2 → tallied l2 s2 s3 → tallied (l1 ++ l2) s1 s3.
Proof. intros [] []. constructor; rewrite ?count_actions_app; lia. Qed.

(** What one action counts. *)
Lemma count_one names u action : count_actions names [(u, action)] = if bool_decide (action ∈ names) then 1 else 0.
Proof. unfold count_actions. rewrite filter_cons. cbn [snd]. by case_decide; case_bool_decide. Qed.

Ltac tally :=
  intros; constructor; rewrite ?count_one;
  repeat match goal with |- context [bool_decide ?P] => let b := eval vm_compute in (bool_decide P) in change (bool_decide P) with b end;
  cbn; lia.

Lemma tally_active u s : tallied [(u, "active"%string)] s (add_active s).
Proof. tally. Qed.
Lemma tally_active_after_lock u s : tallied [(u, "active_after_lock"%string)] s (add_active s).
Proof. tally. Qed.
Lemma tally_recovered u s : tallied [(u, "re_enqueued"%string)] s (add_recovered s).
Proof. tally. Qed.
Lemma tally_failed u (changed : bool) s : tallied [(u, "failed_exhausted"%string)] s (if changed then add_failed s else s).
Proof. destruct changed; tally. Qed.
Lemma tally_locked u s : tallied [(u, "lock_held"%string)] s (add_locked s).
Proof. tally. Qed.
Lemma tally_awaiting u s : tallied [(u, "awaiting_active_state"%string)] s (add_not_stale s).
Proof. tally. Qed.
Lemma tally_awaiting_after_lock u s : tallied [(u, "awaiting_active_state_after_lock"%string)] s (add_not_stale s).
Proof. tally. Qed.
Lemma tally_changed u s : tallied [(u, "terminal_state"%string)] s (add_state_changed s).
Proof. tally. Qed.

(** A candidate was given its one action, and a payload is counted. *)
Record counted (id : UUID) (e : Effect) (s s' : ReconciliationSummary) : Prop := mkCounted {
  ct_action : ∃ action, ef_actions e = [(uuid_str id, action)];
  ct_tallied : tallied (ef_actions e) s s';
  ct_recovered : recovered s' = recovered s + Z.of_nat (length (ef_payloads e)) }.

(** The two last scans before the hand-over of [pl], when the queue held [q],
    did not show its job: the last one was made under the job's lock. *)
Definition unseen (w : World) (q : list QueuePayload) (pl : QueuePayload) : Prop :=
  ∃ k q' A A', scan_answer w k q' = Ok A ∧ q' `prefix_of` q ∧ scan_answer w (S k) q = Ok A' ∧
    qp_job_id pl ∉ A ∧ qp_job_id pl ∉ A'.

(** The last scan from [w0] to [w] found no more than [ids]. *)
Definition last_scan (w0 w : World) (ids : gset Z) : Prop :=
  ∃ k q A, w_active w = drop (S k) (w_active w0) ∧ scan_answer w0 k q = Ok A ∧ q `prefix_of` w_queue w ∧ A ⊆ ids.

Lemma last_scan_after w0 w w' e ids : last_scan w0 w ids → tracks w w' e → ef_scans e = 0%nat → last_scan w0 w' ids.
Proof.
  intros (k & q & A & Ha & HA & Hq & Hsub) [] Hs. exists k, q, A. rewrite tracks_scans0, Hs, tracks_queue0. split_and!; [done|done|by apply prefix_app_r|done].
Qed.

Section pass.
Context (max_retries stale_after_seconds : Z) (current_time : datetime).

Definition payload_for (id : UUID) (pl : QueuePayload) : Prop :=
  qp_job_id pl = id ∧ ∃ n, qp_retry_count pl = Some n ∧ n <= max_retries.

Lemma recovery_payload_for job : 0 <= pj_attempt_count job → payload_for (pj_id job) (recovery_payload max_retries job).
Proof. intros H. split; [done|]. eexists. split; [done|]. lia. Qed.

(** *** The locked part *)

(** The end of a part that begins when the job's active set is [ids]. *)
Definition done_post (id : UUID) (ids : gset Z) (s : ReconciliationSummary) (w : World)
    (r : result (ReconciliationSummary * gset Z * bool)) (w' : World) : Prop :=
  ∃ e, tracks w w' e ∧ w_locks w' = w_locks w ∧ ef_scans e = 0%nat ∧
    (ef_payloads e = [] ∨ id ∉ ids ∧ ∃ pl, ef_payloads e = [pl] ∧ payload_for id pl) ∧
    ∀ s' ids' open, r = Ok (s', ids', open) → ids ⊆ ids' ∧ counted id e s s'.

(** A part that adds nothing, then the rest. *)
Lemma wp_done_step {A} (m : IO A) (k : A → IO (ReconciliationSummary * gset Z * bool)) id ids s w (P : A → Prop) :
  wp m (λ r w', tracks w w' nothing ∧ w_locks w' = w_locks w ∧ ∀ a, r = Ok a → P a) w →
  (∀ a w1, P a → respects table_moves w1 → tracks w w1 nothing → wp (k a) (done_post id ids s w1) w1) →
  wp (io_bind m k) (done_post id ids s w) w.
Proof.
  intros Hm Hk. apply wp_bind. eapply wp_mono; [exact Hm|]. intros [a|err] w1 (Ht & Hl & HP).
  - eapply wp_mono; [apply Hk; [by apply HP|apply Ht|done]|].
    intros r w2 (e & Ht2 & Hl2 & H). exists e. split; [by eapply tracks_after|]. split; [congruence|done].
  - exists nothing. split_and!; [done|done|done|by left|done].
Qed.

Lemma wp_done_ret id ids s s' open job action previous new w :
  respects table_moves w → pj_id job = id → tallied [(uuid_str id, action)] s s' → recovered s' = recovered s →
  wp (_ <~ log_action max_retries job action previous new; io_ret (s', ids, open)) (done_post id ids s w) w.
Proof.
  intros Hr <- Htl Hrec. apply wp_emit, wp_ret. exists (logging (pj_id job) action).
  split; [by apply (tracks_kept _ _ nothing); [apply tracks_refl|]|]. split_and!; [done|done|by left|].
  intros ? ? ? [= <- <- _]. split; [done|]. constructor; [by eexists|done|cbn; lia].
Qed.

Lemma weaken_done {A} (m : IO A) w :
  wp m (λ _ w', tracks w w' nothing ∧ w_locks w' = w_locks w) w →
  wp m (λ r w', tracks w w' nothing ∧ w_locks w' = w_locks w ∧ ∀ a, r = Ok a → True) w.
Proof. intros H. eapply wp_mono; [exact H|]. intros r w' []. by split_and!. Qed.

Lemma wp_transition_tracks id will_retry error w :
  respects table_moves w →
  wp (transition_job_after_operational_failure id will_retry error)
    (λ r w', tracks w w' nothing ∧ w_locks w' = w_locks w ∧ ∀ a, r = Ok a → True) w.
Proof.
  intros Hr. apply weaken_done, wp_tracks; [apply transition_guarantees|apply transition_frames|apply silent_transition|done].
Qed.

Lemma wp_recover job id s (ids : gset Z) previous w :
  respects table_moves w → 0 <= pj_attempt_count job → pj_id job = id → id ∉ ids →
  wp (_ <~ queue_enqueue (recovery_payload max_retries job);
      _ <~ log_action max_retries job "re_enqueued" previous queued;
      io_ret (add_recovered s, {[ pj_id job ]} ∪ ids, true)) (done_post id ids s w) w.
Proof.
  intros Hr Ha <- Hid. pose proof (recovery_payload_for job Ha) as Hpl. apply wp_bind. eapply wp_mono; [by apply wp_enqueue|].
  intros r w1 (Hl & [Ht|[Hn Ht]]).
  - destruct r as [[]|err].
    + apply wp_emit, wp_ret. eexists. split; [eapply tracks_kept; [exact Ht|apply action_of_record]|].
      split; [done|]. split; [done|]. split; [right; split; [done|by eexists]|].
      intros ? ? ? [= <- <- _]. split; [set_solver|]. constructor; [by eexists|apply tally_recovered|done].
    + eexists. split; [exact Ht|]. split; [done|]. split; [done|]. split; [|done]. right. split; [done|]. by eexists.
  - destruct r as [[]|err]; [done|]. exists nothing. split_and!; [done|done|done|by left|done].
Qed.

Definition locked_post (id : UUID) (ids : gset Z) (s : ReconciliationSummary) (w : World)
    (r : result (ReconciliationSummary * gset Z * bool)) (w' : World) : Prop :=
  ∃ e, tracks w w' e ∧ w_locks w' = w_locks w ∧
    ((ef_scans e = 0%nat ∧ ef_payloads e = [] ∧
      ∀ s' ids' open, r = Ok (s', ids', open) → ids ⊆ ids' ∧ counted id e s s') ∨
     (ef_scans e = 1%nat ∧
      (ef_payloads e = [] ∨
       ∃ A pl, scan_answer w 0 (w_queue w) = Ok A ∧ id ∉ A ∧ ef_payloads e = [pl] ∧ payload_for id pl) ∧
      ∀ s' ids' open, r = Ok (s', ids', open) → ∃ A, scan_answer w 0 (w_queue w) = Ok A ∧ A ⊆ ids' ∧ counted id e s s')).

(** The checks after the scan. *)
Lemma wp_reconcile_scanned job id s (ids : gset Z) w :
  respects table_moves w → table_wf (w_jobs w) → pj_id job = id → job_wf job →
  wp (if bool_decide (pj_id job ∈ ids) then
        _ <~ log_kept max_retries job "active_after_lock"; io_ret (add_active s, ids, true)
      else if exhausted max_retries job || expired current_time job then
        changed <~ transition_job_after_operational_failure (pj_id job) false RECOVERY_FAILURE_MESSAGE;
        _ <~ log_action max_retries job "failed_exhausted" (pj_status job) failed;
        io_ret (if changed : bool then add_failed s else s, ids, false)
      else if bool_decide (pj_status job = running) && negb (stale stale_after_seconds current_time job) then
        _ <~ log_kept max_retries job "awaiting_active_state_after_lock"; io_ret (add_not_stale s, ids, true)
      else
        job' <~ (if bool_decide (pj_status job = running) then
                  _ <~ transition_job_after_operational_failure (pj_id job) true default_final_error;
                  refresh_job (pj_id job)
                else io_ret job);
        _ <~ queue_enqueue (recovery_payload max_retries job');
        _ <~ log_action max_retries job' "re_enqueued" (pj_status job) queued;
        io_ret (add_recovered s, {[ pj_id job' ]} ∪ ids, true)) (done_post id ids s w) w.
Proof.
  intros Hr Hwf Hid [Ha Hst]. unfold log_kept. case_bool_decide as Hin.
  { apply wp_done_ret; [done|done|apply tally_active_after_lock|done]. }
  rewrite Hid in Hin. destruct (_ || _).
  { eapply wp_done_step; [by apply wp_transition_tracks|]. intros changed w3 _ Hr3 _.
    apply wp_done_ret; [done|done|apply tally_failed|by destruct changed]. }
  destruct (bool_decide (pj_status job = running)) eqn:Hrun; cbn [andb].
  - destruct (negb _).
    { apply wp_done_ret; [done|done|apply tally_awaiting_after_lock|done]. }
    apply wp_done_step with (P := λ j, pj_id j = pj_id job ∧ job_wf j).
    + apply wp_bind. eapply wp_mono; [by apply wp_transition_tracks|]. intros [b|err] w3 (Ht3 & Hl3 & _); [|by split_and!].
      eapply wp_mono; [apply wp_refresh; [apply Ht3|by eapply tracks_wf]|].
      intros r w4 (Ht4 & Hl4 & Hj4). split; [by eapply tracks_then|]. split; [congruence|done].
    + intros j w3 [Hjid [Hja _]] Hr3 _. apply wp_recover; [done|done|congruence|done].
  - apply wp_done_step with (P := λ j, j = job).
    + split; [by apply tracks_refl|]. split; [done|]. by intros j [= <-].
    + intros j w3 -> Hr3 _. by apply wp_recover.
Qed.

Lemma wp_reconcile_locked id s ids w :
  respects table_moves w → table_wf (w_jobs w) →
  wp (reconcile_locked max_retries stale_after_seconds current_time id s ids) (locked_post id ids s w) w.
Proof.
  intros Hr Hwf. unfold reconcile_locked. apply wp_bind. eapply wp_mono; [by apply wp_refresh|].
  intros [job|err] w1 (Ht1 & Hl1 & Hj); [destruct (Hj job eq_refl) as [Hid Hw]|exists nothing; by split_and!; [..|left]].
  assert (scan_answer w1 0 (w_queue w1) = scan_answer w 0 (w_queue w)) as Hsa.
  { rewrite (scan_answer_after _ _ _ _ _ Ht1). destruct Ht1. cbn in *. by rewrite tracks_queue0, app_nil_r. }
  destruct (nonterminal job); cbn [negb].
  2:{ apply wp_emit, wp_ret. exists (logging (pj_id job) "terminal_state").
      split; [by apply (tracks_kept _ _ nothing)|]. split; [done|]. left. split; [done|]. split; [done|].
      intros ? ? ? [= <- <- _]. split; [done|]. rewrite <- Hid. constructor; [by eexists|apply tally_changed|cbn; lia]. }
  apply wp_bind. eapply wp_mono; [apply wp_active, Ht1|]. intros r w2 (-> & Ht2 & Hl2). rewrite Hsa.
  pose proof (tracks_after _ _ _ _ Ht1 Ht2) as Ht.
  destruct (scan_answer w 0 (w_queue w)) as [ids2|err] eqn:Hans.
  2:{ exists scanning. split; [done|]. split; [congruence|]. right. split; [done|]. split; [by left|done]. }
  eapply wp_mono; [apply (wp_reconcile_scanned job id s ids2); [apply Ht2|by eapply tracks_wf|done|done]|].
  intros r w3 (e & Ht3 & Hl3 & Hs & Hp & Hc). exists (ef_app scanning e). split; [by eapply tracks_trans|].
  split; [congruence|]. right. cbn. rewrite Hs. split; [done|]. split.
  - destruct Hp as [Hp|(Hnot & pl & Hpl & Hfor)]; [by left|]. right. rewrite Hans. eauto 10.
  - intros s' ids' open Hok. rewrite Hans. destruct (Hc s' ids' open Hok) as [Hsub [Hact Htl Hrec]]. exists ids2.
    split_and!; [done|done|by constructor].
Qed.

(** *** A candidate *)
Context (w0 : World).

Definition candidate_post (id : UUID) (p : Pass) (w : World) (r : result Pass) (w' : World) : Prop :=
  ∃ e, tracks w w' e ∧
    (ef_payloads e = [] ∨ ∃ pl, ef_payloads e = [pl] ∧ payload_for id pl ∧ unseen w0 (w_queue w) pl) ∧
    match r with
    | Ok p' => (astray w ∨ w_locks w' = w_locks w) ∧ last_scan w0 w' (pass_active p') ∧
               counted id e (pass_summary p) (pass_summary p')
    | Err _ => astray w ∨ w_locks w' = w_locks w ∨ w_locks w' = []
    end.

Lemma candidate_error id p w w' err :
  tracks w w' nothing → w_locks w' = w_locks w → candidate_post id p w (Err err) w'.
Proof. intros Ht Hl. exists nothing. split; [done|]. split; [by left|by right; left]. Qed.

Lemma wp_candidate_kept job p s' action w w1 :
  tracks w w1 nothing → w_locks w1 = w_locks w → last_scan w0 w (pass_active p) →
  tallied [(uuid_str (pj_id job), action)] (pass_summary p) s' → recovered s' = recovered (pass_summary p) →
  wp (_ <~ log_kept max_retries job action; io_ret (mkPass s' (pass_active p) (pass_expired p)))
    (candidate_post (pj_id job) p w) w1.
Proof.
  intros Ht Hl Hls Htl Hrec. apply wp_emit, wp_ret. exists (logging (pj_id job) action).
  assert (tracks w (log_to (action_record max_retries job action (pj_status job) (pj_status job)) w1) (logging (pj_id job) action))
    as Ht1 by by apply (tracks_kept _ _ nothing).
  split; [exact Ht1|]. split; [by left|]. split_and!; [by right|by eapply last_scan_after|].
  constructor; [by eexists|done|cbn; lia].
Qed.

(** From the lock to its release. *)
Lemma wp_candidate_locked id p w w1 :
  tracks w w1 nothing → w_locks w1 = advisory_lock_keys id :: w_locks w → id ∉ pass_active p →
  last_scan w0 w (pass_active p) → w_dialect w = "postgresql" → table_wf (w_jobs w1) →
  wp (r <~ io_attempt (reconcile_locked max_retries stale_after_seconds current_time id (pass_summary p) (pass_active p));
      let open := match r with Ok (_, _, open) => open | Err _ => true end in
      _ <~ release_reconciled id open;
      '(s, active_ids, _) <~ io_lift r;
      io_ret (mkPass s active_ids (pass_expired p || open))) (candidate_post id p w) w1.
Proof.
  intros Ht Hl Hnot Hls Hd Hwf. pose proof (last_scan_after _ _ _ _ _ Hls Ht eq_refl) as (k & q & A & Ha & HA & Hq & Hsub).
  assert (scan_answer w1 0 (w_queue w1) = scan_answer w0 (S k) (w_queue w)) as Hsa.
  { unfold scan_answer. rewrite Ha, lookup_drop, Nat.add_0_r. destruct Ht. cbn in *. by rewrite tracks_queue0, app_nil_r. }
  assert (w_queue w1 = w_queue w) as Hqq by (destruct Ht; cbn in *; by rewrite tracks_queue0, app_nil_r).
  apply wp_bind, wp_attempt. eapply wp_mono; [apply wp_reconcile_locked; [apply Ht|done]|].
  intros r w2 (e & Ht2 & Hl2 & Hcase). cbn zeta. pose proof (tracks_after _ _ _ _ Ht Ht2) as Ht02.
  assert (ef_payloads e = [] ∨ ∃ pl, ef_payloads e = [pl] ∧ payload_for id pl ∧ unseen w0 (w_queue w) pl) as Hpl.
  { destruct Hcase as [(_ & Hp & _)|(_ & [Hp|(A' & pl & Hans & HA' & Hp & Hfor)] & _)]; [by left..|right].
    exists pl. split; [done|]. split; [done|]. destruct Hfor as [Hidp _]. exists k, q, A, A'. rewrite Hidp, <- Hsa, <- Hqq.
    split; [exact HA|]. split; [exact Hq|]. split; [exact Hans|]. split; [|exact HA']. intros Hin. by apply Hnot, Hsub. }
  assert (∀ s' ids' open, r = Ok (s', ids', open) → last_scan w0 w2 ids' ∧ counted id e (pass_summary p) s') as Hok.
  { intros s' ids' open Hr. destruct Hcase as [(Hs & _ & Hc)|(Hs & _ & Hc)].
    - destruct (Hc _ _ _ Hr) as [Hsub' Hct]. split; [|exact Hct]. destruct Ht2. exists k, q, A. rewrite tracks_scans0, Hs, tracks_queue0.
      split; [exact Ha|]. split; [exact HA|]. split; [by apply prefix_app_r|]. by transitivity (pass_active p).
    - destruct (Hc _ _ _ Hr) as (A' & Hans & Hsub' & Hct). split; [|exact Hct]. destruct Ht2. exists (S k), (w_queue w), A'.
      rewrite tracks_scans0, Hs, Ha, drop_drop, <- Hsa, Hans, tracks_queue0, Hqq.
      split; [f_equal; lia|]. split; [done|]. split; [by apply prefix_app_r|exact Hsub']. }
  apply wp_bind. eapply wp_mono; [apply (wp_release_reconciled id _ w2 (w_locks w)); [apply Ht02|by eapply tracks_wf| |congruence]|].
  { rewrite (tracks_dialect _ _ _ Ht02). done. }
  intros r2 w3 [Ht3 Hl3]. pose proof (tracks_then _ _ _ _ Ht02 Ht3) as Ht03.
  assert (astray w ∨ w_locks w3 = match r2 with Ok _ => w_locks w | Err _ => [] end) as Hlk.
  { destruct Hl3 as [Hs|?]; [left; by apply (astray_before w w2 e)|by right]. }
  destruct r2 as [[]|err]; [|exists e; split; [done|]; split; [done|]; destruct Hlk; auto].
  apply wp_bind, wp_lift. destruct r as [[[s' ids] open]|err].
  - destruct (Hok s' ids open eq_refl) as [Hls2 Hct]. exists e. split; [done|]. split; [done|]. split_and!; [done| |done].
    by eapply last_scan_after.
  - exists e. split; [done|]. split; [done|]. destruct Hlk; auto.
Qed.

Lemma wp_reconcile_candidate p candidate w :
  respects table_moves w → table_wf (w_jobs w) → w_dialect w = "postgresql" → last_scan w0 w (pass_active p) →
  wp (reconcile_candidate max_retries stale_after_seconds current_time p candidate)
    (candidate_post (pj_id candidate) p w) w.
Proof.
  intros Hr Hwf Hd Hls. unfold reconcile_candidate. apply wp_bind.
  assert (wp (if pass_expired p then refresh_job (pj_id candidate) else io_ret candidate)
    (λ r w', tracks w w' nothing ∧ w_locks w' = w_locks w ∧ ∀ j, r = Ok j → pj_id j = pj_id candidate) w) as Hre.
  { destruct (pass_expired p).
    - eapply wp_mono; [by apply wp_refresh|]. intros r w' (? & ? & Hj). split_and!; [done|done|]. intros j Hr1. by apply Hj.
    - split; [by apply tracks_refl|]. split; [done|]. by intros j [= <-]. }
  eapply wp_mono; [exact Hre|]. clear Hre. intros [job|err] w1 (Ht1 & Hl1 & Hid); [|by apply candidate_error].
  rewrite <- (Hid job eq_refl). case_bool_decide as Hin.
  { apply wp_candidate_kept; [done|done|done|apply tally_active|done]. }
  destruct (_ && _ && _ && _).
  { apply wp_candidate_kept; [done|done|done|apply tally_awaiting|done]. }
  apply wp_bind. eapply wp_mono; [apply wp_try_lock; [apply Ht1|by rewrite (tracks_dialect _ _ _ Ht1)]|].
  intros [[acquired t]|err] w2 [Ht2 Hl2]; pose proof (tracks_after _ _ _ _ Ht1 Ht2) as Ht; cbn iota in Hl2.
  2:{ apply candidate_error; [done|congruence]. }
  destruct acquired; cbn [negb]; cbn iota in Hl2.
  - apply wp_candidate_locked; [done|congruence|done|done|done|]. by eapply tracks_wf.
  - apply wp_candidate_kept; [done|congruence|done|apply tally_locked|done].
Qed.

Definition loop_post (candidates : list PreviewJob) (p : Pass) (w : World) (r : result Pass) (w' : World) : Prop :=
  ∃ e, tracks w w' e ∧
    (∃ ids, sublist ids (pj_id <$> candidates) ∧ Forall2 payload_for ids (ef_payloads e)) ∧
    (∀ before pl after, ef_payloads e = before ++ pl :: after → unseen w0 (w_queue w ++ before) pl) ∧
    match r with
    | Ok p' => (astray w ∨ w_locks w' = w_locks w) ∧ (ef_actions e).*1 = (uuid_str ∘ pj_id <$> candidates) ∧
               tallied (ef_actions e) (pass_summary p) (pass_summary p') ∧
               recovered (pass_summary p') = recovered (pass_summary p) + Z.of_nat (length (ef_payloads e))
    | Err _ => astray w ∨ w_locks w' = w_locks w ∨ w_locks w' = []
    end.

(** The payloads of a candidate and of the rest. *)
Lemma unseen_app w e1 e2 id w1 :
  ef_payloads e1 = [] ∨ (∃ pl, ef_payloads e1 = [pl] ∧ payload_for id pl ∧ unseen w0 (w_queue w) pl) →
  w_queue w1 = w_queue w ++ ef_payloads e1 →
  (∀ before pl after, ef_payloads e2 = before ++ pl :: after → unseen w0 (w_queue w1 ++ before) pl) →
  ∀ before pl after, ef_payloads (ef_app e1 e2) = before ++ pl :: after → unseen w0 (w_queue w ++ before) pl.
Proof.
  intros H1 Hq H2 before pl after. cbn. destruct H1 as [E|(pl1 & E & _ & Hun)]; rewrite E in *; cbn.
  - rewrite app_nil_r in Hq. rewrite <- Hq. apply H2.
  - destruct before as [|pl0 before]; cbn; [intros [= -> _]; by rewrite app_nil_r|]. intros [= -> Hrest].
    replace (w_queue w ++ pl0 :: before) with (w_queue w1 ++ before) by (by rewrite Hq, <- app_assoc). by eapply H2.
Qed.

Lemma wp_reconcile_loop candidates p w :
  respects table_moves w → table_wf (w_jobs w) → w_dialect w = "postgresql" → last_scan w0 w (pass_active p) →
  wp (reconcile_loop max_retries stale_after_seconds current_time p candidates) (loop_post candidates p w) w.
Proof.
  revert p w. induction candidates as [|candidate candidates IH]; intros p w Hr Hwf Hd Hls; cbn [reconcile_loop].
  { exists nothing. split; [by apply tracks_refl|]. split; [exists []; by split|]. split; [by intros []|].
    split_and!; [by right|done|apply tallied_refl|cbn; lia]. }
  apply wp_bind. eapply wp_mono; [by apply wp_reconcile_candidate|]. intros r w1 (e & Ht & Hnew & Hcase).
  assert (∃ ids, sublist ids [pj_id candidate] ∧ Forall2 payload_for ids (ef_payloads e)) as (ids & Hids & Hpl).
  { destruct Hnew as [->|(pl & -> & Hpl & _)]; [exists []; split; [apply sublist_nil_l|done]|].
    exists [pj_id candidate]. split; [done|]. by constructor. }
  destruct r as [p1|err].
  - destruct Hcase as (Hl & Hls1 & [[action Hact] Htl Hrec]).
    eapply wp_mono; [apply IH; [apply Ht|by eapply tracks_wf|by rewrite (tracks_dialect _ _ _ Ht)|done]|].
    intros r w2 (e2 & Ht2 & (ids2 & Hids2 & Hpl2) & Hun2 & Hcase2). exists (ef_app e e2).
    assert (∀ P : Prop, astray w1 ∨ P → astray w ∨ P) as Hastray.
    { intros P [Ha|HP]; [left; by apply (astray_before w w1 e)|by right]. }
    split; [by eapply tracks_trans|]. split; [|split].
    + exists (ids ++ ids2). split; [exact (sublist_app _ [pj_id candidate] _ (pj_id <$> candidates) Hids Hids2)|by apply Forall2_app].
    + eapply unseen_app; [exact Hnew|apply Ht|exact Hun2].
    + destruct r as [p2|err]; cbn.
      * destruct Hcase2 as (Hl2 & Hacts & Htl2 & Hrec2). split_and!.
        -- destruct Hl as [|Hl]; [by left|]. apply Hastray in Hl2 as [|Hl2]; [by left|right; congruence].
        -- rewrite Hact, fmap_app, Hacts. done.
        -- by eapply tallied_trans.
        -- rewrite length_app. lia.
      * apply Hastray in Hcase2. destruct Hl as [|Hl]; [by left|]. rewrite <- Hl. exact Hcase2.
  - exists e. split; [done|]. split; [|split].
    + exists ids. split; [|done]. cbn [fmap list_fmap]. etransitivity; [exact Hids|]. apply sublist_skip, sublist_nil_l.
    + intros before pl after E. rewrite <- (ef_app_nothing e) in E.
      eapply (unseen_app w e nothing (pj_id candidate) w1); [exact Hnew|apply Ht| |exact E]. by intros [].
    + exact Hcase.
Qed.
End pass.

(** ** Lemmas: candidates *)
Section candidates.
Context (limit : nat) (t : JobTable).

Definition nonterminal_rows : list PreviewJob := filter (λ j, nonterminal j = true) (map_to_list t).*2.

Lemma candidates_sublist :
  ∃ l, reconciliation_candidates limit t ⊆+ l ∧ l = nonterminal_rows.
Proof.
  eexists. split; [|done]. unfold reconciliation_candidates. fold nonterminal_rows.
  etransitivity; [apply sublist_submseteq, sublist_take|]. by rewrite merge_sort_Permutation.
Qed.

Lemma nonterminal_rows_lookup j : j ∈ nonterminal_rows ↔ nonterminal j = true ∧ ∃ id, t !! id = Some j.
Proof.
  unfold nonterminal_rows. rewrite list_elem_of_filter, list_elem_of_fmap. split; intros [H1 H2]; (split; [done|]).
  - destruct H2 as ([id j'] & -> & H2). apply elem_of_map_to_list in H2. by exists id.
  - destruct H2 as [id H2]. exists (id, j). split; [done|]. by apply elem_of_map_to_list.
Qed.

Lemma candidates_elem j : j ∈ reconciliation_candidates limit t → nonterminal j = true ∧ ∃ id, t !! id = Some j.
Proof.
  intros H. destruct candidates_sublist as (l & Hl & ->). apply nonterminal_rows_lookup.
  by eapply elem_of_submseteq.
Qed.

Lemma nonterminal_rows_nodup : table_wf t → NoDup (pj_id <$> nonterminal_rows).
Proof.
  intros Hwf. assert (pj_id <$> (map_to_list t).*2 = (map_to_list t).*1) as E.
  { assert (∀ id j, (id, j) ∈ map_to_list t → pj_id j = id) as Hkey.
    { intros id j H. apply elem_of_map_to_list in H. by apply Hwf in H as []. }
    clear -Hkey. induction (map_to_list t) as [|[id j] l IH]; [done|]. simpl.
    rewrite (Hkey id j) by (by left). f_equal. apply IH. intros id' j' H. apply Hkey. by right. }
  apply (sublist_NoDup _ (pj_id <$> (map_to_list t).*2)).
  - rewrite E. apply NoDup_fst_map_to_list.
  - apply fmap_sublist, sublist_filter.
Qed.

Lemma candidates_nodup : table_wf t → NoDup (pj_id <$> reconciliation_candidates limit t).
Proof.
  intros Hwf. destruct candidates_sublist as (l & Hl & ->).
  apply (fmap_submseteq pj_id) in Hl. apply submseteq_Permutation in Hl as [k Hk].
  pose proof (nonterminal_rows_nodup Hwf) as Hn. rewrite Hk in Hn. by apply NoDup_app in Hn as [].
Qed.
End candidates.

(** ** The theorems *)

(** What a pass from [w] may have done; [t] is the table when its batch was
    read. *)
Definition reconciled (max_retries : Z) (batch_size : nat) (w : World) (r : result ReconciliationSummary)
    (w' : World) : Prop :=
  table_moves (w_jobs w) (w_jobs w') ∧ (astray w ∨ w_locks w' = []) ∧
  ∃ new acts t, w_queue w' = w_queue w ++ new ∧ actions (w_log w') = actions (w_log w) ++ acts ∧
    NoDup (qp_job_id <$> new) ∧ table_moves (w_jobs w) t ∧
    (∀ before pl after, new = before ++ pl :: after →
       payload_for max_retries (qp_job_id pl) pl ∧ (∃ j, t !! qp_job_id pl = Some j ∧ nonterminal j = true) ∧
       unseen w (w_queue w ++ before) pl) ∧
    match r with
    | Ok s =>
        let candidates := reconciliation_candidates batch_size t in
        acts.*1 = (uuid_str ∘ pj_id <$> candidates) ∧
        tallied acts (mkSummary (Z.of_nat (length candidates)) 0 0 0 0 0 0) s ∧
        recovered s = Z.of_nat (length new)
    | Err _ => True
    end.

(** The payloads of the candidates a pass recovered, one each. *)
Lemma candidates_payloads max_retries batch_size t cids new :
  table_wf t → sublist cids (pj_id <$> reconciliation_candidates batch_size t) →
  Forall2 (payload_for max_retries) cids new →
  NoDup (qp_job_id <$> new) ∧
  Forall (λ pl, payload_for max_retries (qp_job_id pl) pl ∧
                ∃ j, t !! qp_job_id pl = Some j ∧ nonterminal j = true) new.
Proof.
  intros Hwf Hsub Hpl. assert (qp_job_id <$> new = cids) as Hcids.
  { clear -Hpl. induction Hpl as [|id pl cids new [H _] _ IH]; [done|]. rewrite fmap_cons, H. by f_equal. }
  split; [rewrite Hcids; eapply sublist_NoDup; [by apply (candidates_nodup batch_size t)|done]|].
  apply Forall_forall. intros pl Hin. split.
  - apply list_elem_of_lookup in Hin as [i Hi]. destruct (Forall2_lookup_r _ _ _ _ _ Hpl Hi) as (id & _ & Hp). by destruct Hp as [<- Hp].
  - assert (qp_job_id pl ∈ pj_id <$> reconciliation_candidates batch_size t) as Hid.
    { eapply elem_of_submseteq; [|apply sublist_submseteq, Hsub]. rewrite <- Hcids. by apply list_elem_of_fmap_2. }
    apply list_elem_of_fmap in Hid as (j & -> & Hj). apply candidates_elem in Hj as [Hn [id Hj]].
    exists j. split; [|done]. by destruct (Hwf id j Hj) as [_ ->].
Qed.

(** A pass that ends before its first candidate. *)
Lemma reconciled_early max_retries batch_size w e w' n :
  tracks w w' (mkEffect [] [] n) → astray w ∨ w_locks w' = [] → reconciled max_retries batch_size w (Err e) w'.
Proof.
  intros [] Hlk. split; [done|]. split; [done|]. exists [], [], (w_jobs w).
  split; [done|]. split; [done|]. split; [constructor|]. split; [reflexivity|]. split; [by intros []|done].
Qed.

(** From the batch to the end. *)
Lemma wp_reconcile_batch max_retries stale_after_seconds batch_size current_time ids w w1 :
  tracks w w1 scanning → w_locks w1 = [] → scan_answer w 0 (w_queue w) = Ok ids → table_wf (w_jobs w1) →
  w_dialect w = "postgresql" →
  let candidates := reconciliation_candidates batch_size (w_jobs w1) in
  let p := mkPass (mkSummary (Z.of_nat (length candidates)) 0 0 0 0 0 0) ids false in
  wp (reconcile_loop max_retries stale_after_seconds current_time p candidates)
    (λ r w2, reconciled max_retries batch_size w (pass_summary <$> r) w2) w1.
Proof.
  intros Ht Hl Hans Hwf Hd candidates p.
  assert (last_scan w w1 (pass_active p)) as Hls.
  { exists 0%nat, (w_queue w), ids. destruct Ht. split_and!; [done|done|rewrite tracks_queue0; by apply prefix_app_r|done]. }
  eapply wp_mono; [apply (wp_reconcile_loop max_retries stale_after_seconds current_time w); [apply Ht|done| |done]|].
  { by rewrite (tracks_dialect _ _ _ Ht). }
  intros r w2 (e & Ht2 & (cids & Hsub & Hpl) & Hun & Hcase).
  pose proof (tracks_trans _ _ _ _ _ Ht Ht2) as Hall. destruct Hall. cbn in *.
  destruct (candidates_payloads max_retries batch_size (w_jobs w1) cids (ef_payloads e) Hwf Hsub Hpl) as [Hnd Hrows].
  assert (∀ P : Prop, astray w1 ∨ P → astray w ∨ P) as Hastray.
  { intros P [Ha|HP]; [left; by apply (astray_before w w1 scanning)|by right]. }
  split; [done|]. split.
  { destruct r as [p2|err]; [destruct Hcase as [Hl2 _]|rename Hcase into Hl2]; apply Hastray in Hl2; rewrite Hl in Hl2; tauto. }
  exists (ef_payloads e), (ef_actions e), (w_jobs w1). split; [done|]. split; [done|]. split; [done|].
  split; [by apply Ht|]. split.
  - intros before pl after E. rewrite Forall_forall in Hrows. destruct (Hrows pl) as [H1 H2]; [rewrite E; set_solver|].
    split; [done|]. split; [done|]. replace (w_queue w) with (w_queue w1) by (destruct Ht; cbn in *; by rewrite app_nil_r in tracks_queue1). by eapply Hun.
  - destruct r as [p2|err]; [|done]. destruct Hcase as (_ & Hacts & Htl & Hrec). split_and!; [done|done|]. cbn in *. by rewrite Hrec.
Qed.


(** ** Exactly one candidate *)
Section exact.
Context (max_retries stale_after_seconds : Z) (current_time : datetime).

(** The row, the payloads and the count for a locked job [j] when the queue
    reports [ids]; [later] is the next reading of the clock. *)
Definition recovery (ids : gset Z) (later : datetime) (j : PreviewJob)
    : PreviewJob * list QueuePayload * (ReconciliationSummary → ReconciliationSummary) :=
  if negb (nonterminal j) then (j, [], add_state_changed)
  else if bool_decide (pj_id j ∈ ids) then (j, [], add_active)
  else if exhausted max_retries j || expired current_time j then
    (as_failed RECOVERY_FAILURE_MESSAGE later j, [], add_failed)
  else if bool_decide (pj_status j = running) then
    if stale stale_after_seconds current_time j
    then (requeued j, [recovery_payload max_retries j], add_recovered)
    else (j, [], add_not_stale)
  else (j, [recovery_payload max_retries j], add_recovered).

Definition recovered_as (id : UUID) (s : ReconciliationSummary) (j : PreviewJob) (ids : gset Z) (w : World)
    (r : result (ReconciliationSummary * gset Z * bool)) (w' : World) : Prop :=
  let '(j', new, count) := recovery ids (w_clock w (w_reads w)) j in
  (∃ ids' open, r = Ok (count s, ids', open)) ∧ w_jobs w' !! id = Some j' ∧ w_queue w' = w_queue w ++ new.

(** The rules, when nothing fails. *)
Lemma wp_refresh_exact id w j :
  respects (holds id) w → fault_free w → w_jobs w !! id = Some j →
  wp (refresh_job id) (λ r w', r = Ok j ∧ w_jobs w' !! id = Some j ∧ respects (holds id) w' ∧ fault_free w' ∧
    same_resources w w' ∧ w_reads w' = w_reads w) w.
Proof.
  intros Hr Hf Hj. unfold refresh_job.
  eapply wp_mono; [apply (wp_row_read id (λ t, match t !! id with Some j => Ok j | None => _ end) w (Ok j)); [done|]|].
  { intros t Ht. by rewrite Ht, Hj. }
  intros r w' (H1 & H2 & H3 & [[-> Ho]|(Hn & _)]); [|by apply Hn in Hf].
  split_and!; [done|congruence|apply H1|by apply H1|done|done].
Qed.

Lemma wp_transition_exact id will_retry error w j :
  respects (holds id) w → fault_free w → w_jobs w !! id = Some j → nonterminal j = true →
  wp (transition_job_after_operational_failure id will_retry error) (λ r w', r = Ok true ∧
    w_jobs w' !! id = Some (if will_retry then requeued j else as_failed error (w_clock w (w_reads w)) j) ∧
    respects (holds id) w' ∧ fault_free w' ∧ same_resources w w') w.
Proof.
  intros Hr Hf Hj Hn. eapply wp_mono; [by apply (wp_transition id)|]. rewrite Hj. simpl. rewrite Hn.
  intros r w' (H1 & H2 & [[-> Ho]|(Hbad & _)]); [|by apply Hbad in Hf].
  split_and!; [done|done|apply H1|by apply H1|done].
Qed.

Lemma wp_recover_exact job id (u : Z) s (ids : gset Z) l w j :
  w_queue_faults w = [] → w_jobs w !! id = Some j →
  wp (_ <~ queue_enqueue (recovery_payload max_retries job);
      _ <~ emit l;
      io_ret (add_recovered s, {[ u ]} ∪ ids, true))
    (λ r w', (∃ ids' open, r = Ok (add_recovered s, ids', open)) ∧ w_jobs w' !! id = Some j ∧
       w_queue w' = w_queue w ++ [recovery_payload max_retries job]) w.
Proof.
  intros Hq Hj. apply wp_bind. unfold wp at 1, queue_enqueue. rewrite Hq. change (default None (head [])) with (None : fault). cbn [fst snd].
  apply wp_emit, wp_ret. split_and!; [by do 2 eexists|done|done].
Qed.

(** When nothing fails and the lock is held, reconciling a candidate does
    exactly this: a terminal or active job is only counted; an exhausted or
    expired one fails with the recovery message; a running job that is not
    stale is left alone; a stale one returns to the queue and is enqueued
    again, a queued one is enqueued again, with the retries it has left,
    between none and all of them. *)
Theorem reconcile_locked_exact (id : UUID) (s : ReconciliationSummary) (ids0 ids : gset Z) (j : PreviewJob) (w : World) :
  respects (holds id) w → fault_free w → w_jobs w !! id = Some j → pj_id j = id → job_wf j →
  scan_answer w 0 (w_queue w) = Ok ids → w_queue_faults w = [] →
  wp (reconcile_locked max_retries stale_after_seconds current_time id s ids0) (recovered_as id s j ids w) w ∧
  Forall (λ pl, ∃ n, qp_retry_count pl = Some n ∧ 0 <= n <= max_retries)
    (recovery ids (w_clock w (w_reads w)) j).1.2.
Proof.
  intros Hr Hf Hj Hid Hwf Hact Hq. split.
  2:{ unfold recovery, exhausted, max_attempts. destruct (negb _); [constructor|]. destruct (bool_decide _); [constructor|].
      destruct (Z.leb_spec (max_retries + 1) (pj_attempt_count j)); [constructor|]. cbn [orb].
      destruct Hwf as [Ha _]. destruct (expired _ _); [constructor|].
      destruct (bool_decide _); [destruct (stale _ _ _)|]; repeat constructor; eexists; (split; [done|lia]). }
  unfold reconcile_locked, recovered_as, recovery. apply wp_bind.
  eapply wp_mono; [by apply wp_refresh_exact|]. intros r w1 (-> & Hj1 & Hr1 & Hf1 & Hs1 & Hc1).
  destruct Hs1 as (_ & _ & _ & Hq1 & Hqf1 & Ha1 & Hcl1 & _). rewrite Hq in Hqf1. rewrite <- Hq1, <- Hcl1, <- Hc1.
  rewrite Hid. destruct (nonterminal j) eqn:Hn; cbn [negb].
  2:{ apply wp_emit, wp_ret. split_and!; [by do 2 eexists|done|by rewrite app_nil_r]. }
  apply wp_bind. unfold wp at 1, queue_active_ids. rewrite Ha1, Hq1.
  replace (default _ (head (w_active w)) (w_queue w)) with (Ok ids) by (rewrite <- Hact; unfold scan_answer; by destruct (w_active w)).
  cbn [fst snd]. set (w2 := mkWorld _ _ _ _ _ _ _ _ _ _ _ _ _ _).
  assert (respects (holds id) w2) as Hr2 by done. assert (fault_free w2) as Hf2 by done.
  destruct (bool_decide (id ∈ ids)).
  { apply wp_emit, wp_ret. split_and!; [by do 2 eexists|done|by rewrite app_nil_r]. }
  destruct (exhausted _ _ || expired _ _).
  { apply wp_bind. eapply wp_mono; [by apply (wp_transition_exact id false _ w2 j)|].
    intros r w3 (-> & Ho & _ & _ & (_ & _ & _ & Hq3 & _)). apply wp_emit, wp_ret.
    split_and!; [by do 2 eexists|done|]. cbn [log_to set_log w_queue]. by rewrite Hq3, app_nil_r. }
  destruct (bool_decide (pj_status j = running)) eqn:Hrun; cbn [andb].
  - destruct (stale _ _ j); cbn [negb].
    2:{ apply wp_emit, wp_ret. split_and!; [by do 2 eexists|done|by rewrite app_nil_r]. }
    apply wp_bind, wp_bind. eapply wp_mono; [by apply (wp_transition_exact id true _ w2 j)|].
    intros r w3 (-> & Ho & Hr3 & Hf3 & (_ & _ & _ & Hq3 & Hqf3 & _)).
    eapply wp_mono; [by apply (wp_refresh_exact id w3 (requeued j))|].
    intros r w4 (-> & Ho4 & _ & _ & (_ & _ & _ & Hq4 & Hqf4 & _) & _).
    eapply wp_mono; [apply (wp_recover_exact (requeued j) id (pj_id (requeued j)) s ids _ w4 (requeued j)); [rewrite Hqf4, Hqf3; exact Hqf1|done]|].
    intros r w5 (H1 & H2 & H3). split_and!; [done|done|]. rewrite H3, Hq4, Hq3. done.
  - apply wp_bind, wp_ret. exact (wp_recover_exact j id (pj_id j) s ids _ w2 j Hqf1 Hj1).
Qed.
End exact.

(** A running job whose worker died: it is requeued with its last retry. *)
Definition stale_job : PreviewJob := claimed 0 sample_job.

Definition stale_world : World :=
  mkWorld {[ 7 := stale_job ]} [] (λ n, Z.of_nat n) 0 [] [] [λ _, Ok ∅; λ _, Ok {[ 9 ]}] [] [] "postgresql" [] "preview" [] 0.

Lemma reconcile_locked_exact_witness :
  let r := reconcile_locked 2 0 1500 7 (mkSummary 1 0 0 0 0 0 0) ∅ (set_jobs {[ 7 := stale_job ]} stale_world) in
  recovery 2 0 1500 ∅ 0 stale_job =
    (requeued stale_job, [mkPayload 7 1 "buy SPY" None (Some 1)], add_recovered) ∧
  recovered_as 2 0 1500 7 (mkSummary 1 0 0 0 0 0 0) stale_job ∅ stale_world r.1 r.2.
Proof.
  split; [by vm_compute|].
  apply (reconcile_locked_exact 2 0 1500 7 (mkSummary 1 0 0 0 0 0 0) ∅ ∅ stale_job stale_world);
    [constructor|constructor|by vm_compute|done| |done|done].
  split; [done|]. split_and!; done.
Defined.


(** A cleanup deletes the expired job while the pass is about to fail it: the
    row is gone and the summary counts no failure, but the log reports one. *)
Definition deleted_world : World :=
  set_events (replicate 3 (mkEvent id None) ++ [mkEvent (delete 7) None]) stale_world.

Example failure_reported_unchanged :
  let r := reconcile_preview_jobs 2 0 10 (Some 3000) deleted_world in
  w_jobs r.2 !! 7 = None ∧ failed_jobs <$> r.1 = Ok 0 ∧
  action_record 2 stale_job "failed_exhausted" running failed ∈ w_log r.2.
Proof. split; [by vm_compute|]. split; [by vm_compute|]. vm_compute. by left. Qed.
