(* ===== verification/Worker.v ===== *)
(** * The RQ task and its failure callback
    ([backend/app/workers/preview_worker.py])

    The parser built from the settings (its construction may raise) and the
    retries RQ has left for the running job are arguments.  Closing the session
    has no effect on the table.  RQ itself, which runs a task again after a
    failure, is a library: a class with its documented laws. *)

From S2P Require Import Prelude Models MarketData Samples StrategySpec Uuid Preview Logging Effects JobStore JobRules PreviewJobService.
From Stdlib Require Import ZArith Lia.
From stdpp Require Import base list option strings gmap relations.
Local Open Scope Z_scope.
Local Open Scope io_scope.

(** ** RQ

    RQ runs a task; when it raises, RQ calls the failure callback with the
    retries that are left ([None] without a [Retry]), and runs the task again
    with one less while there are any. *)
Class TaskQueue : Type := mkTaskQueue {
  rq_execute : (option Z → IO unit) → (option Z → exn → IO unit) → option Z → IO unit }.

Class TaskQueueLaws (T : TaskQueue) : Prop := mkTaskQueueLaws {
  execute_returns task callback retries w w1 :
    task retries w = (Ok (), w1) → (rq_execute task callback retries w).2 = w1;
  execute_gives_up task callback retries w e w1 :
    default 0 retries <= 0 → task retries w = (Err e, w1) →
    (rq_execute task callback retries w).2 = (callback retries e w1).2;
  execute_retries task callback n w e w1 w2 :
    0 < n → task (Some n) w = (Err e, w1) → callback (Some n) e w1 = (Ok (), w2) →
    (rq_execute task callback (Some n) w).2 = (rq_execute task callback (Some (n - 1)) w2).2 }.

(** A queue that does just this. *)
Fixpoint attempts (fuel : nat) (task : option Z → IO unit) (callback : option Z → exn → IO unit) (retries : option Z) : IO unit :=
  r <~ io_attempt (task retries);
  match r with
  | Ok _ => io_ret ()
  | Err e =>
      _ <~ callback retries e;
      match fuel with O => io_ret () | S fuel => attempts fuel task callback (Some (default 0 retries - 1)) end
  end.

#[local] Instance retrying : TaskQueue :=
  {| rq_execute task callback retries := attempts (Z.to_nat (default 0 retries)) task callback retries |}.

#[local] Instance retrying_laws : TaskQueueLaws retrying.
Proof.
  constructor; cbn [rq_execute retrying].
  - intros task callback retries w w1 H. destruct (Z.to_nat _); cbn; unfold io_bind, io_attempt; by rewrite H.
  - intros task callback retries w e w1 Hn H. replace (Z.to_nat _) with 0%nat by lia. cbn. unfold io_bind, io_attempt.
    rewrite H. cbn. by destruct (callback retries e w1) as [[[]|?] ?].
  - intros task callback n w e w1 w2 Hn H Hc. simpl default. replace (Z.to_nat n) with (S (Z.to_nat (n - 1))) by lia.
    cbn [attempts]. unfold io_bind at 1, io_attempt. rewrite H. cbn [fst snd]. unfold io_bind at 1. by rewrite Hc.
Qed.

Lemma wp_rq_execute `{TaskQueueLaws} task callback retries (Q : World → Prop) w :
  wp (task retries) (λ r w1, match r with
    | Ok _ => Q w1
    | Err e =>
        if 0 <? default 0 retries
        then wp (callback retries e) (λ r2 w2, r2 = Ok () ∧
               wp (rq_execute task callback (Some (default 0 retries - 1))) (λ _, Q) w2) w1
        else wp (callback retries e) (λ _, Q) w1
    end) w →
  wp (rq_execute task callback retries) (λ _, Q) w.
Proof.
  unfold wp. destruct (task retries w) as [[[]|e] w1] eqn:Ht; cbn [fst snd].
  - by rewrite (execute_returns _ _ _ _ _ Ht).
  - destruct (Z.ltb_spec 0 (default 0 retries)) as [Hlt|Hge].
    + destruct retries as [n|]; [|simpl in Hlt; lia]. simpl default in *.
      destruct (callback (Some n) e w1) as [r2 w2] eqn:Hc. cbn [fst snd]. intros [-> HQ].
      by rewrite (execute_retries _ _ _ _ _ _ _ Hlt Ht Hc).
    + by rewrite (execute_gives_up _ _ _ _ _ _ Hge Ht).
Qed.

Section worker.
Context (lock_wait max_retries : Z).
Context (preview_factory : ParsedStrategyResult → result StrategyPreview).

(** The [except] clauses around a task. *)
Definition handle_worker_failure (job_id : UUID) (e : exn) : IO unit :=
  if transient_database_error e then
    _ <~ rollback;
    _ <~ log_text log_exception "Transient database failure while executing preview job " job_id "";
    io_raise TransientPreviewJobError
  else if decide (e = TransientPreviewJobError) then io_raise e
  else
    _ <~ rollback;
    _ <~ log_text log_exception "Unexpected worker failure for preview job " job_id (": " +:+ class_name e);
    io_try (_ <~ transition_job_after_operational_failure job_id false default_final_error; io_ret ())
      (λ e2, if transient_database_error e2 then _ <~ rollback; io_raise TransientPreviewJobError
             else _ <~ rollback; log_text log_exception "Unable to persist terminal preview failure for job " job_id "").

(** [retries_left is not None and retries_left < max_retries] *)
Definition allow_running_retry (retries_left : option Z) : bool :=
  match retries_left with Some n => n <? max_retries | None => false end.

(** The body once the lock is held. *)
Definition execute_locked (make_parser : result (string → result ParsedStrategyResult))
    (retries_left : option Z) (job_id : UUID) : IO unit :=
  parser <~ io_lift make_parser;
  _ <~ run_preview_job parser preview_factory job_id (allow_running_retry retries_left);
  io_ret ().

Definition invalid_identifier : JobLog := mkJobLog log_error "RQ preview payload contains an invalid job identifier" [].
Definition skipped_duplicate (job_id : UUID) : string → JobLog :=
  outcome_record log_warning "Skipped duplicate concurrent preview execution" "preview_lock" "worker" job_id "timeout".
Definition task_release_failed (job_id : UUID) : string → JobLog :=
  outcome_record log_exception "Unable to release preview advisory lock" "preview_lock" "worker" job_id "release_failed".

Definition process_preview_job (make_parser : result (string → result ParsedStrategyResult))
    (retries_left : option Z) (job_id : string) : IO unit :=
  match uuid_of_string job_id with
  | Err _ => emit invalid_identifier
  | Ok job_id =>
      acquired <~ io_attempt (acquire_preview_job_lock job_id lock_wait);
      match acquired with
      | Err e => handle_worker_failure job_id e
      | Ok false => emit_queue (skipped_duplicate job_id)
      | Ok true =>
          io_finally (io_try (execute_locked make_parser retries_left job_id) (handle_worker_failure job_id))
            (release_or_invalidate (task_release_failed job_id) job_id)
      end
  end.

Definition unsynchronized (rq_job_id : string) : JobLog :=
  mkJobLog log_error ("Unable to synchronize failed RQ job " +:+ rq_job_id +:+ " with an invalid preview payload") [].

(** [exception_type] is the name of the exception's class. *)
Definition execution_failed (exception_type : string) (job_id : UUID) (retries_left : Z) (changed : bool) (queue : string) : JobLog :=
  mkJobLog log_error "RQ preview execution failed"
    (log_fields
       [("event", JStr "preview_job_transition"); ("component", JStr "worker"); ("job_id", JStr (uuid_str job_id));
        ("queue", JStr queue); ("previous_status", JStr "running");
        ("new_status", JStr (if (0 <? retries_left)%Z then "queued" else "failed"));
        ("attempt", JInt (max_retries - retries_left + 1)%Z); ("max_attempts", JInt (max_retries + 1)%Z);
        ("outcome", JStr (exception_type +:+ (if changed then ":state_changed" else ":state_unchanged")))]%string).

(** [rq_job_id] and [args] are the RQ job's identifier and its arguments as text. *)
Definition handle_preview_job_failure (rq_job_id exception_type : string) (args : list string)
    (retries_left : option Z) : IO unit :=
  match args with
  | [] => emit (unsynchronized rq_job_id)
  | arg :: _ =>
      match uuid_of_string arg with
      | Err _ => emit (unsynchronized rq_job_id)
      | Ok job_id =>
          let retries_left := default 0 retries_left in
          let will_retry := 0 <? retries_left in
          changed <~ transition_job_after_operational_failure job_id will_retry default_final_error;
          emit_queue (execution_failed exception_type job_id retries_left changed)
      end
  end.

(** ** Lemmas *)
Context (id : UUID).

(** The end of a computation of the lock holder that may raise only what the
    queue retries. *)
Definition task_post (w : World) (r : result unit) (w' : World) : Prop :=
  steps id w w' ∧ w_locks w' = w_locks w ∧ w_unlocks w' = w_unlocks w ∧ w_queue w' = w_queue w ∧
  match r with Ok _ => True | Err e => operational e end.

Lemma task_intro w w1 r :
  steps id w w1 → same_resources w w1 → match r with Ok _ => True | Err e => operational e end → task_post w r w1.
Proof. intros Hs (Hl & _ & _ & Hq & _ & _ & _ & Hu) Hr. by split_and!. Qed.

Lemma task_rollback {A} (k : IO A) w w1 (Q : result A → World → Prop) :
  steps id w w1 → same_resources w w1 →
  (∀ w2, steps id w w2 → same_resources w w2 → w_jobs w2 !! id = w_jobs w1 !! id → w_reads w2 = w_reads w1 → wp k Q w2) →
  (∀ w2 e, steps id w w2 → same_resources w w2 → db_error e → ¬ fault_free w → Q (Err e) w2) →
  wp (_ <~ rollback; k) Q w1.
Proof.
  intros Hs Hf Hk He. apply wp_bind. eapply wp_mono; [apply (wp_rollback id), Hs|].
  intros r w2 (Hs2 & Hf2 & Hrd & Hcase). assert (steps id w w2) by by eapply steps_trans.
  assert (same_resources w w2) by by etransitivity.
  destruct Hcase as [[-> Ho]|(Hn & e & -> & Hdb & _)]; [by apply Hk|]. apply He; try done.
  intros Hff. by apply Hn, Hs.
Qed.

Lemma task_after_rollback k w w1 :
  steps id w w1 → same_resources w w1 →
  (∀ w2, steps id w w2 → same_resources w w2 → wp k (task_post w) w2) → wp (_ <~ rollback; k) (task_post w) w1.
Proof.
  intros Hs Hf Hk. eapply task_rollback; [done|done|by auto|].
  intros w2 e Hs2 Hf2 He _. apply task_intro; [done|done|by right].
Qed.

Lemma task_raise w w1 :
  steps id w w1 → same_resources w w1 → wp (io_raise TransientPreviewJobError) (task_post w) w1.
Proof. intros Hs Hf. apply wp_raise, task_intro; [done|done|by left]. Qed.

Lemma task_log r k w w1 :
  steps id w w1 → same_resources w w1 →
  (∀ w2, steps id w w2 → same_resources w w2 → wp k (task_post w) w2) → wp (_ <~ emit r; k) (task_post w) w1.
Proof. intros Hs Hf Hk. by apply wp_emit, Hk, Hf; apply steps_log. Qed.

(** Whatever was raised, the handler ends with at most a retry request. *)
Lemma wp_worker_failure e w w0 :
  steps id w0 w → same_resources w0 w → wp (handle_worker_failure id e) (task_post w0) w.
Proof.
  intros Hs Hf. unfold handle_worker_failure. destruct (transient_database_error e).
  { apply task_after_rollback; [done|done|]. intros. apply task_log; [done|done|]. intros. by apply task_raise. }
  destruct (decide _) as [->|_]; [by apply task_raise|].
  apply task_after_rollback; [done|done|]. intros w1' Hs1' Hf1'. apply task_log; [done|done|].
  intros w1 Hs1 Hf1. apply wp_try, wp_bind. eapply wp_mono; [apply (wp_transition id), Hs1|].
  intros r w2 (Hs2 & Hf2 & Hcase). assert (steps id w0 w2) by by eapply steps_trans.
  assert (same_resources w0 w2) by by etransitivity. destruct r as [b|e2].
  - apply wp_ret. by apply task_intro.
  - destruct (transient_database_error e2); apply task_after_rollback; try done; intros w3 Hs3 Hf3; [by apply task_raise|].
    apply task_intro; [by apply steps_log|done|done].
Qed.

Lemma wp_execute_locked make_parser retries w w0 :
  steps id w0 w → same_resources w0 w → (∀ j, w_jobs w !! id = Some j → pj_id j = id) →
  wp (io_try (execute_locked make_parser retries id) (handle_worker_failure id)) (task_post w0) w.
Proof.
  intros Hs Hf Hkey. apply wp_try, wp_bind, wp_lift. destruct make_parser as [parser|e].
  2:{ by apply wp_worker_failure. }
  apply wp_bind. eapply wp_mono; [apply (wp_run parser preview_factory id); [apply Hs|done]|].
  intros r w1 (Hs1 & Hf1 & _). assert (steps id w0 w1) by by eapply steps_trans.
  assert (same_resources w0 w1) by by etransitivity.
  destruct r as [b|e]; [apply wp_ret; by apply task_intro|by apply wp_worker_failure].
Qed.

(** When nothing fails, a task ends as the run it executes. *)
Definition expected_task (make_parser : result (string → result ParsedStrategyResult)) (retries : option Z)
    (now later : datetime) (row : option PreviewJob) : result unit * option PreviewJob :=
  match make_parser with
  | Ok parser =>
      let '(r, row') := expected_run parser preview_factory (allow_running_retry retries) now later row in
      (match r with Ok _ => Ok () | Err e => Err e end, row')
  | Err e =>
      if transient_database_error e || bool_decide (e = TransientPreviewJobError)
      then (Err TransientPreviewJobError, row)
      else (Ok (), transition_row false default_final_error row now)
  end.

Lemma expected_run_err parser allow now later row e row' :
  expected_run parser preview_factory allow now later row = (Err e, row') → e = TransientPreviewJobError.
Proof.
  unfold expected_run. destruct row as [j|]; [|done]. destruct (negb _); [done|].
  unfold settled. destruct (executed _ _ _ _) as [[]?]; [done|]. unfold rejected. destruct e0; congruence.
Qed.

Lemma wp_execute_exact make_parser retries w :
  respects (holds id) w → fault_free w → (∀ j, w_jobs w !! id = Some j → pj_id j = id) →
  wp (io_try (execute_locked make_parser retries id) (handle_worker_failure id))
    (λ r w', steps id w w' ∧ same_resources w w' ∧ (r, w_jobs w' !! id) =
       expected_task make_parser retries (w_clock w (w_reads w)) (w_clock w (S (w_reads w))) (w_jobs w !! id)) w.
Proof.
  intros Hr Hff Hkey. apply wp_try, wp_bind, wp_lift. unfold expected_task. destruct make_parser as [parser|e].
  - apply wp_bind. eapply wp_mono; [by apply (wp_run parser preview_factory id)|].
    intros r w1 (Hs1 & Hf1 & _ & Hex). specialize (Hex Hff). rewrite <- Hex. destruct r as [b|e].
    + apply wp_ret. by split_and!.
    + symmetry in Hex. apply expected_run_err in Hex as ->. unfold handle_worker_failure.
      cbn [transient_database_error]. rewrite decide_True by done. apply wp_raise. by split_and!.
  - unfold handle_worker_failure. destruct (transient_database_error e); cbn [orb].
    { eapply (task_rollback _ w w); [by apply steps_refl|reflexivity| |by intros ? ? ? ? ? []].
      intros w1 Hs1 Hf1 Ho _. apply wp_emit, wp_raise. split_and!; [by apply steps_log|done|cbn [log_to set_log w_jobs]; congruence]. }
    destruct (decide (e = TransientPreviewJobError)) as [->|Hne].
    { rewrite bool_decide_eq_true_2 by done. apply wp_raise. split_and!; [by apply steps_refl|reflexivity|done]. }
    rewrite bool_decide_eq_false_2 by done.
    eapply (task_rollback _ w w); [by apply steps_refl|reflexivity| |by intros ? ? ? ? ? []].
    intros w1' Hs1' Hf1 Ho Hrd. apply wp_emit. set (w1 := log_to _ w1'). assert (steps id w w1) as Hs1 by by apply steps_log.
    apply wp_try, wp_bind. eapply wp_mono; [apply (wp_transition id _ _ w1), Hs1|].
    change (w_jobs w1) with (w_jobs w1'). change (w_reads w1) with (w_reads w1').
    intros r w2 (Hs2 & Hf2 & Hcase). destruct Hcase as [[-> Ho2]|(Hn & _)].
    + rewrite Ho in *. rewrite (steps_clock _ _ _ Hs1), Hrd in Ho2.
      destruct (w_jobs w !! id); apply wp_ret;
        (split; [by eapply steps_trans|]; split; [by etransitivity|]; by rewrite Ho2).
    + exfalso. by apply Hn, Hs1.
Qed.

(** The same when the lock was not acquired: other sessions may move the row. *)
Definition moved_any (w : World) (w' : World) : Prop :=
  table_moves (w_jobs w) (w_jobs w') ∧ respects table_moves w' ∧ same_resources w w'.

Lemma wp_any {A} (m : IO A) w w0 :
  guarantees m → frames m → db_errors m → moved_any w0 w →
  wp m (λ r w', moved_any w0 w' ∧ ∀ e, r = Err e → db_error e) w.
Proof.
  intros Hg Hf He (Hm & Hr & Hs). destruct (Hg w Hr) as [H1 H2]. specialize (Hf w).
  destruct (He w) as [_ H3]; [by eapply respects_faults|].
  split; [|exact H3]. split_and!; [by etransitivity|done|by etransitivity].
Qed.

Lemma wp_worker_failure_any e w :
  respects table_moves w →
  wp (handle_worker_failure id e) (λ r w', table_moves (w_jobs w) (w_jobs w') ∧ same_resources w w' ∧
    match r with Ok _ => True | Err e => operational e end) w.
Proof.
  intros Hr. assert (∀ (r : result unit) w', moved_any w w' → match r with Ok _ => True | Err e => operational e end →
    table_moves (w_jobs w) (w_jobs w') ∧ same_resources w w' ∧
    match r with Ok _ => True | Err e => operational e end) as Hfin.
  { intros [[]|e'] w' (H1 & _ & H3) H4; by split_and!. }
  assert (∀ w1, moved_any w w1 → wp rollback (λ r w', moved_any w w' ∧ ∀ e, r = Err e → db_error e) w1) as Hroll.
  { intros w1 H1. apply wp_any; [read_only|apply frames_db|apply db_errors_db; by intros ? ?|done]. }
  assert (∀ (k : IO unit) w1, moved_any w w1 → (∀ w2, ∃ r l, k w2 = (r, set_log l w2) ∧ ∀ e, r = Err e → operational e) →
    wp (_ <~ rollback; k)
    (λ (r : result unit) w', table_moves (w_jobs w) (w_jobs w') ∧ same_resources w w' ∧
    match r with Ok _ => True | Err e => operational e end) w1) as Hraise.
  { intros k w1 H1 Hk. apply wp_bind. eapply wp_mono; [by apply Hroll|]. intros [[]|e'] w2 [H2 He'].
    - destruct (Hk w2) as (r & l & Hkw & Hr2). unfold wp. rewrite Hkw. apply (Hfin r (set_log l w2)); [exact H2|]. destruct r; auto.
    - apply (Hfin (Err _)); [done|right; by apply He']. }
  assert (moved_any w w) as H0 by (split_and!; [reflexivity|done|reflexivity]).
  unfold handle_worker_failure. destruct (transient_database_error e).
  { apply Hraise; [done|]. intros w2. do 2 eexists. split; [done|]. intros e' [= <-]. by left. }
  destruct (decide _) as [->|_]; [apply wp_raise, (Hfin (Err _)); [done|by left]|].
  apply wp_bind. eapply wp_mono; [by apply Hroll|]. intros [[]|e'] w1 [H1 He']; [|apply (Hfin (Err _)); [done|right; by apply He']].
  apply wp_emit, wp_try, wp_bind. eapply wp_mono; [apply (wp_any _ (log_to _ w1) w); [apply transition_guarantees|apply transition_frames|apply transition_db_errors|done]|].
  intros [b|e2] w2 [H2 He2]; [by apply wp_ret, (Hfin (Ok tt))|].
  destruct (transient_database_error e2); (apply Hraise; [done|]); intros w3.
  - exists (Err TransientPreviewJobError), (w_log w3). split; [by destruct w3|]. intros e' [= <-]. by left.
  - by do 2 eexists.
Qed.

(** *** A worker with nothing in its way: the other sessions leave the job's row
    alone, no database call fails, the lock is free, and nobody else uses the
    connection pool of its process. *)
Record ready (w : World) : Prop := mkReady {
  ready_respects : respects (holds id) w;
  ready_fault_free : fault_free w;
  ready_polls : w_polls w = [];
  ready_locks : w_locks w = [];
  ready_unlocks : w_unlocks w = [];
  ready_dialect : w_dialect w = "postgresql";
  ready_keyed : ∀ j, w_jobs w !! id = Some j → pj_id j = id }.

Lemma ready_log w r : ready w → ready (log_to r w).
Proof. intros []. by constructor. Qed.

Lemma ready_after w w' : ready w → steps id w w' → w_polls w' = [] → w_locks w' = [] → w_unlocks w' = [] → ready w'.
Proof.
  intros Hready Hs Hp Hl Hu. constructor; [apply Hs|apply Hs, Hready|done|done|done| |].
  - rewrite (steps_dialect _ _ _ Hs). apply Hready.
  - intros j Hj. destruct (steps_moves _ _ _ Hs id j Hj) as [(j0 & Hj0 & Hlc)|(j0 & _ & <- & Hlc)].
    + apply Hready in Hj0. apply lifecycle_rtc_identity in Hlc. injection Hlc. congruence.
    + apply lifecycle_rtc_identity in Hlc. by injection Hlc.
Qed.

Lemma wp_acquire_free w :
  ready w →
  wp (acquire_preview_job_lock id lock_wait) (λ r w', r = Ok true ∧ steps id w w' ∧
    w_locks w' = [advisory_lock_keys id] ∧ w_polls w' = [] ∧ w_jobs w' !! id = w_jobs w !! id ∧
    w_reads w' = w_reads w ∧ w_queue w' = w_queue w ∧ w_queue_faults w' = w_queue_faults w ∧ w_unlocks w' = []) w.
Proof.
  intros []. unfold wp, acquire_preview_job_lock, acquire_fuel. rewrite ready_polls0.
  cbn [length acquire_loop]. unfold try_acquire_preview_job_lock, on_postgresql, io_bind.
  rewrite ready_dialect0. change (negb (String.eqb "postgresql" "postgresql")) with false. cbn iota.
  pose proof (wp_rollback id w ready_respects0) as (Hs & (Hl & Hp & _ & Hq & Hqf & _ & _ & Hu) & Hrd & Hcase).
  unfold pg_try_advisory_lock, io_bind, rollback in *.
  destruct Hcase as [[Hok Ho]|(Hn & _)]; [|by apply Hn in ready_fault_free0].
  destruct (db _ w) as [r w1]. cbn [fst snd] in *. subst r. rewrite Hp, ready_polls0. cbn [fst snd].
  destruct Hs. split_and!; [done|by constructor|by rewrite <- ready_locks0, <- Hl|done|done|done|done|done|cbn; congruence].
Qed.

Lemma wp_process_exact make_parser retries w :
  ready w → uuid_ok id →
  wp (process_preview_job make_parser retries (uuid_str id)) (λ r w', ready w' ∧ steps id w w' ∧ w_queue w' = w_queue w ∧
    (r, w_jobs w' !! id) =
      expected_task make_parser retries (w_clock w (w_reads w)) (w_clock w (S (w_reads w))) (w_jobs w !! id)) w.
Proof.
  intros Hready Hid. unfold process_preview_job. rewrite uuid_roundtrip by done.
  apply wp_bind, wp_attempt. eapply wp_mono; [by apply wp_acquire_free|].
  intros r w1 (-> & Hs1 & Hl1 & Hp1 & Ho1 & Hrd1 & Hq1 & _ & Hu1). apply wp_finally.
  assert (∀ j, w_jobs w1 !! id = Some j → pj_id j = id) as Hk1 by (rewrite Ho1; apply Hready).
  assert (fault_free w1) as Hf1 by apply Hs1, Hready.
  eapply wp_mono; [apply (wp_execute_exact make_parser retries w1); [apply Hs1|done|done]|].
  rewrite Ho1, Hrd1, (steps_clock _ _ _ Hs1). intros r w2 (Hs2 & (Hl2 & Hp2 & _ & Hq2 & _ & _ & _ & Hu2) & Hex).
  assert (steps id w w2) as Hs by by eapply steps_trans.
  eapply wp_mono; [apply (wp_release_or_invalidate id _ w2 []); [apply Hs|rewrite (steps_dialect _ _ _ Hs); apply Hready|congruence]|].
  intros r2 w3 (-> & Hs3 & Ho3 & Hq3 & _ & Hp3 & Hu3 & Hl3). assert (steps id w w3) as Hs' by by eapply steps_trans.
  rewrite Ho3. split_and!; [|done|congruence|done]. rewrite Hu1 in Hu2. rewrite Hu2 in Hu3.
  apply (ready_after w); [done|done|congruence| |done]. destruct Hl3 as [|[|[Hin _]]]; [done|done|]. rewrite Hu2 in Hin. by apply not_elem_of_nil in Hin.
Qed.

Lemma wp_callback_exact rq_job_id exception_type retries w :
  ready w → uuid_ok id →
  wp (handle_preview_job_failure rq_job_id exception_type [uuid_str id] retries) (λ r w', r = Ok () ∧ ready w' ∧ steps id w w' ∧
    w_jobs w' !! id = transition_row (0 <? default 0 retries) default_final_error (w_jobs w !! id)
                        (w_clock w (w_reads w))) w.
Proof.
  intros Hready Hid. pose proof Hready as []. unfold handle_preview_job_failure. rewrite uuid_roundtrip by done.
  apply wp_bind. eapply wp_mono; [by apply (wp_transition id)|].
  intros r w1 (Hs1 & (Hl & Hp & _ & _ & _ & _ & _ & Hu) & Hcase). destruct Hcase as [[-> Ho]|(Hn & _)]; [|by apply Hn in ready_fault_free0].
  assert (ready w1 ∧ steps id w w1 ∧ w_jobs w1 !! id = transition_row (0 <? default 0 retries) default_final_error
    (w_jobs w !! id) (w_clock w (w_reads w))) as (Hr1 & H).
  2:{ cbv zeta. unfold wp at 1, emit_queue, emit. destruct (w_jobs w !! id); cbn [transition_result fst snd];
        (split; [done|]; split; [by apply ready_log|]; split; [by apply steps_log|apply H]). }
  split_and!; [|done|done]. constructor; [apply Hs1|by apply Hs1|congruence|congruence|congruence|by rewrite (steps_dialect _ _ _ Hs1)|].
  intros j Hj. rewrite Ho in Hj. destruct (w_jobs w !! id) as [j0|] eqn:Hj0; [|done]. simpl in Hj.
  specialize (ready_keyed0 j0 eq_refl). by destruct (nonterminal j0), (0 <? default 0 retries); injection Hj as <-.
Qed.

(** ** The executions of one enqueued job *)

(** What the queue is given: the task and the failure callback, for the retries
    that are left.  Each execution has its own parser. *)
Context (rq_job_id : string).
Context (parsers : option Z → result (string → result ParsedStrategyResult)).

Definition preview_task (retries_left : option Z) : IO unit :=
  process_preview_job (parsers retries_left) retries_left (uuid_str id).
Definition preview_callback (retries_left : option Z) (e : exn) : IO unit :=
  handle_preview_job_failure rq_job_id (class_name e) [uuid_str id] retries_left.

(** A task on a queued job settles it or leaves it for the callback. *)
Lemma expected_task_queued make_parser retries now later j :
  pj_status j = queued →
  let '(r, row') := expected_task make_parser retries now later (Some j) in
  ∃ j', row' = Some j' ∧ pj_attempt_count j' <= pj_attempt_count j + 1 ∧ identity j' = identity j ∧
    match r with Ok _ => terminal j' | Err _ => nonterminal j' = true end.
Proof.
  intros Hq. assert (nonterminal j = true) as Hn by (unfold nonterminal; by rewrite Hq).
  unfold expected_task. destruct make_parser as [parser|e].
  2:{ destruct (_ || _); [exists j|simpl; rewrite Hn; eexists]; split_and!; try done; simpl; try lia. by right. }
  unfold expected_run, claim_eligible. rewrite Hq, bool_decide_eq_true_2 by done. cbn [orb negb].
  assert (∀ e j1, pj_status j1 = running → pj_attempt_count j1 = pj_attempt_count j + 1 → identity j1 = identity j →
    let '(r, row') := let '(r, row') := rejected e later j1 in
      (match r with Ok _ => Ok () | Err e => Err e end, row') in
    ∃ j', row' = Some j' ∧ pj_attempt_count j' <= pj_attempt_count j + 1 ∧ identity j' = identity j ∧
    match r with Ok _ => terminal j' | Err _ => nonterminal j' = true end) as Hrej.
  { intros e j1 Hs Ha Hi. unfold rejected.
    destruct e; eexists; (split; [done|]; split; [simpl; lia|]; split; [done|]);
      first [by right|unfold nonterminal; by rewrite Hs]. }
  unfold settled, executed. destruct (parser _) as [parsed|e]; [|by apply Hrej].
  destruct (preview_factory parsed) as [preview|e]; [|by apply Hrej].
  destruct (serialize_preview parsed preview) as [document|e]; [|by apply Hrej].
  eexists. split; [done|]. split; [simpl; lia|]. split; [done|by left].
Qed.

(** The row of [j] ends settled, after at most [n] more attempts. *)
Definition settles_within (n : Z) (j : PreviewJob) (w' : World) : Prop :=
  ∃ j', w_jobs w' !! id = Some j' ∧ terminal j' ∧ identity j' = identity j ∧
    pj_attempt_count j' <= pj_attempt_count j + n.

(** A task on a queued job: settled, or left nonterminal for the callback. *)
Lemma wp_task_queued make_parser retries w j :
  ready w → uuid_ok id → w_jobs w !! id = Some j → pj_status j = queued →
  wp (process_preview_job make_parser retries (uuid_str id)) (λ r w1, ready w1 ∧
    ∃ j1, w_jobs w1 !! id = Some j1 ∧ pj_attempt_count j1 <= pj_attempt_count j + 1 ∧ identity j1 = identity j ∧
      match r with Ok _ => terminal j1 | Err _ => nonterminal j1 = true end) w.
Proof.
  intros Hready Hid Hj Hq. eapply wp_mono; [by apply wp_process_exact|]. intros r w1 (Hr1 & Hs1 & _ & Hex). split; [exact Hr1|].
  rewrite Hj in Hex.
  pose proof (expected_task_queued make_parser retries (w_clock w (w_reads w)) (w_clock w (S (w_reads w))) j Hq) as Ht.
  rewrite <- Hex in Ht. destruct r; exact Ht.
Qed.

(** The callback on a nonterminal job. *)
Lemma wp_callback_nonterminal exception_type retries w j :
  ready w → uuid_ok id → w_jobs w !! id = Some j → nonterminal j = true →
  wp (handle_preview_job_failure rq_job_id exception_type [uuid_str id] retries) (λ r w', r = Ok () ∧ ready w' ∧
    w_jobs w' !! id = Some (if 0 <? default 0 retries then requeued j
                            else as_failed default_final_error (w_clock w (w_reads w)) j)) w.
Proof.
  intros Hready Hid Hj Hn. eapply wp_mono; [by apply wp_callback_exact|]. intros r w' (-> & Hr & _ & Ho).
  rewrite Hj in Ho. cbn [transition_row] in Ho. rewrite Hn in Ho. split_and!; [done|done|]. rewrite Ho. by destruct (0 <? default 0 retries).
Qed.

Lemma executions_settle `{TaskQueueLaws} (retries_left : option Z) w j :
  ready w → uuid_ok id → w_jobs w !! id = Some j → pj_status j = queued →
  wp (rq_execute preview_task preview_callback retries_left)
    (λ _, settles_within (Z.max 0 (default 0 retries_left) + 1) j) w.
Proof.
  intros Hready Hid. remember (Z.to_nat (default 0 retries_left)) as n eqn:Hn. revert retries_left w j Hn Hready.
  induction n as [|n IH]; intros retries_left w j Hn Hready Hj Hq; apply wp_rq_execute;
    (eapply wp_mono; [by apply (wp_task_queued _ _ w j)|]); intros r w1 (Hr1 & j1 & Hj1 & Ha & Hi & Hend);
    (destruct r as [[]|e]; [exists j1; split_and!; [done..|lia]|]).
  - rewrite (proj2 (Z.ltb_ge 0 _)) by lia. eapply wp_mono; [by apply (wp_callback_nonterminal _ _ w1 j1)|].
    intros r w2 (-> & _ & Ho). rewrite (proj2 (Z.ltb_ge 0 _)) in Ho by lia.
    eexists. split_and!; [exact Ho|by right|done|simpl; lia].
  - destruct retries_left as [m|]; [simpl default in *|simpl in Hn; lia]. rewrite (proj2 (Z.ltb_lt 0 _)) by lia.
    eapply wp_mono; [by apply (wp_callback_nonterminal _ _ w1 j1)|]. intros r w2 (-> & Hr2 & Ho).
    rewrite (proj2 (Z.ltb_lt 0 _)) in Ho by (cbn; lia). split; [done|].
    eapply wp_mono; [by apply (IH (Some (m - 1)) w2 (requeued j1)); [cbn; lia|..]|].
    intros r w3 (j3 & Hj3 & Ht3 & Hi3 & Ha3). exists j3. simpl default in *. split_and!; [done|done|by rewrite Hi3|]. simpl in Ha3. lia.
Qed.

(** C6: A queued job that nothing disturbs settles: when its lock is free, the
    other sessions leave its row alone, no database call fails and the
    process's connection pool has no other user ([ready]), then after the task
    and its failure callback have run as the queue runs them, for every retry
    that is left, the row is completed or failed, whatever the parser did each
    time, with the same identity and at most one attempt per execution. *)
Theorem undisturbed_job_settles `{TaskQueueLaws} (retries_left : option Z) (w : World) (j : PreviewJob) :
  ready w → uuid_ok id → w_jobs w !! id = Some j → pj_status j = queued →
  wp (rq_execute preview_task preview_callback retries_left) (λ _ w',
    ∃ j', w_jobs w' !! id = Some j' ∧ terminal j' ∧ identity j' = identity j ∧
      pj_attempt_count j' <= pj_attempt_count j + Z.max 0 (default 0 retries_left) + 1) w.
Proof.
  intros Hready Hid Hj Hq. eapply wp_mono; [by apply (executions_settle _ w j)|].
  intros _ w' (j' & ? & ? & ? & ?). exists j'. split_and!; [done..|lia].
Qed.

(** C29: A worker task, under any failures: an identifier that does not parse is
    dropped without effect but a log record; otherwise rows move only along the lifecycle, no
    lock is kept (unless the release did not reach the connection that holds
    it), nothing is enqueued, and whatever was raised inside, only a retry
    request or a database failure escapes. *)
Theorem process_preview_job_sound make_parser retries (text : string) (w : World) :
  w_dialect w = "postgresql" → w_locks w = [] →
  (uuid_of_string text = Ok id → lock_honoured id lock_wait w ∧ table_wf (w_jobs w)) →
  (∀ e, uuid_of_string text = Err e →
     process_preview_job make_parser retries text w = (Ok (), log_to invalid_identifier w)) ∧
  (uuid_of_string text = Ok id →
   wp (process_preview_job make_parser retries text) (λ r w',
     table_moves (w_jobs w) (w_jobs w') ∧ lock_given_back id w w' ∧ w_queue w' = w_queue w ∧
     match r with Ok _ => True | Err e => operational e end) w).
Proof.
  intros Hd Hl Hh. unfold process_preview_job. split; [by intros e ->|]. intros Htext. rewrite Htext.
  destruct (Hh Htext) as [[Hm Hhold] Hwf]. clear Hh.
  apply wp_bind, wp_attempt. pose proof (acquire_outcome table_moves id lock_wait w Hm Hd) as Ha.
  unfold wp in Ha |- *. specialize (Hhold (acquire_preview_job_lock id lock_wait w).2).
  destruct (acquire_preview_job_lock id lock_wait w) as [[[]|e] w1]; cbn [fst snd] in *;
    destruct Ha as (Hm1 & Hr1 & (Hd1 & Hq1 & _ & _ & _ & _ & _ & Hu1) & Hlock).
  - destruct Hlock as [Hlk _]. rewrite Hl in Hlk. specialize (Hhold eq_refl).
    apply wp_finally. eapply wp_mono; [apply (wp_execute_locked make_parser retries w1 w1)|].
    + by apply steps_refl.
    + reflexivity.
    + intros j Hj. destruct (table_moves_wf _ _ Hwf Hm1 id j Hj). done.
    + intros r w2 (Hs2 & Hl2 & Hu2 & Hq2 & Hr2).
      eapply wp_mono; [apply (wp_release_or_invalidate id _ w2 []); [apply Hs2|rewrite (steps_dialect _ _ _ Hs2); congruence|congruence]|].
      intros r3 w3 (-> & Hs3 & _ & Hq3 & _ & _ & _ & Hl3). split_and!; [| |congruence|done].
      2:{ destruct Hl3 as [|[|[Hin Hk]]]; [by left|by left|right; split; congruence]. }
      etransitivity; [exact Hm1|]. etransitivity; [apply Hs2|apply Hs3].
  - destruct Hlock as [Hlk _]. rewrite Hl in Hlk. split; [done|]. split; [by left|]. by split.
  - destruct Hlock as [Hlk _]. pose proof (wp_worker_failure_any e w1 Hr1) as (H1 & (H2 & _ & _ & H3 & _) & H4).
    rewrite Hl in Hlk. split; [by etransitivity|]. split; [left; by rewrite H2|]. split; [by rewrite H3|done].
Qed.
End worker.

(** The provider times out in all three executions. *)
Lemma sample_ready : ready 7 (quiet_world {[ 7 := sample_job ]} []).
Proof. constructor; try constructor; try done. apply sample_job_keyed. Qed.

Lemma undisturbed_job_settles_witness :
  let timeout (_ : option Z) := Ok (λ _, Err (StrategyProviderTimeoutError "slow")) in
  let w := quiet_world {[ 7 := sample_job ]} [] in
  let preview_factory := create_preview (λ x _, Ok x) sample_table in
  let r := rq_execute (TaskQueue := retrying) (preview_task 5 2 preview_factory 7 timeout) (preview_callback 2 7 "rq") (Some 2) w in
  (pj_status <$> w_jobs r.2 !! 7) = Some failed ∧ (pj_attempt_count <$> w_jobs r.2 !! 7) = Some 3 ∧
  ∃ j', w_jobs r.2 !! 7 = Some j' ∧ terminal j' ∧ identity j' = identity sample_job ∧
      pj_attempt_count j' <= pj_attempt_count sample_job + Z.max 0 (default 0 (Some 2)) + 1.
Proof.
  split; [by vm_compute|]. split; [by vm_compute|].
  apply (undisturbed_job_settles 5 2 (create_preview (λ x _, Ok x) sample_table) 7 "rq"
    (λ _, Ok (λ _, Err (StrategyProviderTimeoutError "slow"))) (Some 2) (quiet_world {[ 7 := sample_job ]} []) sample_job);
    [apply sample_ready|by split|done|done].
Defined.

Lemma process_preview_job_sound_witness :
  let parser := Ok (λ _, Ok sample_parsed) in
  let w := quiet_world {[ 7 := sample_job ]} [] in
  let r := process_preview_job 5 2 (create_preview (λ x _, Ok x) sample_table) parser (Some 2) (uuid_str 7) w in
  (pj_status <$> w_jobs r.2 !! 7) = Some completed ∧
  (table_moves (w_jobs w) (w_jobs r.2) ∧ lock_given_back 7 w r.2 ∧ w_queue r.2 = w_queue w ∧
   match r.1 with Ok _ => True | Err e => operational e end).
Proof.
  split; [by vm_compute|].
  apply (process_preview_job_sound 5 2 (create_preview (λ x _, Ok x) sample_table) 7 (Ok (λ _, Ok sample_parsed)) (Some 2)
    (uuid_str 7) (quiet_world {[ 7 := sample_job ]} [])); [done|done| |apply uuid_roundtrip; by split].
  intros _. split.
  - split; [constructor|]. intros w1 Hw1. vm_compute in Hw1. injection Hw1 as <-. constructor.
  - intros id j Hj. cbn [quiet_world w_jobs] in Hj. apply lookup_singleton_Some in Hj as [<- <-].
    split; [|done]. split; [done|]. by split_and!.
Defined.

(** A text is rejected, and the connection is lost while the failure is stored:
    the flush expires the job, so that reading [job.id] for the retry request is
    refused in turn, and the worker gives the job up although it has retries
    left, with a message that says nothing of the text. *)
Definition refused_world : World :=
  set_events (replicate 3 (mkEvent id None) ++
              [mkEvent id (Some (OperationalError, false)); mkEvent id (Some (OtherException "PendingRollbackError", false))])
    (quiet_world {[ 7 := sample_job ]} []).

Example persist_failure_not_retried :
  let r := process_preview_job 5 2 (create_preview (λ x _, Ok x) sample_table)
             (Ok (λ _, Err (StrategyValidationError "no"))) (Some 2) (uuid_str 7) refused_world in
  r.1 = Ok () ∧ (pj_status <$> w_jobs r.2 !! 7) = Some failed ∧
  (pj_error_message <$> w_jobs r.2 !! 7) = Some (Some default_final_error).
Proof. by vm_compute. Qed.
