(* ===== verification/JobApi.v ===== *)
(** * The preview endpoints
    ([backend/app/api/routes/jobs.py], [backend/app/schemas/jobs.py],
    [preview_strategy] of [backend/app/api/routes/strategies.py])

    Submitting a preview, and polling its job; with the worker in between, the
    whole path from the text of a strategy to the preview in the browser. *)

From S2P Require Import Prelude Models MarketData Samples StrategySpec StrategySemantics Parser Uuid Preview Auth StrategyApi Responses Effects JobStore JobRules PreviewJobService Worker.
From Stdlib Require Import ZArith Lia.
From stdpp Require Import base list option strings gmap relations.
Local Open Scope Z_scope.
Local Open Scope io_scope.

(** ** Submission *)
Definition preview_unavailable : exn := HTTPException 503 "Unable to queue the strategy preview.".

(** [StrategyPreviewRequest.model_validate] *)
Definition validate_preview_request (strip_whitespace : string → string) : json → result string :=
  model ["text"%string] (field "text" (StrategySourceText strip_whitespace)).

Record PreviewEnqueueResponse : Type := mkEnqueued { en_job_id : UUID; en_status : string }.

Definition preview_strategy (lock_wait ttl_hours : Z) (new_id user_id : UUID) (text : string) : IO PreviewEnqueueResponse :=
  io_try (job_id <~ submit_preview_job lock_wait ttl_hours new_id user_id text None;
          io_ret (mkEnqueued job_id "queued"))
    (λ _, _ <~ rollback; io_raise preview_unavailable).

(** ** Polling *)
Definition job_not_found : exn := HTTPException 404 "Preview job not found.".
Definition result_expired : exn := HTTPException 410 "This preview result has expired. Run the preview again.".

Record PreviewJobResponse : Type := mkJobResponse {
  jr_id : UUID;
  jr_status : JobStatus;
  jr_stage : JobStage;
  jr_progress : Z;
  jr_created_at : datetime;
  jr_started_at : option datetime;
  jr_completed_at : option datetime;
  jr_error : option string;
  jr_preview_result : option StrategyPreviewResponse }.

Section api.
Context {P : Pydantic}.

(** The document shown: only of a completed job, and validated. *)
Definition stored_preview (job : PreviewJob) : result (option StrategyPreviewResponse) :=
  match pj_status job, pj_preview_result job with
  | completed, Some document =>
      match validate_preview document with
      | Ok preview => Ok (Some preview)
      | Err ValidationError => Err result_expired
      | Err e => Err e
      end
  | _, _ => Ok None
  end.

Definition job_response (job : PreviewJob) : result PreviewJobResponse :=
  preview_result ← stored_preview job;
  Ok (mkJobResponse (pj_id job) (pj_status job) (pj_stage job) (pj_progress job) (pj_created_at job)
        (pj_started_at job) (pj_completed_at job) (pj_error_message job) preview_result).

Definition get_preview_job (job_id user_id : UUID) : IO PreviewJobResponse :=
  job <~ get_job job_id user_id;
  match job with
  | None => io_raise job_not_found
  | Some job => io_lift (job_response job)
  end.

(** ** Lemmas *)

(** Validation raises nothing but ValidationError. *)
Definition validates {A} (m : result A) : Prop := outcome m (λ _, True) (λ e, e = ValidationError).

Lemma validates_bind {A B} (m : result A) (f : A → result B) : validates m → (∀ a, validates (f a)) → validates (a ← m; f a).
Proof. intros Hm Hf. unfold validates in *. eapply outcome_bind; [exact Hm|]. intros a _. apply Hf. Qed.

Lemma validates_option {A} (v : option A) : validates (of_option v).
Proof. by destruct v. Qed.

Lemma validates_model {A} names (build : _ → result A) v : (∀ fields, validates (build fields)) → validates (model names build v).
Proof. intros H. destruct v as [| | | | |fields]; try done. simpl. by destruct (only_fields names fields); [apply H|]. Qed.

Lemma validates_field {A} name (read : json → result A) fields : (∀ v, validates (read v)) → validates (field name read fields).
Proof. intros H. unfold field. by destruct (obj_get name fields); [apply H|]. Qed.

Lemma validates_field_or {A} name d (read : json → result A) fields : (∀ v, validates (read v)) → validates (field_or name d read fields).
Proof. intros H. unfold field_or. by destruct (obj_get name fields); [apply H|]. Qed.

Lemma validates_nullable {A} (read : json → result A) v : (∀ v, validates (read v)) → validates (nullable read v).
Proof. intros H. destruct v; try done; (apply validates_bind; [apply H|done]). Qed.

Lemma validates_list {A} (read : json → result A) v : (∀ v, validates (read v)) → validates (list_of read v).
Proof.
  intros H. destruct v as [| | | |l|]; try done. simpl. induction l as [|x l IH]; [done|]. cbn [mapM_result].
  apply validates_bind; [apply H|]. intros a. apply validates_bind; [exact IH|done].
Qed.

Lemma validates_one_of {A} (value : A → string) all v : validates (one_of value all v).
Proof. destruct v; try done. apply validates_option. Qed.

Lemma validates_literal lit v : validates (literal lit v).
Proof. destruct v; try done. simpl. by destruct (String.eqb _ _). Qed.

Lemma validates_literal_int lit v : validates (literal_int lit v).
Proof. destruct v; try done. simpl. by destruct (Z.eqb _ _). Qed.

Lemma validates_literal_true v : validates (literal_true v).
Proof. destruct v as [|[]| | | |]; first [exact I|reflexivity]. Qed.

(** Follows a model down to its primitive readers. *)
Ltac validates :=
  repeat first
    [ exact I | progress intros
    | match goal with H : ∀ v, validates (?read v) |- validates (?read _) => apply H end
    | apply validates_model; intros ? | apply validates_bind; [|intros ?]
    | progress unfold nullable_field | apply validates_field; intros ? | apply validates_field_or; intros ?
    | apply validates_nullable; intros ? | apply validates_list; intros ?
    | apply validates_one_of | apply validates_literal | apply validates_literal_int | apply validates_literal_true
    | apply validates_option ].

Lemma validates_operand v : validates (validate_operand_json v).
Proof.
  destruct v as [| | | | |fields]; try done. unfold validate_operand_json.
  destruct (obj_get "type" fields) as [[]|]; try done.
  unfold validate_indicator, validate_price, validate_constant.
  repeat (destruct (String.eqb _ _); [validates|]). reflexivity.
Qed.

Lemma validates_specification v : validates (validate_specification v).
Proof.
  assert (∀ v, validates (read_risk_percent v)).
  { intros w. apply validates_nullable. intros x. apply validates_bind; [apply validates_option|].
    intros d. by destruct (risk_field_ok _). }
  pose proof validates_operand. assert (∀ v, validates (validate_condition_json v)) by (unfold validate_condition_json; validates).
  assert (∀ v, validates (validate_execution v)) by (unfold validate_execution; validates).
  unfold validate_specification. validates.
Qed.

Lemma validates_preview v : validates (validate_preview v).
Proof.
  pose proof validates_specification.
  assert (∀ v, validates (validate_default v)) by (unfold validate_default; validates).
  assert (∀ v, validates (validate_assumption v)) by (unfold validate_assumption; validates).
  assert (∀ v, validates (validate_review v)) by (unfold validate_review; validates).
  assert (∀ v, validates (validate_comparison v)) by (unfold validate_comparison; validates).
  assert (∀ v, validates (validate_price_point v)) by (unfold validate_price_point; validates).
  assert (∀ v, validates (validate_trade v)) by (unfold validate_trade; validates).
  assert (∀ v, validates (validate_backtest v)) by (unfold validate_backtest; validates).
  unfold validate_preview. validates.
Qed.

(** *** The row shown *)
Definition expected_poll (user_id : UUID) (row : option PreviewJob) : result PreviewJobResponse :=
  match row with
  | Some j => if decide (pj_user_id j = user_id) then job_response j else Err job_not_found
  | None => Err job_not_found
  end.

Lemma wp_get_preview_job id user_id w :
  respects (holds id) w →
  wp (get_preview_job id user_id) (λ r w', steps id w w' ∧ w_queue w' = w_queue w ∧ w_jobs w' !! id = w_jobs w !! id ∧
    (r = expected_poll user_id (w_jobs w !! id) ∨ ¬ fault_free w ∧ ∃ e, r = Err e ∧ db_error e)) w.
Proof.
  intros Hr. unfold get_preview_job, get_job. apply wp_bind.
  set (mine := match w_jobs w !! id with
               | Some j => if decide (pj_user_id j = user_id) then Some j else None | None => None end).
  eapply wp_mono; [apply (wp_row id _ w (Ok mine) (w_jobs w !! id)); [done|]|].
  { intros t Ht. rewrite Ht. by split_and!. }
  intros r w1 (H1 & (_ & _ & _ & Hq & _) & _ & Hcase). destruct Hcase as [[-> Ho]|(Hn & e & -> & He & Ho)].
  - unfold expected_poll. unfold mine. destruct (w_jobs w !! id) as [j|]; [destruct (decide _)|];
      (apply wp_lift || apply wp_raise); (split; [done|]; split; [done|]; split; [done|by left]).
  - split; [done|]. split; [done|]. split; [by destruct Ho as [|[]]|]. right. eauto.
Qed.

(** *** Submission with nothing in the way *)
Lemma wp_submit_ready id lock_wait ttl user_id text w :
  ready id w → w_queue_faults w = [] → w_jobs w !! id = None → text ≠ EmptyString →
  wp (submit_preview_job lock_wait ttl id user_id text None) (λ r w',
    r = Ok id ∧ ready id w' ∧ steps id w w' ∧
    w_jobs w' !! id = Some (new_job id user_id text None ttl (w_clock w (w_reads w))) ∧
    w_queue w' = w_queue w ++ [mkPayload id user_id text None None]) w.
Proof.
  intros Hready Hqf Hnone Htext. pose proof Hready as [Hr Hff Hp Hl _ Hd _]. unfold submit_preview_job. apply wp_bind.
  eapply wp_mono; [by apply (wp_acquire_free lock_wait id)|].
  intros r w1 (-> & Hs1 & Hl1 & Hp1 & Ho1 & Hrd1 & Hq1 & Hqf1 & Hu1). cbn [negb]. apply wp_finally, wp_bind.
  eapply wp_mono; [apply (wp_create id); apply Hs1|]. intros r w2 (Hs2 & (Hl2 & Hp2 & _ & Hq2 & Hqf2 & _ & _ & Hu2) & _ & Hcase).
  destruct Hcase as [[-> Ho2]|(Hn & _)]; [|exfalso; by apply Hn, Hs1].
  rewrite Hrd1, (steps_clock _ _ _ Hs1), Ho1, Hnone in *. unfold create_result, create_row in *.
  rewrite bool_decide_eq_true_2, andb_true_r in * by done. set (new := new_job id user_id text None ttl _) in *.
  assert (job_row_ok new = true) as Hok.
  { unfold job_row_ok, new, new_job. cbn. by rewrite bool_decide_eq_false_2 by done. }
  rewrite Hok in *. apply wp_bind, wp_try. unfold wp at 1, queue_enqueue. rewrite Hqf2, Hqf1, Hqf. cbn [head default fst snd].
  apply wp_emit_queue, wp_ret. set (w3 := log_to _ _).
  assert (steps id w w3) as Hs3. { destruct (steps_trans id _ _ _ Hs1 Hs2). by constructor. }
  eapply wp_mono; [apply (wp_release_or_invalidate id _ w3 []); [apply Hs3|by rewrite (steps_dialect _ _ _ Hs3)|unfold w3; cbn; congruence]|].
  intros r w4 (-> & Hs4 & Ho4 & Hq4 & _ & Hp4 & Hu4 & Hl4). assert (steps id w w4) as Hs by by eapply steps_trans.
  split; [done|]. assert (w_unlocks w3 = []) as Hu3 by (unfold w3; cbn; congruence). rewrite Hu3 in Hu4.
  split.
  { apply (ready_after id w); [done|done|rewrite Hp4; unfold w3; cbn; congruence| |done].
    destruct Hl4 as [|[|[Hin _]]]; [done|done|]. rewrite Hu3 in Hin. by apply not_elem_of_nil in Hin. }
  split; [done|]. split; [by rewrite Ho4|]. rewrite Hq4. unfold w3. cbn [log_to set_log w_queue]. by rewrite Hq2, Hq1.
Qed.

(** *** A task that completes *)
Lemma expected_task_completes max_retries power table parser retries now later j parsed p :
  pj_status j = queued → parser (pj_strategy_text j) = Ok parsed → create_preview power table parsed = Ok p →
  table_ok table →
  ∃ document, serialize_preview parsed p = Ok document ∧
  expected_task max_retries (create_preview power table) (Ok parser) retries now later (Some j) =
    (Ok (), Some (as_completed document later (with_progress generating_results 95 (claimed now j)))).
Proof.
  intros Hq Hparse Hp Ht. destruct (serialize_preview_total power table parsed p Ht Hp) as (fields & Hs & _).
  exists (JObj fields). split; [exact Hs|]. unfold expected_task, expected_run, claim_eligible.
  rewrite Hq, bool_decide_eq_true_2 by done. cbn [orb negb]. unfold executed, settled.
  change (pj_strategy_text (claimed now j)) with (pj_strategy_text j). by rewrite Hparse, Hp, Hs.
Qed.
End api.

(** ** The theorems *)

(** C34: Polling a job, whatever other sessions do to other rows: the owner is
    shown the row as it is, with its stored preview validated; a missing or
    foreign job is 404; a completed job whose document no longer validates is
    410, and nothing else is; and only a database failure can interfere. *)
Theorem get_preview_job_exact `{P : Pydantic} (id user_id : UUID) (w : World) :
  respects (holds id) w →
  wp (get_preview_job id user_id) (λ r w',
    w_jobs w' !! id = w_jobs w !! id ∧
    match r with
    | Ok response => ∃ j, w_jobs w !! id = Some j ∧ pj_user_id j = user_id ∧
        response = mkJobResponse (pj_id j) (pj_status j) (pj_stage j) (pj_progress j) (pj_created_at j) (pj_started_at j)
                     (pj_completed_at j) (pj_error_message j) (jr_preview_result response) ∧
        match jr_preview_result response with
        | Some preview => pj_status j = completed ∧
            ∃ document, pj_preview_result j = Some document ∧ validate_preview document = Ok preview
        | None => pj_status j = completed → pj_preview_result j = None
        end
    | Err e =>
        (e = job_not_found ∧ ∀ j, w_jobs w !! id = Some j → pj_user_id j ≠ user_id) ∨
        (e = result_expired ∧ ∃ j document, w_jobs w !! id = Some j ∧ pj_user_id j = user_id ∧ pj_status j = completed ∧
           pj_preview_result j = Some document ∧ validate_preview document = Err ValidationError) ∨
        (¬ fault_free w ∧ db_error e)
    end) w.
Proof.
  intros Hr. eapply wp_mono; [by apply wp_get_preview_job|]. intros r w' (_ & _ & Ho & Hcase). split; [exact Ho|].
  destruct Hcase as [->|(Hn & e & -> & He)]; [|right; by right].
  unfold expected_poll. destruct (w_jobs w !! id) as [j|] eqn:Hj; [|by left].
  destruct (decide (pj_user_id j = user_id)) as [Hu|Hu]; [|left; split; [done|]; by intros ? [= <-]].
  unfold job_response, stored_preview.
  destruct (pj_status j) eqn:Hs, (pj_preview_result j) as [document|] eqn:Hd; cbn [mbind result_bind];
    try (exists j; rewrite Hs; split_and!; try done; simpl; intros; congruence).
  pose proof (validates_preview document) as Hv. destruct (validate_preview document) as [preview|e] eqn:E; cbn [mbind result_bind].
  - exists j. rewrite Hs. split_and!; try done. simpl. split; [done|]. by exists document.
  - unfold validates, outcome in Hv. subst e. right; left. split; [done|]. by exists j, document.
Qed.

(** A completed job whose document is from another release. *)
Lemma get_preview_job_exact_witness :
  let j := as_completed (JObj []) 3 sample_job in
  let w := quiet_world {[ 7 := j ]} [] in
  let r := get_preview_job (P := exact_pydantic) 7 (pj_user_id sample_job) w in
  r.1 = Err result_expired ∧ w_jobs r.2 !! 7 = w_jobs w !! 7 ∧
  match r.1 with
  | Ok response => ∃ j, w_jobs w !! 7 = Some j ∧ pj_user_id j = pj_user_id sample_job ∧
      response = mkJobResponse (pj_id j) (pj_status j) (pj_stage j) (pj_progress j) (pj_created_at j) (pj_started_at j)
                   (pj_completed_at j) (pj_error_message j) (jr_preview_result response) ∧
      match jr_preview_result response with
      | Some preview => pj_status j = completed ∧
          ∃ document, pj_preview_result j = Some document ∧ validate_preview (P := exact_pydantic) document = Ok preview
      | None => pj_status j = completed → pj_preview_result j = None
      end
  | Err e =>
      (e = job_not_found ∧ ∀ j, w_jobs w !! 7 = Some j → pj_user_id j ≠ pj_user_id sample_job) ∨
      (e = result_expired ∧ ∃ j document, w_jobs w !! 7 = Some j ∧ pj_user_id j = pj_user_id sample_job ∧
         pj_status j = completed ∧ pj_preview_result j = Some document ∧
         validate_preview (P := exact_pydantic) document = Err ValidationError) ∨
      (¬ fault_free w ∧ db_error e)
  end.
Proof.
  split; [by vm_compute|].
  exact (get_preview_job_exact (P := exact_pydantic) 7 (pj_user_id sample_job) _ (quiet_respects _ _ _)).
Defined.

(** A preview request is accepted or refused as a whole, whatever fails:
    acceptance (202) means that the job is stored as queued for its user and
    handed to the queue exactly once; a refusal is 503, unless the database
    fails during the final rollback, and is never silent; every other row moves
    only along the lifecycle, and no lock is kept unless its release did not
    reach the connection that holds it. *)
Theorem preview_request_sound (lock_wait ttl : Z) (id user_id : UUID) (text : string) (w : World) :
  lock_honoured id lock_wait w → w_dialect w = "postgresql" → w_locks w = [] →
  wp (preview_strategy lock_wait ttl id user_id text) (λ r w',
    table_moves (w_jobs w) (w_jobs w') ∧ lock_given_back id w w' ∧
    match r with
    | Ok response => response = mkEnqueued id "queued" ∧
        w_queue w' = w_queue w ++ [mkPayload id user_id text None None] ∧
        ∃ now, w_jobs w' !! id = Some (new_job id user_id text None ttl now)
    | Err e => e = preview_unavailable ∨ db_error e
    end) w.
Proof.
  intros Hh Hd Hl. unfold preview_strategy. apply wp_try, wp_bind.
  eapply wp_mono; [by apply wp_submit|]. intros r w1 (Hm & Hr & Hk & Hsub). destruct r as [i|e].
  - apply wp_ret. destruct Hsub as (-> & Hq & Hrow). by split_and!.
  - apply wp_bind, (wp_db table_moves); [exact Hr|]. intros t w2 Ht ->. unfold wp. cbn [fst snd].
    assert (table_moves (w_jobs w) t) by by etransitivity.
    split; [by split_and!; [| |left]|]. split; intros e' He'; split_and!; try done; right; [done|by apply connection_lost_db].
Qed.

(** The queue is down. *)
Lemma preview_request_sound_witness :
  let w := mkWorld ∅ [] (λ n, Z.of_nat n) 0 [] [Some (OtherException "ConnectionError", false)] [] [] [] "postgresql" [] "preview" [] 0 in
  let r := preview_strategy 5 24 7 1 "buy SPY" w in
  r.1 = Err preview_unavailable ∧ (pj_status <$> w_jobs r.2 !! 7) = Some failed ∧
  (table_moves (w_jobs w) (w_jobs r.2) ∧ lock_given_back 7 w r.2 ∧
    match r.1 with
    | Ok response => response = mkEnqueued 7 "queued" ∧
        w_queue r.2 = w_queue w ++ [mkPayload 7 1 "buy SPY" None None] ∧
        ∃ now, w_jobs r.2 !! 7 = Some (new_job 7 1 "buy SPY" None 24 now)
    | Err e => e = preview_unavailable ∨ db_error e
    end).
Proof.
  set (w := mkWorld _ _ _ _ _ _ _ _ _ _ _ _ _ _). split; [by vm_compute|]. split; [by vm_compute|].
  apply (preview_request_sound 5 24 7 1 "buy SPY" w); [|done|done].
  split; [constructor|]. intros w1 Hw1. vm_compute in Hw1. injection Hw1 as <-. constructor.
Defined.

(** C4: From text to preview: when the services work and the strategy parses and
    can be previewed, submitting the text, the worker's execution of the job
    and the user's poll together answer with the completed job and exactly the
    preview of that strategy on the stored data, whatever happens to other
    jobs meanwhile. *)
Theorem preview_end_to_end `{L : PydanticLaws} lock_wait ttl max_retries power table (parser : string → result ParsedStrategyResult)
    (id user_id : UUID) (text : string) retries parsed p (w : World) :
  ready id w → uuid_ok id → w_queue_faults w = [] → w_jobs w !! id = None → text ≠ EmptyString →
  table_ok table → rows_dated table → parser text = Ok parsed → parsed_ok parsed →
  create_preview power table parsed = Ok p →
  wp (accepted <~ preview_strategy lock_wait ttl id user_id text;
      _ <~ process_preview_job lock_wait max_retries (create_preview power table) (Ok parser) retries
             (uuid_str (en_job_id accepted));
      get_preview_job (en_job_id accepted) user_id)
    (λ r w', ∃ created started finished,
       r = Ok (mkJobResponse id completed stage_completed 100 created (Some started) (Some finished) None
                 (Some (preview_response parsed p))) ∧
       w_queue w' = w_queue w ++ [mkPayload id user_id text None None]) w.
Proof.
  intros Hready Hid Hqf Hnone Htext Htable Hdated Hparse Hpok Hp. apply wp_bind. unfold preview_strategy. apply wp_try, wp_bind.
  eapply wp_mono; [by apply (wp_submit_ready id lock_wait ttl user_id text w)|].
  intros r w1 (-> & Hr1 & Hs1 & Hrow1 & Hq1). apply wp_ret. cbn [en_job_id]. apply wp_bind.
  eapply wp_mono; [by apply (wp_process_exact lock_wait max_retries (create_preview power table) id (Ok parser) retries w1)|].
  intros r w2 (Hr2 & Hs2 & Hq2 & Hex). set (j := new_job id user_id text None ttl (w_clock w (w_reads w))) in *. rewrite Hrow1 in Hex.
  destruct (expected_task_completes max_retries power table parser retries (w_clock w1 (w_reads w1))
    (w_clock w1 (S (w_reads w1))) j parsed p eq_refl Hparse Hp Htable) as (document & Hdoc & Hexp).
  rewrite Hexp in Hex. injection Hex as -> Hrow2.
  eapply wp_mono; [apply (wp_get_preview_job id user_id w2), Hr2|]. intros r w3 (_ & Hq3 & _ & Hcase).
  destruct Hcase as [->|(Hn & _)]; [|exfalso; by apply Hn, Hr2].
  unfold expected_poll. rewrite Hrow2. rewrite decide_True by done. unfold job_response, stored_preview.
  cbn [as_completed pj_status pj_preview_result].
  rewrite (validate_serialized parsed p document Hpok (preview_dated power table parsed p Htable Hdated Hp) Hdoc).
  cbn [mbind result_bind]. eexists _, _, _. split; [reflexivity|congruence].
Qed.

Lemma preview_end_to_end_witness :
  let w := quiet_world ∅ [] in
  let parser (_ : string) := Ok sample_parsed in
  ∃ p, create_preview (λ x _, Ok x) sample_table sample_parsed = Ok p ∧
  wp (accepted <~ preview_strategy 5 24 7 1 "buy SPY above its average";
      _ <~ process_preview_job 5 2 (create_preview (λ x _, Ok x) sample_table) (Ok parser) (Some 2)
             (uuid_str (en_job_id accepted));
      get_preview_job (P := exact_pydantic) (en_job_id accepted) 1)
    (λ r w', ∃ created started finished,
       r = Ok (mkJobResponse 7 completed stage_completed 100 created (Some started) (Some finished) None
                 (Some (preview_response sample_parsed p))) ∧
       w_queue w' = w_queue w ++ [mkPayload 7 1 "buy SPY above its average" None None]) w.
Proof.
  destruct (create_preview (λ x _, Ok x) sample_table sample_parsed) as [p|e] eqn:E; [|vm_compute in E; discriminate E].
  exists p. split; [reflexivity|].
  apply (preview_end_to_end (L := exact_pydantic_laws) 5 24 2 (λ x _, Ok x) sample_table (λ _, Ok sample_parsed) 7 1
    "buy SPY above its average" (Some 2) sample_parsed p (quiet_world ∅ []));
    [by constructor; try constructor|by split|reflexivity|reflexivity|done|exact sample_table_ok|exact sample_rows_dated
    |reflexivity|exact sample_parsed_ok|exact E].
Defined.
