(* ===== verification/Recovery.v ===== *)
(** * Recovery after a crash
    ([backend/app/services/preview_reconciliation.py] with the tasks it
    enqueues)

    What a whole pass computes when the worker starts alone, as a function of
    the table and the jobs the queue had active, down to its log - each scan also
    sees what the pass itself has handed over - and what becomes of the jobs
    that a crash left behind once RQ has run their tasks. *)

From S2P Require Import Prelude Models MarketData Samples StrategySpec Preview Uuid Effects JobStore JobRules PreviewQueue PreviewJobService Reconciliation Worker.
From Stdlib Require Import ZArith Lia.
From stdpp Require Import base list option strings gmap relations.
Local Open Scope Z_scope.
Local Open Scope io_scope.

(** ** The reference pass *)
Section reference.
Context (max_retries stale_after_seconds : Z) (current_time : datetime) (ids : gset Z) (clock : nat → datetime).

(** What the pass has done so far. *)
Record Recovered : Type := mkRecovered {
  rc_summary : ReconciliationSummary;
  rc_jobs : JobTable;
  rc_queue : list QueuePayload;
  rc_reads : nat;
  rc_log : list JobLog }.

(** What the log says of one candidate. *)
Definition narrative (j : PreviewJob) : list JobLog :=
  let action := action_record max_retries j in
  let transition := transition_record j "preview_job_operational_transition" (JStr "running_or_queued") in
  if bool_decide (pj_id j ∈ ids) then [action "active"%string (pj_status j) (pj_status j)]
  else if exhausted max_retries j || expired current_time j then
    [transition "failed"%string; action "failed_exhausted"%string (pj_status j) failed]
  else if bool_decide (pj_status j = running) then
    if stale stale_after_seconds current_time j
    then [transition "queued"%string; action "re_enqueued"%string (pj_status j) queued]
    else [action "awaiting_active_state"%string (pj_status j) (pj_status j)]
  else [action "re_enqueued"%string (pj_status j) queued].

(** One candidate: its row, its payload and its count are decided by the job
    alone; only a failure reads the clock. *)
Definition recover_one (st : Recovered) (j : PreviewJob) : Recovered :=
  let '(j', new, count) := recovery max_retries stale_after_seconds current_time ids (clock (rc_reads st)) j in
  mkRecovered (count (rc_summary st)) (<[pj_id j := j']> (rc_jobs st)) (rc_queue st ++ new)
    (if bool_decide (pj_status j' = failed) then S (rc_reads st) else rc_reads st) (rc_log st ++ narrative j).
End reference.

(** ** The pass, with nobody in its way *)
Section idle.
Context (clock : nat → datetime) (elapsed : N).

(** No other session, no failure, no lock taken. *)
Definition idle (t : JobTable) (n : nat) (q : list QueuePayload) (act : list (list QueuePayload → result (gset Z)))
    (locks : list (Z * Z)) (log : list JobLog) : World :=
  mkWorld t [] clock n q [] act [] locks "postgresql" log "preview" [] elapsed.

Lemma idle_db {A} (f : JobTable → result A * JobTable) t n q act locks log :
  db f (idle t n q act locks log) = ((f t).1, idle (f t).2 n q act locks log).
Proof. unfold db, idle. cbn. by destruct (f t). Qed.

Lemma bind_ok {A B} (m : IO A) (f : A → IO B) w a w1 : m w = (Ok a, w1) → io_bind m f w = f a w1.
Proof. unfold io_bind. by intros ->. Qed.

Lemma idle_refresh id j t n q act locks log :
  t !! id = Some j → refresh_job id (idle t n q act locks log) = (Ok j, idle t n q act locks log).
Proof. intros Hj. unfold refresh_job. rewrite idle_db. cbn. by rewrite Hj. Qed.

Lemma idle_transition id j will_retry error t n q act locks log :
  t !! id = Some j → nonterminal j = true →
  transition_job_after_operational_failure id will_retry error (idle t n q act locks log) =
    let log' := log ++ [transition_record j "preview_job_operational_transition" (JStr "running_or_queued")
                          (if will_retry then "queued" else "failed")] in
    (Ok true, if will_retry then idle (<[id := requeued j]> t) n q act locks log'
              else idle (<[id := as_failed error (clock n) j]> t) (S n) q act locks log').
Proof.
  intros Hj Hn. unfold transition_job_after_operational_failure.
  assert (∀ f n, pj_id (f j) = pj_id j → pj_attempt_count (f j) = pj_attempt_count j →
    io_bind (db (update_where id nonterminal f)) (report_transition id will_retry) (idle t n q act locks log) =
    (Ok true, idle (<[id := f j]> t) n q act locks (log ++ [transition_record j "preview_job_operational_transition"
       (JStr "running_or_queued") (if will_retry then "queued" else "failed")]))) as H.
  { intros f n' Hid Hat. unfold io_bind at 1. rewrite idle_db. unfold update_where. rewrite Hj, Hn. cbn [fst snd].
    unfold report_transition. change (1 =? 1) with true. cbv zeta iota. erewrite bind_ok; [|exact (idle_db (read_job id) _ _ _ _ _ _)].
    unfold read_job. cbn [fst snd]. rewrite lookup_insert_eq. cbn [log_loaded]. unfold log_transition, transition_record.
    by rewrite Hid, Hat. }
  cbv zeta. destruct will_retry; [by apply (H requeued n)|by apply (H (as_failed error (clock n)) (S n))].
Qed.

Lemma idle_enqueue pl t n q act locks log :
  queue_enqueue pl (idle t n q act locks log) = (Ok (), idle t n (q ++ [pl]) act locks log).
Proof. done. Qed.

Lemma idle_emit r t n q act locks log :
  emit r (idle t n q act locks log) = (Ok (), idle t n q act locks (log ++ [r])).
Proof. done. Qed.

Lemma idle_unlock id (open : bool) j t n q act log :
  t !! id = Some j →
  release_reconciled id open (idle t n q act [advisory_lock_keys id] log) = (Ok (), idle t n q act [] log).
Proof.
  intros Hj. unfold release_reconciled, io_try.
  erewrite bind_ok; [|exact (idle_db (λ t, (Ok (), t)) t n q act _ _)].
  erewrite (bind_ok _ _ _ ()); [|destruct open; [erewrite bind_ok; [|by apply idle_refresh]; reflexivity|reflexivity]].
  unfold release_preview_job_lock. erewrite bind_ok; [|reflexivity]. cbn [idle w_dialect]. cbn [String.eqb negb Ascii.eqb Bool.eqb].
  unfold pg_advisory_unlock. erewrite bind_ok; [|exact (idle_db (λ t, (Ok (), t)) t n q act _ _)].
  unfold unlock. cbn [fst snd idle w_locks w_polls w_unlocks reaches head default tail]. by rewrite remove_first_head.
Qed.
End idle.

(** *** One candidate *)
Section pass.
Context (clock : nat → datetime) (elapsed : N) (max_retries stale_after_seconds : Z) (current_time : datetime) (ids : gset Z).

Abbreviation idle := (idle clock elapsed).
Abbreviation recovery := (recovery max_retries stale_after_seconds current_time ids).
Abbreviation narrative := (narrative max_retries stale_after_seconds current_time ids).
Abbreviation recover_one := (recover_one max_retries stale_after_seconds current_time ids clock).

Lemma recovery_keeps_id later j : pj_id (recovery later j).1.1 = pj_id j.
Proof. unfold Reconciliation.recovery. repeat case_match; done. Qed.

Lemma recover_one_jobs st j : ∃ j', pj_id j' = pj_id j ∧ rc_jobs (recover_one st j) = <[pj_id j := j']> (rc_jobs st).
Proof.
  unfold Recovery.recover_one. pose proof (recovery_keeps_id (clock (rc_reads st)) j) as H.
  destruct (recovery _ j) as [[j' new] count]. by exists j'.
Qed.

(** A candidate only hands itself over. *)
Lemma recover_one_queue st j :
  ∃ new, rc_queue (recover_one st j) = rc_queue st ++ new ∧ ∀ pl, pl ∈ new → qp_job_id pl = pj_id j.
Proof.
  unfold Recovery.recover_one, Reconciliation.recovery. repeat case_match; simplify_eq/=; eexists; (split; [done|]);
    intros pl; rewrite ?list_elem_of_singleton; (intros ->; done) || by intros ?%not_elem_of_nil.
Qed.

(** The lock is not even tried. *)
Definition fresh (j : PreviewJob) : bool :=
  bool_decide (pj_status j = running) && negb (stale stale_after_seconds current_time j) &&
  negb (exhausted max_retries j) && negb (expired current_time j).

(** The locked part, on a nonterminal row. *)
Lemma idle_locked s ids0 j t n q answer seen act locks log :
  t !! pj_id j = Some j → nonterminal j = true → pj_id j ∉ ids → fresh j = false →
  answer q = Ok seen → pj_id j ∉ seen →
  let st := recover_one (mkRecovered s t q n log) j in
  ∃ ids' open, reconcile_locked max_retries stale_after_seconds current_time (pj_id j) s ids0 (idle t n q (answer :: act) locks log) =
      (Ok (rc_summary st, ids', open), idle (rc_jobs st) (rc_reads st) (rc_queue st) act locks (rc_log st)) ∧
    ∀ id, id ≠ pj_id j → id ∈ ids' ↔ id ∈ seen.
Proof.
  intros Hj Hn Hid Hfr Hans Hseen. cbv zeta. unfold reconcile_locked, Recovery.recover_one, Reconciliation.recovery, Recovery.narrative.
  cbn [rc_reads rc_jobs rc_queue rc_summary rc_log].
  erewrite bind_ok; [|by apply idle_refresh]. rewrite Hn. cbn [negb].
  erewrite (bind_ok queue_active_ids _ _ seen (idle t n q act locks log)); [|unfold queue_active_ids; cbn; by rewrite Hans].
  rewrite (bool_decide_eq_false_2 (_ ∈ seen)), !(bool_decide_eq_false_2 (_ ∈ ids)) by done.
  assert (∀ b, b = true → bool_decide (pj_status j = failed) = negb b) as Hf.
  { intros b ->. apply bool_decide_eq_false_2. intros Hs. unfold nonterminal in Hn. by rewrite Hs in Hn. }
  destruct (exhausted max_retries j || expired current_time j) eqn:Hend.
  { erewrite bind_ok; [|by apply (idle_transition clock elapsed _ j)]. erewrite bind_ok; [|apply idle_emit]. cbn.
    rewrite app_nil_r, <- app_assoc. by do 2 eexists. }
  unfold fresh in Hfr. apply orb_false_iff in Hend as [Hex Hxp]. rewrite Hex, Hxp, !andb_true_r in Hfr.
  destruct (bool_decide (pj_status j = running)); cbn [andb].
  - destruct (stale _ _ j); cbn [negb].
    + erewrite (bind_ok _ _ _ (requeued j)).
      2:{ erewrite bind_ok; [|by apply (idle_transition clock elapsed _ j)]. apply idle_refresh. by rewrite lookup_insert_eq. }
      erewrite bind_ok; [|apply idle_enqueue]. erewrite bind_ok; [|apply idle_emit]. cbn. rewrite <- app_assoc.
      do 2 eexists. split; [done|]. set_solver.
    + done.
  - erewrite bind_ok; [|reflexivity]. erewrite bind_ok; [|apply idle_enqueue]. erewrite bind_ok; [|apply idle_emit]. rewrite (Hf true eq_refl). cbn.
    rewrite insert_id by done. do 2 eexists. split; [done|]. set_solver.
Qed.

(** A job whose lock is not even tried is counted as the reference counts it. *)
Lemma recover_one_same s j t n q log count :
  t !! pj_id j = Some j → nonterminal j = true → recovery (clock n) j = (j, [], count) →
  recover_one (mkRecovered s t q n log) j = mkRecovered (count s) t q n (log ++ narrative j).
Proof.
  intros Hj Hn Hr. unfold Recovery.recover_one. cbn [rc_reads rc_jobs rc_queue rc_summary rc_log]. rewrite Hr, insert_id, app_nil_r by done.
  rewrite bool_decide_eq_false_2; [done|]. intros Hs. unfold nonterminal in Hn. by rewrite Hs in Hn.
Qed.

(** A scan of a queue that held [q]: it sees the jobs [ids], and of those handed
    over since, [new], the ones that no worker has finished meanwhile. *)
Definition sees (q : list QueuePayload) (answer : list QueuePayload → result (gset Z)) : Prop :=
  ∀ new, ∃ seen, answer (q ++ new) = Ok seen ∧ ids ⊆ seen ∧ ∀ id, id ∈ seen → id ∈ ids ∨ id ∈ qp_job_id <$> new.

(** The answers left for the scans of the queue. *)
Definition scans (q : list QueuePayload) (k : nat) (act : list (list QueuePayload → result (gset Z))) : Prop :=
  Forall (sees q) act ∧ (k <= length act)%nat.

(** A job that was not handed over is active if it was. *)
Lemma sees_agrees q new answer :
  sees q answer → ∃ seen, answer (q ++ new) = Ok seen ∧ ∀ id, id ∉ qp_job_id <$> new → id ∈ seen ↔ id ∈ ids.
Proof. intros H. destruct (H new) as (seen & Ha & Hsub & Hin). exists seen. split; [done|]. set_solver. Qed.

Lemma idle_candidate p j t n q new act log k :
  t !! pj_id j = Some j → nonterminal j = true → (pj_id j ∈ pass_active p ↔ pj_id j ∈ ids) →
  pj_id j ∉ qp_job_id <$> new → scans q (S k) act →
  let st := recover_one (mkRecovered (pass_summary p) t (q ++ new) n log) j in
  ∃ ids' exp act', scans q k act' ∧
    reconcile_candidate max_retries stale_after_seconds current_time p j (idle t n (q ++ new) act [] log) =
      (Ok (mkPass (rc_summary st) ids' exp), idle (rc_jobs st) (rc_reads st) (rc_queue st) act' [] (rc_log st)) ∧
    ∀ id, id ≠ pj_id j → id ∉ qp_job_id <$> new → (id ∈ pass_active p ↔ id ∈ ids) → id ∈ ids' ↔ id ∈ ids.
Proof.
  intros Hj Hn Hact Hnew [Hsc Hlen]. cbv zeta. assert (scans q k act) as Hk by (split; [done|lia]).
  unfold reconcile_candidate. erewrite (bind_ok _ _ _ j); [|destruct (pass_expired p); [by apply idle_refresh|reflexivity]].
  rewrite (bool_decide_ext _ _ Hact). case_bool_decide as Hid.
  { rewrite (recover_one_same _ _ _ _ _ _ add_active); [|done|done|].
    { unfold Recovery.narrative. rewrite bool_decide_eq_true_2 by done. by do 3 eexists. }
    unfold Reconciliation.recovery. by rewrite Hn, bool_decide_eq_true_2. }
  fold (fresh j). destruct (fresh j) eqn:Hfresh.
  { unfold fresh in Hfresh. apply andb_true_iff in Hfresh as [[[Hrun Hst]%andb_true_iff Hex]%andb_true_iff Hxp].
    apply negb_true_iff in Hst, Hex, Hxp.
    rewrite (recover_one_same _ _ _ _ _ _ add_not_stale); [|done|done|].
    { unfold Recovery.narrative. rewrite bool_decide_eq_false_2, Hex, Hxp, Hrun, Hst by done. by do 3 eexists. }
    unfold Reconciliation.recovery. by rewrite Hn, bool_decide_eq_false_2, Hex, Hxp, Hrun, Hst. }
  destruct act as [|answer act]; [simpl in Hlen; lia|]. apply Forall_cons_iff in Hsc as [Hans Hsc].
  destruct (sees_agrees q new answer Hans) as (seen & Hseen & Hagree).
  erewrite (bind_ok _ _ _ (true, None)); [|unfold try_acquire_preview_job_lock, io_bind, pg_try_advisory_lock; reflexivity].
  cbn [negb].
  destruct (idle_locked (pass_summary p) (pass_active p) j t n (q ++ new) answer seen act [advisory_lock_keys (pj_id j)] log
    Hj Hn Hid Hfresh Hseen) as (ids' & open & Hl & Hids); [by rewrite Hagree|].
  destruct (recover_one_jobs (mkRecovered (pass_summary p) t (q ++ new) n log) j) as (j' & _ & Hjobs).
  set (st := recover_one _ j) in *. unfold io_attempt.
  unfold io_bind at 1. change (set_locks _ _ _) with (idle t n (q ++ new) (answer :: act) [advisory_lock_keys (pj_id j)] log).
  rewrite Hl. cbn [fst snd].
  erewrite bind_ok; [|apply (idle_unlock clock elapsed _ open j'); rewrite Hjobs; apply lookup_insert_eq].
  exists ids', (pass_expired p || open), act. split; [split; [done|simpl in Hlen; lia]|]. split; [done|].
  intros id Hne Hni _. rewrite Hids by done. by apply Hagree.
Qed.

(** Every candidate is as it was listed, once. *)
Definition listed (t : JobTable) (candidates : list PreviewJob) : Prop :=
  NoDup (pj_id <$> candidates) ∧ Forall (λ j, t !! pj_id j = Some j ∧ nonterminal j = true) candidates.

Lemma listed_tail st j candidates :
  listed (rc_jobs st) (j :: candidates) → listed (rc_jobs (recover_one st j)) candidates.
Proof.
  intros [Hd Hf]. apply NoDup_cons in Hd as [Hnot Hd]. apply Forall_cons_iff in Hf as [_ Hf]. split; [done|].
  destruct (recover_one_jobs st j) as (j' & _ & ->). apply Forall_forall. intros c Hc. rewrite Forall_forall in Hf.
  rewrite lookup_insert_ne; [by apply Hf|]. intros Hid. apply Hnot. rewrite Hid. by apply list_elem_of_fmap_2.
Qed.

Lemma idle_loop candidates p t n q new act log :
  listed t candidates →
  Forall (λ j, (pj_id j ∈ pass_active p ↔ pj_id j ∈ ids) ∧ pj_id j ∉ qp_job_id <$> new) candidates →
  scans q (length candidates) act →
  let st := foldl recover_one (mkRecovered (pass_summary p) t (q ++ new) n log) candidates in
  ∃ ids' exp act',
    reconcile_loop max_retries stale_after_seconds current_time p candidates (idle t n (q ++ new) act [] log) =
      (Ok (mkPass (rc_summary st) ids' exp), idle (rc_jobs st) (rc_reads st) (rc_queue st) act' [] (rc_log st)).
Proof.
  revert p t n new act log. induction candidates as [|j candidates IH]; intros p t n new act log Hl Hag Hsc; cbv zeta; cbn [reconcile_loop foldl].
  { destruct p. by do 3 eexists. }
  pose proof Hl as [Hd Hf]. apply Forall_cons_iff in Hf as [[Hj Hn] _]. apply Forall_cons_iff in Hag as [[Ha Hni] Hag].
  destruct (idle_candidate p j t n q new act log (length candidates) Hj Hn Ha Hni Hsc) as (ids1 & exp1 & act1 & Hsc1 & Hrun & Hids1).
  pose proof (listed_tail (mkRecovered (pass_summary p) t (q ++ new) n log) j candidates Hl) as Hl1.
  destruct (recover_one_queue (mkRecovered (pass_summary p) t (q ++ new) n log) j) as (new1 & Hq1 & Hown).
  set (st1 := recover_one _ j) in *. erewrite bind_ok; [|exact Hrun]. cbn [rc_queue] in Hq1. rewrite <- app_assoc in Hq1.
  destruct st1 as [s1 t1 q1 n1 log1] eqn:Hst1. cbn [rc_queue rc_jobs rc_reads rc_summary rc_log] in *. subst q1.
  destruct (IH (mkPass s1 ids1 exp1) t1 n1 (new ++ new1) act1 log1 Hl1) as (ids' & exp & act' & H); [|done|by do 3 eexists].
  apply NoDup_cons in Hd as [Hnot _]. apply Forall_forall. intros c Hc. rewrite Forall_forall in Hag. destruct (Hag c Hc) as [Hc1 Hc2].
  assert (pj_id c ≠ pj_id j) as Hne.
  { intros Hid. apply Hnot. rewrite <- Hid. by apply list_elem_of_fmap_2. }
  split; [by apply Hids1|]. rewrite fmap_app, elem_of_app. intros [?|(pl & Hpl & Hin)%list_elem_of_fmap]; [done|].
  apply Hne. by rewrite Hpl, (Hown pl Hin).
Qed.

(** *** What the reference leaves *)

(** Neither the payload nor the count depends on the clock. *)
Lemma recovery_later later later' j :
  (recovery later j).1.2 = (recovery later' j).1.2 ∧ (recovery later j).2 = (recovery later' j).2.
Proof. unfold Reconciliation.recovery. repeat case_match; done. Qed.

Lemma recover_one_eq st j :
  let '(j', new, count) := recovery (clock (rc_reads st)) j in
  rc_summary (recover_one st j) = count (rc_summary st) ∧ rc_jobs (recover_one st j) = <[pj_id j := j']> (rc_jobs st) ∧
  rc_queue (recover_one st j) = rc_queue st ++ new ∧ rc_log (recover_one st j) = rc_log st ++ narrative j.
Proof. unfold Recovery.recover_one. by destruct (recovery _ j) as [[j' new] count]. Qed.

Lemma recover_all later candidates st :
  NoDup (pj_id <$> candidates) →
  let st' := foldl recover_one st candidates in
  rc_summary st' = foldl (λ s j, (recovery later j).2 s) (rc_summary st) candidates ∧
  rc_queue st' = rc_queue st ++ (candidates ≫= λ j, (recovery later j).1.2) ∧
  rc_log st' = rc_log st ++ (candidates ≫= narrative) ∧
  (∀ j, j ∈ candidates → ∃ later, rc_jobs st' !! pj_id j = Some (recovery later j).1.1) ∧
  (∀ id, id ∉ pj_id <$> candidates → rc_jobs st' !! id = rc_jobs st !! id).
Proof.
  revert st. induction candidates as [|j candidates IH]; intros st Hd; cbv zeta; cbn [foldl].
  { cbn. rewrite !app_nil_r. split_and!; [done..|set_solver|done]. }
  rewrite fmap_cons in *. apply NoDup_cons in Hd as [Hnot Hd]. destruct (IH (recover_one st j) Hd) as (Hs & Hq & Hlog & Hrows & Hother).
  pose proof (recover_one_eq st j) as H1. destruct (recovery_later (clock (rc_reads st)) later j) as [Hnew Hcount].
  destruct (recovery (clock (rc_reads st)) j) as [[j' new] count] eqn:Hr. destruct H1 as (Hs1 & Hj1 & Hq1 & Hlog1). cbn [fst snd] in Hnew, Hcount.
  split_and!.
  - by rewrite Hs, Hs1, Hcount.
  - rewrite Hq, Hq1, Hnew. cbn. by rewrite <- app_assoc.
  - rewrite Hlog, Hlog1. cbn. by rewrite <- app_assoc.
  - intros c [->|Hc]%elem_of_cons; [|by apply Hrows]. exists (clock (rc_reads st)).
    rewrite Hother, Hj1, lookup_insert_eq, Hr by done. done.
  - intros id Hid. apply not_elem_of_cons in Hid as [Hne Hid]. rewrite Hother, Hj1 by done. by apply lookup_insert_ne.
Qed.

Lemma candidates_listed limit t : table_wf t → listed t (reconciliation_candidates limit t).
Proof.
  intros Hwf. split; [by apply candidates_nodup|]. apply Forall_forall. intros j Hj.
  apply candidates_elem in Hj as [Hn [id Hj]]. destruct (Hwf id j Hj) as [_ <-]. done.
Qed.
End pass.

(** *** The whole pass *)
Section whole.
Context (max_retries stale_after_seconds : Z) (batch_size : nat) (now : option datetime) (ids : gset Z) (clock : nat → datetime)
  (elapsed : N).

(** A pass at [current_time] over the table [t], with [q] in the queue, gives
    every candidate its verdict and does nothing else; its last record tells how
    long it took. *)
Definition exact_pass (current_time : datetime) (t : JobTable) (q : list QueuePayload) (log : list JobLog)
    (end_ : result ReconciliationSummary * World) : Prop :=
  let candidates := reconciliation_candidates batch_size t in
  let verdict := recovery max_retries stale_after_seconds current_time ids in
  ∃ t' n act,
    end_ = (Ok (foldl (λ s j, (verdict current_time j).2 s) (mkSummary (Z.of_nat (length candidates)) 0 0 0 0 0 0) candidates),
            idle clock elapsed t' n (q ++ (candidates ≫= λ j, (verdict current_time j).1.2)) act []
              (log ++ (candidates ≫= narrative max_retries stale_after_seconds current_time ids) ++ [completed_record elapsed])) ∧
    (∀ j, j ∈ candidates → ∃ later, t' !! pj_id j = Some (verdict later j).1.1) ∧
    (∀ id, id ∉ pj_id <$> candidates → t' !! id = t !! id).

Lemma pass_runs t n q act log :
  table_wf t → scans ids q (S (length (reconciliation_candidates batch_size t))) act →
  exact_pass (default (clock n) now) t q log
    (reconcile_preview_jobs max_retries stale_after_seconds batch_size now (idle clock elapsed t n q act [] log)).
Proof.
  intros Hwf [Hact Hlen]. destruct act as [|answer act]; [simpl in Hlen; lia|]. apply Forall_cons_iff in Hact as [Hans Hact].
  destruct (sees_agrees ids q [] answer Hans) as (seen & Hseen & Hagree). rewrite app_nil_r in Hseen.
  set (candidates := reconciliation_candidates batch_size t) in *. set (current_time := default (clock n) now).
  pose proof (candidates_listed batch_size t Hwf : listed t candidates) as Hl.
  set (n1 := match now with Some _ => n | None => S n end).
  unfold reconcile_preview_jobs.
  erewrite (bind_ok _ _ _ current_time (idle clock elapsed t n1 q (answer :: act) [] log)); [|by destruct now].
  erewrite (bind_ok queue_active_ids _ _ seen (idle clock elapsed t n1 q act [] log)); [|unfold queue_active_ids; cbn; by rewrite Hseen].
  erewrite bind_ok; [|exact (idle_db clock elapsed (λ t, (Ok (reconciliation_candidates batch_size t), t)) t n1 q act [] log)].
  cbn [fst snd]. fold candidates.
  set (s0 := mkSummary _ 0 0 0 0 0 0).
  destruct (idle_loop clock elapsed max_retries stale_after_seconds current_time ids candidates (mkPass s0 seen false) t n1 q [] act log Hl)
    as (ids' & exp & act' & Hrun); [|split; [done|simpl in Hlen; lia]|].
  { apply Forall_forall. intros c _. split; [apply Hagree|]; apply not_elem_of_nil. }
  rewrite app_nil_r in Hrun. cbn [pass_summary] in Hrun.
  destruct (recover_all clock max_retries stale_after_seconds current_time ids current_time candidates
    (mkRecovered s0 t q n1 log) (proj1 Hl)) as (Hs & Hq & Hlog & Hrows & Hother).
  cbn [rc_log] in Hlog.
  set (st := foldl _ _ candidates) in *. unfold exact_pass. cbv zeta. fold candidates.
  exists (rc_jobs st), (rc_reads st), act'. split; [|done].
  erewrite bind_ok; [|exact Hrun]. erewrite bind_ok; [|reflexivity]. unfold io_ret. cbn [pass_summary].
  by rewrite (app_assoc log), <- Hlog, Hs, Hq.
Qed.
End whole.

(** ** After a crash *)

(** RQ runs a job with the retries of its [Retry], if it has one. *)
Definition run_enqueued `{TaskQueue} lock_wait max_retries preview_factory (call : EnqueueCall) (id : UUID) (rq_job_id : string)
    (parsers : option Z → result (string → result ParsedStrategyResult)) : IO unit :=
  rq_execute (preview_task lock_wait max_retries preview_factory id parsers) (preview_callback max_retries id rq_job_id)
    (retry_max <$> ec_retry call).

(** The retries of a payload are the attempts it has left but one. *)
Lemma wp_run_enqueued `{TaskQueueLaws} lock_wait max_retries preview_factory queue pl n id rq_job_id parsers w j :
  qp_retry_count pl = Some n → ready id w → uuid_ok id → w_jobs w !! id = Some j → pj_status j = queued →
  wp (run_enqueued lock_wait max_retries preview_factory (enqueue queue pl) id rq_job_id parsers)
    (λ _, settles_within id (Z.max 0 n + 1) j) w.
Proof.
  intros Hn Hready Hid Hj Hq. unfold run_enqueued, enqueue. rewrite Hn. cbn [ec_retry].
  assert (default 0 (retry_max <$> (if 0 <? n then Some (mkRetry n (last_items n (q_retry_intervals queue))) else None)) = Z.max 0 n) as Hd.
  { destruct (Z.ltb_spec 0 n); simpl; lia. }
  eapply wp_mono; [by apply (executions_settle _ _ _ _ _ _ _ w j)|]. intros r w'. by rewrite Hd, Z.max_r by lia.
Qed.

(** A candidate that nothing is processing: queued, or running for too long, or
    out of time or attempts. *)
Definition abandoned (max_retries stale_after_seconds : Z) (current_time : datetime) (ids : gset Z) (j : PreviewJob) : Prop :=
  pj_id j ∉ ids ∧
  (pj_status j = queued ∨ stale stale_after_seconds current_time j = true ∨
   exhausted max_retries j = true ∨ expired current_time j = true).

(** The verdict on one. *)
Lemma abandoned_verdict max_retries stale_after_seconds current_time ids later j :
  nonterminal j = true → abandoned max_retries stale_after_seconds current_time ids j →
  let '(j', new, _) := recovery max_retries stale_after_seconds current_time ids later j in
  (j' = as_failed RECOVERY_FAILURE_MESSAGE later j ∧ new = []) ∨
  (pj_attempt_count j <= max_retries ∧ new = [recovery_payload max_retries j] ∧
   pj_status j' = queued ∧ identity j' = identity j ∧ pj_attempt_count j' = pj_attempt_count j).
Proof.
  intros Hn [Hid Hcase]. unfold recovery. rewrite Hn, bool_decide_eq_false_2 by done. cbn [negb].
  destruct (exhausted max_retries j || expired current_time j) eqn:Hend; [by left|].
  apply orb_false_iff in Hend as [Hex Hxp]. rewrite Hex, Hxp in Hcase.
  unfold exhausted, max_attempts in Hex. apply Z.leb_gt in Hex. case_bool_decide as Hrun.
  - destruct Hcase as [Hq|[Hst|[?|?]]]; [congruence| |done..]. rewrite Hst. right. split_and!; try done; lia.
  - right. split_and!; try done; [lia|]. unfold nonterminal in Hn. apply orb_true_iff in Hn as [Hn|Hn]; by apply bool_decide_eq_true in Hn.
Qed.

Lemma recovery_payload_in max_retries stale_after_seconds current_time ids later later' candidates q j :
  j ∈ candidates → (recovery max_retries stale_after_seconds current_time ids later' j).1.2 = [recovery_payload max_retries j] →
  recovery_payload max_retries j ∈ q ++ (candidates ≫= λ j, (recovery max_retries stale_after_seconds current_time ids later j).1.2).
Proof.
  intros Hj Hnew. apply elem_of_app. right. apply list_elem_of_bind. exists j. split; [|exact Hj].
  rewrite (proj1 (recovery_later _ _ _ _ later later' j)), Hnew. by left.
Qed.

(** ** The theorems *)

(** C8: A pass that nobody disturbs is a function of the table.  No other
    session, no failure, no lock taken; every scan of the queue sees the jobs
    that were active when the pass began and, of those the pass itself has
    handed over since, the ones that are not finished.  Then over the oldest
    queued and running jobs, in that order, each candidate gets exactly the
    verdict its own row and the jobs that were active prescribe - counted,
    failed with the recovery message, returned to the queue or left alone -
    the queue receives exactly the payloads of the recovered ones in that
    order, the summary counts each verdict once, no other row changes, no lock
    is left, and the log tells exactly what was done to each candidate, in
    order, and then that the pass is over and how long it took. *)
Theorem reconcile_pass_exact (max_retries stale_after_seconds : Z) (batch_size : nat) (now : option datetime)
    (ids : gset Z) (clock : nat → datetime) (elapsed : N) (t : JobTable) (n : nat) (q : list QueuePayload)
    (act : list (list QueuePayload → result (gset Z))) (log : list JobLog) :
  table_wf t → scans ids q (S (length (reconciliation_candidates batch_size t))) act →
  exact_pass max_retries stale_after_seconds batch_size ids clock elapsed (default (clock n) now) t q log
    (reconcile_preview_jobs max_retries stale_after_seconds batch_size now (idle clock elapsed t n q act [] log)).
Proof. apply pass_runs. Qed.

(** C7: Nothing is lost in a crash: when the worker starts, a pass that nobody
    disturbs (as for the whole pass) takes every job of its batch that nothing is
    processing - still queued, running for too long, or out of time or
    attempts - and either fails it with the recovery message, or puts it in the
    queue with a task that settles it when its turn comes, if no database call
    fails, its lock is free, the other sessions leave its row alone and the
    connection pool has no other user then ([ready]): whatever the parser does
    each time and whatever happens to other jobs, RQ's executions end with the
    same job completed or failed, with never more attempts than the retries
    allow, those made before the crash included. *)
Theorem crash_recovery_settles `{TaskQueueLaws} lock_wait preview_factory queue (max_retries stale_after_seconds : Z) (batch_size : nat)
    (now : option datetime) (ids : gset Z) (clock : nat → datetime) (elapsed : N) (t : JobTable) (n : nat) (q : list QueuePayload)
    (act : list (list QueuePayload → result (gset Z))) (log : list JobLog) (j : PreviewJob) :
  table_wf t → scans ids q (S (length (reconciliation_candidates batch_size t))) act →
  j ∈ reconciliation_candidates batch_size t → uuid_ok (pj_id j) →
  abandoned max_retries stale_after_seconds (default (clock n) now) ids j →
  let w1 := (reconcile_preview_jobs max_retries stale_after_seconds batch_size now (idle clock elapsed t n q act [] log)).2 in
  ∃ j1, w_jobs w1 !! pj_id j = Some j1 ∧
    ((∃ later, j1 = as_failed RECOVERY_FAILURE_MESSAGE later j) ∨
     ∃ pl, pl ∈ w_queue w1 ∧ qp_job_id pl = pj_id j ∧
       ∀ rq_job_id parsers w2, ready (pj_id j) w2 → w_jobs w2 !! pj_id j = Some j1 →
         wp (run_enqueued lock_wait max_retries preview_factory (enqueue queue pl) (pj_id j) rq_job_id parsers) (λ _ w3,
           ∃ j3, w_jobs w3 !! pj_id j = Some j3 ∧ terminal j3 ∧ identity j3 = identity j ∧
             pj_attempt_count j3 <= max_attempts max_retries) w2).
Proof.
  intros Hwf Hsc Hj Hid Hab. destruct (candidates_elem _ _ j Hj) as [Hn _].
  destruct (pass_runs max_retries stale_after_seconds batch_size now ids clock elapsed t n q act log Hwf Hsc) as (t' & n' & act' & Hrun & Hrows & _).
  cbv zeta. rewrite Hrun. cbn [snd idle w_jobs w_queue]. destruct (Hrows j Hj) as [later Hrow].
  pose proof (abandoned_verdict _ _ _ _ later j Hn Hab) as Hv.
  pose proof (recovery_payload_in max_retries stale_after_seconds (default (clock n) now) ids (default (clock n) now) later _ q j Hj) as Hin.
  destruct (recovery _ _ _ _ later j) as [[j1 new] count]. cbn [fst snd] in *. exists j1. split; [exact Hrow|].
  destruct Hv as [[-> _]|(Hatt & -> & Hq1 & Hi1 & Ha1)]; [left; by exists later|right].
  exists (recovery_payload max_retries j). split; [by apply Hin|]. split; [done|]. intros rq_job_id parsers w2 Hready Hj2.
  eapply wp_mono; [by apply (wp_run_enqueued _ _ _ _ _ (max_retries - pj_attempt_count j) _ _ _ w2 j1)|].
  intros r w3 (j3 & H3 & Ht & Hi & Ha). exists j3. split_and!; [done|done|congruence|]. unfold max_attempts. lia.
Qed.

(** A worker died during the last attempt but one of a job, while an older job
    was still queued.  The scans see all that the queue holds. *)
Definition crashed_table : JobTable :=
  <[ 7 := stale_job ]> {[ 8 := new_job 8 1 "buy QQQ" None 24 5 ]}.

Definition queue_contents (q : list QueuePayload) : result (gset Z) := Ok (list_to_set (qp_job_id <$> q)).

Lemma crashed_table_wf : table_wf crashed_table.
Proof.
  intros id j H. unfold crashed_table in H.
  apply lookup_insert_Some in H as [[<- <-]|[_ H]]; [|apply lookup_singleton_Some in H as [<- <-]];
    (split; [|done]); (split; [done|]); by split_and!.
Qed.

Lemma crashed_scans : scans ∅ [] 3 [queue_contents; queue_contents; queue_contents].
Proof.
  split; [|done]. assert (sees ∅ [] queue_contents) as H by (intros new; eexists; split; [reflexivity|]; set_solver).
  by repeat constructor.
Qed.

(** Both are handed over again; the scan that follows the first sees it. *)
Lemma reconcile_pass_exact_witness :
  let end_ := reconcile_preview_jobs 2 0 10 (Some 1500)
                (idle Z.of_nat 250 crashed_table 0 [] [queue_contents; queue_contents; queue_contents] [] []) in
  (λ s, (scanned s, recovered s)) <$> end_.1 = Ok (2, 2) ∧ qp_job_id <$> w_queue end_.2 = [8; 7] ∧
  exact_pass 2 0 10 ∅ Z.of_nat 250 1500 crashed_table [] [] end_.
Proof.
  split; [vm_compute; reflexivity|]. split; [vm_compute; reflexivity|].
  apply (reconcile_pass_exact 2 0 10 (Some 1500) ∅ Z.of_nat 250 crashed_table 0 [] [queue_contents; queue_contents; queue_contents] []);
    [apply crashed_table_wf|exact crashed_scans].
Defined.

Lemma crash_recovery_settles_witness :
  let w1 := (reconcile_preview_jobs 2 0 10 (Some 1500)
               (idle Z.of_nat 250 crashed_table 0 [] [queue_contents; queue_contents; queue_contents] [] [])).2 in
  (qp_retry_count <$> w_queue w1) = [Some 2; Some 1] ∧
  ∃ j1, w_jobs w1 !! 7 = Some j1 ∧
    ((∃ later, j1 = as_failed RECOVERY_FAILURE_MESSAGE later stale_job) ∨
     ∃ pl, pl ∈ w_queue w1 ∧ qp_job_id pl = 7 ∧
       ∀ rq_job_id parsers w2, ready 7 w2 → w_jobs w2 !! 7 = Some j1 →
         wp (run_enqueued (H := retrying) 5 2 (create_preview (λ x _, Ok x) sample_table)
               (enqueue (mkQueue 180 2 [5; 30] 86400 604800) pl) 7 rq_job_id parsers)
           (λ _ w3, ∃ j3, w_jobs w3 !! 7 = Some j3 ∧ terminal j3 ∧ identity j3 = identity stale_job ∧
             pj_attempt_count j3 <= max_attempts 2) w2).
Proof.
  cbv zeta. split; [vm_compute; reflexivity|].
  apply (crash_recovery_settles (H := retrying_laws) 5 (create_preview (λ x _, Ok x) sample_table) (mkQueue 180 2 [5; 30] 86400 604800) 2 0 10 (Some 1500)
    ∅ Z.of_nat 250 crashed_table 0 [] [queue_contents; queue_contents; queue_contents] [] stale_job);
    [apply crashed_table_wf|exact crashed_scans| |by split| ].
  - vm_compute. right. by left.
  - split; [set_solver|]. right. left. by vm_compute.
Defined.
