(* ===== verification/Commands.v ===== *)
(** * Commands ([backend/app/scripts/parse_strategy.py],
    [backend/app/scripts/cleanup_preview_jobs.py])

    The command that parses a strategy and prints it, and the one that deletes
    expired preview jobs.  The arguments have been parsed; what a command
    prints on the two streams and its exit status are its result. *)

From S2P Require Import Prelude Decimal Text Models StrategySpec StrategySemantics Serialization JsonText Uuid Auth StrategyText Config Parser Responses Effects JobStore.
From Stdlib Require Import ZArith Lia Ascii.
From stdpp Require Import base list option strings gmap.
Local Open Scope Z_scope.

(** ** [parse_strategy.py] *)

(** [sort_keys=True] *)
Fixpoint insert_key {A} (kv : string * A) (fields : list (string * A)) : list (string * A) :=
  match fields with
  | [] => [kv]
  | kv' :: rest => if String.leb kv.1 kv'.1 then kv :: fields else kv' :: insert_key kv rest
  end.

Definition sort_fields {A} (fields : list (string * A)) : list (string * A) := foldr insert_key [] fields.

Fixpoint sort_json (v : json) : json :=
  match v with
  | JList l => JList (sort_json <$> l)
  | JObj fields => JObj (sort_fields ((λ kv, (kv.1, sort_json kv.2)) <$> fields))
  | _ => v
  end.

(** The text printed, the text on the error stream, and the exit status. *)
Record CommandOutput : Type := mkOutput { out_stdout : string; out_stderr : string; out_status : Z }.

Definition specification_text (p : ParsedStrategyResult) : string :=
  json_dumps (Some 2%nat) (sort_json (dump_specification (specification p))).
Definition defaults_text (p : ParsedStrategyResult) : string :=
  json_dumps (Some 2%nat) (JList (dump_default <$> defaults_applied p)).
Definition assumptions_text (p : ParsedStrategyResult) : string :=
  json_dumps (Some 2%nat) (JList (dump_assumption <$> assumptions p)).

(** The lines, each ended by [print]. *)
Definition report (p : ParsedStrategyResult) : string :=
  str_join newline
    ["Normalized strategy JSON:"%string; specification_text p; EmptyString;
     "Defaults applied:"%string; defaults_text p; EmptyString;
     "Assumptions made:"%string; assumptions_text p; EmptyString;
     "Confirmation required: " +:+ (if requires_confirmation p then "Yes" else "No"); EmptyString;
     interpret_strategy p; EmptyString].

(** [except (StrategyParserError, StrategyValidationError, ValidationError)] *)
Definition parse_command_handles (e : exn) : bool :=
  match e with
  | StrategyParserError _ | StrategyProviderError _ | StrategyProviderRefusalError _ | StrategyProviderTimeoutError _
  | StrategyMalformedOutputError _ | StrategyValidationError _ | ValidationError => true
  | _ => false
  end.

(** [settings] is what [get_settings] returns or raises; [message] is [str] of
    an exception. *)
Definition parse_strategy_main (message : exn → string) (settings : result Settings)
    (provider_factory : string → string → string → result StrategyParseDraft) (strategy : string) : result CommandOutput :=
  match (s ← settings; parser_from_settings s provider_factory strategy) with
  | Ok p => Ok (mkOutput (report p) EmptyString 0)
  | Err e => if parse_command_handles e
             then Ok (mkOutput EmptyString ("Strategy parsing failed: " +:+ message e +:+ newline) 1) else Err e
  end.

(** ** [cleanup_preview_jobs.py] *)
Local Open Scope io_scope.

Definition cleanup_main : IO (string * Z) :=
  now <~ datetime_now;
  deleted <~ delete_expired_jobs (Some now);
  io_ret ("Deleted " +:+ str_int deleted +:+ " expired preview jobs." +:+ newline, 0).

(** ** Lemmas: reading documents with sorted keys *)
Section sorted.
Context {P : Pydantic} {L : PydanticLaws P}.

Lemma validate_operand_sorted o : operand_schema_ok o = true → validate_operand_json (sort_json (dump_operand o)) = Ok o.
Proof.
  destruct o as [name source period|source|value]; cbn [operand_schema_ok]; intros H;
    try apply bool_decide_eq_true_1 in H as ->.
  - change (sort_json (dump_operand (IndicatorOperand name "close" period))) with
      (JObj [("name"%string, JStr (IndicatorName_value name)); ("period"%string, JInt period);
             ("source"%string, JStr "close"); ("type"%string, JStr "indicator")]).
    unfold validate_operand_json, validate_indicator, obj_get. cbn [foldl String.eqb Ascii.eqb Bool.eqb fst snd].
    open_model. rewrite one_of_indicator. cbn [mbind result_bind]. by rewrite read_strict_int_dump.
  - reflexivity.
  - change (sort_json (dump_operand (ConstantOperand value))) with
      (JObj [("type"%string, JStr "constant"); ("value"%string, JStr (decimal_str value))]).
    unfold validate_operand_json, validate_constant, obj_get. cbn [foldl String.eqb Ascii.eqb Bool.eqb fst snd].
    open_model. by rewrite read_decimal_dump.
Qed.

Lemma validate_condition_sorted c :
  condition_schema_ok c = true → validate_condition_json (sort_json (dump_condition c)) = Ok c.
Proof.
  unfold condition_schema_ok. rewrite andb_true_iff. intros [Hl Hr].
  change (sort_json (dump_condition c)) with
    (JObj [("left"%string, sort_json (dump_operand (left c))); ("operator"%string, JStr (Operator_value (operator c)));
           ("right"%string, sort_json (dump_operand (right c)))]).
  unfold validate_condition_json. open_model. rewrite !validate_operand_sorted by done. cbn [mbind result_bind].
  rewrite one_of_operator. by destruct c.
Qed.

Lemma validate_specification_sorted s :
  spec_schema_ok s = true → validate_specification (sort_json (dump_specification s)) = Ok s.
Proof.
  unfold spec_schema_ok. rewrite !andb_true_iff, !bool_decide_eq_true.
  intros [[[[[[[Hv Hs] Hi] He] Hx] Hexec] Hsl] Htp].
  change (sort_json (dump_specification s)) with
    (JObj [("entry"%string, sort_json (dump_condition (entry s))); ("execution"%string, dump_execution (execution s));
           ("exit"%string, sort_json (dump_condition (exit s))); ("interval"%string, JStr (interval s));
           ("stop_loss_percent"%string, sort_json (dump_option (λ d, JStr (pydecimal_str d)) (stop_loss_percent s)));
           ("symbol"%string, JStr (symbol s));
           ("take_profit_percent"%string, sort_json (dump_option (λ d, JStr (pydecimal_str d)) (take_profit_percent s)));
           ("version"%string, JStr (version s))]).
  assert (∀ v, sort_json (dump_option (λ d, JStr (pydecimal_str d)) v) = dump_option (λ d, JStr (pydecimal_str d)) v) as Hr
    by (by intros []).
  rewrite !Hr. destruct s as [v sy iv en ex exe sl tp]. cbn in Hv, Hs, Hi, He, Hx, Hexec, Hsl, Htp. subst.
  unfold validate_specification. cbn [version symbol interval entry exit execution stop_loss_percent take_profit_percent].
  open_model. rewrite !validate_condition_sorted, validate_execution_dump, !read_risk_percent_dump by done. done.
Qed.
End sorted.

Lemma handled_errors e : is_validation_error e ∨ is_parser_error e → parse_command_handles e = true.
Proof. by destruct e; intros []. Qed.

(** ** The theorems *)

(** The parsing command ends in a traceback, once the settings load, only with
    the ValueError of a shorthand the interpreter does not convert; otherwise it
    exits with 0 exactly when the strategy parses, and then prints, on the
    output stream only, JSON texts that read back as the very strategy,
    defaults and assumptions of the result; otherwise it exits with 1 and
    prints only the message of the error, on the error stream. *)
Theorem parse_command_exact `{L : PydanticLaws} message (s : Settings) env describe sdk text :
  client_validates sdk →
  let parsed := parser_from_settings s (OpenAIResponsesProvider env describe sdk) text in
  let main := parse_strategy_main message (Ok s) (OpenAIResponsesProvider env describe sdk) text in
  (parsed = Err digits_limit_error ∧ main = Err digits_limit_error ∧ unreadable_shorthand text) ∨
  ∃ out, main = Ok out ∧
    match parsed with
    | Ok p => out_status out = 0 ∧ out_stderr out = EmptyString ∧ out_stdout out = report p ∧
        (∃ v, json_loads (specification_text p) = Some v ∧ validate_specification v = Ok (specification p)) ∧
        (∃ v, json_loads (defaults_text p) = Some v ∧ list_of validate_default v = Ok (defaults_applied p)) ∧
        (∃ v, json_loads (assumptions_text p) = Some v ∧ list_of validate_assumption v = Ok (assumptions p))
    | Err e => out_status out = 1 ∧ out_stdout out = EmptyString ∧
        out_stderr out = "Strategy parsing failed: " +:+ message e +:+ newline
    end.
Proof.
  intros Hsdk parsed main. unfold main, parse_strategy_main. cbn [mbind result_bind]. fold parsed.
  pose proof (parse_strategy_outcome env describe sdk (openai_api_key s) (openai_model s) text Hsdk) as H.
  change (parse_strategy _ _ _ _) with parsed in H.
  destruct parsed as [p|e]; cbn [outcome] in H; [right|].
  - destruct H as (_ & _ & draft & Hd & Hp). destruct (normalized_parsed_ok draft text p Hd Hp) as (Hs & Hdef & Has).
    eexists. split; [reflexivity|]. do 3 (split; [reflexivity|]). split_and!; eexists; (split; [apply loads_dumps|]).
    + by apply validate_specification_sorted.
    + by apply list_of_defaults.
    + by apply list_of_assumptions.
  - destruct H as [H|[H|(-> & H & _)]]; [right..|by left]; rewrite handled_errors by auto; by eexists.
Qed.

Lemma parse_command_exact_witness :
  let text := "Trade the 20/50 golden cross"%string in
  let provider := OpenAIResponsesProvider PRODUCTION (λ _, EmptyString) (Some sample_client) in
  ∃ out p, parse_strategy_main (λ _, EmptyString) (Ok sample_settings) provider text = Ok out ∧
    parser_from_settings sample_settings provider text = Ok p ∧ out_status out = 0 ∧
    ∃ v, json_loads (specification_text p) = Some v ∧
      validate_specification (P := exact_pydantic) v = Ok (specification p).
Proof.
  cbv zeta.
  destruct (parse_command_exact (L := exact_pydantic_laws) (λ _, EmptyString) sample_settings PRODUCTION (λ _, EmptyString)
    (Some sample_client) "Trade the 20/50 golden cross") as [[E _]|(out & Hout & H)].
  { intros client k m t r d [= <-] [= <-] [= <-]. reflexivity. }
  { vm_compute in E. discriminate E. }
  destruct (parser_from_settings _ _ _) as [p|e] eqn:E; [|vm_compute in E; discriminate E].
  exists out, p. split; [exact Hout|]. split; [reflexivity|]. split; [apply H|apply H].
Defined.

(** The cleanup deletes exactly the jobs whose time is up when its transaction
    runs, and reports their number. *)
Lemma cleanup_exact (w : World) :
  let t := ev_others (next_event w) (w_jobs w) in
  let now := w_clock w (w_reads w) in
  let kept := filter (λ kv, ¬ pj_expires_at kv.2 < now) t in
  ev_fault (next_event w) = None →
  (∀ id j, kept !! id = Some j ↔ t !! id = Some j ∧ now <= pj_expires_at j) ∧
  cleanup_main w =
    (Ok ("Deleted " +:+ str_int (Z.of_nat (size t - size kept)%nat) +:+ " expired preview jobs." +:+ newline, 0),
     set_jobs kept (pop_event (tick w))).
Proof.
  intros t now kept Hf. split.
  { intros id j. unfold kept. rewrite map_lookup_filter_Some. cbn [snd]. by rewrite Z.nlt_ge. }
  unfold cleanup_main, delete_expired_jobs, datetime_now, db, io_bind, io_ret.
  change (next_event (tick w)) with (next_event w). change (w_jobs (tick w)) with (w_jobs w). rewrite Hf.
  unfold delete_expired. fold t now. cbn beta iota zeta.
  assert (size (filter (λ kv, pj_expires_at kv.2 < now) t) = (size t - size kept)%nat) as Hsize.
  { rewrite <- (map_filter_union_complement (λ kv, pj_expires_at kv.2 < now) t) at 2.
    rewrite map_size_disj_union by apply map_disjoint_filter_complement. unfold kept. lia. }
  by rewrite Hsize.
Qed.
