(* ===== verification/Integrity.v ===== *)
(** * What a preview job may hold

    The content of the job table, whoever changes it and however the changes
    interleave: a row belongs to the request that drew its identifier, a stored
    preview was computed from that request's own text, and an error message is
    one a user may see.  No lock is assumed here: the table is changed one
    transaction at a time, each is a [move], and every handler is shown to make
    moves only while it relies on the others for the same. *)

From S2P Require Import Prelude Models MarketData StrategySpec StrategySemantics Parser Preview Responses Uuid Effects Rely JobStore PreviewJobService Reconciliation.
From Stdlib Require Import ZArith Lia.
From stdpp Require Import base list option strings gmap relations.
Local Open Scope Z_scope.
Local Open Scope io_scope.

(** ** Genuine content *)

(** What a preview request asked for. *)
Record Submission : Type := mkSubmission { sub_user : UUID; sub_text : string }.

(** Some call of the configured parser, with whatever the provider answered,
    made [parsed] of the text. *)
Definition parses (text : string) (r : result ParsedStrategyResult) : Prop :=
  ∃ env describe sdk key model, client_validates sdk ∧
    parse_strategy key model (OpenAIResponsesProvider env describe sdk) text = r.

(** The market data at some time made [r] of the parsed strategy. *)
Definition previews (parsed : ParsedStrategyResult) (r : result StrategyPreview) : Prop :=
  ∃ power table, table_ok table ∧ rows_dated table ∧ create_preview power table parsed = r.

Definition genuine (text : string) (document : json) : Prop :=
  ∃ parsed p, parses text (Ok parsed) ∧ previews parsed (Ok p) ∧ serialize_preview parsed p = Ok document.

(** The exceptions whose message is stored for the user. *)
Definition shown_message (e : exn) : option string :=
  match e with
  | StrategyValidationError m | StrategyCompilationError m | MarketDataUnavailableError m => Some m
  | _ => None
  end.

(** The messages a user may see about a text. *)
Inductive safe_message (text : string) : string → Prop :=
  | safe_fixed m :
      m ∈ [queue_failure_message; parse_failure_message; default_final_error; RECOVERY_FAILURE_MESSAGE] →
      safe_message text m
  | safe_parse e m : parses text (Err e) → shown_message e = Some m → safe_message text m
  | safe_preview parsed e m :
      parses text (Ok parsed) → previews parsed (Err e) → shown_message e = Some m → safe_message text m.

Definition error_safe (text : string) (e : exn) : Prop := ∀ m, shown_message e = Some m → safe_message text m.

(** ** The table *)
Section integrity.
(** The request that drew an identifier: [uuid4] draws each at most once. *)
Context (drawn : UUID → option Submission).

Record row_sound (id : UUID) (j : PreviewJob) : Prop := mkSound {
  row_id : pj_id j = id;
  row_drawn : drawn id = Some (mkSubmission (pj_user_id j) (pj_strategy_text j));
  row_name : pj_strategy_name j = None;
  row_result : ∀ document, pj_preview_result j = Some document → genuine (pj_strategy_text j) document;
  row_error : ∀ m, pj_error_message j = Some m → safe_message (pj_strategy_text j) m;
  row_completed : pj_status j = completed → is_Some (pj_preview_result j);
  row_failed : pj_status j = failed → is_Some (pj_error_message j) }.

Definition sound (t : JobTable) : Prop := ∀ id j, t !! id = Some j → row_sound id j.

(** What one transaction of a handler does to the table. *)
Inductive move (t : JobTable) : JobTable → Prop :=
  | move_create id s ttl now :
      drawn id = Some s → t !! id = None → move t (<[id := new_job id (sub_user s) (sub_text s) None ttl now]> t)
  | move_claim id j now : t !! id = Some j → move t (<[id := claimed now j]> t)
  | move_progress id j stage progress :
      t !! id = Some j → move t (<[id := with_progress stage progress j]> t)
  | move_complete id j document now :
      t !! id = Some j → genuine (pj_strategy_text j) document → move t (<[id := as_completed document now j]> t)
  | move_fail id j m now :
      t !! id = Some j → safe_message (pj_strategy_text j) m → move t (<[id := as_failed m now j]> t)
  | move_requeue id j : t !! id = Some j → move t (<[id := requeued j]> t)
  | move_delete t' : t' ⊆ t → move t t'.

Abbreviation moves := (rtc move).

(** A payload repeats what its request asked for. *)
Definition payload_sound (pl : QueuePayload) : Prop :=
  drawn (qp_job_id pl) = Some (mkSubmission (qp_user_id pl) (qp_strategy_text pl)) ∧ qp_strategy_name pl = None.

Lemma sound_insert t id j : sound t → row_sound id j → sound (<[id := j]> t).
Proof.
  intros Ht Hj id' j'. destruct (decide (id' = id)) as [->|Hn].
  - rewrite lookup_insert_eq. by intros [= <-].
  - rewrite lookup_insert_ne by done. apply Ht.
Qed.

Lemma move_sound t t' : move t t' → sound t → sound t'.
Proof.
  intros [id s ttl now Hd Hn|id j now Hj|id j stage pr Hj|id j doc now Hj Hg|id j m now Hj Hm|id j Hj|t1 Hsub] Ht;
    try (apply sound_insert; [exact Ht|]; destruct (Ht id j Hj) as [? ? ? ? ? ? ?]; constructor; cbn; try done; try (intros; by eexists)).
  - apply sound_insert; [exact Ht|]. constructor; cbn; try done. rewrite Hd. by destruct s.
  - intros d [= <-]. exact Hg.
  - intros m' [= <-]. exact Hm.
  - intros id j Hj. apply Ht. by eapply lookup_weaken.
Qed.

Lemma moves_sound t t' : moves t t' → sound t → sound t'.
Proof. induction 1 as [|t1 t2 t3 H _ IH]; [done|]. intros Ht. apply IH. by eapply move_sound. Qed.

(** ** Computations that keep the content sound *)
Record honest (w : World) : Prop := mkHonest {
  honest_jobs : sound (w_jobs w);
  honest_queue : Forall payload_sound (w_queue w);
  honest_others : respects moves w }.

(** From a sound state, with others that make moves, [m] makes moves. *)
Abbreviation preserves := (triple honest (rtc move)).

Lemma pres_now E : preserves datetime_now (λ _, True) E.
Proof. apply triple_same. intros w [? ? ?]. by split_and!. Qed.

(** A transaction. *)
Lemma pres_db {A} (f : JobTable → result A * JobTable) (Q : A → Prop) (E : exn → Prop) :
  (∀ t, sound t → moves t (f t).2 ∧ outcome (f t).1 Q E) → (∀ e, db_error e → E e) → preserves (db f) Q E.
Proof.
  intros Hf HE w [Hj Hq Hr]. apply (wp_db moves); [done|]. intros t w1 Ht ->.
  assert (sound t) as Hst by by eapply moves_sound. destruct (Hf t Hst) as [Hm Ho].
  assert (∀ t', moves t t' → moves (w_jobs w) t' ∧ honest (set_jobs t' (pop_event w))) as Hh.
  { intros t' Ht'. split; [by etransitivity|]. constructor; cbn; [by eapply moves_sound|done|]. by apply (respects_pop moves). }
  split; [|split; intros e He]; (split; [by apply Hh|]); (split; [by apply Hh|]); [done|by apply HE|].
  by apply HE, connection_lost_db.
Qed.

(** Updates of one row. *)
Lemma pres_update_where id guard h (E : exn → Prop) :
  (∀ t j, sound t → t !! id = Some j → move t (<[id := h j]> t)) →
  (∀ e, db_error e → E e) → preserves (db (update_where id guard h)) (λ _, True) E.
Proof.
  intros Hh HE. apply pres_db; [|done]. intros t Ht. unfold update_where.
  destruct (t !! id) as [j|] eqn:Hj; [destruct (guard j)|]; cbn; [|done..]. split; [|done]. by apply rtc_once, Hh.
Qed.

Lemma pres_flush id h (E : exn → Prop) :
  (∀ t j, sound t → t !! id = Some j → move t (<[id := h j]> t)) → E stale_data_error →
  (∀ e, db_error e → E e) → preserves (db (flush id h)) (λ _, True) E.
Proof.
  intros Hh Hs HE. apply pres_db; [|done]. intros t Ht. unfold flush.
  destruct (t !! id) as [j|] eqn:Hj; cbn; [|done]. split; [|done]. by apply rtc_once, Hh.
Qed.

(** One that only reads. *)
Lemma pres_read {A} (f : JobTable → result A) (Q : A → Prop) (E : exn → Prop) :
  (∀ t, sound t → outcome (f t) Q E) → (∀ e, db_error e → E e) → preserves (db (λ t, (f t, t))) Q E.
Proof. intros Hf HE. apply pres_db; [|done]. intros t Ht. cbn. by split; [|apply Hf]. Qed.

Lemma pres_read_job_id id (E : exn → Prop) : (∀ e, db_error e → E e) → preserves (read_job_id id) (λ _, True) E.
Proof. intros HE. by apply (pres_read (λ _, Ok id)). Qed.

Lemma pres_rollback (E : exn → Prop) : (∀ e, db_error e → E e) → preserves rollback (λ _, True) E.
Proof. intros HE. by apply (pres_read (λ _, Ok ())). Qed.

(** A computation that leaves the table, the queue and the others alone. *)
Lemma pres_local {A} (m : IO A) (Q : A → Prop) E :
  (∀ w, w_jobs (m w).2 = w_jobs w ∧ w_queue (m w).2 = w_queue w ∧ w_events (m w).2 = w_events w ∧
        outcome (m w).1 Q E) → preserves m Q E.
Proof.
  intros Hm. apply triple_same. intros w [Hj Hq Hr]. destruct (Hm w) as (H1 & H2 & H3 & Ho). split_and!; [done| |done].
  constructor; rewrite ?H1, ?H2; [done..|]. unfold respects. by rewrite H3.
Qed.

Lemma pres_enqueue pl : payload_sound pl → preserves (queue_enqueue pl) (λ _, True) anything.
Proof.
  intros Hpl w [Hj Hq Hr]. assert (Forall payload_sound (w_queue w ++ [pl])) as Hq'.
  { apply Forall_app. split; [exact Hq|]. by apply Forall_singleton. }
  unfold wp, queue_enqueue.
  destruct (default None (head (w_queue_faults w))) as [[e []]|]; cbn; (split; [done|]); split; try done; by constructor.
Qed.

Lemma pres_active_ids : preserves queue_active_ids (λ _, True) anything.
Proof.
  apply pres_local. intros w. unfold queue_active_ids. cbn. destruct (default _ (head (w_active w)) _); by split_and!.
Qed.

Lemma pres_emit r E : preserves (emit r) (λ _, True) E.
Proof. by apply pres_local. Qed.

Lemma pres_emit_queue r E : preserves (emit_queue r) (λ _, True) E.
Proof. by apply pres_local. Qed.

Lemma pres_emit_elapsed r E : preserves (emit_elapsed r) (λ _, True) E.
Proof. by apply pres_local. Qed.

(** A log call first. *)
Lemma pres_logged {A} r (m : IO A) (Q : A → Prop) E : preserves m Q E → preserves (_ <~ emit r; m) Q E.
Proof. intros Hm. eapply triple_bind; [apply pres_emit|intros u _; exact Hm]. Qed.

Lemma pres_queue_logged {A} r (m : IO A) (Q : A → Prop) E : preserves m Q E → preserves (_ <~ emit_queue r; m) Q E.
Proof. intros Hm. eapply triple_bind; [apply pres_emit_queue|intros u _; exact Hm]. Qed.

Lemma pres_log_loaded o event previous new E : preserves (log_loaded o event previous new) (λ _, True) E.
Proof. destruct o; [apply pres_emit|by apply triple_ret]. Qed.

(** *** The store *)

(** A row some request may have: what is known of a loaded job for good. *)
Definition known (job : PreviewJob) : Prop := row_sound (pj_id job) job.

(** An exception that carries no message for the user. *)
Definition silent (e : exn) : Prop := shown_message e = None.

Lemma db_error_silent e : db_error e → silent e.
Proof. by destruct e. Qed.

Lemma silent_safe text e : silent e → error_safe text e.
Proof. unfold silent, error_safe. intros H m Hm. congruence. Qed.

Lemma sound_known t id j : sound t → t !! id = Some j → known j ∧ pj_id j = id.
Proof. intros Ht Hj. pose proof (Ht id j Hj) as H. unfold known. by rewrite (row_id _ _ H). Qed.

(** Two rows of one identifier have the same owner and text. *)
Lemma same_text job t j : known job → sound t → t !! pj_id job = Some j → pj_strategy_text j = pj_strategy_text job.
Proof.
  intros Hk Ht Hj. pose proof (row_drawn _ _ (Ht _ _ Hj)) as H. rewrite (row_drawn _ _ Hk) in H. by injection H as _ ->.
Qed.

Lemma pres_refresh id : preserves (refresh_job id) (λ j, known j ∧ pj_id j = id) silent.
Proof.
  unfold refresh_job. apply (pres_read (λ t, match t !! id with Some j => Ok j | None => Err (OtherException "InvalidRequestError") end));
    [|apply db_error_silent].
  intros t Ht. destruct (t !! id) as [j|] eqn:Hj; [|done]. by eapply sound_known.
Qed.

Lemma pres_read_job id : preserves (db (read_job id)) (λ o, ∀ j, o = Some j → known j ∧ pj_id j = id) silent.
Proof.
  apply (pres_read (λ t, Ok (t !! id))); [|apply db_error_silent]. intros t Ht j Hj. by eapply sound_known.
Qed.

Lemma pres_create_job id s ttl : drawn id = Some s →
  preserves (create_job id (sub_user s) (sub_text s) None ttl) (λ j, known j ∧ pj_id j = id) silent.
Proof.
  intros Hd. unfold create_job. eapply triple_bind; [apply pres_now|]. intros now _.
  eapply triple_bind; [|intros u _; eapply triple_bind; [apply pres_refresh|intros j Hj; by apply pres_logged, triple_ret]].
  apply (pres_db _ (λ _, True)); [|apply db_error_silent]. intros t Ht. unfold insert_job.
  destruct (job_row_ok _) eqn:Hok; cbn [andb]; [|by split].
  case_bool_decide as Hn; cbn; [|by split]. split; [|done]. apply rtc_once. by apply move_create.
Qed.

Lemma pres_claim id allow :
  preserves (claim_job id allow) (λ o, ∀ j, o = Some j → known j ∧ pj_id j = id) silent.
Proof.
  unfold claim_job. eapply triple_bind; [apply pres_now|]. intros now _. eapply triple_bind.
  - apply pres_update_where; [|apply db_error_silent]. intros t j _ Hj. by apply move_claim.
  - intros n _. destruct (negb _); [by apply triple_ret|]. eapply triple_bind; [apply pres_read_job|intros o Ho].
    eapply triple_bind; [apply pres_log_loaded|intros u _; by apply triple_ret].
Qed.

Lemma pres_update_progress job stage progress : preserves (update_progress job stage progress) (λ _, True) silent.
Proof.
  apply pres_flush; [|done|apply db_error_silent]. intros t j _ Hj. by apply move_progress.
Qed.

Lemma pres_complete_job job document : known job → genuine (pj_strategy_text job) document →
  preserves (complete_job job document) (λ _, True) silent.
Proof.
  intros Hk Hg. unfold complete_job. eapply triple_bind; [apply pres_now|]. intros now _.
  eapply triple_bind; [|intros u _; apply pres_emit].
  apply pres_flush; [|done|apply db_error_silent]. intros t j Ht Hj. apply move_complete; [done|].
  by rewrite (same_text job t j).
Qed.

Lemma pres_fail_job job m : known job → safe_message (pj_strategy_text job) m → preserves (fail_job job m) (λ _, True) silent.
Proof.
  intros Hk Hm. unfold fail_job. eapply triple_bind; [apply pres_now|]. intros now _.
  eapply triple_bind; [|intros u _; apply pres_emit].
  apply pres_flush; [|done|apply db_error_silent]. intros t j Ht Hj. apply move_fail; [done|].
  by rewrite (same_text job t j).
Qed.

Lemma pres_transition id will_retry m : (∀ text, safe_message text m) →
  preserves (transition_job_after_operational_failure id will_retry m) (λ _, True) silent.
Proof.
  intros Hm. unfold transition_job_after_operational_failure.
  eapply (triple_bind _ _ (λ values, ∀ t j, sound t → t !! id = Some j → move t (<[id := values j]> t))).
  - destruct will_retry; [apply triple_ret; intros; by apply move_requeue|].
    eapply triple_bind; [apply pres_now|]. intros now _. apply triple_ret. intros t j _ Hj. by apply move_fail.
  - intros values Hv. eapply triple_bind; [apply pres_update_where; [exact Hv|apply db_error_silent]|]. intros n _. unfold report_transition. cbv zeta.
    destruct (n =? 1); [|by apply triple_ret]. eapply triple_bind; [apply pres_read_job|]. intros o _.
    eapply triple_bind; [apply pres_log_loaded|intros u _; by apply triple_ret].
Qed.

(** *** Locks *)
Lemma pres_on_postgresql E : preserves on_postgresql (λ _, True) E.
Proof. by apply pres_local. Qed.

Lemma pres_then_local {A} (m : World → result A * World) (E : exn → Prop) :
  (∀ e, db_error e → E e) →
  (∀ w, w_jobs (m w).2 = w_jobs w ∧ w_queue (m w).2 = w_queue w ∧ w_events (m w).2 = w_events w ∧ is_ok (m w).1 = true) →
  preserves (io_bind (db (λ t, (Ok (), t))) (λ _, m)) (λ _, True) E.
Proof.
  intros HE Hm. eapply triple_bind; [by apply pres_rollback|]. intros u _. apply pres_local. intros w.
  destruct (Hm w) as (? & ? & ? & Ho). split_and!; [done..|]. by destruct (m w).1.
Qed.

Lemma pres_try_acquire id : preserves (try_acquire_preview_job_lock id) (λ _, True) silent.
Proof.
  eapply triple_bind; [apply pres_on_postgresql|]. intros b _. destruct b; cbn [negb]; [|by apply triple_ret].
  apply pres_then_local; [apply db_error_silent|]. intros w. destruct (w_polls w) as [|[[] ?] ?]; by split_and!.
Qed.

Lemma pres_release id : preserves (release_preview_job_lock id) (λ _, True) silent.
Proof.
  eapply triple_bind; [apply pres_on_postgresql|]. intros b _. destruct b; cbn [negb]; [|by apply triple_ret].
  apply pres_then_local; [apply db_error_silent|]. intros w. by split_and!.
Qed.

Lemma pres_invalidate E : preserves invalidate (λ _, True) E.
Proof. by apply pres_local. Qed.

Lemma pres_acquire_loop fuel id deadline : preserves (acquire_loop fuel id deadline) (λ _, True) silent.
Proof.
  induction fuel as [|fuel IH]; cbn [acquire_loop]; [by apply triple_ret|].
  eapply triple_bind; [apply pres_try_acquire|]. intros [[] now] _; [by apply triple_ret|].
  eapply triple_bind; [apply pres_rollback, db_error_silent|]. intros u _. destruct now as [now|]; [|by apply triple_ret]. destruct (_ <=? _); [by apply triple_ret|exact IH].
Qed.

Lemma pres_acquire id timeout : preserves (acquire_preview_job_lock id timeout) (λ _, True) silent.
Proof.
  intros w Hw. pose proof (pres_acquire_loop (acquire_fuel w) id timeout w Hw) as H. unfold wp, acquire_preview_job_lock in *.
  destruct (acquire_loop _ _ _ _) as [[[b|]|e] w1]; destruct H as (H1 & H2 & H3); by split_and!.
Qed.

Lemma pres_release_or_invalidate failed id E : preserves (release_or_invalidate failed id) (λ _, True) E.
Proof.
  eapply triple_try; [|intros e _; eapply triple_bind; [apply pres_invalidate|intros u _; apply pres_emit_queue]].
  eapply triple_bind; [apply pres_rollback, db_error_silent|]. intros u _. apply pres_release.
Qed.
End integrity.
