(* ===== verification/System.v ===== *)
(** * The running system

    Requests, workers, failure callbacks, reconciliation passes, the cleanup
    command and the queue, each started at any time and in any number, over one
    job table and one queue.  A handler runs in a world whose table and queue
    are the system's; its transactions interleave with those of every other
    handler, which make the same [move]s, and any of its calls can fail.  A
    process that dies is a handler whose later transactions all fail without
    effect. *)

From S2P Require Import Prelude Models MarketData StrategySpec StrategySemantics Parser Config Preview Responses Samples Uuid Effects Rely JobStore JobRules PreviewJobService Reconciliation Worker JobApi Commands Integrity.
From Stdlib Require Import ZArith Lia.
From stdpp Require Import base list option strings gmap relations.
Local Open Scope Z_scope.
Local Open Scope io_scope.

(** ** The handlers keep the content sound *)
Section handlers.
Context (drawn : UUID → option Submission).

Abbreviation preserves := (triple (honest drawn) (rtc (move drawn))).
Abbreviation known := (known drawn).

Lemma pres_submit lock_wait ttl id s : drawn id = Some s →
  preserves (submit_preview_job lock_wait ttl id (sub_user s) (sub_text s) None) (λ _, True) anything.
Proof.
  intros Hd. unfold submit_preview_job. eapply triple_bind; [eapply triple_mono; [apply pres_acquire|done|done]|].
  intros b _. destruct b; cbn [negb]; [|by apply pres_queue_logged, triple_raise].
  eapply triple_finally; [|apply (pres_release_or_invalidate _ _ _ anything)].
  eapply triple_bind; [eapply triple_mono; [by apply pres_create_job|intros j Hj; exact Hj|done]|]. intros job [Hk Hid].
  eapply triple_bind; [|intros u _; by apply pres_queue_logged, triple_ret].
  eapply triple_try; [apply pres_enqueue; split; [cbn; rewrite Hid, Hd; by destruct s|done]|].
  intros e _. apply pres_queue_logged. eapply triple_bind; [eapply triple_mono; [apply pres_fail_job; [done|]|done|done]|intros u _; by apply triple_raise].
  apply safe_fixed. set_solver.
Qed.

Lemma pres_preview_strategy lock_wait ttl id s : drawn id = Some s →
  preserves (preview_strategy lock_wait ttl id (sub_user s) (sub_text s)) (λ _, True) anything.
Proof.
  intros Hd. eapply triple_try; [eapply triple_bind; [by apply pres_submit|intros i _; by apply triple_ret]|].
  intros e _. eapply triple_bind; [by apply pres_rollback|intros u _; by apply triple_raise].
Qed.

(** *** Execution *)
Section execution.
Context (parse : string → result ParsedStrategyResult).
Context (preview_factory : ParsedStrategyResult → result StrategyPreview).
(** The worker's parser and market data are the configured ones. *)
Context (Hparse : ∀ text, parses text (parse text)).
Context (Hfactory : ∀ parsed, previews parsed (preview_factory parsed)).

Lemma zip_strict_silent {A B} (l1 : list A) (l2 : list B) : outcome (zip_strict l1 l2) (λ _, True) silent.
Proof.
  revert l2. induction l1 as [|a l1 IH]; intros [|b l2]; try done. cbn [zip_strict].
  specialize (IH l2). by destruct (zip_strict l1 l2).
Qed.

Lemma pres_execute_job job : known job → preserves (execute_job parse preview_factory job) (λ _, True) (error_safe (pj_strategy_text job)).
Proof.
  intros Hk. set (text := pj_strategy_text job).
  assert (∀ stage pr, preserves (update_progress job stage pr) (λ _, True) (error_safe text)) as Hup.
  { intros stage pr. eapply triple_mono; [apply pres_update_progress|done|apply silent_safe]. }
  unfold execute_job. fold text. apply (triple_bind _ _ (λ parsed, parses text (Ok parsed))).
  - apply triple_lift. pose proof (Hparse text) as Hp. destruct (parse text) as [parsed|e]; cbn; [done|]. intros m Hm. by eapply safe_parse.
  - intros parsed Hparsed. do 4 (eapply triple_bind; [apply Hup|intros _ _]).
    apply (triple_bind _ _ (λ preview, previews parsed (Ok preview))).
    + apply (pres_read drawn (λ _, preview_factory parsed)); [|intros e He; by apply silent_safe, db_error_silent].
      intros t _. pose proof (Hfactory parsed) as Hp. destruct (preview_factory parsed) as [p|e]; cbn; [done|]. intros m Hm. by eapply safe_preview.
    + intros preview Hpreview. eapply triple_bind; [apply Hup|intros _ _].
      apply (triple_bind _ _ (genuine text)).
      * apply triple_lift. destruct (serialize_preview parsed preview) as [doc|e] eqn:E; cbn; [by exists parsed, preview|].
        apply silent_safe. unfold serialize_preview in E.
        pose proof (zip_strict_silent (drop (Z.to_nat (comparison_start_index preview)) (equity_curve (preview_execution preview)))
                      (buy_and_hold_equity_curve preview)) as Hz.
        destruct (zip_strict _ _); [done|]. by injection E as <-.
      * intros doc Hdoc. eapply triple_mono; [by apply pres_complete_job|done|apply silent_safe].
Qed.

Lemma pres_raise_transient {A} (Q : A → Prop) id e : preserves (raise_transient_failure id e) Q silent.
Proof. eapply triple_bind; [apply pres_rollback, db_error_silent|intros u _; by apply pres_logged, triple_raise]. Qed.

Lemma pres_persist_failure job m : known job → safe_message (pj_strategy_text job) m →
  preserves (persist_failure job m) (λ _, True) silent.
Proof.
  intros Hk Hm. eapply triple_try; [by apply pres_fail_job|]. intros e He.
  destruct (transient_database_error e); [|by apply triple_raise].
  eapply triple_bind; [|intros id _; apply pres_raise_transient].
  apply pres_read_job_id, db_error_silent.
Qed.

(** A fixed message suits every text. *)
Lemma fixed_safe m text :
  m ∈ [queue_failure_message; parse_failure_message; default_final_error; RECOVERY_FAILURE_MESSAGE] → safe_message text m.
Proof. apply safe_fixed. Qed.

Lemma pres_handle_failure id job e : (∀ j, job = Some j → known j ∧ error_safe (pj_strategy_text j) e) →
  preserves (handle_failure id job e) (λ _, True) silent.
Proof.
  intros Hj.
  assert (∀ m, (∀ j, job = Some j → safe_message (pj_strategy_text j) m) →
    preserves (j <~ assert_job job; persist_failure j m) (λ _, True) silent) as Hassert.
  { intros m Hm. destruct job as [j|]; cbn [assert_job].
    - eapply triple_bind; [apply (triple_ret j (λ j', j' = j)); done|]. intros ? ->.
      apply pres_persist_failure; [by apply Hj|by apply Hm].
    - eapply (triple_bind _ _ (λ _, False)); [by apply triple_raise|done]. }
  assert (∀ j m, job = Some j → m ∈ [queue_failure_message; parse_failure_message; default_final_error; RECOVERY_FAILURE_MESSAGE] →
    preserves (persist_failure j m) (λ _, True) silent) as Hfixed.
  { intros j m -> Hm. apply pres_persist_failure; [by apply Hj|by apply safe_fixed]. }
  assert (preserves (_ <~ rollback; _ <~ transition_job_after_operational_failure id false default_final_error; io_ret ()) (λ _, True) silent) as Hnone.
  { eapply triple_bind; [apply pres_rollback, db_error_silent|intros u _].
    eapply triple_bind; [apply pres_transition; intros; apply safe_fixed; set_solver|intros b _; by apply triple_ret]. }
  destruct e; cbn [handle_failure]; try apply pres_raise_transient;
    try (apply pres_logged, Hassert; intros j ->; destruct (Hj j eq_refl) as [_ Hs]; by apply Hs);
    try (apply pres_logged, Hassert; intros j _; apply safe_fixed; set_solver);
    (apply pres_logged; destruct job as [j|]; [apply Hfixed; [done|set_solver]|exact Hnone]).
Qed.

Lemma pres_run id allow : preserves (run_preview_job parse preview_factory id allow) (λ _, True) silent.
Proof.
  unfold run_preview_job. eapply triple_bind; [eapply triple_attempt, pres_claim|].
  intros [[job|]|e] Hclaim; [|by apply triple_ret|].
  - cbn in Hclaim. destruct (Hclaim job eq_refl) as [Hk _]. eapply triple_bind; [|intros u _; by apply triple_ret].
    eapply triple_try; [by apply pres_execute_job|]. intros e He. apply pres_handle_failure. by intros j [= <-].
  - eapply triple_bind; [|intros u _; by apply triple_ret]. by apply pres_handle_failure.
Qed.
End execution.

(** *** The worker *)
Lemma pres_worker_failure id e : preserves (handle_worker_failure id e) (λ _, True) anything.
Proof.
  unfold handle_worker_failure.
  destruct (transient_database_error e); [eapply triple_bind; [by apply pres_rollback|intros u _; by apply pres_logged, triple_raise]|].
  destruct (decide _); [by apply triple_raise|]. eapply triple_bind; [by apply pres_rollback|intros u _]. apply pres_logged.
  eapply triple_try; [eapply triple_bind; [apply pres_transition; intros; apply safe_fixed; set_solver|intros b _; by apply triple_ret]|].
  intros e2 _. destruct (transient_database_error e2); (eapply triple_bind; [by apply pres_rollback|intros u' _]);
    [by apply triple_raise|apply pres_emit].
Qed.

Lemma pres_task lock_wait max_retries preview_factory make_parser retries job_id :
  (∀ parser text, make_parser = Ok parser → parses text (parser text)) →
  (∀ parsed, previews parsed (preview_factory parsed)) →
  preserves (process_preview_job lock_wait max_retries preview_factory make_parser retries job_id) (λ _, True) anything.
Proof.
  intros Hp Hf. unfold process_preview_job. destruct (uuid_of_string job_id) as [id|]; [|apply pres_emit].
  eapply triple_bind; [eapply triple_attempt, pres_acquire|]. intros [[]|e] _; [|apply pres_emit_queue|apply pres_worker_failure].
  eapply triple_finally; [|apply (pres_release_or_invalidate _ _ _ anything)].
  eapply triple_try; [|intros e _; apply pres_worker_failure].
  unfold execute_locked. apply (triple_bind _ _ (λ parser, ∀ text, parses text (parser text)) _ anything).
  - apply triple_lift. destruct make_parser as [parser|e]; [|done]. intros text. by apply Hp.
  - intros parser Hparser. eapply triple_bind; [eapply triple_mono; [by apply pres_run|done|done]|intros b _; by apply triple_ret].
Qed.

Lemma pres_failure_callback max_retries rq_job_id exception_type args retries :
  preserves (handle_preview_job_failure max_retries rq_job_id exception_type args retries) (λ _, True) anything.
Proof.
  destruct args as [|arg args]; cbn [handle_preview_job_failure]; [apply pres_emit|].
  destruct (uuid_of_string arg) as [id|]; [|apply pres_emit]. cbv zeta.
  eapply triple_bind; [eapply triple_mono; [apply pres_transition; intros; apply safe_fixed; set_solver|done|done]|intros b _; apply pres_emit_queue].
Qed.

(** *** Reconciliation *)
Section reconciliation.
Context (max_retries stale_after_seconds : Z) (current_time : datetime).

Lemma known_payload job : known job → payload_sound drawn (recovery_payload max_retries job).
Proof. intros Hk. split; [apply (row_drawn _ _ _ Hk)|apply (row_name _ _ _ Hk)]. Qed.

Lemma pres_refresh_known id : preserves (refresh_job id) known anything.
Proof. eapply triple_mono; [apply pres_refresh|by intros j []|done]. Qed.

Lemma pres_reconcile_transition id will_retry m :
  m ∈ [queue_failure_message; parse_failure_message; default_final_error; RECOVERY_FAILURE_MESSAGE] →
  preserves (transition_job_after_operational_failure id will_retry m) (λ _, True) anything.
Proof. intros Hm. eapply triple_mono; [apply pres_transition; intros; by apply safe_fixed|done|done]. Qed.

Lemma pres_reconcile_locked id s active_ids :
  preserves (reconcile_locked max_retries stale_after_seconds current_time id s active_ids) (λ _, True) anything.
Proof.
  unfold reconcile_locked. eapply triple_bind; [apply pres_refresh_known|]. intros job Hk.
  destruct (nonterminal job); cbn [negb]; [|by apply pres_logged, triple_ret]. eapply triple_bind; [apply pres_active_ids|]. intros ids _.
  destruct (bool_decide (pj_id job ∈ ids)); [by apply pres_logged, triple_ret|]. destruct (_ || _).
  { eapply triple_bind; [apply pres_reconcile_transition; set_solver|intros b _; by apply pres_logged, triple_ret]. }
  destruct (_ && _); [by apply pres_logged, triple_ret|]. apply (triple_bind _ _ known).
  - case_bool_decide; [|by apply triple_ret].
    eapply triple_bind; [apply pres_reconcile_transition; set_solver|intros b _; apply pres_refresh_known].
  - intros job' Hk'. eapply triple_bind; [by apply pres_enqueue, known_payload|intros u _; by apply pres_logged, triple_ret].
Qed.

Lemma pres_release_reconciled id open : preserves (release_reconciled id open) (λ _, True) anything.
Proof.
  eapply triple_try; [|intros e _; eapply triple_bind; [apply pres_invalidate|intros u _];
    eapply triple_bind; [by apply (pres_read_job_id _ _ anything)|intros id' _; by apply pres_logged, triple_raise]].
  eapply triple_bind; [by apply (pres_rollback _ anything)|intros u _].
  eapply triple_bind; [|intros u' _; eapply triple_mono; [apply pres_release|done|done]].
  destruct open; [|by apply (triple_ret _ (λ _, True))]. eapply triple_bind; [apply pres_refresh_known|intros j _; by apply (triple_ret _ (λ _, True))].
Qed.

Lemma pres_reconcile_loop candidates p : Forall known candidates →
  preserves (reconcile_loop max_retries stale_after_seconds current_time p candidates) (λ _, True) anything.
Proof.
  revert p. induction candidates as [|job candidates IH]; intros p Hk; cbn [reconcile_loop]; [by apply triple_ret|].
  apply Forall_cons_iff in Hk as [Hj Hk]. eapply (triple_bind _ _ (λ _, True)); [|intros p' _; by apply IH].
  unfold reconcile_candidate. apply (triple_bind _ _ known); [destruct (pass_expired p); [apply pres_refresh_known|by apply triple_ret]|].
  intros job' _. destruct (bool_decide _); [by apply pres_logged, triple_ret|]. destruct (_ && _); [by apply pres_logged, triple_ret|].
  eapply triple_bind; [eapply triple_mono; [apply pres_try_acquire|done|done]|]. intros [[] now] _; cbn [negb]; [|by apply pres_logged, triple_ret].
  eapply triple_bind; [eapply triple_attempt, pres_reconcile_locked|]. intros r _.
  eapply triple_bind; [apply pres_release_reconciled|intros u _].
  apply (triple_bind _ _ (λ _, True)); [apply triple_lift; by destruct r|]. intros [[s ids] open] _. by apply triple_ret.
Qed.
End reconciliation.

Lemma candidates_known t limit : sound drawn t → Forall known (reconciliation_candidates limit t).
Proof.
  intros Ht. apply Forall_forall. intros j Hj. apply candidates_elem in Hj as [_ [id Hj]]. by eapply sound_known.
Qed.

Lemma pres_reconcile max_retries stale_after_seconds batch_size now :
  preserves (reconcile_preview_jobs max_retries stale_after_seconds batch_size now) (λ _, True) anything.
Proof.
  unfold reconcile_preview_jobs. apply (triple_bind _ _ (λ _, True)); [destruct now; [by apply triple_ret|apply pres_now]|].
  intros d _. eapply triple_bind; [apply pres_active_ids|intros ids _]. apply (triple_bind _ _ (Forall known)).
  - apply (pres_read _ (λ t, Ok (reconciliation_candidates batch_size t))); [|done]. intros t Ht. by apply candidates_known.
  - intros candidates Hk. cbv zeta. eapply triple_bind; [by apply pres_reconcile_loop|intros p _; eapply triple_bind; [apply pres_emit_elapsed|intros; by apply triple_ret]].
Qed.

(** *** Cleanup *)
Lemma pres_cleanup : preserves cleanup_main (λ _, True) anything.
Proof.
  unfold cleanup_main. eapply triple_bind; [apply pres_now|intros now _]. eapply (triple_bind _ _ (λ _, True)); [|intros n _; by apply triple_ret].
  unfold delete_expired_jobs. eapply (triple_bind _ _ (λ _, True)); [by apply triple_ret|intros d _].
  apply pres_db; [|done]. intros t _. split; [|done]. apply rtc_once, move_delete. apply map_filter_subseteq.
Qed.
End handlers.

(** ** The system *)
Record System : Type := mkSystem { sys_jobs : JobTable; sys_queue : list QueuePayload }.

(** [OpenAIStrategyParser.from_settings()] *)
Definition configured_parser (settings : result Settings) env describe sdk : result (string → result ParsedStrategyResult) :=
  s ← settings; Ok (parser_from_settings s (OpenAIResponsesProvider env describe sdk)).

Section system.
Context {P : Pydantic} (drawn : UUID → option Submission).

(** A handler runs on the system's table and queue, while the others make
    moves and whatever fails. *)
Definition runs {A} (m : IO A) (s : System) (r : result A) (s' : System) : Prop :=
  ∃ w, w_jobs w = sys_jobs s ∧ w_queue w = sys_queue s ∧ respects (rtc (move drawn)) w ∧
    (m w).1 = r ∧ s' = mkSystem (w_jobs (m w).2) (w_queue (m w).2).

Inductive system_step (s s' : System) : Prop :=
  | step_submit lock_wait ttl id sub r :
      drawn id = Some sub → runs (preview_strategy lock_wait ttl id (sub_user sub) (sub_text sub)) s r s' →
      system_step s s'
  | step_task lock_wait max_retries settings env describe sdk power table retries job_id r :
      client_validates sdk → table_ok table → rows_dated table →
      runs (process_preview_job lock_wait max_retries (create_preview power table)
              (configured_parser settings env describe sdk) retries job_id) s r s' →
      system_step s s'
  | step_failure max_retries rq_job_id exception_type args retries r :
      runs (handle_preview_job_failure max_retries rq_job_id exception_type args retries) s r s' → system_step s s'
  | step_reconcile max_retries stale_after_seconds batch_size now r :
      runs (reconcile_preview_jobs max_retries stale_after_seconds batch_size now) s r s' → system_step s s'
  | step_cleanup r : runs cleanup_main s r s' → system_step s s'
  | step_poll id user r : runs (get_preview_job id user) s r s' → system_step s s'
  | step_dequeue l1 pl l2 :
      sys_queue s = l1 ++ pl :: l2 → s' = mkSystem (sys_jobs s) (l1 ++ l2) → system_step s s'.

(** From no jobs and an empty queue. *)
Definition reachable : System → Prop := rtc system_step (mkSystem ∅ []).

Definition system_sound (s : System) : Prop := sound drawn (sys_jobs s) ∧ Forall (payload_sound drawn) (sys_queue s).

(** What a poll by [user] may show of the job [id]. *)
Definition shown (id user : UUID) (response : PreviewJobResponse) : Prop :=
  ∃ s, drawn id = Some s ∧ sub_user s = user ∧ jr_id response = id ∧
    match jr_status response with
    | completed => ∃ parsed p, parses (sub_text s) (Ok parsed) ∧ previews parsed (Ok p) ∧
        spec_supported (specification parsed) ∧ original_text parsed = sub_text s ∧
        jr_preview_result response = Some (preview_response parsed p)
    | failed => jr_preview_result response = None ∧ is_Some (jr_error response)
    | queued | running => jr_preview_result response = None
    end ∧
    ∀ m, jr_error response = Some m → safe_message (sub_text s) m.

(** *** Lemmas *)
Lemma configured_parses settings env describe sdk parser text :
  client_validates sdk → configured_parser settings env describe sdk = Ok parser → parses text (parser text).
Proof.
  intros Hsdk H. apply bind_Ok_inv in H as (s & _ & [= <-]). by exists env, describe, sdk, (openai_api_key s), (openai_model s).
Qed.

Lemma parses_ok text parsed : parses text (Ok parsed) →
  spec_supported (specification parsed) ∧ original_text parsed = text ∧ parsed_ok parsed.
Proof.
  intros (env & describe & sdk & key & model & Hsdk & Hp).
  pose proof (parse_strategy_outcome env describe sdk key model text Hsdk) as H. rewrite Hp in H.
  destruct H as (_ & _ & d & Hd & Hn). split; [|split]; [| |by eapply normalized_parsed_ok];
    pose proof (normalize_outcome d text Hd) as H; rewrite Hn in H; by destruct H as (? & ? & ? & ? & ? & _ & _ & ? & _ & _ & _ & _ & ?).
Qed.

Lemma runs_sound {A} (m : IO A) Q E s r s' :
  triple (honest drawn) (rtc (move drawn)) m Q E → runs m s r s' → system_sound s → system_sound s' ∧ outcome r Q E.
Proof.
  intros Hm (w & Hj & Hq & Hr & <- & ->) [Hs Hqs]. rewrite <- Hj in Hs. rewrite <- Hq in Hqs.
  destruct (Hm w) as (_ & [? ? ?] & ?); [by constructor|]. done.
Qed.

Lemma pres_poll `{!PydanticLaws P} id user :
  triple (honest drawn) (rtc (move drawn)) (get_preview_job id user) (shown id user) (λ e, e = job_not_found ∨ db_error e).
Proof.
  unfold get_preview_job, get_job.
  apply (triple_bind _ _ (λ o, ∀ j, o = Some j → row_sound drawn id j ∧ pj_user_id j = user)).
  - apply (pres_read _ (λ t, Ok (match t !! id with Some j => if decide (pj_user_id j = user) then Some j else None | None => None end)));
      [|by right].
    intros t Ht j. destruct (t !! id) as [j'|] eqn:Hj; [|done]. destruct (decide _) as [Hu|]; [|done]. intros [= <-]. split; [by apply Ht|done].
  - intros [j|] Hj; [|apply triple_raise; by left]. destruct (Hj j eq_refl) as [[Hid Hd _ Hres Herr Hc Hf] Hu]. apply triple_lift.
    assert (∀ shown_result, match pj_status j with
        | completed => ∃ parsed p, parses (pj_strategy_text j) (Ok parsed) ∧ previews parsed (Ok p) ∧
            spec_supported (specification parsed) ∧ original_text parsed = pj_strategy_text j ∧ shown_result = Some (preview_response parsed p)
        | _ => shown_result = None end →
      shown id user (mkJobResponse (pj_id j) (pj_status j) (pj_stage j) (pj_progress j) (pj_created_at j)
        (pj_started_at j) (pj_completed_at j) (pj_error_message j) shown_result)) as Hshow.
    { intros o Ho. exists (mkSubmission (pj_user_id j) (pj_strategy_text j)). split_and!; [done|done|done| |exact Herr].
      cbn. destruct (pj_status j); try done. split; [done|]. by apply Hf. }
    unfold job_response, stored_preview. destruct (pj_status j) eqn:Hs; cbn [mbind result_bind]; try (by apply Hshow).
    destruct (Hc eq_refl) as [doc Hdoc]. rewrite Hdoc.
    destruct (Hres doc Hdoc) as (parsed & p & Hp & Hpre & Hser). destruct (parses_ok _ _ Hp) as (Hsup & Horig & Hok).
    destruct Hpre as (power & table & Ht & Hrd & Hcp).
    rewrite (validate_serialized parsed p doc Hok (preview_dated power table parsed p Ht Hrd Hcp) Hser). cbn [mbind result_bind].
    apply Hshow. exists parsed, p. split_and!; [done| |done|done|done]. by exists power, table.
Qed.

Lemma step_sound `{!PydanticLaws P} s s' : system_step s s' → system_sound s → system_sound s'.
Proof.
  intros H Hs. destruct H as [? ? id sub r Hd H|? ? settings env describe sdk power table ? ? ? Hsdk Ht Hrd H|? ? ? ? ? ? H|? ? ? ? ? H|? H|? ? ? H|l1 pl l2 Hq ->].
  - by eapply runs_sound; [by apply pres_preview_strategy|exact H|].
  - eapply runs_sound; [|exact H|done]. apply pres_task; [intros; by eapply configured_parses|]. intros parsed. by exists power, table.
  - by eapply runs_sound; [apply pres_failure_callback|exact H|].
  - by eapply runs_sound; [apply pres_reconcile|exact H|].
  - by eapply runs_sound; [apply pres_cleanup|exact H|].
  - by eapply runs_sound; [apply pres_poll|exact H|].
  - destruct Hs as [Hj Hp]. split; [exact Hj|]. rewrite Hq in Hp. cbn.
    apply Forall_app in Hp as [H1 H2]. apply Forall_app. split; [exact H1|]. by apply Forall_cons_iff in H2 as [_ H2].
Qed.

Lemma reachable_sound `{!PydanticLaws P} s : reachable s → system_sound s.
Proof.
  unfold reachable. intros H. assert (system_sound (mkSystem ∅ [])) as H0 by (split; [intros id j; cbn; by rewrite lookup_empty|constructor]).
  revert H0. induction H as [|s1 s2 s3 H _ IH]; [done|]. intros Hs. by apply IH, (step_sound s1).
Qed.
End system.

(** ** The theorems *)

(** C5: What a user sees of a preview: in every state the running system can
    reach - any requests, worker tasks, failure callbacks, reconciliation
    passes and cleanups, in any interleaving of their transactions, with any
    failures and crashes, and whatever the language model answers - a poll
    answers 404, fails with the database, or shows the user's own request: a
    completed job shows exactly a preview that was computed, on stored market
    data, from a supported strategy parsed from the text of that very request
    (never 410); a failed one shows a message, and only one that is fixed or
    was raised about that text by validation, compilation or the lack of
    market data. *)
Theorem poll_integrity `{L : PydanticLaws} (drawn : UUID → option Submission) (id user : UUID) (s s' : System)
    (r : result PreviewJobResponse) :
  reachable drawn s → runs drawn (get_preview_job id user) s r s' →
  outcome r (shown drawn id user) (λ e, e = job_not_found ∨ db_error e).
Proof.
  intros Hr H. by eapply runs_sound; [apply pres_poll|exact H|apply reachable_sound].
Qed.

(** A request, its task and a poll, with nothing else going on. *)
Definition quiet_run (s : System) : World :=
  mkWorld (sys_jobs s) [] (λ n, Z.of_nat n) 0 (sys_queue s) [] [] [] [] "postgresql" [] "preview" [] 0.
Definition after {A} (m : IO A) (s : System) : System :=
  mkSystem (w_jobs (m (quiet_run s)).2) (w_queue (m (quiet_run s)).2).

Lemma runs_quiet drawn {A} (m : IO A) s : runs drawn m s (m (quiet_run s)).1 (after m s).
Proof. exists (quiet_run s). split_and!; try done. apply Forall_nil. done. Qed.

Definition sample_text : string := "Buy SPY when the close is above its 2 day SMA".
Definition sample_answer (key model text : string) : result ProviderResponse :=
  Ok (mkResponse (Some (draft_of (specification sample_parsed))) JNull).
Definition sample_drawn (id : UUID) : option Submission := if decide (id = 7) then Some (mkSubmission 1 sample_text) else None.
Definition sample_task : IO unit :=
  process_preview_job 5 2 (create_preview (λ x _, Ok x) sample_table)
    (configured_parser (Ok sample_settings) PRODUCTION (λ _, EmptyString) (Some sample_answer)) (Some 2) (uuid_str 7).

Lemma sample_answer_validates : client_validates (Some sample_answer).
Proof. intros client key model text r d [= <-] [= <-] [= <-]. reflexivity. Qed.

Lemma poll_integrity_witness :
  let s1 := after (preview_strategy 5 24 7 1 sample_text) (mkSystem ∅ []) in
  let s2 := after sample_task s1 in
  let r := (get_preview_job (P := exact_pydantic) 7 1 (quiet_run s2)).1 in
  outcome r (λ response, jr_status response = completed) (λ _, False) ∧
  outcome r (shown sample_drawn 7 1) (λ e, e = job_not_found ∨ db_error e).
Proof.
  cbv zeta. split; [vm_compute; reflexivity|].
  eapply (poll_integrity (L := exact_pydantic_laws) sample_drawn 7 1); [|apply runs_quiet].
  eapply rtc_l; [|eapply rtc_l; [|apply rtc_refl]].
  - eapply (step_submit sample_drawn _ _ 5 24 7 (mkSubmission 1 sample_text)); [reflexivity|apply runs_quiet].
  - eapply (step_task sample_drawn); [exact sample_answer_validates|exact sample_table_ok|exact sample_rows_dated|apply runs_quiet].
Defined.
