(* ===== verification/Exclusion.v ===== *)
(** * What the advisory lock of a job excludes

    A session that holds a job's lock relies on the others to leave its row
    alone.  Here the others are shown to do so: a task, a submission, a failure
    callback or a reconciliation step for another job never touches the row,
    and one for the same job that is denied the lock does nothing at all. *)

From S2P Require Import Prelude Models MarketData StrategySpec Preview Uuid Effects Rely JobStore JobRules PreviewJobService Reconciliation Worker Samples.
From Stdlib Require Import ZArith Lia.
From stdpp Require Import base list option strings gmap relations.
Local Open Scope Z_scope.
Local Open Scope io_scope.

Definition keyed_jobs (t : JobTable) : Prop := ∀ k j, t !! k = Some j → pj_id j = k.

Section leaves.
Context (id : UUID).

(** The row of [id] stays as it is, and rows stay under their keys. *)
Definition spares (t t' : JobTable) : Prop := keeps id t t' ∧ (keyed_jobs t → keyed_jobs t').
#[global] Instance spares_preorder : PreOrder spares.
Proof.
  unfold spares. split; [intros t; by split|]. intros t1 t2 t3 [] []. split; [by etransitivity|auto].
Qed.

Definition undisturbed (w : World) : Prop := respects spares w ∧ keyed_jobs (w_jobs w).

Abbreviation leaves m := (triple undisturbed spares m (λ _, True) anything).

Lemma leaves_db {A} (f : JobTable → result A * JobTable) (Q : A → Prop) :
  (∀ t, keyed_jobs t → spares t (f t).2 ∧ outcome (f t).1 Q anything) → triple undisturbed spares (db f) Q anything.
Proof.
  intros Hf w [Hr Hk]. apply (wp_db spares); [done|]. intros t w1 Ht ->.
  assert (keyed_jobs t) as Hkt by by apply Ht. destruct (Hf t Hkt) as [Hs Ho].
  assert (∀ t', spares t t' → spares (w_jobs w) t' ∧ undisturbed (set_jobs t' (pop_event w))) as H.
  { intros t' Ht'. split; [by etransitivity|]. split; [by apply (respects_pop spares)|]. by apply Ht'. }
  split; [|split; intros e He]; (split; [by apply H|]); (split; [by apply H|done]).
Qed.

Lemma leaves_local {A} (m : IO A) (Q : A → Prop) :
  (∀ w, w_jobs (m w).2 = w_jobs w ∧ w_events (m w).2 = w_events w ∧ outcome (m w).1 Q anything) →
  triple undisturbed spares m Q anything.
Proof.
  intros Hm. apply triple_same. intros w [Hr Hk]. destruct (Hm w) as (H1 & H2 & Ho). split_and!; [done| |done].
  split; [unfold respects; by rewrite H2|by rewrite H1].
Qed.

(** A change of one other row that keeps its identifier. *)
Lemma spares_insert k j j' t : k ≠ id → t !! k = Some j → pj_id j' = pj_id j → spares t (<[k := j']> t).
Proof.
  intros Hne Hj Hid. split; [unfold keeps; by apply lookup_insert_ne|]. intros Hk k' j2.
  destruct (decide (k' = k)) as [->|Hk']; [|rewrite lookup_insert_ne by done; apply Hk].
  rewrite lookup_insert_eq. intros [= <-]. rewrite Hid. by apply Hk.
Qed.

Lemma leaves_update_where k guard f : k ≠ id → (∀ j, pj_id (f j) = pj_id j) → leaves (db (update_where k guard f)).
Proof.
  intros Hne Hf. apply leaves_db. intros t Hk. unfold update_where.
  destruct (t !! k) as [j|] eqn:Hj; [destruct (guard j)|]; (split; [|done]); cbn; try reflexivity. by eapply spares_insert.
Qed.

Lemma leaves_flush k f : k ≠ id → (∀ j, pj_id (f j) = pj_id j) → leaves (db (flush k f)).
Proof.
  intros Hne Hf. apply leaves_db. intros t Hk. unfold flush.
  destruct (t !! k) as [j|] eqn:Hj; (split; [|done]); cbn; [by eapply spares_insert|reflexivity].
Qed.

Lemma leaves_read {A} (f : JobTable → result A) (Q : A → Prop) :
  (∀ t, keyed_jobs t → outcome (f t) Q anything) → triple undisturbed spares (db (λ t, (f t, t))) Q anything.
Proof. intros Hf. apply leaves_db. intros t Hk. split; [cbn; reflexivity|by apply Hf]. Qed.

Lemma leaves_rollback : leaves rollback.
Proof. by apply (leaves_read (λ _, Ok ())). Qed.

Lemma leaves_read_job_id k : leaves (read_job_id k).
Proof. by apply (leaves_read (λ _, Ok k)). Qed.

Lemma leaves_now : leaves datetime_now.
Proof. by apply leaves_local. Qed.

Lemma leaves_invalidate : leaves invalidate.
Proof. by apply leaves_local. Qed.

Lemma leaves_enqueue pl : leaves (queue_enqueue pl).
Proof.
  apply leaves_local. intros w. unfold queue_enqueue. by destruct (default None (head (w_queue_faults w))) as [[e []]|].
Qed.

Lemma leaves_active_ids : leaves queue_active_ids.
Proof. apply leaves_local. intros w. unfold queue_active_ids. cbn. by destruct (default _ (head (w_active w)) _). Qed.

Lemma leaves_refresh k : triple undisturbed spares (refresh_job k) (λ j, pj_id j = k) anything.
Proof.
  apply (leaves_read (λ t, match t !! k with Some j => Ok j | None => Err (OtherException "InvalidRequestError") end)).
  intros t Hk. destruct (t !! k) as [j|] eqn:Hj; [by apply Hk|done].
Qed.

Lemma leaves_read_job k : triple undisturbed spares (db (read_job k)) (λ o, ∀ j, o = Some j → pj_id j = k) anything.
Proof. apply (leaves_read (λ t, Ok (t !! k))). intros t Hk j Hj. by apply Hk. Qed.

Lemma leaves_emit r : leaves (emit r).
Proof. by apply leaves_local. Qed.

Lemma leaves_emit_queue r : leaves (emit_queue r).
Proof. by apply leaves_local. Qed.

(** A log call first. *)
Lemma leaves_logged {A} r (m : IO A) (Q : A → Prop) :
  triple undisturbed spares m Q anything → triple undisturbed spares (_ <~ emit r; m) Q anything.
Proof. intros Hm. eapply triple_bind; [apply leaves_emit|intros u _; exact Hm]. Qed.

Lemma leaves_queue_logged {A} r (m : IO A) (Q : A → Prop) :
  triple undisturbed spares m Q anything → triple undisturbed spares (_ <~ emit_queue r; m) Q anything.
Proof. intros Hm. eapply triple_bind; [apply leaves_emit_queue|intros u _; exact Hm]. Qed.

Lemma leaves_log_loaded o event previous new : leaves (log_loaded o event previous new).
Proof. destruct o; [apply leaves_emit|by apply triple_ret]. Qed.

(** *** Locks *)
Lemma leaves_try_acquire k : leaves (try_acquire_preview_job_lock k).
Proof.
  eapply triple_bind; [by apply (leaves_local on_postgresql (λ _, True))|]. intros [] _; cbn [negb]; [|by apply triple_ret].
  eapply triple_bind; [apply leaves_rollback|]. intros u _. apply leaves_local. intros w.
  destruct (w_polls w) as [|[[] ?] ?]; by split_and!.
Qed.

Lemma leaves_release k : leaves (release_preview_job_lock k).
Proof.
  eapply triple_bind; [by apply (leaves_local on_postgresql (λ _, True))|]. intros [] _; cbn [negb]; [|by apply triple_ret].
  eapply triple_bind; [apply leaves_rollback|]. intros u _. by apply leaves_local.
Qed.

Lemma leaves_release_or_invalidate failed k : leaves (release_or_invalidate failed k).
Proof.
  eapply triple_try; [|intros e _; eapply triple_bind; [apply leaves_invalidate|intros u _; apply leaves_emit_queue]].
  eapply triple_bind; [apply leaves_rollback|intros u _; apply leaves_release].
Qed.

Lemma leaves_acquire k timeout : leaves (acquire_preview_job_lock k timeout).
Proof.
  intros w Hw. assert (∀ fuel, leaves (acquire_loop fuel k timeout)) as Hloop.
  { induction fuel as [|fuel IH]; cbn [acquire_loop]; [by apply triple_ret|].
    eapply triple_bind; [apply leaves_try_acquire|]. intros [[] now] _; [by apply triple_ret|].
    eapply triple_bind; [apply leaves_rollback|]. intros u _. destruct now as [now|]; [|by apply triple_ret]. destruct (_ <=? _); [by apply triple_ret|exact IH]. }
  pose proof (Hloop (acquire_fuel w) w Hw) as H. unfold wp, acquire_preview_job_lock in *.
  destruct (acquire_loop _ _ _ _) as [[[b|]|e] w1]; destruct H as (? & ? & ?); by split_and!.
Qed.

(** *** The store, on another job *)
Context (k : UUID) (Hk : k ≠ id).

Lemma leaves_transition will_retry error : leaves (transition_job_after_operational_failure k will_retry error).
Proof using Hk.
  eapply (triple_bind _ _ (λ values, ∀ j, pj_id (values j) = pj_id j)).
  - destruct will_retry; [by apply triple_ret|]. eapply triple_bind; [apply leaves_now|]. intros now _. by apply triple_ret.
  - intros values Hv. eapply triple_bind; [by apply leaves_update_where|]. intros n _. unfold report_transition. cbv zeta.
    destruct (n =? 1); [|by apply triple_ret]. eapply triple_bind; [apply leaves_read_job|]. intros o _.
    eapply triple_bind; [apply leaves_log_loaded|intros u _; by apply triple_ret].
Qed.

Lemma leaves_claim allow : triple undisturbed spares (claim_job k allow) (λ o, ∀ j, o = Some j → pj_id j = k) anything.
Proof using Hk.
  eapply triple_bind; [apply leaves_now|]. intros now _. eapply triple_bind; [by apply leaves_update_where|].
  intros n _. destruct (negb _); [by apply triple_ret|]. eapply triple_bind; [apply leaves_read_job|intros o Ho].
  eapply triple_bind; [apply leaves_log_loaded|intros u _; by apply triple_ret].
Qed.

Lemma leaves_create user text name ttl : triple undisturbed spares (create_job k user text name ttl) (λ j, pj_id j = k) anything.
Proof using Hk.
  eapply triple_bind; [apply leaves_now|]. intros now _. eapply (triple_bind _ _ (λ _, True)); [|intros u _; eapply triple_bind; [apply leaves_refresh|intros j Hj; by apply leaves_logged, triple_ret]].
  apply leaves_db. intros t Hkt. unfold insert_job. destruct (_ && _); (split; [|done]); [|reflexivity]. cbn.
  split; [unfold keeps; by apply lookup_insert_ne|]. intros _ k' j. destruct (decide (k' = k)) as [->|Hne].
  - rewrite lookup_insert_eq. by intros [= <-].
  - rewrite lookup_insert_ne by done. apply Hkt.
Qed.

Lemma leaves_fail_job job m : pj_id job = k → leaves (fail_job job m).
Proof using Hk.
  intros Hid. eapply triple_bind; [apply leaves_now|]. intros now _. rewrite Hid.
  eapply triple_bind; [by apply leaves_flush|intros u _; apply leaves_emit].
Qed.

Lemma leaves_persist_failure job m : pj_id job = k → leaves (persist_failure job m).
Proof using Hk.
  intros Hid. eapply triple_try; [by apply leaves_fail_job|]. intros e _. destruct (transient_database_error e); [|by apply triple_raise].
  eapply triple_bind; [apply leaves_read_job_id|intros id' _].
  eapply triple_bind; [apply leaves_rollback|intros u _; by apply leaves_logged, triple_raise].
Qed.
End leaves.

(** ** Handlers of another job *)
Section others.
Context (id k : UUID) (Hk : k ≠ id).

Abbreviation leaves m := (triple (undisturbed id) (spares id) m (λ _, True) anything).

Lemma leaves_execute parse preview_factory job : pj_id job = k → leaves (execute_job parse preview_factory job).
Proof using Hk.
  intros Hid.
  assert (∀ stage pr, leaves (update_progress job stage pr)) as Hup.
  { intros stage pr. unfold update_progress. rewrite Hid. by apply leaves_flush. }
  apply (triple_bind _ _ (λ _, True)); [apply triple_lift; by destruct (parse _)|intros parsed _].
  do 4 (eapply triple_bind; [apply Hup|intros _ _]).
  apply (triple_bind _ _ (λ _, True)); [|intros preview _].
  { apply (leaves_read id (λ _, preview_factory parsed)). intros t _. by destruct (preview_factory parsed). }
  eapply triple_bind; [apply Hup|intros _ _].
  apply (triple_bind _ _ (λ _, True)); [apply triple_lift; by destruct (serialize_preview _ _)|intros document _].
  eapply triple_bind; [apply leaves_now|]. intros now _. rewrite Hid.
  eapply triple_bind; [by apply leaves_flush|intros u _; apply leaves_emit].
Qed.

Lemma leaves_handle_failure job e : (∀ j, job = Some j → pj_id j = k) → leaves (handle_failure k job e).
Proof using Hk.
  intros Hj. assert (leaves (raise_transient_failure (A := unit) k e)) as Htr.
  { eapply triple_bind; [apply leaves_rollback|intros u _; by apply leaves_logged, triple_raise]. }
  assert (∀ m, leaves (j <~ assert_job job; persist_failure j m)) as Hassert.
  { intros m. apply (triple_bind _ _ (λ j, pj_id j = k)); [|intros j Hid; by apply (leaves_persist_failure id k)].
    destruct job as [j|]; [apply triple_ret; by apply Hj|by apply triple_raise]. }
  destruct e; cbn [handle_failure]; try exact Htr; try apply leaves_logged, Hassert;
    (apply leaves_logged; destruct job as [j|]; [apply (leaves_persist_failure id k); [done|by apply Hj]|]);
    (eapply triple_bind; [apply leaves_rollback|intros u _]);
    (eapply triple_bind; [by apply leaves_transition|intros b _; by apply triple_ret]).
Qed.

Lemma leaves_run parse preview_factory allow : leaves (run_preview_job parse preview_factory k allow).
Proof using Hk.
  eapply triple_bind; [eapply triple_attempt, leaves_claim; exact Hk|]. intros [[job|]|e] Hclaim; [|by apply triple_ret|].
  - cbn in Hclaim. specialize (Hclaim job eq_refl). eapply triple_bind; [|intros u _; by apply triple_ret].
    eapply triple_try; [by apply leaves_execute|]. intros e _. apply leaves_handle_failure. by intros j [= <-].
  - eapply triple_bind; [by apply leaves_handle_failure|intros u _; by apply triple_ret].
Qed.

Lemma leaves_worker_failure e : leaves (handle_worker_failure k e).
Proof using Hk.
  unfold handle_worker_failure.
  destruct (transient_database_error e); [eapply triple_bind; [apply leaves_rollback|intros u _; by apply leaves_logged, triple_raise]|].
  destruct (decide _); [by apply triple_raise|]. eapply triple_bind; [apply leaves_rollback|intros u _]. apply leaves_logged.
  eapply triple_try; [eapply triple_bind; [by apply leaves_transition|intros b _; by apply triple_ret]|].
  intros e2 _. destruct (transient_database_error e2); (eapply triple_bind; [apply leaves_rollback|intros u' _]);
    [by apply triple_raise|apply leaves_emit].
Qed.

Lemma leaves_task lock_wait max_retries preview_factory make_parser retries text :
  uuid_of_string text = Ok k → leaves (process_preview_job lock_wait max_retries preview_factory make_parser retries text).
Proof using Hk.
  intros Htext. unfold process_preview_job. rewrite Htext.
  eapply triple_bind; [eapply triple_attempt, leaves_acquire|]. intros [[]|e] _; [|apply leaves_emit_queue|apply leaves_worker_failure].
  eapply triple_finally; [|apply leaves_release_or_invalidate].
  eapply (triple_try _ _ _ anything); [|intros e _; apply leaves_worker_failure].
  apply (triple_bind _ _ (λ _, True)); [apply triple_lift; by destruct make_parser|intros parser _].
  eapply triple_bind; [apply leaves_run|intros b _; by apply triple_ret].
Qed.

Lemma leaves_callback max_retries rq_job_id exception_type args retries :
  (∀ arg rest, args = arg :: rest → uuid_of_string arg ≠ Ok id) →
  leaves (handle_preview_job_failure max_retries rq_job_id exception_type args retries).
Proof.
  intros Hargs. destruct args as [|arg rest]; cbn [handle_preview_job_failure]; [apply leaves_emit|].
  specialize (Hargs arg rest eq_refl). destruct (uuid_of_string arg) as [k'|]; [|apply leaves_emit]. cbv zeta.
  eapply triple_bind; [apply leaves_transition; congruence|intros b _; apply leaves_emit_queue].
Qed.

Lemma leaves_submit lock_wait ttl user text name : leaves (submit_preview_job lock_wait ttl k user text name).
Proof using Hk.
  eapply triple_bind; [apply leaves_acquire|]. intros [] _; cbn [negb]; [|by apply leaves_queue_logged, triple_raise].
  eapply triple_finally; [|apply leaves_release_or_invalidate].
  eapply triple_bind; [by apply leaves_create|]. intros job Hid. eapply triple_bind; [|intros u _; by apply leaves_queue_logged, triple_ret].
  eapply triple_try; [apply leaves_enqueue|]. intros e _. apply leaves_queue_logged.
  eapply triple_bind; [by apply (leaves_fail_job id k)|intros u _; by apply triple_raise].
Qed.

Lemma leaves_reconcile_locked max_retries stale_after_seconds current_time s active_ids :
  leaves (reconcile_locked max_retries stale_after_seconds current_time k s active_ids).
Proof using Hk.
  eapply triple_bind; [apply leaves_refresh|]. intros job Hid. rewrite Hid.
  destruct (nonterminal job); cbn [negb]; [|by apply leaves_logged, triple_ret]. eapply triple_bind; [apply leaves_active_ids|]. intros ids _.
  destruct (bool_decide (k ∈ ids)); [by apply leaves_logged, triple_ret|]. destruct (_ || _).
  { eapply triple_bind; [by apply leaves_transition|intros b _; by apply leaves_logged, triple_ret]. }
  destruct (_ && _); [by apply leaves_logged, triple_ret|]. eapply (triple_bind _ _ (λ _, True)).
  - case_bool_decide; [|by apply triple_ret]. eapply triple_bind; [by apply leaves_transition|intros b _].
    eapply triple_mono; [apply leaves_refresh|done|done].
  - intros job' _. eapply triple_bind; [apply leaves_enqueue|intros u _; by apply leaves_logged, triple_ret].
Qed.

Lemma leaves_release_reconciled open : leaves (release_reconciled k open).
Proof.
  eapply triple_try; [|intros e _; eapply triple_bind; [apply leaves_invalidate|intros u _];
    eapply triple_bind; [apply leaves_read_job_id|intros id' _; by apply leaves_logged, triple_raise]].
  eapply triple_bind; [apply leaves_rollback|intros u _]. eapply (triple_bind _ _ (λ _, True)); [|intros u' _; apply leaves_release].
  destruct open; [|by apply triple_ret]. eapply triple_bind; [apply leaves_refresh|intros j _; by apply triple_ret].
Qed.

Lemma leaves_candidate max_retries stale_after_seconds current_time p candidate : pj_id candidate = k →
  leaves (reconcile_candidate max_retries stale_after_seconds current_time p candidate).
Proof using Hk.
  intros Hc. apply (triple_bind _ _ (λ j, pj_id j = k)).
  { rewrite Hc. destruct (pass_expired p); [apply leaves_refresh|by apply triple_ret]. }
  intros job Hid. rewrite Hid. destruct (bool_decide _); [by apply leaves_logged, triple_ret|]. destruct (_ && _); [by apply leaves_logged, triple_ret|].
  eapply triple_bind; [apply leaves_try_acquire|]. intros [[] now] _; cbn [negb]; [|by apply leaves_logged, triple_ret].
  eapply triple_bind; [eapply triple_attempt, leaves_reconcile_locked|]. intros r _.
  eapply triple_bind; [apply leaves_release_reconciled|intros u _].
  apply (triple_bind _ _ (λ _, True)); [apply triple_lift; by destruct r|]. intros [[s ids] open] _. by apply triple_ret.
Qed.
End others.

(** What works on another job than [id]. *)
Inductive foreign (id : UUID) : ∀ {A}, IO A → Prop :=
  | foreign_task lock_wait max_retries preview_factory make_parser retries text :
      uuid_of_string text ≠ Ok id →
      foreign id (process_preview_job lock_wait max_retries preview_factory make_parser retries text)
  | foreign_callback max_retries rq_job_id exception_type args retries :
      (∀ arg rest, args = arg :: rest → uuid_of_string arg ≠ Ok id) →
      foreign id (handle_preview_job_failure max_retries rq_job_id exception_type args retries)
  | foreign_submit lock_wait ttl k user text name : k ≠ id → foreign id (submit_preview_job lock_wait ttl k user text name)
  | foreign_candidate max_retries stale_after_seconds current_time p candidate :
      pj_id candidate ≠ id → foreign id (reconcile_candidate max_retries stale_after_seconds current_time p candidate).

Lemma foreign_leaves id {A} (m : IO A) : foreign id m → triple (undisturbed id) (spares id) m (λ _, True) anything.
Proof.
  intros [? ? ? ? ? text Htext| | |]; [|by apply leaves_callback|by apply leaves_submit|by eapply leaves_candidate].
  destruct (uuid_of_string text) as [k|] eqn:E; [apply (leaves_task id k); congruence|].
  unfold process_preview_job. rewrite E. apply leaves_emit.
Qed.

(** ** The same job, without its lock *)

(** Another session holds the lock until the deadline has passed. *)
Definition denied (deadline : Z) (polls : list (bool * Z)) : Prop :=
  ∃ n now, busy deadline n polls ∧ polls !! n = Some (false, now) ∧ deadline <= now.

(** Nothing was done to the row or the queue; only [records] were logged. *)
Definition idle_run (id : UUID) (records : list JobLog) (w w' : World) : Prop :=
  w_jobs w' !! id = w_jobs w !! id ∧ w_queue w' = w_queue w ∧ w_locks w' = w_locks w ∧
  w_queue_name w' = w_queue_name w ∧ w_log w' = w_log w ++ records.

Lemma idle_run_log id r w w' : idle_run id [] w w' → idle_run id [r] w (log_to r w').
Proof. intros (? & ? & ? & ? & Hl). split_and!; [done..|]. cbn. rewrite Hl. by rewrite app_nil_r. Qed.

Section denied.
Context (id : UUID).

Lemma wp_poll w :
  undisturbed id w → fault_free w → w_dialect w = "postgresql" →
  wp (try_acquire_preview_job_lock id) (λ r w',
    ∀ now rest, w_polls w = (false, now) :: rest →
      r = Ok (false, Some now) ∧ undisturbed id w' ∧ fault_free w' ∧ w_dialect w' = "postgresql" ∧ w_polls w' = rest ∧
      idle_run id [] w w') w.
Proof.
  intros [Hr Hk] Hf Hd. unfold try_acquire_preview_job_lock. apply wp_bind. unfold wp at 1, on_postgresql. rewrite Hd.
  change (String.eqb "postgresql" "postgresql") with true. cbn [fst snd negb]. unfold pg_try_advisory_lock. apply wp_bind.
  apply (wp_db_ok (spares id)); [done|done|]. intros t w1 [Ht Hkt] ->. unfold wp. cbn [fst snd]. intros now rest Hp.
  cbn [set_jobs pop_event set_events w_polls]. rewrite Hp. unfold idle_run. cbn. rewrite app_nil_r. split_and!; try done.
  - split; [exact (respects_pop (spares id) w Hr)|by apply Hkt].
  - exact (fault_free_pop w Hf).
Qed.

Lemma wp_idle_rollback w :
  undisturbed id w → fault_free w →
  wp rollback (λ r w', r = Ok () ∧ undisturbed id w' ∧ fault_free w' ∧ w_dialect w' = w_dialect w ∧ w_polls w' = w_polls w ∧
    idle_run id [] w w') w.
Proof.
  intros [Hr Hk] Hf. unfold rollback. apply (wp_db_ok (spares id)); [done|done|]. intros t w1 [Ht Hkt] ->. unfold idle_run.
  cbn. rewrite app_nil_r. split_and!; try done.
  - split; [exact (respects_pop (spares id) w Hr)|by apply Hkt].
  - exact (fault_free_pop w Hf).
Qed.

Lemma idle_run_trans w1 w2 w3 : idle_run id [] w1 w2 → idle_run id [] w2 w3 → idle_run id [] w1 w3.
Proof.
  unfold idle_run. rewrite !app_nil_r. intros (? & ? & ? & ? & ?) (? & ? & ? & ? & ?). split_and!; congruence.
Qed.

Lemma wp_loop_denied fuel deadline w :
  undisturbed id w → fault_free w → w_dialect w = "postgresql" → denied deadline (w_polls w) →
  (length (w_polls w) < fuel)%nat →
  wp (acquire_loop fuel id deadline) (λ r w', r = Ok (Some false) ∧ idle_run id [] w w') w.
Proof.
  revert w. induction fuel as [|fuel IH]; intros w Hw Hf Hd (n & now & Hb & Hn & Hdl) Hlen; [lia|]. cbn [acquire_loop].
  apply wp_bind. eapply wp_mono; [by apply wp_poll|]. intros r w1 Hpoll.
  destruct (w_polls w) as [|[a t0] rest] eqn:Hp; [by destruct n|].
  assert (a = false) as ->.
  { destruct n; [by injection Hn as -> _|]. unfold busy in Hb. cbn in Hb. by apply Forall_cons_iff in Hb as [[? _] _]. }
  destruct (Hpoll t0 rest eq_refl) as (-> & Hw1 & Hf1 & Hd1 & Hp1 & Hid1). cbn iota.
  apply wp_bind. eapply wp_mono; [by apply wp_idle_rollback|]. intros r w2 (-> & Hw2 & Hf2 & Hd2 & Hp2 & Hid2).
  pose proof (idle_run_trans _ _ _ Hid1 Hid2) as Hid. rewrite Hd1 in Hd2. rewrite Hp1 in Hp2.
  destruct (Z.leb_spec deadline t0) as [Hle|Hlt]; [by apply wp_ret|].
  destruct n as [|n]; [injection Hn as ->; lia|]. unfold busy in Hb. cbn in Hb. apply Forall_cons_iff in Hb as [_ Hb].
  eapply wp_mono; [apply IH; [done|done|done|rewrite Hp2; by exists n, now|rewrite Hp2; simpl in Hlen; lia]|].
  intros r w3 [-> H]. split; [done|]. by apply (idle_run_trans _ w2).
Qed.

Lemma wp_acquire_denied deadline w :
  undisturbed id w → fault_free w → w_dialect w = "postgresql" → denied deadline (w_polls w) →
  wp (acquire_preview_job_lock id deadline) (λ r w', r = Ok false ∧ idle_run id [] w w') w.
Proof.
  intros Hw Hf Hd Hden. pose proof (wp_loop_denied (acquire_fuel w) deadline w Hw Hf Hd Hden) as H.
  unfold wp, acquire_preview_job_lock in *. specialize (H ltac:(unfold acquire_fuel; lia)).
  destruct (acquire_loop _ _ _ _) as [r w1]. cbn [fst snd] in *. destruct H as [-> H]. done.
Qed.
End denied.

(** ** The theorem *)

(** C17: What a job's lock protects: while a session relies on its job's row
    staying as it is, no task, failure callback, submission or reconciliation
    step for another job touches that row, whatever fails; and one for the same
    job that is denied the lock until its deadline leaves the row and the queue
    alone: the task ends, the submission is refused, and the reconciliation
    counts the job and goes on, each with exactly one log record that says so. *)
Theorem lock_excludes (id : UUID) :
  (∀ A (m : IO A) w, foreign id m → undisturbed id w → wp m (λ _ w', w_jobs w' !! id = w_jobs w !! id) w) ∧
  (∀ w, undisturbed id w → fault_free w → w_dialect w = "postgresql" →
    (∀ lock_wait max_retries preview_factory make_parser retries, uuid_ok id → denied lock_wait (w_polls w) →
       wp (process_preview_job lock_wait max_retries preview_factory make_parser retries (uuid_str id))
         (λ r w', r = Ok () ∧ idle_run id [skipped_duplicate id (w_queue_name w)] w w') w) ∧
    (∀ lock_wait ttl user text name, denied lock_wait (w_polls w) →
       wp (submit_preview_job lock_wait ttl id user text name) (λ r w',
         r = Err submit_lock_error ∧ idle_run id [submission_lock_timeout id (w_queue_name w)] w w') w) ∧
    (∀ max_retries stale_after_seconds current_time p candidate now rest,
       w_polls w = (false, now) :: rest → pj_id candidate = id → pass_expired p = false →
       wp (reconcile_candidate max_retries stale_after_seconds current_time p candidate)
         (λ r w', ∃ action count,
            (action, count) ∈ [("active", add_active); ("awaiting_active_state", add_not_stale); ("lock_held", add_locked)]%string ∧
            r = Ok (mkPass (count (pass_summary p)) (pass_active p) false) ∧
            idle_run id [action_record max_retries candidate action (pj_status candidate) (pj_status candidate)] w w') w)).
Proof.
  split; [|intros w Hw Hf Hd; split_and!].
  - intros A m w Hm Hw. eapply wp_mono; [by apply (foreign_leaves id m Hm w)|]. by intros r w' ([Hk _] & _).
  - intros lock_wait max_retries preview_factory make_parser retries Hid Hden. unfold process_preview_job.
    rewrite uuid_roundtrip by done. apply wp_bind, wp_attempt. eapply wp_mono; [by apply wp_acquire_denied|].
    intros r w1 [-> H]. split; [done|]. replace (w_queue_name w) with (w_queue_name w1) by apply H. by apply idle_run_log.
  - intros lock_wait ttl user text name Hden. unfold submit_preview_job. apply wp_bind.
    eapply wp_mono; [by apply wp_acquire_denied|]. intros r w1 [-> H]. cbn [negb]. apply wp_emit_queue, wp_raise. split; [done|].
    replace (w_queue_name w) with (w_queue_name w1) by apply H. by apply idle_run_log.
  - intros max_retries stale_after_seconds current_time p candidate now rest Hp Hc He.
    unfold reconcile_candidate. rewrite He. apply wp_bind, wp_ret. rewrite Hc.
    assert (∀ action, idle_run id [action_record max_retries candidate action (pj_status candidate) (pj_status candidate)] w
      (log_to (action_record max_retries candidate action (pj_status candidate) (pj_status candidate)) w)) as Hlog.
    { intros action. apply idle_run_log. split_and!; [done..|]. by rewrite app_nil_r. }
    destruct (bool_decide _); [apply wp_emit, wp_ret; exists "active"%string, add_active; split; [set_solver|by split]|].
    destruct (_ && _); [apply wp_emit, wp_ret; exists "awaiting_active_state"%string, add_not_stale; split; [set_solver|by split]|].
    apply wp_bind. eapply wp_mono; [by apply wp_poll|]. intros r w1 Hpoll. destruct (Hpoll now rest Hp) as (-> & _ & _ & _ & _ & H).
    apply wp_emit, wp_ret. exists "lock_held"%string, add_locked. split; [set_solver|]. split; [done|]. by apply idle_run_log.
Qed.

(** Another worker holds the lock of job 7. *)
Definition busy_world : World := quiet_world {[ 7 := sample_job ]} [(false, 1); (false, 9)].

Lemma lock_excludes_witness :
  let task id := process_preview_job 5 2 (create_preview (λ x _, Ok x) sample_table) (Ok (λ _, Ok sample_parsed)) (Some 2) (uuid_str id) in
  wp (task 8) (λ _ w', w_jobs w' !! 7 = w_jobs busy_world !! 7) busy_world ∧
  wp (task 7) (λ r w', r = Ok () ∧ idle_run 7 [skipped_duplicate 7 "preview"] busy_world w') busy_world.
Proof.
  cbv zeta. assert (undisturbed 7 busy_world) as Hw.
  { split; [apply quiet_respects|]. intros k j Hj. unfold busy_world in Hj. cbn [quiet_world w_jobs] in Hj.
    by apply lookup_singleton_Some in Hj as [<- <-]. }
  destruct (lock_excludes 7) as [Hforeign Hsame]. split.
  - apply Hforeign; [|exact Hw]. apply foreign_task. rewrite uuid_roundtrip by (by split). intros [=].
  - apply (Hsame busy_world Hw); [apply quiet_fault_free|reflexivity|by split|].
    exists 1%nat, 9. split_and!; [by repeat constructor|done|lia].
Defined.
