(* ===== verification/Journal.v ===== *)
(** * The journal of the job system
    (the log calls of [backend/app/services/job_store.py],
    [preview_job_service.py], [preview_reconciliation.py] and
    [backend/app/workers/preview_worker.py], as [core/logging.py] prints them)

    What any handler may write: records whose fields follow one schema, with
    values from fixed vocabularies, and nothing of a strategy's text among
    them; and what the formatter makes of them: lines that show every field. *)

From S2P Require Import Prelude Models MarketData StrategySpec Auth Serialization JsonText Logging Uuid Preview Responses Effects Rely JobStore JobRules PreviewJobService Reconciliation Worker JobApi Commands Samples.
From Stdlib Require Import ZArith Lia.
From stdpp Require Import base list option strings gmap relations.
Local Open Scope Z_scope.
Local Open Scope io_scope.

(** Membership in a vocabulary, and distinct keys, by computation. *)
Ltac vocabulary := apply (bool_decide_unpack _); vm_compute; reflexivity.

(** ** The schema *)
Definition EVENTS : list string :=
  ["preview_job_created"; "preview_job_claimed"; "preview_job_completed"; "preview_job_failed";
   "preview_job_operational_transition"; "preview_job_transition"; "preview_submission_lock"; "preview_enqueue";
   "preview_lock"; "preview_reconciliation"; "preview_reconciliation_lock"; "reconciliation_completed"]%string.
Definition STATUSES : list string :=
  ["queued"; "running"; "completed"; "failed"; "queued_or_running"; "running_or_queued"]%string.
Definition ACTIONS : list string :=
  ["active"; "awaiting_active_state"; "lock_held"; "terminal_state"; "active_after_lock"; "failed_exhausted";
   "awaiting_active_state_after_lock"; "re_enqueued"]%string.
Definition OUTCOMES : list string := ["success"; "timeout"; "failed"; "release_failed"]%string.

Section schema.
Context (queue : string).

Inductive field_ok : string * LogValue → Prop :=
  | field_event e : e ∈ EVENTS → field_ok ("event"%string, JsonValue (JStr e))
  | field_component c : c ∈ ["api"; "worker"; "job_store"]%string → field_ok ("component"%string, JsonValue (JStr c))
  | field_job id : field_ok ("job_id"%string, JsonValue (JStr (uuid_str id)))
  | field_queue q : q ∈ ["preview"%string; queue] → field_ok ("queue"%string, JsonValue (JStr q))
  | field_created : field_ok ("previous_status"%string, JsonValue JNull)
  | field_previous s : s ∈ STATUSES → field_ok ("previous_status"%string, JsonValue (JStr s))
  | field_new s : s ∈ STATUSES → field_ok ("new_status"%string, JsonValue (JStr s))
  | field_action a : a ∈ ACTIONS → field_ok ("reconciliation_action"%string, JsonValue (JStr a))
  | field_attempt n : field_ok ("attempt"%string, JsonValue (JInt n))
  | field_max_attempts n : field_ok ("max_attempts"%string, JsonValue (JInt n))
  | field_outcome o : o ∈ OUTCOMES → field_ok ("outcome"%string, JsonValue (JStr o))
  | field_duration h : field_ok ("duration_ms"%string, Milliseconds h)
  (* the class of the exception that ended an execution *)
  | field_execution class o :
      o ∈ [":state_changed"; ":state_unchanged"]%string → field_ok ("outcome"%string, JsonValue (JStr (class +:+ o))).

Record entry_ok (r : JobLog) : Prop := mkEntryOk {
  entry_fields : Forall field_ok (jl_extra r);
  entry_keys : NoDup (jl_extra r).*1 }.

Lemma field_ok_key kv : field_ok kv → kv.1 ∈ OPERATIONAL_FIELDS.
Proof. intros []; cbn [fst]; apply (bool_decide_unpack _); by vm_compute. Qed.

(** *** The records of the code *)
Lemma status_name_in s : status_name s ∈ STATUSES.
Proof. destruct s; apply (bool_decide_unpack _); by vm_compute. Qed.

Ltac schema :=
  constructor; cbn [jl_extra log_fields fmap list_fmap fst snd];
  [repeat (apply Forall_cons; split); try apply Forall_nil; try done; econstructor; try done;
     first [apply status_name_in|by left|by right; left|vocabulary]
  |vocabulary].

Lemma plain_entry level message : entry_ok (mkJobLog level message []).
Proof. by constructor; [apply Forall_nil|apply NoDup_nil]. Qed.

Lemma transition_entry job event previous new :
  event ∈ EVENTS → field_ok ("previous_status"%string, JsonValue previous) → new ∈ STATUSES →
  entry_ok (transition_record job event previous new).
Proof. intros He Hp Hn. unfold transition_record. schema. Qed.

Lemma outcome_entry level message event component id outcome q :
  event ∈ EVENTS → component ∈ ["api"; "worker"; "job_store"]%string → outcome ∈ OUTCOMES → q ∈ ["preview"%string; queue] →
  entry_ok (outcome_record level message event component id outcome q).
Proof. intros He Hc Ho Hq. unfold outcome_record. schema. Qed.

Lemma action_entry max_retries job action previous new : action ∈ ACTIONS → entry_ok (action_record max_retries job action previous new).
Proof. intros Ha. unfold action_record. schema. Qed.
End schema.

(** ** Computations that only append such records *)
Section journal.
Context (queue : string) (before : list JobLog).

Definition journal (w : World) : Prop :=
  w_queue_name w = queue ∧ ∃ new, w_log w = before ++ new ∧ Forall (entry_ok queue) new.

Definition any_table (t t' : JobTable) : Prop := True.
#[global] Instance any_table_preorder : PreOrder any_table.
Proof. done. Qed.

Abbreviation writes m := (triple journal any_table m (λ _, True) anything).

Lemma writes_bind {A B} (m : IO A) (f : A → IO B) : writes m → (∀ a, writes (f a)) → writes (io_bind m f).
Proof. intros Hm Hf. by apply (triple_bind _ _ (λ _, True)). Qed.

Lemma writes_try {A} (m : IO A) h : writes m → (∀ e, writes (h e)) → writes (io_try m h).
Proof. intros Hm Hh. by apply (triple_try _ _ _ anything). Qed.

Lemma writes_finally {A} (m : IO A) f : writes m → writes f → writes (io_finally m f).
Proof. intros Hm Hf. by apply (triple_finally _ _ _ _ (λ _, True)). Qed.

Lemma writes_attempt {A} (m : IO A) : writes m → writes (io_attempt m).
Proof. intros Hm. eapply triple_mono; [exact (triple_attempt _ _ _ anything Hm)|done|done]. Qed.

Lemma trivial_outcome {A} (r : result A) : outcome r (λ _, True) anything.
Proof. by destruct r. Qed.

Lemma writes_lift {A} (r : result A) : writes (io_lift r).
Proof. apply triple_lift, trivial_outcome. Qed.

Lemma writes_ret {A} (a : A) : writes (io_ret a).
Proof. by apply triple_ret. Qed.

Lemma writes_raise {A} e : writes (io_raise (A := A) e).
Proof. by apply triple_raise. Qed.

(** A step that logs nothing. *)
Lemma writes_silent {A} (m : IO A) :
  (∀ w, w_log (m w).2 = w_log w ∧ w_queue_name (m w).2 = w_queue_name w) → writes m.
Proof.
  intros Hm w (Hq & Hl). destruct (Hm w) as [H1 H2]. split_and!; [done| |apply trivial_outcome].
  split; [by rewrite H2|by rewrite H1].
Qed.

Lemma writes_emit r : entry_ok queue r → writes (emit r).
Proof.
  intros Hr w (Hq & new & Hl & Hn). split_and!; [done| |done]. split; [exact Hq|]. exists (new ++ [r]). cbn.
  rewrite Hl, app_assoc. split; [done|]. apply Forall_app. split; [done|by apply Forall_singleton].
Qed.

Lemma writes_emit_elapsed r : (∀ elapsed, entry_ok queue (r elapsed)) → writes (emit_elapsed r).
Proof. intros Hr w Hw. by apply writes_emit. Qed.

Lemma writes_emit_queue r : entry_ok queue (r queue) → writes (emit_queue r).
Proof. intros Hr w Hw. pose proof Hw as [Hq _]. unfold wp, emit_queue. rewrite Hq. by apply (writes_emit (r queue)). Qed.

Lemma writes_db {A} (f : JobTable → result A * JobTable) : writes (db f).
Proof. apply writes_silent. intros w. unfold db. destruct (f _). by destruct (ev_fault _) as [[? []]|]. Qed.

Lemma writes_read_job_id id : writes (read_job_id id).
Proof. apply writes_db. Qed.

Lemma writes_now : writes datetime_now.
Proof. by apply writes_silent. Qed.

Lemma writes_enqueue pl : writes (queue_enqueue pl).
Proof. apply writes_silent. intros w. unfold queue_enqueue. by destruct (default None _) as [[? []]|]. Qed.

Lemma writes_active : writes queue_active_ids.
Proof. by apply writes_silent. Qed.

Lemma writes_postgresql : writes on_postgresql.
Proof. by apply writes_silent. Qed.

Lemma writes_invalidate : writes invalidate.
Proof. by apply writes_silent. Qed.

Lemma writes_polls keys : writes (pg_try_advisory_lock keys).
Proof.
  apply writes_bind; [apply writes_db|intros u]. apply writes_silent. intros w. by destruct (w_polls w) as [|[[] ?] ?].
Qed.

Lemma writes_unlock keys : writes (pg_advisory_unlock keys).
Proof. apply writes_bind; [apply writes_db|intros u; by apply writes_silent]. Qed.

Lemma writes_text level a id b : writes (log_text level a id b).
Proof. apply writes_emit, plain_entry. Qed.

Lemma writes_transition_log job event previous new :
  event ∈ EVENTS → field_ok queue ("previous_status"%string, JsonValue previous) → new ∈ STATUSES →
  writes (log_transition job event previous new).
Proof. intros. by apply writes_emit, transition_entry. Qed.
End journal.

Create HintDb writes.
#[export] Hint Resolve writes_lift writes_ret writes_raise writes_db writes_read_job_id writes_now writes_enqueue writes_active
  writes_postgresql writes_invalidate writes_polls writes_unlock writes_text : writes.

(** Follow the syntax of a computation. *)
Ltac writes_tac :=
  repeat (intros; match goal with
  | |- triple _ _ (io_bind _ _) _ _ => apply writes_bind
  | |- triple _ _ (io_try _ _) _ _ => apply writes_try
  | |- triple _ _ (io_finally _ _) _ _ => apply writes_finally
  | |- triple _ _ (io_attempt _) _ _ => apply writes_attempt
  | |- triple _ _ (log_action _ _ _ _ _) _ _ => apply writes_emit, action_entry; vocabulary
  | |- triple _ _ (log_kept _ _ _) _ _ => apply writes_emit, action_entry; vocabulary
  | |- triple _ _ (match ?x with _ => _ end) _ _ => destruct x
  | |- triple _ _ _ _ _ => solve [auto with writes]
  end); intros.

(** ** The handlers *)
Section handlers.
Context (queue : string) (before : list JobLog).

Abbreviation writes m := (triple (journal queue before) any_table m (λ _, True) anything).

(** *** The store *)
Lemma writes_log_loaded o event previous new :
  event ∈ EVENTS → previous ∈ STATUSES → new ∈ STATUSES → writes (log_loaded o event previous new).
Proof. intros He Hp Hn. destruct o; [|apply writes_ret]. apply writes_transition_log; [done|by apply field_previous|done]. Qed.

Lemma writes_create id user text name ttl : writes (create_job id user text name ttl).
Proof.
  unfold create_job, refresh_job. writes_tac. apply writes_transition_log; [vocabulary|apply field_created|vocabulary].
Qed.

Lemma writes_claim id allow : writes (claim_job id allow).
Proof. unfold claim_job, report_claim. destruct allow; writes_tac; apply writes_log_loaded; vocabulary. Qed.

Lemma writes_complete job document : writes (complete_job job document).
Proof.
  unfold complete_job. writes_tac. apply writes_transition_log; [vocabulary|apply field_previous, status_name_in|vocabulary].
Qed.

Lemma writes_fail job error : writes (fail_job job error).
Proof.
  unfold fail_job. writes_tac. apply writes_transition_log; [vocabulary|apply field_previous, status_name_in|vocabulary].
Qed.

Lemma writes_progress job stage progress : writes (update_progress job stage progress).
Proof. apply writes_db. Qed.

Lemma writes_transition id will_retry error : writes (transition_job_after_operational_failure id will_retry error).
Proof.
  unfold transition_job_after_operational_failure, report_transition. cbv zeta.
  destruct will_retry; writes_tac; apply writes_log_loaded; vocabulary.
Qed.

Lemma writes_refresh id : writes (refresh_job id).
Proof. apply writes_db. Qed.

Lemma writes_delete_expired now : writes (delete_expired_jobs now).
Proof. unfold delete_expired_jobs. writes_tac. Qed.

(** *** Locks *)
Lemma writes_try_acquire id : writes (try_acquire_preview_job_lock id).
Proof. unfold try_acquire_preview_job_lock. writes_tac. Qed.

Lemma writes_release id : writes (release_preview_job_lock id).
Proof. unfold release_preview_job_lock. writes_tac. Qed.

Lemma writes_acquire_loop fuel id deadline : writes (acquire_loop fuel id deadline).
Proof.
  induction fuel as [|fuel IH]; cbn [acquire_loop]; [apply writes_ret|].
  apply writes_bind; [apply writes_try_acquire|]. intros [[] now]; [apply writes_ret|].
  apply writes_bind; [apply writes_db|]. intros u. destruct now as [now|]; [|apply writes_ret].
  destruct (_ <=? _); [apply writes_ret|exact IH].
Qed.

Lemma writes_acquire id timeout : writes (acquire_preview_job_lock id timeout).
Proof.
  intros w Hw. pose proof (writes_acquire_loop (acquire_fuel w) id timeout w Hw) as H. unfold wp, acquire_preview_job_lock in *.
  destruct (acquire_loop _ _ _ _) as [[[b|]|e] w1]; destruct H as (H1 & H2 & H3); by split_and!.
Qed.

Lemma writes_release_or_invalidate failed id :
  entry_ok queue (failed queue) → writes (release_or_invalidate failed id).
Proof.
  intros Hf. unfold release_or_invalidate, rollback.
  apply writes_try; [apply writes_bind; [apply writes_db|intros u; apply writes_release]|].
  intros e. apply writes_bind; [apply writes_invalidate|intros u; by apply writes_emit_queue].
Qed.
End handlers.

#[export] Hint Resolve writes_create writes_claim writes_complete writes_fail writes_progress writes_transition writes_refresh
  writes_delete_expired writes_try_acquire writes_release writes_acquire : writes.

(** A record about a lock or a hand-over that names the configured queue. *)
Ltac outcome_tac := apply outcome_entry; [vocabulary..|by right; left].

Section handlers.
Context (queue : string) (before : list JobLog).

Abbreviation writes m := (triple (journal queue before) any_table m (λ _, True) anything).

Lemma submitted_entry id : entry_ok queue (submitted_record id queue).
Proof.
  constructor; [|vocabulary]. cbn [submitted_record jl_extra log_fields fmap list_fmap fst snd].
  repeat (apply Forall_cons; split); [..|by apply Forall_nil]; econstructor; try vocabulary. by right; left.
Qed.

Lemma writes_submit lock_wait ttl id user text name : writes (submit_preview_job lock_wait ttl id user text name).
Proof.
  unfold submit_preview_job. writes_tac.
  - apply writes_emit_queue. unfold submission_lock_timeout. outcome_tac.
  - apply writes_emit_queue. unfold enqueue_failed. outcome_tac.
  - apply writes_emit_queue, submitted_entry.
  - apply writes_release_or_invalidate. unfold submission_release_failed. outcome_tac.
Qed.

(** *** Execution *)
Lemma writes_rollback : writes rollback.
Proof. apply writes_db. Qed.

Lemma writes_raise_transient {A} id e : writes (raise_transient_failure (A := A) id e).
Proof. unfold raise_transient_failure, rollback. writes_tac. Qed.

Lemma writes_persist_failure job message : writes (persist_failure job message).
Proof. unfold persist_failure. writes_tac. apply writes_raise_transient. Qed.

Lemma writes_handle_failure id job e : writes (handle_failure id job e).
Proof.
  destruct e; cbn [handle_failure]; unfold rollback; writes_tac;
    first [apply writes_raise_transient|apply writes_persist_failure|unfold assert_job; writes_tac].
Qed.

Lemma writes_run parse preview_factory id allow : writes (run_preview_job parse preview_factory id allow).
Proof.
  unfold run_preview_job, execute_job. writes_tac; apply writes_handle_failure.
Qed.

(** *** The worker *)
Lemma writes_worker_failure id e : writes (handle_worker_failure id e).
Proof. unfold handle_worker_failure, rollback. writes_tac. Qed.

Lemma writes_task lock_wait max_retries preview_factory make_parser retries text :
  writes (process_preview_job lock_wait max_retries preview_factory make_parser retries text).
Proof.
  unfold process_preview_job, execute_locked. writes_tac;
    first [apply writes_run|apply writes_worker_failure
          |apply writes_release_or_invalidate; unfold task_release_failed; outcome_tac
          |apply writes_emit_queue; unfold skipped_duplicate; outcome_tac
          |apply writes_emit, plain_entry].
Qed.

Lemma execution_failed_entry max_retries class id retries_left changed :
  entry_ok queue (execution_failed max_retries class id retries_left changed queue).
Proof.
  constructor; [|vocabulary]. cbn [execution_failed jl_extra log_fields fmap list_fmap fst snd]. repeat (apply Forall_cons; split);
    [apply field_event; vocabulary|apply field_component; vocabulary|apply field_job|apply field_queue; by right; left
    |apply field_previous; vocabulary|apply field_new; destruct (0 <? retries_left); vocabulary|apply field_attempt
    |apply field_max_attempts|apply field_execution; destruct changed; vocabulary|by apply Forall_nil].
Qed.

Lemma writes_callback max_retries rq_job_id class args retries :
  writes (handle_preview_job_failure max_retries rq_job_id class args retries).
Proof.
  unfold handle_preview_job_failure. cbv zeta. writes_tac; try apply writes_emit, plain_entry.
  apply writes_emit_queue, execution_failed_entry.
Qed.

(** *** Reconciliation *)
Section reconciliation.
Context (max_retries stale_after_seconds : Z) (current_time : datetime).

Lemma writes_reconcile_locked id s ids : writes (reconcile_locked max_retries stale_after_seconds current_time id s ids).
Proof. unfold reconcile_locked. cbv zeta. writes_tac. Qed.

Lemma writes_release_reconciled id open : writes (release_reconciled id open).
Proof.
  unfold release_reconciled, rollback. writes_tac. apply writes_emit. unfold reconciliation_release_failed.
  apply outcome_entry; [vocabulary..|by left].
Qed.

Lemma writes_candidate p candidate : writes (reconcile_candidate max_retries stale_after_seconds current_time p candidate).
Proof.
  unfold reconcile_candidate. cbv zeta.
  writes_tac; first [apply writes_reconcile_locked|apply writes_release_reconciled].
Qed.

Lemma writes_loop candidates p : writes (reconcile_loop max_retries stale_after_seconds current_time p candidates).
Proof.
  revert p. induction candidates as [|job candidates IH]; intros p; cbn [reconcile_loop]; [apply writes_ret|].
  apply writes_bind; [apply writes_candidate|exact IH].
Qed.
End reconciliation.

Lemma completed_entry elapsed : entry_ok queue (completed_record elapsed).
Proof.
  constructor; [|vocabulary]. cbn [completed_record jl_extra log_fields fmap list_fmap fst snd app].
  repeat (apply Forall_cons; split); [..|by apply Forall_nil]; econstructor; vocabulary.
Qed.

Lemma writes_reconcile max_retries stale_after_seconds batch_size now :
  writes (reconcile_preview_jobs max_retries stale_after_seconds batch_size now).
Proof.
  unfold reconcile_preview_jobs, list_reconciliation_candidates. cbv zeta. writes_tac.
  - apply writes_loop.
  - apply writes_emit_elapsed, completed_entry.
Qed.
End handlers.

(** Whatever the job system runs. *)
Inductive handler `{Pydantic} : ∀ {A}, IO A → Prop :=
  | handler_submit lock_wait ttl id user text : handler (preview_strategy lock_wait ttl id user text)
  | handler_poll id user : handler (get_preview_job id user)
  | handler_task lock_wait max_retries preview_factory make_parser retries text :
      handler (process_preview_job lock_wait max_retries preview_factory make_parser retries text)
  | handler_callback max_retries rq_job_id class args retries :
      handler (handle_preview_job_failure max_retries rq_job_id class args retries)
  | handler_reconcile max_retries stale_after_seconds batch_size now :
      handler (reconcile_preview_jobs max_retries stale_after_seconds batch_size now)
  | handler_cleanup : handler cleanup_main.

Lemma handler_writes `{Pydantic} {A} (m : IO A) queue before :
  handler m → triple (journal queue before) any_table m (λ _, True) anything.
Proof.
  intros []; [|unfold get_preview_job, get_job; writes_tac|apply writes_task|apply writes_callback|apply writes_reconcile
             |unfold cleanup_main; writes_tac].
  unfold preview_strategy, rollback. writes_tac. apply writes_submit.
Qed.

(** ** The lines *)
Definition level_name (l : JobLogLevel) : string :=
  match l with log_info => "INFO" | log_warning => "WARNING" | log_error | log_exception => "ERROR" end.

(** The record the logger [name] builds at [created]; [traceback] is the text of
    the exception being handled. *)
Definition logged_record (created : datetime) (name traceback : string) (r : JobLog) : LoggedRecord :=
  mkLogged created (level_name (jl_level r)) name (jl_message r)
    (match jl_level r with log_exception => Some traceback | _ => None end) (jl_extra r).

Lemma obj_get_in {A} key (v : A) fields : NoDup fields.*1 → (key, v) ∈ fields → obj_get key fields = Some v.
Proof.
  induction fields as [|[k v'] fields IH]; [by intros _ ?%not_elem_of_nil|]. rewrite fmap_cons. intros [Hk Hd]%NoDup_cons Hin.
  change ((k, v') :: fields) with ([(k, v')] ++ fields). rewrite obj_get_app. apply elem_of_cons in Hin as [[= -> ->]|Hin].
  - rewrite obj_get_absent by done. unfold obj_get. cbn. by rewrite String.eqb_refl.
  - by rewrite IH.
Qed.

(** The line shows the record: all of its fields, and no other. *)
Definition shows (r : JobLog) (line : string) : Prop :=
  ∃ payload, log_loads line = Some payload ∧
    obj_get "message" payload = Some (JsonValue (JStr (jl_message r))) ∧
    obj_get "level" payload = Some (JsonValue (JStr (level_name (jl_level r)))) ∧
    (∀ key v, key ∈ OPERATIONAL_FIELDS → obj_get key payload = Some v ↔ (key, v) ∈ jl_extra r).

Lemma entry_shown queue r created name traceback :
  entry_ok queue r → shows r (format (logged_record created name traceback r)).
Proof.
  intros [Hf Hd]. destruct (log_line_exact (logged_record created name traceback r)) as (_ & Hl & _ & _ & Hlv & _ & Hm & _ & Hop & _).
  eexists. split; [exact Hl|]. split; [exact Hm|]. split; [exact Hlv|]. intros key v Hk. rewrite Hop by done.
  unfold attribute. cbn [logged_record lr_extra]. split; [|by apply obj_get_in].
  intros Hg. destruct (decide (key ∈ (jl_extra r).*1)) as [Hin|Hout].
  - apply list_elem_of_fmap in Hin as ([k v'] & -> & Hin). pose proof (obj_get_in _ _ _ Hd Hin) as Hg'. cbn [fst] in *. congruence.
  - by rewrite obj_get_absent in Hg.
Qed.

(** ** The theorem *)

(** C37: The journal of the job system: whatever a handler does and whatever
    fails, it only appends to the log, and each record it appends has distinct
    fields with values from the schema's vocabularies - an event, a component,
    the job's identifier, a queue, statuses, counts, a duration, an outcome or the
    class of an exception, never the text of a strategy - which the formatter prints as
    one JSON line that shows the message, the level and exactly these fields. *)
Theorem journal_sound `{P : Pydantic} {A} (m : IO A) (w : World) (created : datetime) (name traceback : string) :
  handler m →
  ∃ new, w_log (m w).2 = w_log w ++ new ∧
    Forall (λ r, entry_ok (w_queue_name w) r ∧ shows r (format (logged_record created name traceback r))) new.
Proof.
  intros Hm. destruct (handler_writes m (w_queue_name w) (w_log w) Hm w) as (_ & (_ & new & Hl & Hn) & _).
  - split; [done|]. exists []. by rewrite app_nil_r.
  - exists new. split; [exact Hl|]. eapply Forall_impl; [exact Hn|]. intros r Hr. split; [done|]. by eapply entry_shown.
Qed.

(** A worker finds its job's lock taken. *)
Lemma journal_sound_witness :
  let m := process_preview_job 5 2 (create_preview (λ x _, Ok x) sample_table) (Ok (λ _, Ok sample_parsed)) (Some 2) (uuid_str 7) in
  let w := quiet_world {[ 7 := sample_job ]} [(false, 9)] in
  w_log (m w).2 = [skipped_duplicate 7 "preview"] ∧
  ∃ new, w_log (m w).2 = w_log w ++ new ∧
    Forall (λ r, entry_ok "preview" r ∧ shows r (format (logged_record 0 "app.workers.preview_worker" "" r))) new.
Proof.
  cbv zeta. split; [vm_compute; reflexivity|].
  apply (journal_sound (P := exact_pydantic) _ (quiet_world {[ 7 := sample_job ]} [(false, 9)])). apply handler_task.
Defined.
