(* ===== verification/Api.v ===== *)
(** * The HTTP application
    ([create_app] of [backend/app/main.py], [backend/app/api/router.py], the
    route declarations of [backend/app/api/routes])

    The routes in the order of their registration, with their status codes and
    what their signatures depend on, and a request's way through them to the
    handlers of the other files.  FastAPI is a library: how it finds the route
    of a request is a class with the documented laws.  As documented, it first
    decodes the body of a route that declares one, and answers 422 or 400 when
    it cannot; then it resolves the dependencies of the route, before it checks
    the path and the body; it refuses an invalid request with 422, and answers
    500 to an exception that is not an [HTTPException]. *)

From S2P Require Import Prelude Models StrategySpec Serialization Config Uuid Auth Effects Database Logging Operations StrategyApi Responses JobStore PreviewJobService JobApi.
From Stdlib Require Import ZArith Lia.
From stdpp Require Import base list option strings gmap.
Local Open Scope Z_scope.

(** ** Routes *)
Inductive Method : Type := GET | POST | PUT | PATCH | DELETE | OPTIONS.
#[global] Instance method_eq_dec : EqDecision Method.
Proof. solve_decision. Defined.

Inductive Segment : Type := Literal (text : string) | Param (name : string).
#[global] Instance segment_eq_dec : EqDecision Segment.
Proof. solve_decision. Defined.

Inductive Endpoint : Type :=
  | health_endpoint | ready_endpoint | auth_me_endpoint | get_preview_job_endpoint | preview_strategy_endpoint
  | save_confirmed_strategy_endpoint | create_strategy_endpoint | list_strategies_endpoint | get_strategy_endpoint
  | update_strategy_endpoint | delete_strategy_endpoint.
#[global] Instance endpoint_eq_dec : EqDecision Endpoint.
Proof. solve_decision. Defined.

Record Route : Type := mkRoute {
  rt_method : Method; rt_path : list Segment; rt_status : Z; rt_endpoint : Endpoint }.
#[global] Instance route_eq_dec : EqDecision Route.
Proof. solve_decision. Defined.

(** [APIRouter(prefix=...)] *)
Definition with_prefix (prefix : list Segment) (routes : list Route) : list Route :=
  (λ r, mkRoute (rt_method r) (prefix ++ rt_path r) (rt_status r) (rt_endpoint r)) <$> routes.

(** The decorators of the handlers. *)
Definition health_route : Route := mkRoute GET [Literal "health"] 200 health_endpoint.
Definition ready_route : Route := mkRoute GET [Literal "ready"] 200 ready_endpoint.
Definition auth_me_route : Route := mkRoute GET [Literal "me"] 200 auth_me_endpoint.
Definition get_preview_job_route : Route := mkRoute GET [Param "job_id"] 200 get_preview_job_endpoint.
Definition preview_strategy_route : Route := mkRoute POST [Literal "preview"] 202 preview_strategy_endpoint.
Definition save_confirmed_strategy_route : Route := mkRoute POST [Literal "confirmed"] 201 save_confirmed_strategy_endpoint.
Definition create_strategy_route : Route := mkRoute POST [] 201 create_strategy_endpoint.
Definition list_strategies_route : Route := mkRoute GET [] 200 list_strategies_endpoint.
Definition get_strategy_route : Route := mkRoute GET [Param "strategy_id"] 200 get_strategy_endpoint.
Definition update_strategy_route : Route := mkRoute PATCH [Param "strategy_id"] 200 update_strategy_endpoint.
Definition delete_strategy_route : Route := mkRoute DELETE [Param "strategy_id"] 204 delete_strategy_endpoint.

Definition health_router : list Route := [health_route; ready_route].
Definition auth_router : list Route := with_prefix [Literal "auth"] [auth_me_route].
Definition jobs_router : list Route := with_prefix [Literal "jobs"] [get_preview_job_route].
Definition strategies_router : list Route :=
  with_prefix [Literal "strategies"]
    [preview_strategy_route; save_confirmed_strategy_route; create_strategy_route; list_strategies_route;
     get_strategy_route; update_strategy_route; delete_strategy_route].

(** [include_router], in order. *)
Definition api_router : list Route := health_router ++ auth_router ++ jobs_router ++ strategies_router.

(** ** [create_app] *)
Record CorsOptions : Type := mkCors {
  co_allow_origins : list string; co_allow_credentials : bool; co_allow_methods : list string; co_allow_headers : list string }.

Record Application : Type := mkApplication {
  app_title : string; app_version : string; app_cors : CorsOptions; app_routes : list Route; app_logging : RootLogger }.

(** [cors_origins] are the texts of the configured origins, [root] the logger
    that [configure_logging] rewires. *)
Definition create_app (app_name : string) (settings : Settings) (cors_origins : list string) (root : RootLogger) : Application :=
  mkApplication app_name "0.1.0" (mkCors (allow_origins cors_origins) false cors_methods cors_headers) api_router
    (configure_logging (log_level settings) root).

(** ** Finding a route *)

(** A path parameter is one nonempty segment. *)
Fixpoint match_path (template : list Segment) (path : list string) : option (list string) :=
  match template, path with
  | [], [] => Some []
  | Literal text :: template, s :: path => if String.eqb text s then match_path template path else None
  | Param _ :: template, s :: path =>
      if String.eqb s EmptyString then None else params ← match_path template path; Some (s :: params)
  | _, _ => None
  end.

Definition serves (r : Route) (method : Method) (path : list string) : Prop :=
  rt_method r = method ∧ is_Some (match_path (rt_path r) path).

(** FastAPI's search, and what it documents: it returns a route that serves the
    request, with its parameters, whenever there is one. *)
Class Routing : Type := mkRouting { dispatch : list Route → Method → list string → option (Route * list string) }.

Class RoutingLaws (R : Routing) : Prop := mkRoutingLaws {
  dispatch_sound routes method path r params :
    dispatch routes method path = Some (r, params) →
    r ∈ routes ∧ rt_method r = method ∧ match_path (rt_path r) path = Some params;
  dispatch_complete routes method path r :
    r ∈ routes → serves r method path → is_Some (dispatch routes method path) }.

(** The first route, in order. *)
Fixpoint first_route (routes : list Route) (method : Method) (path : list string) : option (Route * list string) :=
  match routes with
  | [] => None
  | r :: routes =>
      if decide (rt_method r = method)
      then match match_path (rt_path r) path with Some params => Some (r, params) | None => first_route routes method path end
      else first_route routes method path
  end.

#[local] Instance in_order : Routing := {| dispatch := first_route |}.

#[local] Instance in_order_laws : RoutingLaws in_order.
Proof.
  constructor; cbn [dispatch in_order].
  - intros routes method path r params. induction routes as [|r0 routes IH]; cbn [first_route]; [done|].
    destruct (decide _) as [Hm|]; [destruct (match_path (rt_path r0) path) as [params0|] eqn:E|].
    + intros H. injection H as <- <-. split_and!; [by left|done|done].
    + intros H. destruct (IH H) as (? & ? & ?). split_and!; [by right|done|done].
    + intros H. destruct (IH H) as (? & ? & ?). split_and!; [by right|done|done].
  - intros routes method path r Hin [Hm [params Hp]]. induction routes as [|r0 routes IH]; [by apply not_elem_of_nil in Hin|].
    cbn [first_route]. apply elem_of_cons in Hin as [->|Hin].
    + rewrite decide_True by done. rewrite Hp. by eexists.
    + destruct (decide _); [|by apply IH]. destruct (match_path (rt_path r0) path); [by eexists|by apply IH].
Qed.

(** ** Serving a request *)

(** A body as it arrives: none; one that is not declared as JSON, which FastAPI
    hands on as bytes; declared as JSON and decoded, malformed, or not readable
    as text. *)
Inductive RequestBody : Type :=
  | NoBody
  | OtherBody
  | JsonBody (document : json)
  | MalformedBody
  | UnreadableBody.

Record Request : Type := mkRequest {
  rq_method : Method;
  rq_path : list string;
  (* the bearer token, if there is one *)
  rq_token : option string;
  rq_body : RequestBody }.

(** [StrategyResponse.model_validate(strategy)]: the owner is left out. *)
Record StrategyResponse : Type := mkStrategyResponse {
  sr_id : Z;
  sr_name : string;
  sr_source_text : string;
  sr_strategy_json : option json;
  sr_created_at : datetime;
  sr_updated_at : datetime }.

Definition strategy_response (s : Strategy) : StrategyResponse :=
  mkStrategyResponse (st_id s) (st_name s) (st_source_text s) (st_strategy_json s) (st_created_at s) (st_updated_at s).

Inductive Body : Type :=
  | StatusBody (status : string)
  | UserBody (user : AuthenticatedUser)
  | JobBody (job : PreviewJobResponse)
  | EnqueuedBody (response : PreviewEnqueueResponse)
  | StrategiesBody (strategies : list StrategyResponse)
  | Detail (detail : string)
  | Unspecified.

Record Response : Type := mkResponse { rs_status : Z; rs_body : Body }.

(** The two kinds of state behind the handlers. *)
Record App : Type := mkApp { ap_strategies : Store StrategyTable; ap_world : World }.

Definition AppHandler : Type := App → result Body * App.

Definition answer (r : result Body) : AppHandler := λ a, (r, a).
Definition on_strategies {A} (m : SDB A) (show : A → Body) : AppHandler := λ a,
  let '(r, s) := m (ap_strategies a) in (show <$> r, mkApp s (ap_world a)).
Definition on_jobs {A} (m : IO A) (show : A → Body) : AppHandler := λ a,
  let '(r, w) := m (ap_world a) in (show <$> r, mkApp (ap_strategies a) w).

(** FastAPI's answer to a request that does not validate. *)
Definition request_invalid : exn := OtherException "RequestValidationError".

Definition validated_request {A} (r : result A) (k : A → AppHandler) : AppHandler :=
  match r with Ok x => k x | Err _ => answer (Err request_invalid) end.

Definition body_unreadable : exn := HTTPException 400 "There was an error parsing the body".

(** The routes whose signature has a body. *)
Definition reads_body (e : Endpoint) : bool :=
  match e with
  | preview_strategy_endpoint | save_confirmed_strategy_endpoint | create_strategy_endpoint | update_strategy_endpoint => true
  | _ => false
  end.

(** What FastAPI decodes before it resolves the route's dependencies; bytes
    validate as no model. *)
Definition decode_body (e : Endpoint) (body : RequestBody) : result (option json) :=
  if reads_body e then
    match body with
    | NoBody | OtherBody => Ok None
    | JsonBody document => Ok (Some document)
    | MalformedBody => Err request_invalid
    | UnreadableBody => Err body_unreadable
    end
  else Ok None.

(** The response to an exception. *)
Definition error_response (e : exn) : Response :=
  match e with
  | HTTPException status detail => mkResponse status (Detail detail)
  | _ => if decide (e = request_invalid) then mkResponse 422 Unspecified else mkResponse 500 Unspecified
  end.

(** The routes whose signature has no [CurrentUser]. *)
Definition public (e : Endpoint) : bool :=
  match e with health_endpoint | ready_endpoint => true | _ => false end.

Section application.
Context {P : Pydantic} {R : Routing}.
Context (strip_whitespace : string → string) (parse_uuid : string → option UUID).
Context (http_get : string → list (string * string) → result HttpResponse) (client : SupabaseAuthClient).
Context (services : Services) (lock_wait ttl_hours : Z).
(** What the server draws for the request. *)
Context (new_id : UUID) (now : datetime).

(** The path parameter of a route that declares one UUID. *)
Definition path_id (params : list string) : result UUID :=
  match params with
  | [text] => match parse_uuid text with Some id => Ok id | None => Err ValidationError end
  | _ => Err ValidationError
  end.

Definition body_fields (body : option json) : result (list (string * json)) :=
  match body with Some (JObj fields) => Ok fields | _ => Err ValidationError end.

Definition body_json (body : option json) : result json :=
  match body with Some v => Ok v | None => Err ValidationError end.

(** A strategy route's parameters. *)
Definition strategy_request (e : Endpoint) (params : list string) (body : option json) : result StrategyRequest :=
  match e with
  | create_strategy_endpoint => fields ← body_fields body; p ← validate_create strip_whitespace fields; Ok (Create new_id now p)
  | save_confirmed_strategy_endpoint => v ← body_json body; p ← validate_confirmed strip_whitespace v; Ok (Confirm new_id now p)
  | get_strategy_endpoint => id ← path_id params; Ok (Get id)
  | update_strategy_endpoint =>
      id ← path_id params; fields ← body_fields body; p ← validate_update strip_whitespace fields; Ok (Update now id p)
  | delete_strategy_endpoint => id ← path_id params; Ok (StrategyApi.Delete id)
  | _ => Ok ListOwn
  end.

(** The route's function, for an authenticated user. *)
Definition protected (user : AuthenticatedUser) (e : Endpoint) (params : list string) (body : option json) : AppHandler :=
  match e with
  | auth_me_endpoint => answer (Ok (UserBody (auth_me user)))
  | get_preview_job_endpoint =>
      validated_request (path_id params) (λ id, on_jobs (get_preview_job id (au_id user)) JobBody)
  | preview_strategy_endpoint =>
      validated_request (v ← body_json body; validate_preview_request strip_whitespace v)
        (λ text, on_jobs (preview_strategy lock_wait ttl_hours new_id (au_id user) text) EnqueuedBody)
  | _ => validated_request (strategy_request e params body)
           (λ r, on_strategies (handle (au_id user) r) (λ l, StrategiesBody (strategy_response <$> l)))
  end.

Definition endpoint (e : Endpoint) (params : list string) (token : option string) (body : option json) : AppHandler :=
  match e with
  | health_endpoint => answer (Ok (StatusBody health))
  | ready_endpoint => answer (StatusBody <$> (Operations.ready services).1)
  | _ => match get_current_user parse_uuid http_get token client with
         | Ok user => protected user e params body
         | Err e => answer (Err e)
         end
  end.

(** A request; [None] when no route serves it (FastAPI's own 404 or 405). *)
Definition serve (rq : Request) (a : App) : option Response * App :=
  match dispatch api_router (rq_method rq) (rq_path rq) with
  | None => (None, a)
  | Some (r, params) =>
      match decode_body (rt_endpoint r) (rq_body rq) with
      | Err e => (Some (error_response e), a)
      | Ok document =>
          match endpoint (rt_endpoint r) params (rq_token rq) document a with
          | (Ok body, a') => (Some (mkResponse (rt_status r) body), a')
          | (Err e, a') => (Some (error_response e), a')
          end
      end
  end.
End application.

(** ** Lemmas: the routes *)

(** Some path fits both templates. *)
Fixpoint overlap (t1 t2 : list Segment) : bool :=
  match t1, t2 with
  | [], [] => true
  | Literal s1 :: t1, Literal s2 :: t2 => String.eqb s1 s2 && overlap t1 t2
  | Literal s :: t1, Param _ :: t2 | Param _ :: t1, Literal s :: t2 => negb (String.eqb s EmptyString) && overlap t1 t2
  | Param _ :: t1, Param _ :: t2 => overlap t1 t2
  | _, _ => false
  end.

Lemma match_path_literal text template path :
  is_Some (match_path (Literal text :: template) path) → ∃ rest, path = text :: rest ∧ is_Some (match_path template rest).
Proof.
  destruct path as [|s rest]; [by intros []|]. cbn [match_path]. destruct (String.eqb_spec text s) as [->|]; [|by intros []]. eauto.
Qed.

Lemma match_path_param name template path :
  is_Some (match_path (Param name :: template) path) →
  ∃ s rest, path = s :: rest ∧ String.eqb s EmptyString = false ∧ is_Some (match_path template rest).
Proof.
  destruct path as [|s rest]; [by intros []|]. cbn [match_path]. destruct (String.eqb s EmptyString) eqn:E; [by intros []|].
  intros [params H]. exists s, rest. split_and!; [done|done|]. destruct (match_path template rest); [by eexists|done].
Qed.

Lemma match_path_overlap t1 t2 path : is_Some (match_path t1 path) → is_Some (match_path t2 path) → overlap t1 t2 = true.
Proof.
  revert t2 path. induction t1 as [|[s1|n1] t1 IH]; intros [|[s2|n2] t2] path H1 H2; try done.
  - destruct path; [by apply match_path_literal in H2 as (? & ? & _)|by destruct H1].
  - destruct path; [by apply match_path_param in H2 as (? & ? & ? & _)|by destruct H1].
  - destruct path; [by apply match_path_literal in H1 as (? & ? & _)|by destruct H2].
  - apply match_path_literal in H1 as (rest & -> & H1). apply match_path_literal in H2 as (rest2 & [= -> ->] & H2).
    cbn [overlap]. rewrite String.eqb_refl. by eapply IH.
  - apply match_path_literal in H1 as (rest & -> & H1). apply match_path_param in H2 as (s & rest2 & [= <- <-] & Hs & H2).
    cbn [overlap]. rewrite Hs. by eapply IH.
  - destruct path; [by apply match_path_param in H1 as (? & ? & ? & _)|by destruct H2].
  - apply match_path_param in H1 as (s & rest & -> & Hs & H1). apply match_path_literal in H2 as (rest2 & [= -> ->] & H2).
    cbn [overlap]. rewrite Hs. by eapply IH.
  - apply match_path_param in H1 as (s & rest & -> & Hs & H1). apply match_path_param in H2 as (s2 & rest2 & [= <- <-] & _ & H2).
    cbn [overlap]. by eapply IH.
Qed.

(** No two routes can serve one request, so the order of registration is free. *)
Lemma routes_unambiguous r1 r2 method path :
  r1 ∈ api_router → r2 ∈ api_router → serves r1 method path → serves r2 method path → r1 = r2.
Proof.
  intros H1 H2 [Hm1 Hp1] [Hm2 Hp2].
  assert (forallb (λ r1, forallb (λ r2, bool_decide (r1 = r2) ||
    negb (bool_decide (rt_method r1 = rt_method r2) && overlap (rt_path r1) (rt_path r2))) api_router) api_router = true) as Hall
    by (vm_compute; reflexivity).
  rewrite List.forallb_forall in Hall. specialize (Hall r1 (proj1 (list_elem_of_In _ _) H1)).
  rewrite List.forallb_forall in Hall. specialize (Hall r2 (proj1 (list_elem_of_In _ _) H2)).
  apply orb_true_iff in Hall as [Heq|Hno]; [by apply bool_decide_eq_true in Heq|].
  rewrite (match_path_overlap _ _ _ Hp1 Hp2), bool_decide_eq_true_2 in Hno by congruence. done.
Qed.

(** ** Lemmas: the handlers *)

(** A poll answers with a row of the user, whatever other sessions do. *)
Lemma get_preview_job_owner `{P : Pydantic} id user w response :
  (get_preview_job id user w).1 = Ok response → ∃ j, pj_user_id j = user ∧ job_response j = Ok response.
Proof.
  unfold get_preview_job, get_job, io_bind, db.
  destruct (ev_others (next_event w) (w_jobs w) !! id) as [j|]; [destruct (decide (pj_user_id j = user)) as [Hu|]|];
    destruct (ev_fault (next_event w)) as [[e []]|]; cbn; try done; intros H; by exists j.
Qed.

(** What the response of a handler may hold for a user. *)
Definition own_body `{P : Pydantic} (user : UUID) (body : Body) : Prop :=
  match body with
  | StrategiesBody l => Forall (λ sr, ∃ s, st_user_id s = user ∧ sr = strategy_response s) l
  | JobBody response => ∃ j, pj_user_id j = user ∧ job_response j = Ok response
  | UserBody u => au_id u = user
  | _ => True
  end.

(** From [a] to [a'] the strategies of others are untouched. *)
Definition isolated_run `{P : Pydantic} (user : UUID) (a : App) (r : result Body) (a' : App) : Prop :=
  others user (st_table (ap_strategies a')) = others user (st_table (ap_strategies a)) ∧
  ∀ body, r = Ok body → own_body user body.

Section handlers.
Context {P : Pydantic}.

Lemma isolated_answer user r a : (∀ body, r = Ok body → own_body user body) → isolated_run user a (answer r a).1 (answer r a).2.
Proof. by split. Qed.

Lemma isolated_on_jobs {A} user (m : IO A) show a :
  (∀ x, (m (ap_world a)).1 = Ok x → own_body user (show x)) →
  isolated_run user a (on_jobs m show a).1 (on_jobs m show a).2.
Proof.
  intros Hm. unfold on_jobs. destruct (m (ap_world a)) as [r w]. split; [done|]. intros body H.
  destruct r as [x|]; [|done]. injection H as <-. by apply Hm.
Qed.

Lemma isolated_on_strategies user r a :
  request_ok r (st_table (ap_strategies a)) →
  let h := on_strategies (handle user r) (λ l, StrategiesBody (strategy_response <$> l)) a in isolated_run user a h.1 h.2.
Proof.
  intros Hok. cbv zeta. unfold on_strategies. destruct (ap_strategies a) as [t faults] eqn:Ea. cbn [st_table] in Hok.
  destruct (isolated_handle user r t faults Hok) as (_ & _ & _ & Ho & _ & Hown).
  destruct (handle user r (mkStore t faults)) as [res s]. cbn [fst snd ap_strategies] in *. split; [rewrite Ea; exact Ho|].
  intros body H. destruct res as [l|]; [|done]. injection H as <-. cbn. apply Forall_fmap.
  eapply Forall_impl; [by apply Hown|]. intros s' Hs'. by exists s'.
Qed.
End handlers.

Lemma strategy_request_ok `{P : Pydantic} strip_whitespace parse_uuid new_id now e params body r (t : StrategyTable) :
  keyed t → t !! new_id = None → strategy_request strip_whitespace parse_uuid new_id now e params body = Ok r → request_ok r t.
Proof.
  intros Hk Hn. unfold strategy_request.
  destruct e; intros H; repeat (apply bind_Ok_inv in H as (? & _ & H)); injection H as <-; by split.
Qed.

Lemma protected_isolated `{P : Pydantic} strip_whitespace parse_uuid lock_wait ttl_hours new_id now user e params body a :
  keyed (st_table (ap_strategies a)) → st_table (ap_strategies a) !! new_id = None →
  let h := protected strip_whitespace parse_uuid lock_wait ttl_hours new_id now user e params body a in
  isolated_run (au_id user) a h.1 h.2.
Proof.
  intros Hk Hn. cbv zeta.
  assert (isolated_run (au_id user) a
    (validated_request (strategy_request strip_whitespace parse_uuid new_id now e params body)
       (λ r, on_strategies (handle (au_id user) r) (λ l, StrategiesBody (strategy_response <$> l))) a).1
    (validated_request (strategy_request strip_whitespace parse_uuid new_id now e params body)
       (λ r, on_strategies (handle (au_id user) r) (λ l, StrategiesBody (strategy_response <$> l))) a).2) as Hs.
  { destruct (strategy_request _ _ _ _ _ _ _) as [r|] eqn:E; cbn [validated_request]; [|by apply isolated_answer].
    apply isolated_on_strategies. by eapply strategy_request_ok. }
  destruct e; try exact Hs; cbn [protected].
  - apply isolated_answer. by intros body' [= <-].
  - destruct (path_id _ _) as [id|]; cbn [validated_request]; [|by apply isolated_answer].
    apply isolated_on_jobs. intros response H. by eapply get_preview_job_owner.
  - destruct (_ ≫= _) as [text|]; cbn [validated_request]; [|by apply isolated_answer]. by apply isolated_on_jobs.
Qed.

(** How a route answers: the public ones without effect, the others only for a
    user Supabase vouches for.  A body that does not decode is refused before
    anyone asks who sent it, also without effect. *)
Definition answers `{P : Pydantic} parse_uuid http_get client (rq : Request) (r : Route) (a : App)
    (response : Response) (a' : App) : Prop :=
  if public (rt_endpoint r) then a' = a
  else match reads_body (rt_endpoint r), rq_body rq with
       | true, MalformedBody => a' = a ∧ rs_status response = 422
       | true, UnreadableBody => a' = a ∧ rs_status response = 400
       | _, _ =>
           match get_current_user parse_uuid http_get (rq_token rq) client with
           | Err _ => a' = a ∧
               (rs_status response = 401 ∨ rs_status response = 503 ∨
                (rs_status response = 500 ∧ ∃ text, rq_token rq = Some text ∧ encodable client text = false))
           | Ok user =>
               (∃ text, rq_token rq = Some text ∧ vouched parse_uuid http_get client text user) ∧
               others (au_id user) (st_table (ap_strategies a')) = others (au_id user) (st_table (ap_strategies a)) ∧
               own_body (au_id user) (rs_body response)
           end
       end.

Lemma decoded_cases e body document :
  decode_body e body = Ok document →
  ∀ x y z : Prop, z → match reads_body e, body with true, MalformedBody => x | true, UnreadableBody => y | _, _ => z end.
Proof. unfold decode_body. intros H x y z Hz. destruct (reads_body e); [|done]. by destruct body. Qed.

Lemma endpoint_answers `{P : Pydantic} strip_whitespace parse_uuid http_get client services lock_wait ttl_hours new_id now
    (r : Route) params rq document a :
  well_behaved http_get client → decode_body (rt_endpoint r) (rq_body rq) = Ok document → keyed (st_table (ap_strategies a)) → st_table (ap_strategies a) !! new_id = None →
  let h := endpoint strip_whitespace parse_uuid http_get client services lock_wait ttl_hours new_id now (rt_endpoint r) params (rq_token rq) document a in
  answers parse_uuid http_get client rq r a
    match h.1 with Ok body => mkResponse (rt_status r) body | Err e => error_response e end h.2.
Proof.
  intros Hwb Hdoc Hk Hn. cbv zeta. unfold answers.
  unfold endpoint. pose proof (get_current_user_outcome parse_uuid http_get (rq_token rq) client Hwb) as Hauth.
  destruct (public (rt_endpoint r)) eqn:Hpub; [by destruct (rt_endpoint r)|].
  apply (decoded_cases _ _ _ Hdoc).
  assert (∀ user, isolated_run (au_id user) a
    (protected strip_whitespace parse_uuid lock_wait ttl_hours new_id now user (rt_endpoint r) params document a).1
    (protected strip_whitespace parse_uuid lock_wait ttl_hours new_id now user (rt_endpoint r) params document a).2) as Hiso
    by (intros; by apply protected_isolated).
  destruct (rt_endpoint r); try discriminate Hpub;
    (destruct (get_current_user _ _ _ _) as [user|e];
     [destruct (Hiso user) as [Ho Hown]; split; [exact Hauth|]; split; [exact Ho|];
      destruct (protected _ _ _ _ _ _ _ _ _ _ _) as [[b|e] a']; cbn [fst snd rs_body] in *; [by apply Hown|];
      unfold error_response; destruct e; try exact I; by destruct (decide _)
     |split; [done|]; destruct Hauth as [[-> _]|[[-> _]|[-> Henc]]]; [by left|by right; left|right; right; split; [done|];
      destruct Henc as (text & -> & ?); eauto]]).
Qed.

Lemma undecoded_answers `{P : Pydantic} parse_uuid http_get client rq r e a :
  decode_body (rt_endpoint r) (rq_body rq) = Err e → answers parse_uuid http_get client rq r a (error_response e) a.
Proof.
  unfold decode_body, answers. intros H. destruct (public (rt_endpoint r)) eqn:Hp; [done|].
  destruct (reads_body (rt_endpoint r)) eqn:Hb; [|discriminate H].
  destruct (rq_body rq) eqn:E; try discriminate H; by injection H as <-.
Qed.

(** ** The theorem *)

(** C19: The boundary of the application: every request is served by the only
    route that fits it, or by none and without effect; only the liveness and
    readiness routes are served without a user, and change nothing; every
    other route refuses a body that does not decode with 422 or 400, before it
    asks who sent it, and answers any other request 401 or 503 (500 when the
    token cannot be sent on as a header), whatever its path and body hold,
    unless Supabase vouches for the request's token, and all of these change
    nothing; and for the user it vouches for, no strategy of another user
    changes, and the strategies and the job in the response are that user's. *)
Theorem api_boundary `{P : Pydantic} `{L : RoutingLaws} strip_whitespace parse_uuid http_get client services lock_wait ttl_hours
    new_id now (rq : Request) (a : App) :
  well_behaved http_get client → keyed (st_table (ap_strategies a)) → st_table (ap_strategies a) !! new_id = None →
  let '(response, a') := serve strip_whitespace parse_uuid http_get client services lock_wait ttl_hours new_id now rq a in
  match response with
  | None => a' = a ∧ ∀ r, r ∈ api_router → ¬ serves r (rq_method rq) (rq_path rq)
  | Some response =>
      ∃ r, r ∈ api_router ∧ serves r (rq_method rq) (rq_path rq) ∧
        (∀ r', r' ∈ api_router → serves r' (rq_method rq) (rq_path rq) → r' = r) ∧
        answers parse_uuid http_get client rq r a response a'
  end.
Proof.
  intros Hwb Hk Hn. unfold serve. destruct (dispatch _ _ _) as [[r params]|] eqn:Hd.
  2:{ split; [done|]. intros r Hin Hs. destruct (dispatch_complete api_router _ _ r Hin Hs) as [x Hx]. congruence. }
  destruct (dispatch_sound _ _ _ _ _ Hd) as (Hin & Hm & Hp).
  assert (serves r (rq_method rq) (rq_path rq)) as Hs by (by split; [|eexists]).
  destruct (decode_body (rt_endpoint r) (rq_body rq)) as [document|e] eqn:Hdoc.
  2:{ exists r. split_and!; [done|done|intros; by eapply routes_unambiguous|by apply undecoded_answers]. }
  pose proof (endpoint_answers strip_whitespace parse_uuid http_get client services lock_wait ttl_hours new_id now r params
    rq document a Hwb Hdoc Hk Hn) as Hans. cbv zeta in Hans.
  destruct (endpoint _ _ _ _ _ _ _ _ _ _ _ _ _ a) as [[body|e] a']; cbn [fst snd] in Hans;
    (exists r; split_and!; [done|done|intros; by eapply routes_unambiguous|exact Hans]).
Qed.

(** Two users' strategies, and a request by the first for the list. *)
Definition sample_app : App := mkApp (mkStore sample_strategies []) (quiet_world ∅ []).
Definition list_request (token : option string) : Request := mkRequest GET ["strategies"%string] token NoBody.

(** Nobody's malformed request is refused before it is authenticated. *)
Example malformed_body_first :
  rs_status <$> (serve (P := exact_pydantic) (R := in_order) id sample_uuid sample_get sample_client (λ _, Ok ()) 5 24 9 0
    (mkRequest POST ["strategies"%string] None MalformedBody) sample_app).1 = Some 422.
Proof. vm_compute. reflexivity. Qed.

Lemma api_boundary_witness :
  let send token := serve (P := exact_pydantic) (R := in_order) id sample_uuid sample_get sample_client (λ _, Ok ()) 5 24 9 0
                      (list_request token) sample_app in
  rs_status <$> (send None).1 = Some 401 ∧
  rs_body <$> (send (Some "good"%string)).1 = Some (StrategiesBody [strategy_response (sample_strategy 1 7)]) ∧
  match (send (Some "good"%string)).1 with
  | None => False
  | Some response => ∃ r, r ∈ api_router ∧ serves r GET ["strategies"%string] ∧
      answers (P := exact_pydantic) sample_uuid sample_get sample_client (list_request (Some "good"%string)) r sample_app response
        (send (Some "good"%string)).2
  end.
Proof.
  cbv zeta. split; [vm_compute; reflexivity|]. split; [vm_compute; reflexivity|].
  pose proof sample_get_well_behaved as Hwb.
  assert (keyed (st_table (ap_strategies sample_app))) as Hk.
  { intros k s H. cbn in H. unfold sample_strategies in H. apply lookup_insert_Some in H as [[<- <-]|[_ H]]; [done|].
    apply lookup_insert_Some in H as [[<- <-]|[_ H]]; [done|by rewrite lookup_empty in H]. }
  pose proof (api_boundary (P := exact_pydantic) (R := in_order) (L := in_order_laws) id sample_uuid sample_get sample_client (λ _, Ok ()) 5 24 9 0
    (list_request (Some "good"%string)) sample_app Hwb Hk eq_refl) as H.
  destruct (serve _ _ _ _ _ _ _ _ _ _ _) as [[response|] a'] eqn:E; [|vm_compute in E; discriminate E].
  destruct H as (r & Hin & Hs & _ & Ha). exists r. done.
Defined.
